(* ===== verification/_CoqProject ===== *)
-Q . S2P
Prelude.v
Str.v
StrFacts.v
External.v
F64.v
Text.v
Syslog.v
Structured.v
StructuredFacts.v
Sink.v
Format.v
FormatFacts.v
SinkFacts.v
Tailed.v
TailedFacts.v
Multiline.v
MultilineFacts.v
Watcher.v
WatcherFacts.v
MemoryFacts.v
OffsetFacts.v
SessionFacts.v
MlSessionFacts.v
RestartFacts.v
DrainFacts.v
EpisodeFacts.v
CrashFacts.v
MlRestartFacts.v
Source.v
Journal.v
JournalFacts.v
Unified.v
UnifiedFacts.v
EventFilter.v
Config.v
RemoteConfig.v
Derived.v
Collectors.v
CollectorsFacts.v
DiskSpace.v
DiskSpaceFacts.v
Examples.v
TailProps.v
RestartProps.v
CrashProps.v
RotationProps.v
LogProps.v
JournalProps.v
UnifiedProps.v
AgentProps.v
MetricProps.v
EventXml.v
EventXmlFacts.v
EventLog.v
EventLogFacts.v
EventPlaceFacts.v
EventHandles.v
EventExamples.v
EventProps.v
Cgroups.v
Process.v
HostProps.v
Agent.v
Lifecycle.v
LifecycleFacts.v
LifecycleProps.v
Hosted.v
HostedProps.v
RunProps.v
Host.v
Setup.v
SetupFacts.v
Install.v
WindowsService.v
InstallTextFacts.v
ScmFacts.v
InstallExamples.v
InstallProps.v
MacMetrics.v
MacProps.v
