(* ===== verification/Prelude.v ===== *)
(** * Witness: a verified model of the host agent

    Witness is an agent that ships the log lines and metrics of a host to a
    collector. Log sources (files, journald, the macOS unified log, the Windows
    event log) read lines, classify them and offer them to a bounded channel of
    the Tell SDK; metric collectors read kernel text on a timer and emit gauges
    and counters; a poller fetches the configuration and replaces it, which
    reloads the agent; installers register it as a service. The agent is
    at-least-once: an offset, cursor, checkpoint or bookmark advances only past
    what the channel took.

    ** Modelling

    Pure functions are Rocq functions with the source's names; state is a record
    passed explicitly; errors are [option], sums or the results of the source;
    loops that are not structural take fuel, with a theorem that the fuel given
    is enough ([line_loop_total], [ml_loop_total], [logfmt_loop_enough],
    [scan_loop_tokens], [xml_loop_total]) so that no statement depends on it. Strings are byte
    lists; UTF-8 validity, lossy decoding and character boundaries are written
    out in [Str]. Machine integers are [N] with their wrap-around explicit
    ([wrap64], [wrap32]) where the source can overflow; floats are binary64 by
    the Standard Library's [SpecFloat]. The operating system is what it answers:
    a record of answers ([Watcher.Os], [Source.CheckpointIo]) that every theorem
    quantifies over, or, for the commands that change the host, a state-and-error
    monad over a system that may fail at every call ([Host.Eff]). Iteration orders
    of hash maps are arguments. Crates are
    classes in [External] (JSON, TOML, regular expressions, globs, memchr, simd
    UTF-8) with the laws used of them as separate classes; the SDK channel is
    [Sink.TellClient]; each has a concrete instance, used by the examples.

    ** Files

    - [Prelude], [Str], [StrFacts]: bytes, notations, automation; the string
      functions of the language used by the source. [External]: the crates.
      [F64]: floats, and why a part is at most a hundred percent of its whole in
      them.
    - [Text], [Syslog], [Structured], [StructuredFacts]: [logs/text.rs],
      [logs/syslog.rs], [logs/structured.rs]: reading lines, the syslog envelope,
      JSON, logfmt and severities.
    - [Sink], [SinkFacts]: [sink.rs]. [Sink.LogSink] is the interface log sources
      are written against, [Sink.LogSinkOk] its laws; the real sink is shown to
      satisfy them. [Format], [FormatFacts]: the text a dry run prints, with the
      decimal rendering of floats.
    - [Tailed], [Multiline], [Watcher]: [logs/watcher.rs] and
      [logs/multiline.rs]: one tailed file in single-line mode, record
      aggregation, and the table of files with registration, rotation,
      persistence and the event loop ([Watcher.tail_step] on [Watcher.Event]).
      [TailedFacts], [MultilineFacts], [WatcherFacts], [MemoryFacts],
      [OffsetFacts], [SessionFacts], [MlSessionFacts]: their lemmas; the
      specification of a tailed file is the content alone
      ([TailedFacts.ideal_entries], [MlSessionFacts.ml_ideal]) and the sessions
      refine it.
    - [RestartFacts], [DrainFacts], [MlRestartFacts], [EpisodeFacts],
      [CrashFacts]: many files, the event loop and the state file over lifetimes
      of the tailer. The table of files is proved for any mode of reading
      ([RestartFacts.FileMode] and, for what a stop drains,
      [DrainFacts.DrainMode], each with an instance for single lines and one for
      records); every entry of the traces is tagged with the tracked file it is of
      ([RestartFacts.of_tracked]), and the places the traces are cut at are those
      of the offsets; a lifetime, stopped or killed, is an episode
      ([EpisodeFacts.episode]), and episodes chain through the state file.
    - [Source], [Journal], [JournalFacts], [Unified], [UnifiedFacts]:
      [logs/source.rs], [logs/journal.rs], [logs/unified.rs],
      [logs/unified_parse.rs]; a subprocess is the sequence of events its reader
      meets.
    - [EventXml], [EventXmlFacts], [EventLog], [EventLogFacts], [EventPlaceFacts]:
      [logs/eventlog_parse.rs] over the tokens of the XML reader, and
      [logs/eventlog.rs]: rendering, bookmarks, the pull and restart loops; the
      place of a bookmark in the log is the specification they refine.
      [EventHandles]: the handles a pump opens and closes, as a trace.
    - [EventFilter], [Config], [RemoteConfig]: [logs/eventlog_filter.rs],
      [config.rs], [remote_config.rs] and [curl.rs].
    - [Derived], [Collectors], [CollectorsFacts], [DiskSpace], [DiskSpaceFacts]:
      [metrics/derived.rs], the Linux load, memory, TCP, CPU, network and disk
      collectors, and [metrics/disk_space.rs], whose threads are steps of an
      interleaving.
    - [Cgroups], [Process]: [metrics/linux/cgroups.rs], [container.rs] and
      [process.rs] over what the cgroup and process trees answer. [MacMetrics]:
      the collectors of [metrics/macos/].
    - [Agent]: [main.rs] and the collector registries: command dispatch, choice of
      the log source, the collection task, signals, the reports of a dry run.
      [Lifecycle], [LifecycleFacts]: [run], [agent_loop] and [dry_run] of
      [main.rs]: a run is a step function over the events of its concurrent tasks
      (main, collection, log source, poller), in any order the scheduler picks.
      [Hosted]: a run, with its other tasks at work, is a sink for its log source
      ([Hosted.hosted_log_sink_ok]), so that the theorems on sources hold in it.
    - [Host], [Setup], [SetupFacts], [Install], [WindowsService]: [setup.rs], the
      three flows of [install/] and the service host [service_windows.rs]
      ([WindowsService.ServiceHost], a step function over controls, waits and
      reloads). [InstallTextFacts]: property lists and command lines read back;
      [ScmFacts]: the service manager by its documented behaviour.
    - [Examples], [EventExamples], [InstallExamples]: concrete instances and
      systems. [TailProps], [RestartProps], [CrashProps], [RotationProps], [LogProps],
      [JournalProps], [UnifiedProps], [EventProps], [AgentProps], [RunProps],
      [LifecycleProps], [HostedProps], [MetricProps], [HostProps], [MacProps], [InstallProps]: the theorems of each part, each with
      a concrete application.

    ** What is shown

    Files: however a growing file is polled and whatever the channel refuses, the
    entries shipped are those of the complete lines (or closed records) before
    the offset, once and in order; an accepting channel catches up; rotation
    keeps both files, truncation restarts, draining reaches the end; offsets
    survive a restart, and over any number of graceful stops and starts nothing
    but the lines of the tracked files is shipped, those before the offset once
    and in order, and all of them when the last stop finds room for what is left;
    when the agent is killed every line is
    shipped at least once unless the state file was written in the middle of it,
    and in multiline mode every record without exception; the table stays
    coherent and memory bounded in every run.
    Journal and unified log: the cursor on disk is never ahead of what was
    shipped, a restart delivers every entry that can be delivered, a backfill ships exactly the rest.
    Event log: every event is taken over any number of lifetimes of the pump and
    those that can be rendered exactly once across a clean stop; the parser ends on every text and reads back
    every event document; text in UTF-16 is decoded; handles are closed. Agent: an
    invalid configuration never ends it and each run has the last valid one, a
    remote reload applies what was served, from a start to a shutdown, over every
    reload and interleaving, its clients are given the lines of its files once and
    in order, under every interleaving of its tasks
    a run closes the sink once and last, a shutdown completes, the source chosen
    can be read, counters are checkpointed once an hour. Installation: setup leaves a configuration the agent loads or an
    error, the installers replace nothing that is there without [--force], what launchd and
    Windows are told reads back as the binary and its arguments.
    Configuration: only validated bodies are written, a reload settles, accepted
    configurations are usable. Parsing: soundness, round trips, equivalence of
    the scans with their specifications. Metrics: bounds of percentages, exact
    counts and deltas, one thread per mount, discovery walks that find exactly the
    containers there are, state bounded by them, totals exact across the wrap of
    32-bit counters. Some theorems exhibit runs in which
    the code does less than its documentation says: text lost by a crash in the
    middle of a line, characters split between two reads, a checkpoint hidden by
    a rotated file, a panic on a header, wrapped durations, a checkpoint that
    moves back, a dry run that moves the cursor, a bookmark erased by a failed
    probe, a level lost in forwarded events, a stop control that is never heard, a
    reinstallation that removes the service, a valid configuration that ends the
    process, handles leaked by an interrupted batch, a line dropped at a stop, the
    rest of a rotated file given up after a read error, a share of a CPU above a
    hundred percent.

    ** Bounds of the theorems

    The session theorems ask that the file is served without read errors and that
    its unterminated last line, when read, is valid UTF-8 of at most
    [MAX_PARTIAL_BYTES]; the split-character theorem shows why the first is
    needed. Percentages of disk space are for finite counts, and the shares of a
    CPU, which are not clamped, for counters that do not go back. Waiting for room in
    the channel is a list of the worker's moves; the theorems ask that those do
    not add entries. The event log theorems ask that a subscription is given the
    events after its bookmark and that the size probe works; the walk of the
    podman slice has the depth of the code, and its fuel is that depth. A
    generated configuration is shown to load when its endpoint is printable and
    needs no escape. Commands may write any file; what the installers keep are the
    files that the commands they run leave alone. The
    theorems on lifetimes ask that files only grow, keep their identity, have
    paths the state file can hold and were checkpointed before, that the save at
    a stop succeeds, and that a save of a lifetime that is killed later takes
    effect as a whole or not at all. A lifetime is killed between two events; a
    kill inside a poll is one after a poll of fewer files, or of a channel that
    refuses from some line on. Within one event of the tailer the system gives the
    same answer to the same question ([Watcher.Os]). The poller that a run aborts
    is not awaited and may still finish a poll after the run ([Lifecycle]). A
    control of the Windows service manager and the wake-up it causes are one step
    ([WindowsService.ServiceHost.woken]). A shutdown completes in three steps of the
    main task once the others have returned: one per task it waits for and one
    for the close.

    ** Not modelled

    The asynchronous runtime, tracing set-up and the texts of log messages; the
    SDK behind its channel; the system calls themselves (Mach, libc, the Windows
    API), whose answers are inputs; the spawning of subprocesses, which are the
    events their readers meet; the test doubles. *)
From Stdlib Require Export NArith Lia Bool.
From Stdlib Require Import Strings.Byte Strings.String.
From stdpp Require Export base gmap list sorting strings.

#[global] Open Scope N_scope.
#[global] Set Default Goal Selector "!".

(** * Bytes and byte strings

    Rust's [u8] is the 256-constructor [byte], [&[u8]], [Vec<u8>], [&str] and
    [String] are [bytes]; a [str] is a byte string that is valid UTF-8. *)
Notation byte := Byte.byte.
Notation bytes := (list byte).

#[global] Instance byte_eq_decision : EqDecision byte := Byte.byte_eq_dec.

#[global] Program Instance byte_countable : Countable byte :=
  inj_countable Byte.to_N Byte.of_N _.
Next Obligation. intros x. apply Byte.of_to_N. Qed.

Declare Scope bytes_scope.
Delimit Scope bytes_scope with bytes.

(** [b#"text"] is the byte string of a Rust [b"text"] / ["text"] literal. *)
Notation "'b#' s" := (list_byte_of_string s%string) (at level 1, s at level 0).

Definition bN (b : byte) : N := Byte.to_N b.

Definition byte_of (n : N) : byte :=
  match Byte.of_N (n mod 256) with Some b => b | None => Byte.x00 end.

Definition in_range (lo hi : N) (b : byte) : bool := (lo <=? bN b) && (bN b <=? hi).

(** [usize] lengths are kept in [N]: the constants they are compared with are
    too large for unary numbers. *)
Definition len {A} (s : list A) : N := N.of_nat (length s).

Definition nl : byte := Byte.x0a.
Definition space : byte := Byte.x20.

(** * Machine integers *)

Definition u64_max : N := 18446744073709551615.
Definition u32_max : N := 4294967295.
Definition wrap64 (n : N) : N := n mod 18446744073709551616.
Definition wrap32 (n : N) : N := n mod 4294967296.

(** * Automation *)

Create HintDb witness.

(** Split every boolean comparison of [N] in sight into its arithmetic fact. *)
Ltac norm_bool :=
  repeat match goal with
  | H : _ && _ = true |- _ => apply andb_true_iff in H; destruct H
  | H : _ || _ = false |- _ => apply orb_false_iff in H; destruct H
  | H : negb _ = true |- _ => apply negb_true_iff in H
  | H : negb _ = false |- _ => apply negb_false_iff in H
  | H : (_ <=? _) = true |- _ => apply N.leb_le in H
  | H : (_ <=? _) = false |- _ => apply N.leb_gt in H
  | H : (_ <? _) = true |- _ => apply N.ltb_lt in H
  | H : (_ <? _) = false |- _ => apply N.ltb_ge in H
  | H : (_ =? _) = true |- _ => apply N.eqb_eq in H
  | H : (_ =? _) = false |- _ => apply N.eqb_neq in H
  | H : bool_decide _ = true |- _ => apply bool_decide_eq_true_1 in H
  | H : bool_decide _ = false |- _ => apply bool_decide_eq_false_1 in H
  end.

(** Case on the scrutinee of the innermost [if] or [match] of the goal. *)
Ltac case_if :=
  match goal with
  | |- context [if ?c then _ else _] => destruct c eqn:?
  end.

(** [len] arithmetic through the list operations, then [lia]. *)
Ltac len_lia :=
  unfold len in *; rewrite ?length_app, ?length_take, ?length_drop in *;
  cbn [length] in *; lia.

(** * Generic lemmas *)

Lemma len_app {A} (s t : list A) : len (s ++ t) = len s + len t.
Proof. len_lia. Qed.

Lemma len_nil {A} : len (@nil A) = 0.
Proof. done. Qed.

Lemma len_cons {A} (x : A) s : len (x :: s) = 1 + len s.
Proof. len_lia. Qed.

Lemma len_0_nil {A} (s : list A) : len s = 0 -> s = [].
Proof. destruct s; [done | rewrite len_cons; lia]. Qed.

Lemma to_nat_len {A} (s : list A) : N.to_nat (len s) = length s.
Proof. unfold len. lia. Qed.

Lemma drop_len_app {A} (s t : list A) : drop (N.to_nat (len s)) (s ++ t) = t.
Proof. rewrite to_nat_len. apply drop_app_length. Qed.

Lemma take_len_app {A} (s t : list A) : take (N.to_nat (len s)) (s ++ t) = s.
Proof. rewrite to_nat_len. apply take_app_length. Qed.

Lemma bN_lt_256 b : bN b < 256.
Proof. unfold bN. pose proof (Byte.to_N_bounded b). lia. Qed.

Lemma bN_inj a b : bN a = bN b -> a = b.
Proof.
  unfold bN. intros H. apply (f_equal Byte.of_N) in H.
  rewrite !Byte.of_to_N in H. congruence.
Qed.

Lemma byte_of_bN b : byte_of (bN b) = b.
Proof.
  unfold byte_of. rewrite N.mod_small by apply bN_lt_256.
  unfold bN. by rewrite Byte.of_to_N.
Qed.

Lemma bN_byte_of n : bN (byte_of n) = n mod 256.
Proof.
  unfold byte_of, bN. destruct (Byte.of_N (n mod 256)) as [b|] eqn:E.
  - by apply Byte.to_of_N in E.
  - apply Byte.of_N_None_iff in E. pose proof (N.mod_lt n 256). lia.
Qed.

Lemma wrap64_small n : n < 18446744073709551616 -> wrap64 n = n.
Proof. apply N.mod_small. Qed.

(** The last byte of a non-empty byte string ([buf.last()]). *)
Definition ends_with_nl (s : bytes) : bool :=
  match last s with Some c => bool_decide (c = nl) | None => false end.

Lemma ends_with_nl_snoc s c : ends_with_nl (s ++ [c]) = bool_decide (c = nl).
Proof. unfold ends_with_nl. by rewrite last_snoc. Qed.

Lemma ends_with_nl_not_elem s : nl ∉ s -> ends_with_nl s = false.
Proof.
  intros Hn. unfold ends_with_nl. destruct (last s) as [c|] eqn:E; [|done].
  case_bool_decide as Hc; [subst c | done].
  by apply last_Some_elem_of in E.
Qed.

(** [is_prefix_of p s]: [s.starts_with(p)]. *)
Fixpoint starts_with (p s : bytes) : bool :=
  match p, s with
  | [], _ => true
  | x :: p', y :: s' => bool_decide (x = y) && starts_with p' s'
  | _ :: _, [] => false
  end.

Lemma starts_with_spec p s : starts_with p s = true <-> exists r, s = p ++ r.
Proof.
  revert s. induction p as [|x p IH]; intros s; cbn.
  - split; [intros _; by exists s | done].
  - destruct s as [|y s].
    + split; [done | intros [r Hr]; done].
    + rewrite andb_true_iff, IH. rewrite bool_decide_eq_true.
      split.
      * intros [-> [r ->]]. by exists r.
      * intros [r Hr]. injection Hr as -> ->. eauto.
Qed.

Lemma starts_with_app p r : starts_with p (p ++ r) = true.
Proof. apply starts_with_spec. eauto. Qed.

(** [s.strip_prefix(p)]. *)
Definition strip_prefix (p s : bytes) : option bytes :=
  if starts_with p s then Some (drop (length p) s) else None.

Lemma strip_prefix_Some p s r : strip_prefix p s = Some r <-> s = p ++ r.
Proof.
  unfold strip_prefix. destruct (starts_with p s) eqn:E.
  - apply starts_with_spec in E as [r' ->]. rewrite drop_app_length.
    split; [intros [= ->]; done | intros H%(inj (p ++.)); by subst].
  - split; [done|]. intros ->. by rewrite starts_with_app in E.
Qed.

(** [s.strip_suffix(p)]. *)
Definition strip_suffix (p s : bytes) : option bytes :=
  match strip_prefix (reverse p) (reverse s) with
  | Some r => Some (reverse r)
  | None => None
  end.

Lemma strip_suffix_Some p s r : strip_suffix p s = Some r <-> s = r ++ p.
Proof.
  unfold strip_suffix.
  destruct (strip_prefix (reverse p) (reverse s)) as [q|] eqn:E.
  - apply strip_prefix_Some in E.
    apply (f_equal reverse) in E. rewrite reverse_involutive, reverse_app, reverse_involutive in E.
    split; [intros [= <-]; done |].
    intros ->. f_equal. by apply (inj (.++ p)) in E.
  - split; [done|]. intros ->. rewrite reverse_app in E.
    assert (strip_prefix (reverse p) (reverse p ++ reverse r) = Some (reverse r)) as E'
      by by apply strip_prefix_Some.
    congruence.
Qed.
