(* ===== verification/Str.v ===== *)
(** Rust's [str] and integer-parsing primitives, as the agent uses them.

    Everything here is the standard library ([core::str], [core::num]):
    UTF-8 validation and lossy decoding, character boundaries, Unicode
    white-space trimming, searching, splitting and decimal parsing. The
    definitions follow the library's documented algorithms byte by byte. *)
From S2P Require Import Prelude.
From Stdlib Require Import Strings.Byte.

(** * UTF-8 *)

(** A continuation byte [10xxxxxx]. *)
Definition is_cont (b : byte) : bool := in_range 128 191 b.

(** The two-byte prefixes [core::str] admits for three- and four-byte
    sequences (no overlong forms, no surrogates, nothing above U+10FFFF). *)
Definition lead3_ok (b0 b1 : byte) : bool :=
  ((bN b0 =? 224) && in_range 160 191 b1)
  || (in_range 225 236 b0 && in_range 128 191 b1)
  || ((bN b0 =? 237) && in_range 128 159 b1)
  || (in_range 238 239 b0 && in_range 128 191 b1).

Definition lead4_ok (b0 b1 : byte) : bool :=
  ((bN b0 =? 240) && in_range 144 191 b1)
  || (in_range 241 243 b0 && in_range 128 191 b1)
  || ((bN b0 =? 244) && in_range 128 143 b1).

(** One step of [core::str::lossy::Utf8Chunks]: the number of bytes taken
    (0 only at the end) and whether they form one character. A malformed
    sequence takes its maximal valid prefix. *)
Definition decode_one (s : bytes) : bool * nat :=
  match s with
  | [] => (true, 0%nat)
  | b0 :: r =>
    if bN b0 <? 128 then (true, 1%nat)
    else if in_range 194 223 b0 then
      match r with
      | b1 :: _ => if is_cont b1 then (true, 2%nat) else (false, 1%nat)
      | [] => (false, 1%nat)
      end
    else if in_range 224 239 b0 then
      match r with
      | b1 :: r1 =>
        if lead3_ok b0 b1 then
          match r1 with
          | b2 :: _ => if is_cont b2 then (true, 3%nat) else (false, 2%nat)
          | [] => (false, 2%nat)
          end
        else (false, 1%nat)
      | [] => (false, 1%nat)
      end
    else if in_range 240 244 b0 then
      match r with
      | b1 :: r1 =>
        if lead4_ok b0 b1 then
          match r1 with
          | b2 :: r2 =>
            if is_cont b2 then
              match r2 with
              | b3 :: _ => if is_cont b3 then (true, 4%nat) else (false, 3%nat)
              | [] => (false, 3%nat)
              end
            else (false, 2%nat)
          | [] => (false, 2%nat)
          end
        else (false, 1%nat)
      | [] => (false, 1%nat)
      end
    else (false, 1%nat)
  end.

(** The string cut into characters and malformed sequences. [fuel] bounds the
    number of pieces; the length of the string is always enough. *)
Fixpoint pieces_fuel (fuel : nat) (s : bytes) : list (bool * bytes) :=
  match fuel, s with
  | O, _ | _, [] => []
  | S fuel', _ =>
    let '(ok, n) := decode_one s in
    (ok, take n s) :: pieces_fuel fuel' (drop n s)
  end.

Definition pieces (s : bytes) : list (bool * bytes) := pieces_fuel (length s) s.

(** U+FFFD REPLACEMENT CHARACTER and U+FEFF BYTE ORDER MARK in UTF-8. *)
Definition replacement : bytes := [xef; xbf; xbd].
Definition bom : bytes := [xef; xbb; xbf].

Definition valid_utf8 (s : bytes) : bool := forallb fst (pieces s).

(** [String::from_utf8_lossy]. *)
Definition from_utf8_lossy (s : bytes) : bytes :=
  concat (map (fun p : bool * bytes => if p.1 then p.2 else replacement) (pieces s)).

(** [str::is_char_boundary] at a position strictly inside the string. *)
Definition is_boundary_byte (b : byte) : bool := negb (is_cont b).

(** [str::floor_char_boundary]: the greatest boundary not above [n]. *)
Fixpoint floor_boundary (s : bytes) (n : nat) : nat :=
  match n with
  | O => O
  | S n' =>
    match s !! n with
    | Some b => if is_boundary_byte b then n else floor_boundary s n'
    | None => length s
    end
  end.

Definition floor_char_boundary (s : bytes) (n : N) : N :=
  if len s <=? n then len s else N.of_nat (floor_boundary s (N.to_nat n)).

(** * White space ([char::is_whitespace], Unicode [White_Space]) *)

Definition is_ascii_ws (b : byte) : bool := in_range 9 13 b || (bN b =? 32).

Definition is_ws2 (b0 b1 : byte) : bool :=
  (bN b0 =? 194) && ((bN b1 =? 133) || (bN b1 =? 160)).

Definition is_ws3 (b0 b1 b2 : byte) : bool :=
  ((bN b0 =? 225) && (bN b1 =? 154) && (bN b2 =? 128))
  || ((bN b0 =? 226) && (bN b1 =? 128)
      && (in_range 128 138 b2 || (bN b2 =? 168) || (bN b2 =? 169) || (bN b2 =? 175)))
  || ((bN b0 =? 226) && (bN b1 =? 129) && (bN b2 =? 159))
  || ((bN b0 =? 227) && (bN b1 =? 128) && (bN b2 =? 128)).

(** Number of bytes of the white-space character the string starts with, 0
    when it starts with none. *)
Definition ws_head (s : bytes) : nat :=
  match s with
  | b0 :: r =>
    if is_ascii_ws b0 then 1%nat
    else match r with
    | b1 :: r1 =>
      if is_ws2 b0 b1 then 2%nat
      else match r1 with
      | b2 :: _ => if is_ws3 b0 b1 b2 then 3%nat else 0%nat
      | [] => 0%nat
      end
    | [] => 0%nat
    end
  | [] => 0%nat
  end.

(** The same from the end, on the reversed string. *)
Definition ws_last (s : bytes) : nat :=
  match s with
  | b0 :: r =>
    if is_ascii_ws b0 then 1%nat
    else match r with
    | b1 :: r1 =>
      if is_ws2 b1 b0 then 2%nat
      else match r1 with
      | b2 :: _ => if is_ws3 b2 b1 b0 then 3%nat else 0%nat
      | [] => 0%nat
      end
    | [] => 0%nat
    end
  | [] => 0%nat
  end.

Fixpoint strip_ws (head : bytes -> nat) (fuel : nat) (s : bytes) : bytes :=
  match fuel with
  | O => s
  | S fuel' =>
    match head s with
    | O => s
    | n => strip_ws head fuel' (drop n s)
    end
  end.

Definition trim_start (s : bytes) : bytes := strip_ws ws_head (length s) s.
Definition trim_end (s : bytes) : bytes :=
  reverse (strip_ws ws_last (length s) (reverse s)).
Definition trim (s : bytes) : bytes := trim_end (trim_start s).

Definition is_empty {A} (s : list A) : bool :=
  match s with [] => true | _ => false end.

(** * ASCII classes and case *)

Definition is_digit (b : byte) : bool := in_range 48 57 b.
Definition is_alpha (b : byte) : bool := in_range 65 90 b || in_range 97 122 b.
Definition is_alnum (b : byte) : bool := is_alpha b || is_digit b.
Definition is_hexdigit (b : byte) : bool :=
  is_digit b || in_range 65 70 b || in_range 97 102 b.

Definition lower_byte (b : byte) : byte :=
  if in_range 65 90 b then byte_of (bN b + 32) else b.
Definition to_ascii_lowercase (s : bytes) : bytes := map lower_byte s.
Definition eq_ignore_ascii_case (s t : bytes) : bool :=
  bool_decide (to_ascii_lowercase s = to_ascii_lowercase t).

(** * Searching and splitting *)

(** Index of the first byte satisfying [p] ([iter().position]). *)
Fixpoint position (p : byte -> bool) (s : bytes) : option nat :=
  match s with
  | [] => None
  | c :: r => if p c then Some 0%nat else S <$> position p r
  end.

Definition find_byte (c : byte) (s : bytes) : option nat :=
  position (fun x => bool_decide (x = c)) s.

(** [str::rfind] of an ASCII byte. *)
Fixpoint rfind_byte (c : byte) (s : bytes) : option nat :=
  match s with
  | [] => None
  | x :: r =>
    match rfind_byte c r with
    | Some i => Some (S i)
    | None => if bool_decide (x = c) then Some 0%nat else None
    end
  end.

(** [str::find] of a byte string. *)
Fixpoint find_sub (p s : bytes) : option nat :=
  if starts_with p s then Some 0%nat
  else match s with
  | [] => None
  | _ :: r => S <$> find_sub p r
  end.

(** [str::split_once] at an ASCII byte. *)
Definition split_once (c : byte) (s : bytes) : option (bytes * bytes) :=
  match find_byte c s with
  | Some i => Some (take i s, drop (S i) s)
  | None => None
  end.

(** [str::split] at an ASCII byte. *)
Fixpoint split (c : byte) (s : bytes) : list bytes :=
  match s with
  | [] => [[]]
  | x :: r =>
    if bool_decide (x = c) then [] :: split c r
    else match split c r with
    | h :: t => (x :: h) :: t
    | [] => [[x]]
    end
  end.

(** [str::splitn(n, c)]: at most [n] pieces, the last one unsplit. *)
Fixpoint splitn (n : nat) (c : byte) (s : bytes) : list bytes :=
  match n with
  | O => []
  | S O => [s]
  | S n' =>
    match split_once c s with
    | Some (h, t) => h :: splitn n' c t
    | None => [s]
    end
  end.

(** [str::lines]: split at [\n], an unterminated empty last piece dropped, one trailing
    [\r] before each terminator stripped. *)
Definition strip_cr (l : bytes) : bytes :=
  match strip_suffix [x0d] l with Some r => r | None => l end.

(** The pieces of [split_inclusive('\n')], each with its terminator flag. *)
Fixpoint raw_lines (s : bytes) : list (bytes * bool) :=
  match s with
  | [] => []
  | x :: r =>
    if bool_decide (x = nl) then ([], true) :: raw_lines r
    else match raw_lines r with
    | (h, t) :: rest => (x :: h, t) :: rest
    | [] => [([x], false)]
    end
  end.

Definition lines (s : bytes) : list bytes :=
  map (fun p : bytes * bool => if p.2 then strip_cr p.1 else p.1) (raw_lines s).

(** [str::split_whitespace]. *)
Fixpoint words_fuel (fuel : nat) (cur : bytes) (s : bytes) : list bytes :=
  let flush := if is_empty cur then [] else [reverse cur] in
  match fuel with
  | O => flush
  | S fuel' =>
    match s with
    | [] => flush
    | c :: r =>
      match ws_head s with
      | O => words_fuel fuel' (c :: cur) r
      | n => flush ++ words_fuel fuel' [] (drop n s)
      end
    end
  end.

Definition split_whitespace (s : bytes) : list bytes := words_fuel (length s) [] s.

(** * Integer parsing and printing *)

Definition digit_val (b : byte) : option N :=
  if is_digit b then Some (bN b - 48)
  else if in_range 97 102 b then Some (bN b - 87)
  else if in_range 65 70 b then Some (bN b - 55)
  else None.

(** [from_str_radix] on the digits: every digit below the radix, the value
    never above [max] (checked after each digit). *)
Fixpoint parse_digits (radix max acc : N) (s : bytes) : option N :=
  match s with
  | [] => Some acc
  | c :: r =>
    match digit_val c with
    | Some d =>
      if (d <? radix) && (acc * radix + d <=? max)
      then parse_digits radix max (acc * radix + d) r
      else None
    | None => None
    end
  end.

(** [uN::from_str_radix]: an optional [+], then at least one digit. *)
Definition parse_uint (radix max : N) (s : bytes) : option N :=
  match s with
  | [] => None
  | c :: r =>
    let digits := if bool_decide (c = x2b) then r else s in
    if is_empty digits then None else parse_digits radix max 0 digits
  end.

Definition parse_u64 : bytes -> option N := parse_uint 10 u64_max.
Definition parse_u32 : bytes -> option N := parse_uint 10 u32_max.
Definition parse_u16 : bytes -> option N := parse_uint 10 65535.
Definition parse_u8 : bytes -> option N := parse_uint 10 255.

(** Decimal rendering of an unsigned integer ([Display]). 20 digits cover
    every [u64]; the fuel is the number of binary digits plus one. *)
Fixpoint digits_fuel (fuel : nat) (n : N) (acc : bytes) : bytes :=
  match fuel with
  | O => acc
  | S fuel' =>
    let acc' := byte_of (48 + n mod 10) :: acc in
    if n <? 10 then acc' else digits_fuel fuel' (n / 10) acc'
  end.

Definition show_N (n : N) : bytes := digits_fuel (S (N.to_nat (N.size n))) n [].
