(* ===== verification/StrFacts.v ===== *)
(** Lemmas about the [str] primitives of [Str]: UTF-8 decoding cuts a string
    into pieces and loses nothing, decoding distributes over a valid prefix,
    truncation at a character boundary keeps a string valid, decimal printing
    and parsing are inverse, splitting undoes joining. *)
From S2P Require Import Prelude Str.
From Stdlib Require Import Strings.Byte.

(** * UTF-8 pieces *)

Ltac decode_cases :=
  repeat match goal with
  | |- context [match ?l with [] => _ | _ => _ end] => destruct l
  | |- context [if ?c then _ else _] => destruct c
  end.

Lemma decode_one_bounds s : s <> [] -> (1 <= (decode_one s).2 <= length s)%nat.
Proof.
  intros Hs. destruct s as [|b0 r]; [done|]. unfold decode_one.
  decode_cases; cbn [snd length]; lia.
Qed.

Lemma decode_one_app s t n :
  s <> [] -> decode_one s = (true, n) -> decode_one (s ++ t) = (true, n).
Proof.
  intros Hs. destruct s as [|b0 [|b1 [|b2 [|b3 r]]]]; [done|..];
    cbn [app decode_one]; repeat case_if; try done.
Qed.

Lemma pieces_fuel_enough f1 f2 s :
  (length s <= f1)%nat -> (length s <= f2)%nat -> pieces_fuel f1 s = pieces_fuel f2 s.
Proof.
  revert f2 s. induction f1 as [|f1 IH]; intros f2 s H1 H2.
  - destruct s; [by destruct f2 | cbn in H1; lia].
  - destruct s as [|b s]; [by destruct f2|].
    destruct f2 as [|f2]; [cbn in H2; lia|]. cbn [pieces_fuel].
    assert (Hb := decode_one_bounds (b :: s) ltac:(done)).
    destruct (decode_one (b :: s)) as [ok n]. cbn [snd] in Hb.
    f_equal. apply IH; rewrite length_drop; cbn [length] in *; lia.
Qed.

Lemma pieces_unfold s :
  s <> [] ->
  pieces s = ((decode_one s).1, take (decode_one s).2 s) :: pieces (drop (decode_one s).2 s).
Proof.
  intros Hs. unfold pieces. destruct s as [|b s]; [done|]. cbn [length pieces_fuel].
  assert (Hb := decode_one_bounds (b :: s) ltac:(done)).
  destruct (decode_one (b :: s)) as [ok n]. cbn [fst snd] in *. f_equal.
  apply pieces_fuel_enough; rewrite length_drop; cbn [length] in *; lia.
Qed.

(** Induction along the pieces of a string. *)
Lemma pieces_ind (P : bytes -> Prop) :
  P [] ->
  (forall s, s <> [] -> P (drop (decode_one s).2 s) -> P s) ->
  forall s, P s.
Proof.
  intros H0 HS s. remember (length s) as n eqn:Hn.
  revert s Hn. induction (lt_wf n) as [n _ IH]. intros s Hn.
  destruct s as [|b s]; [done|]. apply HS; [done|].
  assert (Hb := decode_one_bounds (b :: s) ltac:(done)).
  eapply IH; [|done]. rewrite length_drop. cbn [length] in *; lia.
Qed.

Lemma pieces_concat s : concat (map snd (pieces s)) = s.
Proof.
  induction s as [|s Hs IH] using pieces_ind; [done|].
  rewrite pieces_unfold by done. cbn. rewrite IH. apply take_drop.
Qed.

Lemma valid_utf8_unfold s :
  s <> [] -> valid_utf8 s = (decode_one s).1 && valid_utf8 (drop (decode_one s).2 s).
Proof. intros Hs. unfold valid_utf8. by rewrite pieces_unfold by done. Qed.

Lemma lossy_unfold s :
  s <> [] ->
  from_utf8_lossy s =
    (if (decode_one s).1 then take (decode_one s).2 s else replacement)
    ++ from_utf8_lossy (drop (decode_one s).2 s).
Proof. intros Hs. unfold from_utf8_lossy. by rewrite pieces_unfold by done. Qed.

Lemma lossy_valid s : valid_utf8 s = true -> from_utf8_lossy s = s.
Proof.
  induction s as [|s Hs IH] using pieces_ind; [done|].
  rewrite valid_utf8_unfold, lossy_unfold by done. rewrite andb_true_iff.
  intros [-> Hr]. rewrite IH by done. apply take_drop.
Qed.

Lemma lossy_nil_inv s : from_utf8_lossy s = [] -> s = [].
Proof.
  destruct s as [|b s]; [done|]. intros H. exfalso.
  rewrite lossy_unfold in H by done.
  assert (Hb := decode_one_bounds (b :: s) ltac:(done)).
  apply app_eq_nil in H as [H _]. destruct (decode_one (b :: s)).1; [|done].
  destruct (decode_one (b :: s)).2; [lia | done].
Qed.

Lemma pieces_app_valid s t :
  valid_utf8 s = true -> pieces (s ++ t) = pieces s ++ pieces t.
Proof.
  induction s as [|s Hs IH] using pieces_ind; [done|].
  rewrite valid_utf8_unfold by done. rewrite andb_true_iff. intros [Hok Hr].
  assert (Hb := decode_one_bounds s Hs).
  rewrite (pieces_unfold s) by done.
  destruct (decode_one s) as [ok n] eqn:E. cbn [fst snd] in *. subst ok.
  rewrite pieces_unfold by (destruct s; done).
  rewrite (decode_one_app s t n) by done. cbn [fst snd].
  rewrite take_app_le, drop_app_le by lia. by rewrite IH.
Qed.

Lemma lossy_app_valid s t :
  valid_utf8 s = true -> from_utf8_lossy (s ++ t) = s ++ from_utf8_lossy t.
Proof.
  intros Hs. rewrite <- (lossy_valid s Hs) at 2. unfold from_utf8_lossy.
  by rewrite pieces_app_valid, map_app, concat_app by done.
Qed.

Lemma valid_utf8_app s t :
  valid_utf8 s = true -> valid_utf8 (s ++ t) = valid_utf8 t.
Proof.
  intros Hs. unfold valid_utf8. rewrite pieces_app_valid by done.
  rewrite forallb_app. unfold valid_utf8 in Hs. by rewrite Hs.
Qed.

Lemma decode_one_take s :
  s <> [] -> (decode_one s).1 = true ->
  decode_one (take (decode_one s).2 s) = decode_one s.
Proof.
  intros Hs. destruct s as [|b0 [|b1 [|b2 [|b3 r]]]]; [done|..];
    unfold decode_one; repeat case_if; cbn [fst snd take decode_one];
    intros; try done;
    repeat match goal with H : ?x = _ |- context [?x] => rewrite H end; done.
Qed.

Lemma lossy_is_valid s : valid_utf8 (from_utf8_lossy s) = true.
Proof.
  induction s as [|s Hs IH] using pieces_ind; [done|].
  rewrite lossy_unfold by done.
  assert (Hb := decode_one_bounds s Hs).
  destruct (decode_one s).1 eqn:E; rewrite valid_utf8_app; try done.
  rewrite valid_utf8_unfold by (destruct s, (decode_one _).2; done || lia).
  rewrite decode_one_take, E by done. rewrite drop_ge; [done|].
  rewrite length_take. lia.
Qed.

(** * Character boundaries *)

Lemma lead3_cont b0 b1 : lead3_ok b0 b1 = true -> is_cont b1 = true.
Proof.
  unfold lead3_ok, is_cont, in_range. intros H.
  repeat (apply orb_true_iff in H; destruct H as [H|H]); norm_bool;
    apply andb_true_iff; split; apply N.leb_le; lia.
Qed.

Lemma lead4_cont b0 b1 : lead4_ok b0 b1 = true -> is_cont b1 = true.
Proof.
  unfold lead4_ok, is_cont, in_range. intros H.
  repeat (apply orb_true_iff in H; destruct H as [H|H]); norm_bool;
    apply andb_true_iff; split; apply N.leb_le; lia.
Qed.

#[export] Hint Resolve lead3_cont lead4_cont : witness.

(** Inside a well-formed character every byte after the first continues it. *)
Lemma decode_one_cont s n j b :
  decode_one s = (true, n) -> (0 < j < n)%nat -> s !! j = Some b -> is_cont b = true.
Proof.
  destruct s as [|b0 [|b1 [|b2 [|b3 r]]]]; unfold decode_one; repeat case_if;
    intros [= <-] Hj Hl;
    destruct j as [|[|[|[|j]]]]; try lia; cbn in Hl; simplify_eq; eauto with witness.
Qed.

Lemma valid_take_boundary s j :
  valid_utf8 s = true ->
  (forall b, s !! j = Some b -> (0 < j)%nat -> is_boundary_byte b = true) ->
  valid_utf8 (take j s) = true.
Proof.
  revert j. induction s as [|s Hs IH] using pieces_ind; intros j Hv Hb;
    [by rewrite take_nil|].
  rewrite valid_utf8_unfold in Hv by done. apply andb_true_iff in Hv as [Hok Hr].
  assert (Hn := decode_one_bounds s Hs).
  assert (Ht := decode_one_take s Hs Hok).
  destruct (decode_one s) as [ok n] eqn:E. cbn [fst snd] in *. subst ok.
  destruct (decide (j = 0%nat)) as [->|Hj]; [done|].
  destruct (decide (j < n)%nat) as [Hlt|Hge].
  - destruct (lookup_lt_is_Some_2 s j) as [b Hl]; [lia|].
    specialize (Hb b Hl ltac:(lia)).
    assert (Hc := decode_one_cont s n j b E ltac:(lia) Hl).
    unfold is_boundary_byte in Hb. by rewrite Hc in Hb.
  - replace j with (n + (j - n))%nat by lia.
    rewrite <- take_take_drop, valid_utf8_app.
    + apply IH; [done|]. intros b Hl Hpos. apply Hb; [|lia].
      rewrite lookup_drop in Hl. by replace j with (n + (j - n))%nat by lia.
    + rewrite valid_utf8_unfold by (destruct s, n; done || lia).
      rewrite Ht. cbn. rewrite drop_ge; [done|]. rewrite length_take. lia.
Qed.

Lemma floor_boundary_le s n : (n < length s)%nat -> (floor_boundary s n <= n)%nat.
Proof.
  induction n as [|n IH]; intros Hn; cbn; [lia|].
  destruct (lookup_lt_is_Some_2 s (S n) Hn) as [b ->].
  destruct (is_boundary_byte b); [lia|]. specialize (IH ltac:(lia)). lia.
Qed.

Lemma floor_boundary_is s n b :
  (n < length s)%nat -> s !! floor_boundary s n = Some b ->
  (0 < floor_boundary s n)%nat -> is_boundary_byte b = true.
Proof.
  induction n as [|n IH]; intros Hn Hl Hpos; [cbn in Hpos; lia|].
  cbn in Hl, Hpos. destruct (lookup_lt_is_Some_2 s (S n) Hn) as [c Hc].
  rewrite Hc in Hl, Hpos. destruct (is_boundary_byte c) eqn:E.
  - congruence.
  - apply IH; [lia|done|done].
Qed.

Lemma floor_char_boundary_le s n : floor_char_boundary s n <= n.
Proof.
  unfold floor_char_boundary. destruct (N.leb_spec (len s) n); [lia|].
  assert (Hl : (floor_boundary s (N.to_nat n) <= N.to_nat n)%nat)
    by (apply floor_boundary_le; unfold len in *; lia).
  unfold len in *. lia.
Qed.

Lemma floor_char_boundary_le_len s n : floor_char_boundary s n <= len s.
Proof.
  unfold floor_char_boundary. destruct (N.leb_spec (len s) n); [lia|].
  assert (Hl : (floor_boundary s (N.to_nat n) <= N.to_nat n)%nat)
    by (apply floor_boundary_le; unfold len in *; lia).
  unfold len in *. lia.
Qed.

(** [String::truncate] at a floored boundary never leaves half a character. *)
Lemma truncate_floor_valid s n :
  valid_utf8 s = true ->
  valid_utf8 (take (N.to_nat (floor_char_boundary s n)) s) = true.
Proof.
  intros Hv. unfold floor_char_boundary. destruct (N.leb_spec (len s) n) as [Hle|Hgt].
  - rewrite to_nat_len, firstn_all. done.
  - rewrite Nat2N.id. apply valid_take_boundary; [done|]. intros b Hl Hpos.
    eapply floor_boundary_is; [|exact Hl|exact Hpos]. unfold len in Hgt. lia.
Qed.

(** * Decimal numbers *)

Definition digit (d : N) : byte := byte_of (48 + d).

Lemma digit_val_digit d : d < 10 -> digit_val (digit d) = Some d.
Proof.
  intros Hd. unfold digit_val, is_digit, in_range, digit.
  rewrite bN_byte_of, N.mod_small by lia.
  replace (48 <=? 48 + d) with true by (symmetry; apply N.leb_le; lia).
  replace (48 + d <=? 57) with true by (symmetry; apply N.leb_le; lia).
  cbn [andb]. f_equal. lia.
Qed.

Lemma digits_fuel_acc f n acc :
  digits_fuel f n acc = digits_fuel f n [] ++ acc.
Proof.
  revert n acc. induction f as [|f IH]; intros n acc; [done|]. cbn [digits_fuel].
  destruct (n <? 10); [done|]. rewrite IH, (IH _ [_]). by rewrite <- app_assoc.
Qed.

Lemma parse_digits_app r m acc s t v :
  parse_digits r m acc s = Some v -> parse_digits r m acc (s ++ t) = parse_digits r m v t.
Proof.
  revert acc. induction s as [|c s IH]; intros acc; cbn; [by intros [= ->]|].
  destruct (digit_val c) as [d|]; [|done]. case_if; [|done]. apply IH.
Qed.

Lemma size_div10 n f : 10 <= n -> (N.to_nat (N.size n) <= S f)%nat ->
  (N.to_nat (N.size (n / 10)) <= f)%nat.
Proof.
  intros Hn Hs.
  assert (H2 : n / 10 <= n / 2) by (apply N.div_le_compat_l; lia).
  assert (Hd : 2 <= n) by lia.
  assert (N.size (n / 10) <= N.size n - 1); [|lia].
  rewrite (N.size_log2 n) by lia. rewrite (N.size_log2 (n / 10)).
  2: { assert (1 <= n / 10); [apply N.div_le_lower_bound; lia|lia]. }
  assert (N.log2 (n / 10) <= N.log2 (n / 2)) by (apply N.log2_le_mono; lia).
  assert (Hlog : N.log2 (n / 2) = N.pred (N.log2 n)).
  { rewrite <- N.div2_div, N.div2_spec, N.log2_shiftr. lia. }
  assert (1 <= N.log2 n) by (apply N.log2_le_pow2; cbn; lia). lia.
Qed.

Lemma parse_digits_show f n max :
  (N.to_nat (N.size n) <= f)%nat -> n <= max ->
  parse_digits 10 max 0 (digits_fuel (S f) n []) = Some n.
Proof.
  revert n. induction f as [|f IH]; intros n Hf Hm.
  - destruct n as [|p]; [by destruct max|]. destruct p; cbn in Hf; lia.
  - set (g := S f) in *. cbn [digits_fuel].
    destruct (n <? 10) eqn:E; norm_bool.
    + cbn [parse_digits]. rewrite N.mod_small by lia. fold (digit n).
      rewrite digit_val_digit by lia.
      replace ((n <? 10) && (0 * 10 + n <=? max)) with true; [f_equal; lia|].
      symmetry. apply andb_true_iff. split; [apply N.ltb_lt | apply N.leb_le]; lia.
    + rewrite digits_fuel_acc.
      assert (Hd : n / 10 <= n) by (apply N.Div0.div_le_upper_bound; lia).
      erewrite parse_digits_app by (apply IH; [by apply size_div10 | lia]).
      assert (Hmod := N.mod_lt n 10 ltac:(lia)).
      assert (Heq := N.div_mod n 10 ltac:(lia)).
      cbn [parse_digits]. fold (digit (n mod 10)). rewrite digit_val_digit by lia.
      replace ((n mod 10 <? 10) && (n / 10 * 10 + n mod 10 <=? max)) with true.
      2: { symmetry. apply andb_true_iff. split; [apply N.ltb_lt | apply N.leb_le]; lia. }
      f_equal. lia.
Qed.

Definition all_digits (s : bytes) : Prop := Forall (fun c => is_digit c = true) s.

Lemma digit_is_digit d : d < 10 -> is_digit (digit d) = true.
Proof.
  intros Hd. unfold is_digit, in_range, digit. rewrite bN_byte_of, N.mod_small by lia.
  apply andb_true_iff. split; apply N.leb_le; lia.
Qed.

Lemma digits_fuel_all f n : all_digits (digits_fuel f n []).
Proof.
  revert n. induction f as [|f IH]; intros n; [by constructor|]. cbn [digits_fuel].
  assert (Hmod := N.mod_lt n 10 ltac:(lia)).
  assert (Hd : all_digits [byte_of (48 + n mod 10)]).
  { apply Forall_singleton. by apply digit_is_digit. }
  case_if; [done|]. rewrite digits_fuel_acc. apply Forall_app. split; [apply IH | exact Hd].
Qed.

Lemma show_N_digits n : all_digits (show_N n).
Proof. apply digits_fuel_all. Qed.

Lemma show_N_nonempty n : show_N n <> [].
Proof.
  unfold show_N. cbn [digits_fuel]. case_if; [done|]. rewrite digits_fuel_acc.
  by intros []%app_eq_nil.
Qed.

Lemma digit_neq c d : is_digit c = true -> is_digit d = false -> c <> d.
Proof. congruence. Qed.

Lemma show_N_not_elem n c : is_digit c = false -> c ∉ show_N n.
Proof.
  intros Hc Hin. assert (Ha := show_N_digits n).
  unfold all_digits in Ha. rewrite Forall_forall in Ha. apply Ha in Hin. congruence.
Qed.

(** Printing then parsing an unsigned integer within the type's range. *)
Lemma parse_uint_show n max : n <= max -> parse_uint 10 max (show_N n) = Some n.
Proof.
  intros Hm. unfold parse_uint.
  destruct (show_N n) as [|c r] eqn:E; [by apply show_N_nonempty in E|].
  rewrite bool_decide_eq_false_2.
  - cbn [is_empty]. rewrite <- E. apply parse_digits_show; [done|done].
  - intros ->. apply (show_N_not_elem n x2b); [done|]. rewrite E. left.
Qed.

(** * Trimming text without white space *)

Lemma graphic_ws_head s : Forall (fun c => in_range 33 126 c = true) s -> ws_head s = 0%nat.
Proof.
  destruct 1 as [|b0 r Hb Hr]; [done|]. cbn [ws_head].
  assert (Hws : is_ascii_ws b0 = false /\ (forall b1, is_ws2 b0 b1 = false) /\
                (forall b1 b2, is_ws3 b0 b1 b2 = false)).
  { clear Hr. by destruct b0. }
  destruct Hws as (-> & Hw2 & Hw3). destruct r as [|b1 [|b2 r]]; [done|by rewrite Hw2|by rewrite Hw2, Hw3].
Qed.

Lemma graphic_ws_last s : Forall (fun c => in_range 33 126 c = true) s -> ws_last s = 0%nat.
Proof.
  destruct 1 as [|b0 r Hb Hr]; [done|]. cbn [ws_last].
  assert (Hws : is_ascii_ws b0 = false) by (clear Hr; by destruct b0). rewrite Hws.
  destruct Hr as [|b1 r Hb1 Hr]; [done|].
  assert (Hw2 : forall b, is_ws2 b1 b = false) by (clear Hr; by destruct b1). rewrite Hw2.
  destruct Hr as [|b2 r Hb2 Hr]; [done|].
  assert (Hw3 : forall a b, is_ws3 b2 a b = false) by (clear Hr; by destruct b2). by rewrite Hw3.
Qed.

Lemma strip_ws_none head fuel s : head s = 0%nat -> strip_ws head fuel s = s.
Proof. intros Hs. destruct fuel; cbn; [done|]. by rewrite Hs. Qed.

Lemma trim_graphic s : Forall (fun c => in_range 33 126 c = true) s -> trim s = s.
Proof.
  intros Hs. unfold trim, trim_end, trim_start.
  rewrite (strip_ws_none ws_head) by by apply graphic_ws_head.
  rewrite (strip_ws_none ws_last); [apply reverse_involutive|].
  apply graphic_ws_last. by apply Forall_reverse.
Qed.

Lemma show_N_graphic n : Forall (fun c => in_range 33 126 c = true) (show_N n).
Proof.
  eapply Forall_impl; [apply show_N_digits|]. intros c Hc. unfold is_digit, in_range in *.
  norm_bool. apply andb_true_iff. rewrite !N.leb_le. lia.
Qed.
