(* ===== verification/External.v ===== *)
(** The code the agent calls but does not contain: third-party crates, as type
    classes. Each operation the agent uses is a method of an operational class;
    the documented behaviour it relies on is a law class over it. Theorems are
    proved for every instance; the instances at the end show that the laws can
    hold, and let witnesses compute.

    - [memchr]: first-byte search          ([Memchr], [MemchrOk])
    - [simdutf8]: UTF-8 validation         ([SimdUtf8], [SimdUtf8Ok])
    - [serde_json]: values, parsing        ([Value], [SerdeJson])
    - [regex_lite]: start-pattern matching ([Regex])
    - [glob]: device filters               ([Glob])
    - [tell]: the SDK's log levels

    Two parts of the standard library are classes too, because they are left
    open by its documentation or are data tables: the iteration order of a
    [HashMap] and Unicode lower-casing. *)
From S2P Require Import Prelude Str.
From Stdlib Require Import Strings.Byte ZArith.

(** * memchr *)

Class Memchr := memchr : byte -> bytes -> option nat.

(** "Search for the first occurrence of a byte in a slice." *)
Class MemchrOk `{Memchr} : Prop :=
  memchr_first : forall c s, memchr c s = find_byte c s.

(** [memchr_iter]: the positions of every occurrence, in order. *)
Class MemchrIter := memchr_iter : byte -> bytes -> list nat.

Fixpoint positions_from (i : nat) (c : byte) (s : bytes) : list nat :=
  match s with
  | [] => []
  | x :: r => (if bool_decide (x = c) then [i] else []) ++ positions_from (S i) c r
  end.

Class MemchrIterOk `{MemchrIter} : Prop :=
  memchr_iter_all : forall c s, memchr_iter c s = positions_from 0 c s.

(** * simdutf8 *)

Class SimdUtf8 := simd_from_utf8 : bytes -> option bytes.

(** "Analogue to [std::str::from_utf8()]." *)
Class SimdUtf8Ok `{SimdUtf8} : Prop :=
  simd_from_utf8_std :
    forall s, simd_from_utf8 s = if valid_utf8 s then Some s else None.

(** * tell *)

Inductive LogLevel :=
| Emergency | Alert | Critical | Error | Warning | Notice | Info | Debug.

#[global] Instance LogLevel_eq_dec : EqDecision LogLevel.
Proof. solve_decision. Defined.

Inductive Temporality := Delta | Cumulative.

#[global] Instance Temporality_eq_dec : EqDecision Temporality.
Proof. solve_decision. Defined.

(** * serde_json

    [serde_json::Value]; a number is a [u64], a negative [i64] or a float (kept
    by its text, which the agent never inspects). [serde_json::Map] is a
    [BTreeMap]: an association list ordered by key. *)
Inductive Number :=
| PosInt (n : N)
| NegInt (z : Z)
| Float (text : bytes).

Inductive Value :=
| VNull
| VBool (b : bool)
| VNumber (n : Number)
| VString (s : bytes)
| VArray (l : list Value)
| VObject (m : list (bytes * Value)).

Notation Map := (list (bytes * Value)).

Definition as_u64 (n : Number) : option N :=
  match n with PosInt k => Some k | _ => None end.

(** Byte-wise ordering of keys ([Ord] for [str]). *)
Fixpoint bytes_cmp (s t : bytes) : comparison :=
  match s, t with
  | [], [] => Eq
  | [], _ :: _ => Lt
  | _ :: _, [] => Gt
  | x :: s', y :: t' =>
    match N.compare (bN x) (bN y) with
    | Eq => bytes_cmp s' t'
    | c => c
    end
  end.

Fixpoint map_get (k : bytes) (m : Map) : option Value :=
  match m with
  | [] => None
  | (k', v) :: r => if bool_decide (k = k') then Some v else map_get k r
  end.

(** [BTreeMap::insert]: replaces the value of an equal key. *)
Fixpoint map_insert (k : bytes) (v : Value) (m : Map) : Map :=
  match m with
  | [] => [(k, v)]
  | (k', v') :: r =>
    match bytes_cmp k k' with
    | Lt => (k, v) :: m
    | Eq => (k, v) :: r
    | Gt => (k', v') :: map_insert k v r
    end
  end.

Fixpoint map_remove (k : bytes) (m : Map) : Map :=
  match m with
  | [] => []
  | (k', v) :: r => if bool_decide (k = k') then r else (k', v) :: map_remove k r
  end.

(** [entry(k).or_insert_with(..)]. *)
Definition map_or_insert (k : bytes) (v : Value) (m : Map) : Map :=
  match map_get k m with Some _ => m | None => map_insert k v m end.

Definition map_of_list (l : list (bytes * Value)) : Map :=
  fold_left (fun m kv => map_insert kv.1 kv.2 m) l [].

Class SerdeJson := {
  json_from_str : bytes -> option Value;   (* serde_json::from_str::<Value> *)
  json_to_string : Value -> bytes;         (* Value::to_string *)
}.

(** [serde_json::from_str] driving a derived [Deserialize] visitor: the members
    of the object in document order, duplicates included; [None] when the text
    is not a JSON object. *)
Class SerdeDerive := json_members : bytes -> option (list (bytes * Value)).

(** [serde_json::to_vec] of a struct: its members in declaration order. *)
Class SerdeSerialize := json_object_text : list (bytes * Value) -> bytes.

(** * Unicode tables and hash maps of the standard library *)

(** [str::to_lowercase]; on ASCII text it changes the ASCII letters only. *)
Class Lowercase := str_to_lowercase : bytes -> bytes.

Class LowercaseOk `{Lowercase} : Prop :=
  lowercase_ascii : forall s, Forall (fun c => bN c < 128) s ->
    str_to_lowercase s = to_ascii_lowercase s.

(** The iteration order of a [HashMap], which is unspecified. *)
Class HashOrder (V : Type) := hash_order : gmap bytes V -> list (bytes * V).

Class HashOrderOk (V : Type) `{HashOrder V} : Prop :=
  hash_order_perm : forall m, hash_order m ≡ₚ map_to_list m.

(** * regex_lite *)

Class Regex := {
  regex : Type;
  regex_new : bytes -> option regex;
  is_match : regex -> bytes -> bool;
}.

(** * glob *)

Class Glob := {
  pattern : Type;
  pattern_new : bytes -> option pattern;
  pattern_matches : pattern -> bytes -> bool;
}.

(** * Facts about key order and maps *)

Lemma bytes_cmp_refl s : bytes_cmp s s = Eq.
Proof. induction s as [|x s IH]; cbn; [done|]. by rewrite N.compare_refl. Qed.

Lemma bytes_cmp_eq s t : bytes_cmp s t = Eq <-> s = t.
Proof.
  split; [|intros ->; apply bytes_cmp_refl].
  revert t. induction s as [|x s IH]; intros [|y t]; cbn; try done.
  destruct (N.compare_spec (bN x) (bN y)) as [Hxy| |]; try done.
  intros H. f_equal; [by apply bN_inj | by apply IH].
Qed.

Lemma map_get_insert k v m : map_get k (map_insert k v m) = Some v.
Proof.
  induction m as [|[k' v'] m IH]; cbn; [by rewrite bool_decide_eq_true_2|].
  destruct (bytes_cmp k k') eqn:E; cbn.
  - by rewrite bool_decide_eq_true_2.
  - by rewrite bool_decide_eq_true_2.
  - rewrite bool_decide_eq_false_2; [done|]. intros ->. by rewrite bytes_cmp_refl in E.
Qed.

Lemma map_get_insert_ne k k' v m : k <> k' -> map_get k' (map_insert k v m) = map_get k' m.
Proof.
  intros Hne. induction m as [|[k2 v2] m IH]; cbn.
  - by rewrite bool_decide_eq_false_2.
  - destruct (bytes_cmp k k2) eqn:E; cbn.
    + apply bytes_cmp_eq in E. subst k2. by rewrite !bool_decide_eq_false_2.
    + by rewrite bool_decide_eq_false_2.
    + by rewrite IH.
Qed.

Lemma map_insert_nonempty k v m : map_insert k v m <> [].
Proof. destruct m as [|[k' v'] m]; cbn; [done|]. by destruct (bytes_cmp k k'). Qed.

#[export] Hint Rewrite map_get_insert : witness.

(** * Reference instances *)

Module Reference.
#[global] Instance memchr_ref : Memchr := find_byte.
#[global] Instance memchr_ref_ok : MemchrOk.
Proof. by intros c s. Qed.
#[global] Instance memchr_iter_ref : MemchrIter := positions_from 0.
#[global] Instance memchr_iter_ref_ok : MemchrIterOk.
Proof. by intros c s. Qed.
#[global] Instance simd_ref : SimdUtf8 := fun s => if valid_utf8 s then Some s else None.
#[global] Instance simd_ref_ok : SimdUtf8Ok.
Proof. by intros s. Qed.
#[global] Instance lowercase_ref : Lowercase := to_ascii_lowercase.
#[global] Instance lowercase_ref_ok : LowercaseOk.
Proof. by intros s. Qed.
#[global] Instance hash_order_ref V : HashOrder V := map_to_list.
#[global] Instance hash_order_ref_ok V : HashOrderOk V.
Proof. by intros m. Qed.
End Reference.
