(* ===== verification/F64.v ===== *)
(** [f64] as the collectors use it: IEEE 754 binary64 through the Standard
    Library's executable specification, with rounding to nearest even; and why a
    part is at most a hundred percent of its whole: each of the two roundings of
    [part / whole * 100] stays at most at a bound that is itself a float. *)
From S2P Require Import Prelude Str.
From Stdlib Require Import Strings.Byte ZArith SpecFloat.

Notation f64 := spec_float.

Definition prec64 : Z := 53.
Definition emax64 : Z := 1024.

(** [n as f64], [z as f64]: correctly rounded. *)
Definition f64_of_Z (z : Z) : f64 := binary_normalize prec64 emax64 z 0 false.
Definition f64_of_N (n : N) : f64 := f64_of_Z (Z.of_N n).

Definition f64_add : f64 -> f64 -> f64 := SFadd prec64 emax64.
Definition f64_sub : f64 -> f64 -> f64 := SFsub prec64 emax64.
Definition f64_mul : f64 -> f64 -> f64 := SFmul prec64 emax64.
Definition f64_div : f64 -> f64 -> f64 := SFdiv prec64 emax64.
Definition f64_lt : f64 -> f64 -> bool := SFltb.
Definition f64_le : f64 -> f64 -> bool := SFleb.
Definition f64_gt (x y : f64) : bool := SFltb y x.

Definition is_nan (x : f64) : bool := match x with S754_nan => true | _ => false end.
Definition is_finite (x : f64) : bool :=
  match x with S754_zero _ | S754_finite _ _ _ => true | _ => false end.

Definition f0 : f64 := S754_zero false.
Definition f100 : f64 := Eval vm_compute in f64_of_N 100.

(** [f64::clamp]: a NaN stays a NaN. *)
Definition clamp (x lo hi : f64) : f64 :=
  let x := if f64_lt x lo then lo else x in
  if f64_gt x hi then hi else x.

(** [f64::max]: a NaN is ignored. *)
Definition f64_max (x y : f64) : f64 :=
  if is_nan x then y else if is_nan y then x else if f64_lt x y then y else x.

(** * Parsing ([f64::from_str]) *)

(** [m * 10^e], correctly rounded; [m] is positive. *)
Definition f64_of_decimal (sign : bool) (m : positive) (e : Z) : f64 :=
  if (0 <=? e)%Z then binary_normalize prec64 emax64 (cond_Zopp sign (Zpos m * 10 ^ e)) 0 sign
  else
    let '(q, e', loc) := SFdiv_core_binary prec64 emax64 (Zpos m) 0 (10 ^ (- e)) 0 in
    binary_round_aux prec64 emax64 sign q e' loc.

Definition take_digits (s : bytes) : bytes * bytes :=
  match position (fun c => negb (is_digit c)) s with
  | Some i => (take i s, drop i s)
  | None => (s, [])
  end.

Definition digits_value (s : bytes) : N := fold_left (fun acc c => acc * 10 + (bN c - 48)) s 0.

(** The exponent part: nothing, or [e] with an optional sign and digits. *)
Definition parse_exponent (s : bytes) : option Z :=
  match s with
  | [] => Some 0%Z
  | c :: r =>
    if bool_decide (c = x65) || bool_decide (c = x45) then
      let '(neg, r) :=
        match r with
        | x2d :: r' => (true, r')
        | x2b :: r' => (false, r')
        | _ => (false, r)
        end in
      if is_empty r || negb (List.forallb is_digit r) then None
      else let v := Z.of_N (digits_value r) in Some (if (neg : bool) then (- v)%Z else v)
    else None
  end.

Definition parse_f64 (s : bytes) : option f64 :=
  let '(sign, r) :=
    match s with
    | x2d :: r => (true, r)
    | x2b :: r => (false, r)
    | _ => (false, s)
    end in
  if eq_ignore_ascii_case r b#"inf" || eq_ignore_ascii_case r b#"infinity" then Some (S754_infinity sign)
  else if eq_ignore_ascii_case r b#"nan" then Some S754_nan
  else
    let '(int, r1) := take_digits r in
    let '(frac, r2) :=
      match r1 with
      | x2e :: r' => take_digits r'
      | _ => ([], r1)
      end in
    if is_empty int && is_empty frac then None
    else
      match parse_exponent r2 with
      | None => None
      | Some e =>
        match digits_value (int ++ frac) with
        | 0 => Some (S754_zero sign)
        | Npos m => Some (f64_of_decimal sign m (e - Z.of_nat (length frac)))
        end
      end.

(** * No NaN out of finite operands *)

Section not_nan.
Local Open Scope Z_scope.

Lemma shr_1_nonneg mrs : 0 <= shr_m mrs -> 0 <= shr_m (shr_1 mrs).
Proof. destruct mrs as [[|[p|p|]|[p|p|]] r s]; cbn; lia. Qed.

Lemma iter_pos_nonneg p mrs : 0 <= shr_m mrs -> 0 <= shr_m (iter_pos shr_1 p mrs).
Proof.
  revert mrs. induction p as [p IH|p IH|]; intros mrs Hm; cbn [iter_pos].
  - by apply IH, IH, shr_1_nonneg.
  - by apply IH, IH.
  - by apply shr_1_nonneg.
Qed.

Lemma shr_fexp_nonneg m e l : 0 <= m -> 0 <= shr_m (shr_fexp prec64 emax64 m e l).1.
Proof.
  intros Hm. unfold shr_fexp, shr.
  assert (H0 : 0 <= shr_m (shr_record_of_loc m l)) by (destruct l as [|[]]; done).
  destruct (_ - _)%Z; cbn [fst]; [done| |done]. by apply iter_pos_nonneg.
Qed.

Lemma binary_round_aux_not_nan s m e l :
  0 <= m -> is_nan (binary_round_aux prec64 emax64 s m e l) = false.
Proof.
  intros Hm. unfold binary_round_aux.
  assert (H1 := shr_fexp_nonneg m e l Hm). destruct (shr_fexp _ _ m e l) as [mrs e1]. cbn [fst] in H1.
  set (m2 := round_nearest_even _ _).
  assert (Hm2 : 0 <= m2).
  { unfold m2, round_nearest_even. destruct (loc_of_shr_record mrs) as [|[]]; try lia. case_if; lia. }
  assert (H2 := shr_fexp_nonneg m2 e1 loc_Exact Hm2).
  destruct (shr_fexp _ _ m2 e1 loc_Exact) as [mrs2 e2]. cbn [fst] in H2.
  destruct (shr_m mrs2); [done| |lia]. by case_if.
Qed.

Lemma binary_normalize_not_nan m e s : is_nan (binary_normalize prec64 emax64 m e s) = false.
Proof.
  destruct m as [|p|p]; cbn [binary_normalize]; [done| |];
    unfold binary_round; destruct (shl_align _ _ _) as [mz ez]; by apply binary_round_aux_not_nan.
Qed.
End not_nan.

Lemma f64_of_N_not_nan n : is_nan (f64_of_N n) = false.
Proof. apply binary_normalize_not_nan. Qed.

Lemma f64_div_not_nan x y :
  is_finite x = true -> f64_gt y f0 = true -> is_nan (f64_div x y) = false.
Proof.
  destruct x as [sx| | |sx mx ex], y as [sy| | |sy my ey]; try done.
  intros _ _. unfold f64_div. cbn [SFdiv]. destruct (SFdiv_core_binary _ _ _ _ _ _) as [[q e'] l] eqn:E.
  apply binary_round_aux_not_nan.
  unfold SFdiv_core_binary in E.
  match type of E with context [Z.div_eucl ?a ?b] =>
    assert (Ha : (0 <= a)%Z); [|assert (Hq := Z.div_pos a b); unfold Z.div in Hq;
      destruct (Z.div_eucl a b) as [q' r']] end.
  - destruct (Z.sub _ _) as [|p|p]; [lia| |lia]. apply Z.shiftl_nonneg. lia.
  - injection E as <- _ _. apply Hq; lia.
Qed.

Lemma f64_mul_100_not_nan x : is_nan x = false -> is_nan (f64_mul x f100) = false.
Proof.
  destruct x as [s|s| |s m e]; try done. intros _. unfold f64_mul, f100. cbn [SFmul].
  apply binary_round_aux_not_nan. lia.
Qed.

(** What [clamp(0.0, 100.0)] promises of a value that is not a NaN. *)
Definition is_percent (x : f64) : Prop := f64_le f0 x = true /\ f64_le x f100 = true.

Lemma clamp_percent x : is_nan x = false -> is_percent (clamp x f0 f100).
Proof.
  intros Hx. unfold clamp, is_percent.
  destruct (f64_lt x f0) eqn:El; [by vm_compute|].
  destruct (f64_gt x f100) eqn:Eg; [by vm_compute|]. split.
  - destruct x as [s|s| |s m e]; unfold f64_lt, f64_le, SFltb, SFleb, f0 in *; cbn in *; by try destruct s.
  - destruct x as [s|s| |s m e]; [by destruct s| |done|]; unfold f64_gt, f64_le, SFltb, SFleb, f100 in *;
      cbn [SFcompare] in *; [by destruct s|].
    destruct s; [done|]. rewrite (Z.compare_antisym e) in Eg.
    destruct (Z.compare e (-46)); cbn [CompOpp] in Eg; [|done|done].
    assert (Ha := Pos.compare_cont_antisym m 7036874417766400 Eq). cbn [CompOpp] in Ha.
    rewrite <- Ha in Eg. by destruct (Pos.compare_cont Eq m _).
Qed.

(** * Parts of a whole *)

Section share.
Local Open Scope Z_scope.

(** ** Digits *)

Lemma digits2_bounds p : 2 ^ (Z.pos (digits2_pos p) - 1) <= Z.pos p < 2 ^ Z.pos (digits2_pos p).
Proof.
  induction p as [p IH|p IH|]; cbn [digits2_pos]; [..|by vm_compute];
    rewrite Pos2Z.inj_succ; replace (Z.succ (Z.pos (digits2_pos p)) - 1) with (Z.succ (Z.pos (digits2_pos p) - 1)) by lia;
    rewrite !Z.pow_succ_r by lia; lia.
Qed.

Lemma digits2_lt p n : 0 <= n -> Z.pos p < 2 ^ n -> Z.pos (digits2_pos p) <= n.
Proof.
  intros Hn Hp. destruct (digits2_bounds p) as [Hd _].
  assert (2 ^ (Z.pos (digits2_pos p) - 1) < 2 ^ n) as Hl by lia. apply Z.pow_lt_mono_r_iff in Hl; lia.
Qed.

Lemma digits2_shift p k : Z.pos (digits2_pos (Pos.iter xO p k)) = Z.pos (digits2_pos p) + Z.pos k.
Proof. induction k as [|k IH] using Pos.peano_ind; [cbn; lia|]. rewrite Pos.iter_succ. cbn [digits2_pos]. lia. Qed.

Lemma iter_xO p k : Z.pos (Pos.iter xO p k) = Z.pos p * 2 ^ Z.pos k.
Proof.
  induction k as [|k IH] using Pos.peano_ind; [cbn; lia|].
  rewrite Pos.iter_succ, Pos2Z.inj_succ, Z.pow_succ_r by lia. lia.
Qed.

(** ** Shifts *)

Lemma iter_pos_nat {A} (f : A -> A) p x : iter_pos f p x = Nat.iter (Pos.to_nat p) f x.
Proof.
  revert x. induction p as [p IH|p IH|]; intros x; cbn [iter_pos]; rewrite ?IH; [| |done].
  - rewrite Pos2Nat.inj_xI, <- Nat.iter_add, <- Nat.iter_succ_r. f_equal. lia.
  - rewrite Pos2Nat.inj_xO, <- Nat.iter_add. f_equal. lia.
Qed.

Lemma shr_1_spec m r s : 0 <= m -> shr_1 (Build_shr_record m r s) = Build_shr_record (m / 2) (Z.odd m) (r || s).
Proof. intros Hm. rewrite <- Z.div2_div. by destruct m as [|[p|p|]|p]. Qed.

Lemma shr_iter k m l :
  0 <= m ->
  let mrs := Nat.iter k shr_1 (shr_record_of_loc m l) in
  shr_m mrs = m / 2 ^ Z.of_nat k /\ (m = shr_m mrs * 2 ^ Z.of_nat k -> l = loc_Exact -> loc_of_shr_record mrs = loc_Exact).
Proof.
  intros Hm. cbv zeta. induction k as [|k [IHm IHl]].
  { cbn [Nat.iter]. rewrite Z.div_1_r. split; [by destruct l as [|[]]|]. by intros _ ->. }
  rewrite Nat.iter_succ, Nat2Z.inj_succ, Z.pow_succ_r by lia.
  destruct (Nat.iter k shr_1 _) as [m1 r s] eqn:E. cbn [shr_m] in *.
  assert (H1 : 0 <= m1) by (subst m1; apply Z.div_pos; lia). rewrite shr_1_spec by done. cbn [shr_m]. split.
  - rewrite IHm, Z.div_div by lia. f_equal. lia.
  - intros Hex ->. assert (Hm1 : m1 = 2 * (m1 / 2)).
    { assert (m / 2 ^ Z.of_nat k = 2 * (m1 / 2)); [|lia]. rewrite Hex at 1.
      replace (m1 / 2 * (2 * 2 ^ Z.of_nat k)) with (2 * (m1 / 2) * 2 ^ Z.of_nat k) by lia. apply Z.div_mul. lia. }
    assert (Hl : loc_of_shr_record {| shr_m := m1; shr_r := r; shr_s := s |} = loc_Exact).
    { apply IHl; [|done]. rewrite Hex at 1. rewrite Hm1 at 2. lia. }
    assert (Ho : Z.odd m1 = false) by (rewrite Hm1, Z.odd_mul; done). rewrite Ho. by destruct r, s.
Qed.

Lemma shr_fexp_spec m e l :
  0 <= m ->
  exists k, 0 <= k /\ (k = 0 \/ e + k = fexp prec64 emax64 (Zdigits2 m + e)) /\
    (shr_fexp prec64 emax64 m e l).2 = e + k /\
    let mrs := (shr_fexp prec64 emax64 m e l).1 in
    shr_m mrs = m / 2 ^ k /\ (m = shr_m mrs * 2 ^ k -> l = loc_Exact -> loc_of_shr_record mrs = loc_Exact).
Proof.
  intros Hm. unfold shr_fexp, shr.
  destruct (_ - e) as [|p|p] eqn:Ek; [exists 0|exists (Z.pos p)|exists 0]; cbn [fst snd].
  1,3: assert (Hs := shr_iter 0 m l Hm); split_and!; [lia|by left|lia|apply Hs..].
  rewrite iter_pos_nat. assert (Hs := shr_iter (Pos.to_nat p) m l Hm). rewrite positive_nat_Z in Hs.
  split_and!; [lia|right; lia|lia|apply Hs..].
Qed.

(** ** Rounding under a bound *)

(** A number not yet rounded, [m * 2 ^ e] and a little more unless [l] says that it
    is exact, is at most [B]. *)
Definition within (B E m e : Z) (l : location) : Prop :=
  0 <= m /\ e <= E /\ m <= B * 2 ^ (- e) /\ (m = B * 2 ^ (- e) -> l = loc_Exact).

Section bound.
Context (B E : Z) (HB : 0 < B < 2 ^ (E + 53)) (HE : -53 <= E <= 0).

Lemma fexp_below m e l : within B E m e l -> fexp prec64 emax64 (Zdigits2 m + e) <= E.
Proof.
  intros (Hm & He & Hle & _). unfold fexp, emin, prec64, emax64.
  destruct m as [|p|p]; [cbn; lia| |lia]. cbn [Zdigits2].
  assert (Z.pos p < 2 ^ (E + 53 - e)) as Hp.
  { replace (E + 53 - e) with (E + 53 + - e) by lia. rewrite Z.pow_add_r by lia.
    eapply Z.le_lt_trans; [exact Hle|]. apply Z.mul_lt_mono_pos_r; [apply Z.pow_pos_nonneg; lia|lia]. }
  apply digits2_lt in Hp; lia.
Qed.

Lemma shr_below m e l :
  within B E m e l ->
  let '(mrs, e') := shr_fexp prec64 emax64 m e l in within B E (shr_m mrs) e' (loc_of_shr_record mrs).
Proof.
  intros Hb. assert (Hf := fexp_below m e l Hb). destruct Hb as (Hm & He & Hle & Hex).
  destruct (shr_fexp_spec m e l Hm) as (k & Hk & Hcase & Hsnd & Hdiv & Hloc).
  destruct (shr_fexp _ _ m e l) as [mrs e']. cbn [fst snd] in *. subst e'.
  assert (Hk2 : 0 < 2 ^ k) by (apply Z.pow_pos_nonneg; lia).
  assert (Hek : e + k <= E) by (destruct Hcase; lia).
  assert (Hpow : 2 ^ (- e) = 2 ^ (- (e + k)) * 2 ^ k) by (rewrite <- Z.pow_add_r by lia; f_equal; lia).
  assert (Hmk : shr_m mrs * 2 ^ k <= m) by (rewrite Hdiv, Z.mul_comm; apply Z.mul_div_le; lia).
  split_and!; [rewrite Hdiv; apply Z.div_pos; lia|done| |].
  - rewrite Hdiv. apply Z.div_le_upper_bound; [lia|]. rewrite Hpow in Hle. lia.
  - intros Hm'. assert (Heq : m = B * 2 ^ (- e)) by (rewrite Hpow; nia).
    apply Hloc; [|by apply Hex]. rewrite Hm', Heq, Hpow. lia.
Qed.

Lemma round_below m e l : within B E m e l -> within B E (round_nearest_even m l) e loc_Exact.
Proof.
  intros (Hm & He & Hle & Hex). unfold within. destruct l as [|[]]; cbn [round_nearest_even]; [by split_and!|..].
  - assert (m < B * 2 ^ (- e)) by (destruct (Z.eq_dec m (B * 2 ^ (- e))) as [Hq|]; [by apply Hex in Hq|lia]).
    case_if; split_and!; try done; lia.
  - by split_and!.
  - assert (m < B * 2 ^ (- e)) by (destruct (Z.eq_dec m (B * 2 ^ (- e))) as [Hq|]; [by apply Hex in Hq|lia]).
    split_and!; try done; lia.
Qed.

(** A float between zero and the bound, with an exponent of at most [E]. *)
Definition at_most (x : f64) : Prop :=
  match x with
  | S754_zero s => s = false
  | S754_finite s m e => s = false /\ e <= E /\ Z.pos m <= B * 2 ^ (- e)
  | _ => False
  end.

Lemma round_aux_at_most m e l : within B E m e l -> at_most (binary_round_aux prec64 emax64 false m e l).
Proof.
  intros H0. unfold binary_round_aux. assert (H1 := shr_below m e l H0).
  destruct (shr_fexp _ _ m e l) as [mrs1 e1]. assert (H2 := shr_below _ _ _ (round_below _ _ _ H1)).
  destruct (shr_fexp _ _ _ e1 loc_Exact) as [mrs2 e2]. destruct H2 as (Hm & He & Hle & _).
  destruct (shr_m mrs2) as [|p|p]; [done| |lia]. rewrite (proj2 (Z.leb_le _ _)) by (unfold emax64, prec64; lia). done.
Qed.
End bound.

(** ** Integers *)

(** An integer of 53 bits is its float. *)
Lemma f64_of_pos p :
  Z.pos p < 2 ^ 53 -> exists m e, f64_of_Z (Z.pos p) = S754_finite false m e /\ e <= 0 /\ Z.pos m = Z.pos p * 2 ^ (- e).
Proof.
  intros Hp%digits2_lt; [|lia]. unfold f64_of_Z. cbn [binary_normalize]. unfold binary_round.
  set (d := Z.pos (digits2_pos p)) in *. assert (Hd : 1 <= d) by lia.
  assert (Hf : fexp prec64 emax64 (d + 0) = d - 53) by (unfold fexp, emin, prec64, emax64; lia). rewrite Hf.
  assert (Hal : exists m e, shl_align p 0 (d - 53) = (m, e) /\ -53 <= e <= 0 /\ Z.pos m = Z.pos p * 2 ^ (- e) /\
    Z.pos (digits2_pos m) = 53).
  { unfold shl_align. destruct (d - 53 - 0) as [|k|k] eqn:Ek; [exists p, 0; split_and!; [done|lia|lia|cbn; lia|fold d; lia]|lia|].
    exists (Pos.iter xO p k), (d - 53). split_and!; [done|lia|lia| |].
    - rewrite iter_xO. do 2 f_equal. lia.
    - rewrite digits2_shift. fold d. lia. }
  destruct Hal as (m & e & -> & He & Hm & Hdm). exists m, e. split_and!; [|lia|done].
  assert (Hs : shr_fexp prec64 emax64 (Z.pos m) e loc_Exact = (shr_record_of_loc (Z.pos m) loc_Exact, e)).
  { unfold shr_fexp. cbn [Zdigits2]. rewrite Hdm. unfold fexp, emin, prec64, emax64.
    replace (Z.max (53 + e - 53) (3 - 1024 - 53) - e) with 0 by lia. done. }
  unfold binary_round_aux. rewrite Hs. cbn [shr_record_of_loc loc_of_shr_record shr_m round_nearest_even]. rewrite Hs.
  cbn [shr_record_of_loc shr_m]. by rewrite (proj2 (Z.leb_le _ _)) by (unfold emax64, prec64; lia).
Qed.

(** ** The share *)

Lemma div_exact_loc d r : r = 0 -> new_location d r = loc_Exact.
Proof. intros ->. unfold new_location, new_location_even, new_location_odd. by case_if. Qed.

Lemma div_at_most a d m1 e1 m2 e2 :
  Z.pos a <= Z.pos d -> e1 <= 0 -> e2 <= 0 -> Z.pos m1 = Z.pos a * 2 ^ (- e1) -> Z.pos m2 = Z.pos d * 2 ^ (- e2) ->
  at_most 1 0 (f64_div (S754_finite false m1 e1) (S754_finite false m2 e2)).
Proof.
  intros Had He1 He2 Hm1 Hm2. unfold f64_div. cbn [SFdiv]. unfold SFdiv_core_binary. cbn [Zdigits2].
  set (d1 := Z.pos (digits2_pos m1)). set (d2 := Z.pos (digits2_pos m2)).
  assert (HX : d1 + e1 - (d2 + e2) <= 0).
  { destruct (digits2_bounds m1) as [Hl _]. destruct (digits2_bounds m2) as [_ Hu]. fold d1 in Hl. fold d2 in Hu.
    assert (0 < 2 ^ (- e1)) by (apply Z.pow_pos_nonneg; lia). assert (0 < 2 ^ (- e2)) by (apply Z.pow_pos_nonneg; lia).
    assert (Hlt : 2 ^ (d1 - 1 + - e2) < 2 ^ (d2 + - e1)).
    { rewrite !Z.pow_add_r by lia. apply Z.le_lt_trans with (Z.pos m1 * 2 ^ (- e2)); [nia|].
      apply Z.le_lt_trans with (Z.pos m2 * 2 ^ (- e1)); [|nia]. rewrite Hm1, Hm2. nia. }
    apply Z.pow_lt_mono_r_iff in Hlt; lia. }
  set (e' := Z.min _ _). assert (He' : e' <= 0 /\ e' <= e1 - e2) by (unfold e', fexp, emin, prec64, emax64; lia).
  destruct He' as [He'0 He'1]. set (m' := match e1 - e2 - e' with Z0 => _ | _ => _ end).
  assert (Hm' : m' = Z.pos a * 2 ^ (- e2 - e')).
  { assert (Hs : m' = Z.pos m1 * 2 ^ (e1 - e2 - e')).
    { unfold m'. destruct (e1 - e2 - e') as [|s|s] eqn:Es; [cbn; lia|by rewrite Z.shiftl_mul_pow2 by lia|lia]. }
    rewrite Hs, Hm1, <- Z.mul_assoc, <- Z.pow_add_r by lia. do 2 f_equal. lia. }
  assert (Hd := Z_div_mod m' (Z.pos m2) ltac:(lia)). destruct (Z.div_eucl m' (Z.pos m2)) as [q r]. destruct Hd as [Hq Hr].
  assert (0 < 2 ^ (- e')) by (apply Z.pow_pos_nonneg; lia). assert (0 < 2 ^ (- e2)) by (apply Z.pow_pos_nonneg; lia).
  assert (Hle : m' <= Z.pos m2 * 2 ^ (- e')).
  { rewrite Hm', Hm2, <- Z.mul_assoc, <- Z.pow_add_r by lia. replace (- e2 + - e') with (- e2 - e') by lia.
    assert (0 < 2 ^ (- e2 - e')) by (apply Z.pow_pos_nonneg; lia). nia. }
  assert (Hm0 : 0 <= m') by (rewrite Hm'; assert (0 < 2 ^ (- e2 - e')) by (apply Z.pow_pos_nonneg; lia); nia).
  apply (round_aux_at_most 1 0); [cbn; lia|lia|]. split_and!; [nia|done|nia|].
  intros Heq. apply div_exact_loc. rewrite Z.mul_1_l in Heq. rewrite Heq in Hq. nia.
Qed.

Lemma mul_at_most q : at_most 1 0 q -> at_most 100 (-46) (f64_mul q f100).
Proof.
  destruct q as [s| | |s m e]; cbn [at_most]; try done; [by intros ->|]. intros (-> & He & Hm).
  unfold f64_mul, f100. cbn [SFmul xorb]. apply round_aux_at_most; [cbn; lia|lia|].
  assert (Hp : 2 ^ (- (e + -46)) = 2 ^ (- e) * 2 ^ 46) by (rewrite <- Z.pow_add_r by lia; f_equal; lia).
  split_and!; [lia|lia| |done]. rewrite Hp, Pos2Z.inj_mul. change (2 ^ 46) with 70368744177664. lia.
Qed.

Lemma at_most_percent x : at_most 100 (-46) x -> is_percent x.
Proof.
  destruct x as [s| | |s m e]; cbn [at_most]; try done. intros (-> & He & Hm). split; [done|].
  unfold f64_le, SFleb, f100. cbn [SFcompare]. destruct (Z.compare_spec e (-46)) as [->|Hlt|Hgt]; [|done|lia].
  change (- -46) with 46 in Hm. change (100 * 2 ^ 46) with 7036874417766400 in Hm.
  destruct (Pos.compare_cont Eq m 7036874417766400) eqn:Ec; [done|done|].
  apply Pos.compare_gt_iff in Ec. lia.
Qed.

(** A part is at most a hundred percent of its whole. *)
Lemma share_percent part whole :
  (part <= whole)%N -> (0 < whole)%N -> (whole < 2 ^ 53)%N ->
  is_percent (f64_mul (f64_div (f64_of_N part) (f64_of_N whole)) f100).
Proof.
  intros Hle H0 Hw. apply at_most_percent, mul_at_most. unfold f64_of_N.
  destruct whole as [|d]; [lia|]. cbn [Z.of_N]. destruct (f64_of_pos d) as (m2 & e2 & -> & He2 & Hm2); [lia|].
  destruct part as [|a]; [done|]. cbn [Z.of_N]. destruct (f64_of_pos a) as (m1 & e1 & -> & He1 & Hm1); [lia|].
  by apply (div_at_most a d).
Qed.
End share.
