(* ===== verification/Text.v ===== *)
(** [src/src/logs/text.rs]: the byte-level primitives of the tailer's per-line
    hot path, [lossy] and [read_line], over the I/O behaviour of a [BufRead]. *)
From S2P Require Import Prelude Str StrFacts External.
From Stdlib Require Import Strings.Byte.

(** * Readers

    A [BufRead] is the sequence of answers its [fill_buf] calls give: a buffer
    of bytes (an empty one means end of file at that moment; bytes may follow
    it when a writer appends meanwhile), an [Interrupted] error, or another
    error. The exhausted sequence stays at end of file. *)
Inductive fill :=
| Data (c : bytes)
| Interrupted
| IoErr.

Notation reader := (list fill).

Inductive io_result (A : Type) :=
| Ok (a : A)
| Err.
Arguments Ok {A} _.
Arguments Err {A}.

(** [reader.consume(used)] of the buffer [c] at the head of the sequence. *)
Definition consume (used : nat) (c : bytes) (r : reader) : reader :=
  match drop used c with
  | [] => r
  | rest => Data rest :: r
  end.

Section text.
Context `{SimdUtf8, Memchr}.

Definition lossy (s : bytes) : bytes :=
  match simd_from_utf8 s with
  | Some text => text
  | None => from_utf8_lossy s
  end.

(** [read] is the running count, [buf] the caller's vector. *)
Fixpoint read_line_from (r : reader) (buf : bytes) (read : N) : io_result N * bytes * reader :=
  match r with
  | [] => (Ok read, buf, [])
  | Interrupted :: r' => read_line_from r' buf read
  | IoErr :: r' => (Err, buf, r')
  | Data available :: r' =>
    match memchr nl available with
    | Some i =>
      let used := S i in
      (Ok (read + N.of_nat used), buf ++ take used available, consume used available r')
    | None =>
      let buf' := buf ++ available in
      if is_empty available then (Ok read, buf', r')
      else read_line_from r' buf' (read + len available)
    end
  end.

Definition read_line (r : reader) (buf : bytes) : io_result N * bytes * reader :=
  read_line_from r buf 0.
End text.

(** * Properties *)

(** The bytes a reader can still deliver before its first hard error. *)
Fixpoint stream (r : reader) : bytes :=
  match r with
  | [] => []
  | Data c :: r' => c ++ stream r'
  | Interrupted :: r' => stream r'
  | IoErr :: _ => []
  end.

(** A measure every successful non-empty [read_line] decreases. *)
Fixpoint reader_size (r : reader) : nat :=
  match r with
  | [] => 0
  | Data c :: r' => S (length c) + reader_size r'
  | _ :: r' => S (reader_size r')
  end.

(** One line: bytes up to and including the first newline, or bytes with none. *)
Definition is_line (l : bytes) : Prop :=
  nl ∉ l \/ exists body, l = body ++ [nl] /\ nl ∉ body.

Lemma consume_stream used c r : c <> [] -> stream (consume used c r) = drop used c ++ stream r.
Proof. intros _. unfold consume. by destruct (drop used c). Qed.

Lemma consume_size used c r :
  (0 < used <= length c)%nat -> (reader_size (consume used c r) <= length c + reader_size r)%nat.
Proof.
  intros Hu. unfold consume. destruct (drop used c) as [|b l] eqn:E; [lia|].
  apply (f_equal length) in E. rewrite length_drop in E. cbn in *. lia.
Qed.

Lemma position_Some (p : byte -> bool) (s : bytes) i :
  position p s = Some i ->
  exists c, s = take i s ++ c :: drop (S i) s /\ p c = true /\
            Forall (fun x => p x = false) (take i s) /\ (i < length s)%nat.
Proof.
  revert i. induction s as [|x s IH]; intros i; cbn; [done|].
  destruct (p x) eqn:E.
  - intros [= <-]. exists x. cbn. split_and!; [done|done|constructor|lia].
  - intros Hi. apply fmap_Some in Hi as (j & Hj & ->).
    destruct (IH j Hj) as (c & Hs & Hc & Hf & Hl). exists c. cbn.
    split_and!; [by f_equal|done|by constructor|lia].
Qed.

Lemma position_None p s : position p s = None <-> Forall (fun x => p x = false) s.
Proof.
  induction s as [|x s IH]; cbn; [by split|]. rewrite Forall_cons, <- IH.
  destruct (p x); [by split; [|intros []] |].
  destruct (position p s); cbn; naive_solver.
Qed.

Lemma not_elem_of_forall (c : byte) (s : bytes) :
  Forall (fun x => bool_decide (x = c) = false) s <-> c ∉ s.
Proof.
  rewrite Forall_forall. split.
  - intros H Hin. specialize (H c Hin). by case_bool_decide.
  - intros H x Hx. apply bool_decide_eq_false_2. by intros ->.
Qed.

Lemma find_byte_Some c s i :
  find_byte c s = Some i ->
  s = take i s ++ c :: drop (S i) s /\ c ∉ take i s /\ (i < length s)%nat.
Proof.
  intros (d & Hs & Hd & Hf & Hl)%position_Some. norm_bool. subst d.
  split_and!; [done | by apply not_elem_of_forall | done].
Qed.

Lemma find_byte_None c s : find_byte c s = None <-> c ∉ s.
Proof. unfold find_byte. by rewrite position_None, not_elem_of_forall. Qed.

(** The first newline of a byte string splits it. *)
Lemma find_byte_in (c : byte) (s : bytes) :
  c ∈ s -> exists body r, s = body ++ c :: r /\ c ∉ body.
Proof.
  intros Hin. destruct (find_byte c s) as [i|] eqn:E.
  - apply find_byte_Some in E as (Hs & Hn & _). eauto.
  - by apply find_byte_None in E.
Qed.

Lemma take_S_split (s : bytes) c i :
  s = take i s ++ c :: drop (S i) s -> take (S i) s = take i s ++ [c].
Proof.
  intros H. assert (Hl : s !! i = Some c).
  { rewrite H, lookup_app_r; rewrite length_take.
    - replace (i - i `min` length s)%nat with 0%nat; [done|].
      apply (f_equal length) in H. rewrite length_app, length_take, length_cons in H.
      lia.
    - lia. }
  by apply take_S_r.
Qed.

(** A reader that never fails and sees the end of file only when exhausted. *)
Definition quiet_fill (f : fill) : Prop :=
  match f with Data [] | IoErr => False | _ => True end.
Definition quiet (r : reader) : Prop := Forall quiet_fill r.

(** [read_until(b'\n')] on a byte string: the line, with its newline. *)
Definition first_line (s : bytes) : bytes :=
  match find_byte nl s with Some i => take (S i) s | None => s end.

Lemma find_byte_app_l c s t i : find_byte c s = Some i -> find_byte c (s ++ t) = Some i.
Proof.
  unfold find_byte. revert i. induction s as [|x s IH]; intros i; cbn; [done|].
  case_if; [done|]. intros (j & Hj & ->)%fmap_Some. by rewrite (IH j Hj).
Qed.

Lemma find_byte_app_r c s t :
  c ∉ s -> find_byte c (s ++ t) = (Nat.add (length s)) <$> find_byte c t.
Proof.
  unfold find_byte. induction s as [|x s IH]; intros Hs; cbn.
  - by destruct (position _ t).
  - rewrite elem_of_cons in Hs. rewrite bool_decide_eq_false_2 by naive_solver.
    rewrite IH by naive_solver. by destruct (position _ t).
Qed.

Lemma first_line_app s t : nl ∉ s -> first_line (s ++ t) = s ++ first_line t.
Proof.
  intros Hs. unfold first_line. rewrite find_byte_app_r by done.
  destruct (find_byte nl t) as [i|] eqn:E; cbn; [|done].
  rewrite take_app_ge by lia. by replace (S (length s + i) - length s)%nat with (S i) by lia.
Qed.

Lemma first_line_nil s : first_line s = [] -> s = [].
Proof.
  unfold first_line. destruct (find_byte nl s) as [i|] eqn:E; [|done].
  apply find_byte_Some in E as (_ & _ & Hl). by destruct s.
Qed.

Lemma first_line_no_nl s : nl ∉ first_line s -> nl ∉ s.
Proof.
  unfold first_line. destruct (find_byte nl s) as [i|] eqn:E; [|done].
  apply find_byte_Some in E as (Hs & _ & Hl). rewrite (take_S_split _ _ _ Hs). set_solver.
Qed.

Section text_facts.
Context `{SimdUtf8, Memchr, !SimdUtf8Ok, !MemchrOk}.

Lemma lossy_std s : lossy s = from_utf8_lossy s.
Proof.
  unfold lossy. rewrite simd_from_utf8_std. destruct (valid_utf8 s) eqn:E; [|done].
  by rewrite lossy_valid.
Qed.

Lemma lossy_app s t : valid_utf8 s = true -> lossy (s ++ t) = s ++ lossy t.
Proof. rewrite !lossy_std. apply lossy_app_valid. Qed.

Lemma lossy_id s : valid_utf8 s = true -> lossy s = s.
Proof. rewrite lossy_std. apply lossy_valid. Qed.

Lemma lossy_nonempty s : s <> [] -> lossy s <> [].
Proof. rewrite lossy_std. by intros Hs ?%lossy_nil_inv. Qed.

Lemma read_line_from_size r buf read :
  let '(_, buf', r') := read_line_from r buf read in
  (reader_size r' <= reader_size r)%nat /\
  (buf' <> buf -> (reader_size r' < reader_size r)%nat).
Proof.
  revert buf read. induction r as [|[c| |] r IH]; intros buf read; cbn; [by split; [lia|]|..].
  - rewrite memchr_first. destruct (find_byte nl c) as [i|] eqn:E.
    + destruct (find_byte_Some _ _ _ E) as (_ & _ & Hl).
      assert (Hc := consume_size (S i) c r ltac:(lia)). split; lia.
    + destruct c as [|b c]; cbn [is_empty].
      * rewrite app_nil_r. cbn. split; [lia|done].
      * specialize (IH (buf ++ b :: c) (read + len (b :: c))).
        destruct (read_line_from _ _ _) as [[res buf'] r']. cbn. split; lia.
  - specialize (IH buf read). destruct (read_line_from _ _ _) as [[res buf'] r'].
    destruct IH as [? Hlt]. split; [lia|]. intros Hne. specialize (Hlt Hne). lia.
  - split; lia.
Qed.

(** What a successful read delivers: one line, taken off the front of the
    stream; the count returned is the number of bytes appended. *)
Lemma read_line_from_ok r buf read n buf' r' :
  nl ∉ buf -> read = len buf ->
  read_line_from r buf read = (Ok n, buf', r') ->
  is_line buf' /\ n = len buf' /\ buf ++ stream r = buf' ++ stream r'.
Proof.
  revert buf read. induction r as [|[c| |] r IH]; intros buf read Hb Hread; cbn.
  - intros [= <- <- <-]. split_and!; [by left|done|done].
  - rewrite memchr_first. destruct (find_byte nl c) as [i|] eqn:E.
    + intros [= <- <- <-].
      destruct (find_byte_Some _ _ _ E) as (Hs & Hn & Hl).
      assert (Ht := take_S_split _ _ _ Hs).
      split_and!.
      * right. exists (buf ++ take i c). rewrite Ht, app_assoc. split; [done|].
        rewrite elem_of_app. naive_solver.
      * subst read. rewrite len_app. unfold len. rewrite length_take. lia.
      * rewrite consume_stream by (by destruct c).
        rewrite <- app_assoc, (app_assoc (take _ c)). by rewrite take_drop.
    + apply find_byte_None in E. destruct c as [|b c]; cbn [is_empty].
      * intros [= <- <- <-]. rewrite app_nil_r. split_and!; [by left|done|done].
      * intros Hrec. apply IH in Hrec as (Hl & Hn & Hst).
        -- split_and!; [done|done|]. by rewrite <- Hst, <- app_assoc.
        -- rewrite elem_of_app. naive_solver.
        -- subst read. by rewrite len_app.
  - intros Hrec. by apply IH in Hrec.
  - done.
Qed.

Lemma read_line_ok r n l r' :
  read_line r [] = (Ok n, l, r') ->
  is_line l /\ n = len l /\ stream r = l ++ stream r' /\
  (l <> [] -> (reader_size r' < reader_size r)%nat).
Proof.
  unfold read_line. intros Hr. assert (Hs := read_line_from_size r [] 0). rewrite Hr in Hs.
  apply read_line_from_ok in Hr as (? & ? & ?); [|apply not_elem_of_nil|done].
  split_and!; [done..|apply Hs].
Qed.

(** ** Chunking is invisible

    Over a reader that only ever delivers data (with interruptions), the line
    read depends on the bytes alone, not on how the buffers split them. *)
Lemma read_line_from_quiet r buf :
  quiet r -> nl ∉ buf ->
  exists r', read_line_from r buf (len buf)
             = (Ok (len (buf ++ first_line (stream r))), buf ++ first_line (stream r), r') /\
    quiet r' /\ stream r = first_line (stream r) ++ stream r' /\ (nl ∉ stream r -> r' = []).
Proof.
  intros Hq. revert buf. induction Hq as [|[c| |] r Hc Hq IH]; intros buf Hb; cbn.
  - exists []. rewrite app_nil_r. by split_and!; [|constructor|..].
  - rewrite memchr_first. destruct (find_byte nl c) as [i|] eqn:E.
    + destruct (find_byte_Some _ _ _ E) as (Hs & Hn & Hl).
      assert (Hf : first_line (c ++ stream r) = take (S i) c).
      { unfold first_line. rewrite (find_byte_app_l _ _ _ _ E). apply take_app_le. lia. }
      rewrite Hf. exists (consume (S i) c r). split_and!.
      * rewrite len_app. unfold len at 3. rewrite length_take.
        by replace (S i `min` length c)%nat with (S i) by lia.
      * unfold consume. destruct (drop (S i) c) as [|x y] eqn:Ed; [done|].
        constructor; [done|done].
      * rewrite consume_stream by (by destruct c). rewrite app_assoc. by rewrite take_drop.
      * intros Hno. rewrite Hs in Hno. set_solver.
    + apply find_byte_None in E as Hno. destruct c as [|b c]; [done|]. cbn [is_empty].
      rewrite <- len_app. destruct (IH (buf ++ b :: c)) as (r' & Hr & Hq' & Hst & Hnil).
      { rewrite elem_of_app. naive_solver. }
      assert (Hf : first_line ((b :: c) ++ stream r) = (b :: c) ++ first_line (stream r)).
      { by apply first_line_app. }
      change (b :: c ++ stream r) with ((b :: c) ++ stream r). rewrite Hf. exists r'.
      rewrite Hr, <- app_assoc. split_and!; [done|done| |].
      * by rewrite <- app_assoc, <- Hst.
      * intros Hnl. apply Hnil. set_solver.
  - by apply IH.
  - done.
Qed.

Lemma read_line_quiet r :
  quiet r ->
  exists r', read_line r [] = (Ok (len (first_line (stream r))), first_line (stream r), r') /\
    quiet r' /\ stream r = first_line (stream r) ++ stream r' /\ (nl ∉ stream r -> r' = []).
Proof. intros Hq. apply (read_line_from_quiet r []); [done | apply not_elem_of_nil]. Qed.
End text_facts.

(** * Splitting at a byte *)

Lemma split_once_app c h (t : bytes) : c ∉ h -> split_once c (h ++ c :: t) = Some (h, t).
Proof.
  intros Hc. unfold split_once. rewrite find_byte_app_r by done.
  unfold find_byte, position. cbn. rewrite bool_decide_eq_true_2 by done. cbn.
  rewrite Nat.add_0_r, take_app_length. by rewrite drop_app_ge, Nat.sub_succ_l, Nat.sub_diag by lia.
Qed.

Lemma splitn_cons n c h (t : bytes) :
  c ∉ h -> splitn (S (S n)) c (h ++ c :: t) = h :: splitn (S n) c t.
Proof. intros Hc. cbn [splitn]. by rewrite split_once_app. Qed.
