(* ===== verification/Syslog.v ===== *)
(** [src/src/logs/syslog.rs]: the envelope parser of RFC 3164 and ISO 8601
    prefixed syslog lines. *)
From S2P Require Import Prelude Str StrFacts Text.
From Stdlib Require Import Strings.Byte.

Record SyslogParsed := mkSyslogParsed { program : bytes; body : bytes }.

Definition is_program_byte (b : byte) : bool :=
  is_alnum b || bool_decide (b = x2d) || bool_decide (b = x5f) || bool_decide (b = x2e).

Definition is_valid_program (name : bytes) : bool :=
  match name with
  | b :: rest => is_alpha b && forallb is_program_byte rest
  | [] => false
  end.

Definition syslog_parse (line : bytes) : option SyslogParsed :=
  match find_sub b#": " line with
  | None => None
  | Some sep =>
    let body := drop (sep + 2) line in
    let before_sep := take sep line in
    match rfind_byte space before_sep with
    | None => None
    | Some i =>
      let tag := drop (i + 1) before_sep in
      let program :=
        match find_byte x5b tag with
        | Some bracket => take bracket tag
        | None => tag
        end in
      if is_valid_program program then Some (mkSyslogParsed program body) else None
    end
  end.

(** * Properties *)

Lemma find_sub_Some p s i : find_sub p s = Some i -> exists r, drop i s = p ++ r.
Proof.
  revert i. induction s as [|x s IH]; intros i; cbn [find_sub].
  - destruct (starts_with p []) eqn:E; [|done]. intros [= <-].
    by apply starts_with_spec in E.
  - destruct (starts_with p (x :: s)) eqn:E.
    + intros [= <-]. by apply starts_with_spec in E.
    + intros Hi. apply fmap_Some in Hi as (j & Hj & ->). by apply IH.
Qed.

Lemma rfind_byte_Some c s i :
  rfind_byte c s = Some i -> s = take i s ++ c :: drop (S i) s /\ c ∉ drop (S i) s.
Proof.
  revert i. induction s as [|x s IH]; intros i; cbn [rfind_byte]; [done|].
  destruct (rfind_byte c s) as [j|] eqn:E.
  - intros [= <-]. destruct (IH j eq_refl) as [Hs Hn]. split; [|done].
    cbn [take drop app]. by f_equal.
  - case_bool_decide as Hx; [|done]. intros [= <-]. subst x. split; [done|].
    cbn [drop]. rewrite drop_0. clear -E. induction s as [|y s IH]; [apply not_elem_of_nil|].
    cbn in E. destruct (rfind_byte c s); [done|]. case_bool_decide; [done|].
    rewrite elem_of_cons. naive_solver.
Qed.

Lemma rfind_byte_app c s t :
  c ∉ t -> rfind_byte c (s ++ c :: t) = Some (length s).
Proof.
  intros Ht. assert (Hn : rfind_byte c t = None).
  { destruct (rfind_byte c t) as [i|] eqn:E; [|done].
    apply rfind_byte_Some in E as [E _]. rewrite E in Ht. set_solver. }
  induction s as [|x s IH]; cbn.
  - rewrite Hn, bool_decide_eq_true_2; done.
  - by rewrite IH.
Qed.

Lemma find_byte_app c s t : c ∉ s -> find_byte c (s ++ c :: t) = Some (length s).
Proof.
  intros Hs. induction s as [|x s IH]; cbn.
  - unfold find_byte. cbn. by rewrite bool_decide_eq_true_2.
  - unfold find_byte in *. cbn. rewrite elem_of_cons in Hs.
    rewrite bool_decide_eq_false_2 by naive_solver. rewrite IH by naive_solver. done.
Qed.

(** In a header that holds no [": "], followed by a tag that holds no colon,
    the separator found is the one that ends the tag. *)
Lemma find_sub_header pre tag rest :
  find_sub b#": " (pre ++ [space]) = None -> x3a ∉ tag ->
  find_sub b#": " (pre ++ space :: tag ++ b#": " ++ rest)
  = Some (length pre + 1 + length tag)%nat.
Proof.
  change b#": " with [x3a; space]. intros Hpre Htag. induction pre as [|x pre IH].
  - change (find_sub [x3a; space] (tag ++ [x3a; space] ++ rest) ≫= Some ∘ S
            = Some (S (length tag))).
    assert (Hgo : find_sub [x3a; space] (tag ++ [x3a; space] ++ rest) = Some (length tag)).
    { clear Hpre. induction tag as [|y tag IH]; [done|]. rewrite elem_of_cons in Htag.
      cbn [app find_sub starts_with]. rewrite bool_decide_eq_false_2 by naive_solver.
      cbn [andb app] in *. rewrite IH by naive_solver. done. }
    by rewrite Hgo.
  - assert (Hcons : forall t, starts_with [x3a; space] (x :: pre ++ space :: t)
        = starts_with [x3a; space] (x :: pre ++ [space])).
    { intros t. destruct pre as [|y pre]; cbn [app starts_with]; by rewrite ?andb_true_r. }
    cbn [app find_sub] in Hpre |- *. rewrite Hcons.
    destruct (starts_with [x3a; space] (x :: pre ++ [space])); [done|].
    cbn [app] in IH. rewrite IH; [done|].
    by destruct (find_sub [x3a; space] (pre ++ [space])).
Qed.

(** A line that is recognised really has the envelope shape: a header, a
    space, a program name made of the allowed characters, an optional part from a
    bracket on, the separator and the body, which together are the line; nothing
    of the line is lost or reordered. *)
Theorem syslog_parse_sound line p :
  syslog_parse line = Some p ->
  exists header pid,
    line = header ++ [space] ++ program p ++ pid ++ b#": " ++ body p /\
    is_valid_program (program p) = true /\
    (pid = [] \/ exists r, pid = x5b :: r) /\
    space ∉ program p ++ pid.
Proof.
  unfold syslog_parse. destruct (find_sub b#": " line) as [sep|] eqn:Esep; [|done].
  destruct (rfind_byte space (take sep line)) as [i|] eqn:Er; [|done].
  apply rfind_byte_Some in Er as [Hb Hn].
  set (tag := drop (i + 1) (take sep line)) in *.
  replace (S i) with (i + 1)%nat in Hb, Hn by lia.
  change (drop (i + 1) (take sep line)) with tag in Hb, Hn.
  apply find_sub_Some in Esep as [r Hr].
  assert (Hline : line = take sep line ++ b#": " ++ drop (sep + 2) line).
  { assert (Hd : drop (sep + 2) line = r) by (rewrite <- drop_drop, Hr; done).
    rewrite Hd, <- Hr. by rewrite take_drop. }
  remember (take i (take sep line)) as hd eqn:Ehd.
  destruct (find_byte x5b tag) as [br|] eqn:Eb; case_if; try done; intros [= <-]; cbn [program body].
  - apply find_byte_Some in Eb as (Ht & _ & _).
    exists hd, (x5b :: drop (S br) tag). split_and!; [|done|eauto|by rewrite <- Ht].
    rewrite Hline at 1. rewrite Hb at 1. rewrite Ht at 1.
    cbn [app]. rewrite <- !app_assoc. cbn [app]. by rewrite <- !app_assoc.
  - exists hd, []. split_and!; [|done|by left|by rewrite app_nil_r].
    rewrite Hline at 1. rewrite Hb at 1. by rewrite <- !app_assoc.
Qed.

Lemma syslog_parse_sound_witness :
  exists header pid,
    b#"Jan 1 host sshd[42]: hi" = header ++ [space] ++ b#"sshd" ++ pid ++ b#": " ++ b#"hi" /\
    is_valid_program b#"sshd" = true /\
    (pid = [] \/ exists r, pid = x5b :: r) /\
    space ∉ b#"sshd" ++ pid.
Proof.
  apply (syslog_parse_sound b#"Jan 1 host sshd[42]: hi" (mkSyslogParsed b#"sshd" b#"hi")). reflexivity.
Defined.

(** Completeness: every line of that shape is parsed into its parts. *)
Lemma syslog_parse_complete header prog pid msg :
  find_sub b#": " (header ++ [space]) = None ->
  is_valid_program prog = true ->
  (pid = [] \/ exists r, pid = x5b :: r) ->
  space ∉ pid -> x3a ∉ pid ->
  syslog_parse (header ++ [space] ++ prog ++ pid ++ b#": " ++ msg)
  = Some (mkSyslogParsed prog msg).
Proof.
  intros Hh Hp Hpid Hsp Hco.
  assert (Hbytes : forall c, c ∈ prog -> is_alpha c = true \/ is_program_byte c = true).
  { destruct prog as [|b prog]; [done|]. cbn in Hp. apply andb_true_iff in Hp as [Ha Hf].
    intros c [->|Hc]%elem_of_cons; [by left|right].
    rewrite forallb_forall in Hf. apply Hf. by apply list_elem_of_In. }
  assert (Hnot : forall c, is_alpha c = false -> is_program_byte c = false -> c ∉ prog).
  { intros c H1 H2 Hc. destruct (Hbytes c Hc); congruence. }
  assert (Hs : space ∉ prog ++ pid) by (rewrite elem_of_app; intros [?|?]; [by apply (Hnot space)|done]).
  assert (Hc : x3a ∉ prog ++ pid) by (rewrite elem_of_app; intros [?|?]; [by apply (Hnot x3a)|done]).
  unfold syslog_parse.
  replace (header ++ [space] ++ prog ++ pid ++ b#": " ++ msg)
    with (header ++ space :: (prog ++ pid) ++ b#": " ++ msg) by (cbn; by rewrite <- app_assoc).
  rewrite find_sub_header by done.
  set (tag := prog ++ pid) in *.
  assert (Hcut : header ++ space :: tag ++ b#": " ++ msg
                 = (header ++ space :: tag) ++ b#": " ++ msg) by (by rewrite <- app_assoc).
  assert (Hlen : length (header ++ space :: tag) = (length header + 1 + length tag)%nat)
    by (rewrite length_app; cbn; lia).
  rewrite Hcut, <- Hlen, take_app_length, <- drop_drop, drop_app_length.
  change (drop 2 (b#": " ++ msg)) with msg.
  rewrite rfind_byte_app by done.
  replace (length header + 1)%nat with (S (length header)) by lia.
  replace (drop (S (length header)) (header ++ space :: tag)) with tag.
  2: { change (header ++ space :: tag) with (header ++ [space] ++ tag).
       rewrite app_assoc, drop_app_length'; [done|]. rewrite length_app. cbn. lia. }
  assert (Hbr : match find_byte x5b tag with Some k => take k tag | None => tag end = prog).
  { subst tag. destruct Hpid as [->|[r ->]].
    - rewrite app_nil_r. rewrite (proj2 (find_byte_None _ _)); [done|]. by apply Hnot.
    - rewrite find_byte_app by (by apply Hnot). apply take_app_length. }
  rewrite Hbr, Hp. done.
Qed.
