(* ===== verification/Structured.v ===== *)
(** [src/src/logs/structured.rs]: structured extraction (JSON, logfmt) and
    severity classification of log lines, shared by the file tailer and the
    journald source. *)
From S2P Require Import Prelude Str StrFacts External Text Syslog.
From Stdlib Require Import Strings.Byte.

Record FileParseOpts := mkFileParseOpts {
  opt_syslog : bool;
  opt_structured : bool;
  opt_levels : bool;
}.

Record Classified := mkClassified {
  c_level : LogLevel;
  c_body : bytes;
  c_service : option bytes;
  c_payload : option Value;
}.

(** * logfmt *)

Definition is_logfmt_key_byte (b : byte) : bool :=
  is_alnum b || bool_decide (b = x5f) || bool_decide (b = x2d) || bool_decide (b = x2e).

(** [while k > 0 && is_logfmt_key_byte(bytes[k - 1]) { k -= 1 }]. *)
Fixpoint key_start (s : bytes) (k : nat) : nat :=
  match k with
  | O => O
  | S k' =>
    match s !! k' with
    | Some c => if is_logfmt_key_byte c then key_start s k' else k
    | None => k
    end
  end.

(** The body of the loop for one ['='] at [eq]. *)
Definition field_at (s : bytes) (eq : nat) : option nat :=
  let k := key_start s eq in
  if (k <? eq)%nat && (0 <? k)%nat && bool_decide (s !! (k - 1)%nat = Some space)
  then Some (k - 1)%nat else None.

Fixpoint first_field (s : bytes) (eqs : list nat) : option nat :=
  match eqs with
  | [] => None
  | eq :: rest =>
    match field_at s eq with
    | Some i => Some i
    | None => first_field s rest
    end
  end.

(** Maximal run of bytes satisfying [p], and what follows it. *)
Fixpoint span (p : byte -> bool) (s : bytes) : bytes * bytes :=
  match s with
  | [] => ([], [])
  | c :: r => if p c then let '(a, b) := span p r in (c :: a, b) else ([], s)
  end.

Definition is_space (c : byte) : bool := bool_decide (c = space).

(** A quoted value, from just after the opening quote: its text and the input
    after the closing quote (nothing when it is unterminated). The known
    escapes are of the quote, the backslash and [n]; an unknown one keeps its
    backslash. *)
Fixpoint quoted_value (s : bytes) : bytes * bytes :=
  match s with
  | [] => ([], [])
  | c :: r =>
    if bool_decide (c = x22) then ([], r)
    else if bool_decide (c = x5c) then
      match r with
      | d :: r' =>
        if bool_decide (d = x22) then let '(v, t) := quoted_value r' in (x22 :: v, t)
        else if bool_decide (d = x5c) then let '(v, t) := quoted_value r' in (x5c :: v, t)
        else if bool_decide (d = x6e) then let '(v, t) := quoted_value r' in (nl :: v, t)
        else let '(v, t) := quoted_value r in (c :: v, t)
      | [] => ([c], [])
      end
    else let '(v, t) := quoted_value r in (c :: v, t)
  end.

(** The scanning loop over the remaining input; every pass consumes at least
    one byte, so the length of the input is enough fuel. *)
Fixpoint logfmt_loop (fuel : nat) (s : bytes) : list (bytes * bytes) :=
  match fuel with
  | O => []
  | S fuel' =>
    match (span is_space s).2 with
    | [] => []
    | s1 =>
      match span is_logfmt_key_byte s1 with
      | (key, c :: s2) =>
        if is_empty key || negb (bool_decide (c = x3d)) then
          (* malformed: skip to the next space *)
          logfmt_loop fuel' (span (fun c => negb (is_space c)) (c :: s2)).2
        else
          match s2 with
          | q :: s3 =>
            if bool_decide (q = x22) then
              let '(value, rest) := quoted_value s3 in
              (key, value) :: logfmt_loop fuel' rest
            else
              let '(value, rest) := span (fun c => negb (is_space c)) s2 in
              (key, value) :: logfmt_loop fuel' rest
          | [] => (key, []) :: logfmt_loop fuel' []
          end
      | (_, []) => []  (* i >= bytes.len(): the skip loop ends the scan *)
      end
    end
  end.

Definition parse_logfmt_fields (s : bytes) : list (bytes * bytes) :=
  logfmt_loop (S (length s)) s.

(** * Severity tables *)

Definition numeric_level (n : N) : option LogLevel :=
  match n with
  | 0 => Some Emergency
  | 1 => Some Alert
  | 2 => Some Critical
  | 3 => Some Error
  | 4 => Some Warning
  | 5 => Some Notice
  | 6 => Some Info
  | 7 => Some Debug
  | _ => None
  end.

Fixpoint assoc_level (w : bytes) (t : list (bytes * LogLevel)) : option LogLevel :=
  match t with
  | [] => None
  | (k, l) :: r => if bool_decide (w = k) then Some l else assoc_level w r
  end.

(** The arms of [level_from_str]'s match, on the lowercased text. *)
Definition level_names : list (bytes * LogLevel) :=
  [(b#"trace", Debug); (b#"debug", Debug); (b#"info", Info); (b#"notice", Notice);
   (b#"warn", Warning); (b#"warning", Warning); (b#"err", Error); (b#"error", Error);
   (b#"crit", Critical); (b#"critical", Critical); (b#"fatal", Critical);
   (b#"panic", Critical)].

Definition level_from_str (s : bytes) : option LogLevel :=
  let t := trim s in
  match parse_u64 t with
  | Some n => numeric_level n
  | None => assoc_level (to_ascii_lowercase t) level_names
  end.

Definition level_from_value (v : Value) : option LogLevel :=
  match v with
  | VString s => level_from_str s
  | VNumber n => match as_u64 n with Some k => numeric_level k | None => None end
  | _ => None
  end.

Definition LEVEL_KEYS : list bytes := [b#"level"; b#"severity"; b#"lvl"].

(** The first key, in map order, that names a level; consumed only when its
    value is recognised. *)
Definition take_level (obj : Map) : option (LogLevel * Map) :=
  match find (fun kv : bytes * Value =>
                existsb (eq_ignore_ascii_case kv.1) LEVEL_KEYS) obj with
  | Some (key, _) =>
    match map_get key obj with
    | Some v =>
      match level_from_value v with
      | Some level => Some (level, map_remove key obj)
      | None => None
      end
    | None => None
    end
  | None => None
  end.

(** * Heuristic token scan *)

Definition LEVEL_SCAN_WINDOW : nat := 96.

Definition is_word_byte (b : byte) : bool := is_alnum b || bool_decide (b = x5f).

Definition level_tokens : list (bytes * LogLevel) :=
  [(b#"TRACE", Debug); (b#"trace", Debug); (b#"DEBUG", Debug); (b#"debug", Debug);
   (b#"INFO", Info); (b#"info", Info); (b#"NOTICE", Notice); (b#"notice", Notice);
   (b#"WARN", Warning); (b#"warn", Warning); (b#"WARNING", Warning); (b#"warning", Warning);
   (b#"ERR", Error); (b#"err", Error); (b#"ERROR", Error); (b#"error", Error);
   (b#"CRIT", Critical); (b#"crit", Critical); (b#"CRITICAL", Critical);
   (b#"critical", Critical); (b#"FATAL", Critical); (b#"fatal", Critical);
   (b#"PANIC", Critical); (b#"panic", Critical)].

Definition level_for_token (w : bytes) : option LogLevel := assoc_level w level_tokens.

Fixpoint scan_loop (fuel : nat) (window : bytes) : option LogLevel :=
  match fuel with
  | O => None
  | S fuel' =>
    match window with
    | [] => None
    | c :: r =>
      if negb (is_word_byte c) then scan_loop fuel' r
      else
        let '(token, rest) := span is_word_byte window in
        match level_for_token token with
        | Some level => Some level
        | None => scan_loop fuel' rest
        end
    end
  end.

Definition scan_line_level (line : bytes) : option LogLevel :=
  let window := take LEVEL_SCAN_WINDOW line in
  scan_loop (S (length window)) window.

(** * Classification *)

Section classify.
Context `{MemchrIter, SerdeJson}.

Definition logfmt_field_start (s : bytes) : option nat :=
  first_field s (memchr_iter x3d s).

(** [remove("msg").or_else(|| remove("message"))]. *)
Definition remove_message (obj : Map) : option Value * Map :=
  match map_get b#"msg" obj with
  | Some v => (Some v, map_remove b#"msg" obj)
  | None =>
    match map_get b#"message" obj with
    | Some v => (Some v, map_remove b#"message" obj)
    | None => (None, obj)
    end
  end.

Definition split_logfmt (message : bytes) : bytes * option Value :=
  match logfmt_field_start message with
  | Some split_at =>
    let fields := parse_logfmt_fields (drop (split_at + 1) message) in
    (take split_at message,
     if is_empty fields then None
     else Some (VObject (map_of_list (map (fun kv => (kv.1, VString kv.2)) fields))))
  | None => (message, None)
  end.

Definition split_message (message : bytes) : bytes * option Value :=
  let trimmed := trim_start message in
  match (if starts_with b#"{" trimmed then json_from_str trimmed else None) with
  | Some (VObject obj) =>
    let '(msg, obj') := remove_message obj in
    let body :=
      match msg with
      | Some (VString s) => s
      | Some other => json_to_string other
      | None => message
      end in
    (body, if is_empty obj' then None else Some (VObject obj'))
  | _ => split_logfmt message
  end.

Definition classify_line (line : bytes) (opts : FileParseOpts) : Classified :=
  let '(body_src, service) :=
    if opt_syslog opts then
      match syslog_parse line with
      | Some p => (Syslog.body p, Some (program p))
      | None => (line, None)
      end
    else (line, None) in
  let '(level, level_found, body, payload) :=
    if opt_structured opts then
      let '(b, fields) := split_message body_src in
      let '(level, level_found, fields') :=
        match (if opt_levels opts then fields else None) with
        | Some (VObject obj) =>
          match take_level obj with
          | Some (l, obj') => (l, true, Some (VObject obj'))
          | None => (Info, false, fields)
          end
        | _ => (Info, false, fields)
        end in
      let payload :=
        match fields' with
        | Some (VObject o) => if is_empty o then None else fields'
        | other => other
        end in
      (level, level_found, b, payload)
    else (Info, false, body_src, None) in
  let level' :=
    if opt_levels opts && negb level_found then
      match scan_line_level body with Some l => l | None => level end
    else level in
  mkClassified level' body service payload.
End classify.
