(* ===== verification/StructuredFacts.v ===== *)
(** Properties of the structured extraction of [Structured]: the ['=']-anchored
    search finds the first [key=value] token, the field scanner inverts logfmt
    rendering, the severity scan sees exactly the delimited tokens. *)
From S2P Require Import Prelude Str StrFacts External Text Syslog Structured.
From Stdlib Require Import Strings.Byte.

(** * [span] *)

Lemma span_app (p : byte -> bool) a s :
  forallb p a = true ->
  span p (a ++ s) = (a ++ (span p s).1, (span p s).2).
Proof.
  induction a as [|c a IH]; cbn; [by destruct (span p s)|].
  intros [-> Ha]%andb_true_iff. by rewrite IH.
Qed.

Lemma span_stop (p : byte -> bool) c s : p c = false -> span p (c :: s) = ([], c :: s).
Proof. cbn. by intros ->. Qed.

Lemma span_eq (p : byte -> bool) s : s = (span p s).1 ++ (span p s).2.
Proof.
  induction s as [|c s IH]; [done|]. cbn. destruct (p c); [|done].
  destruct (span p s). cbn in *. by f_equal.
Qed.

Lemma span_fst (p : byte -> bool) s : forallb p (span p s).1 = true.
Proof.
  induction s as [|c s IH]; [done|]. cbn. destruct (p c) eqn:E; [|done].
  destruct (span p s). cbn in *. by rewrite E.
Qed.

Lemma span_snd (p : byte -> bool) s c r : (span p s).2 = c :: r -> p c = false.
Proof.
  induction s as [|d s IH]; [done|]. cbn. destruct (p d) eqn:E; [|by intros [= <- <-]].
  by destruct (span p s).
Qed.

Lemma span_length (p : byte -> bool) s : (length (span p s).2 <= length s)%nat.
Proof. rewrite (span_eq p s) at 2. rewrite length_app. lia. Qed.

(** * The first logfmt field *)

(** Reference: probe at every space for a non-empty key followed by ['=']. *)
Definition looks_like_field (s : bytes) : bool :=
  match span is_logfmt_key_byte s with
  | (_ :: _, c :: _) => bool_decide (c = x3d)
  | _ => false
  end.

Fixpoint field_start_ref (s : bytes) : option nat :=
  match s with
  | [] => None
  | c :: r =>
    if is_space c && looks_like_field r then Some 0%nat else S <$> field_start_ref r
  end.

(** A space at [i], an ['='] at [eq], a non-empty key between. *)
Definition field_match (s : bytes) (i eq : nat) : Prop :=
  s !! i = Some space /\ (i + 1 < eq)%nat /\ s !! eq = Some x3d /\
  forall j c, (i < j < eq)%nat -> s !! j = Some c -> is_logfmt_key_byte c = true.

Lemma key_start_spec s k :
  (k <= length s)%nat ->
  (key_start s k <= k)%nat /\
  (forall j c, (key_start s k <= j < k)%nat -> s !! j = Some c -> is_logfmt_key_byte c = true) /\
  (forall k' c, key_start s k = S k' -> s !! k' = Some c -> is_logfmt_key_byte c = false).
Proof.
  induction k as [|k IH]; intros Hk; cbn; [split_and!; [lia | lia | done]|].
  destruct (lookup_lt_is_Some_2 s k) as [c Hc]; [lia|]. rewrite Hc.
  destruct (is_logfmt_key_byte c) eqn:E.
  - destruct (IH ltac:(lia)) as (Hle & Hin & Hout). split_and!; [lia| |done].
    intros j d Hj Hd. destruct (decide (j = k)) as [->|Hne]; [congruence|].
    eapply Hin; [|exact Hd]. lia.
  - split_and!; [lia|lia|]. intros k' d [= <-] Hd. congruence.
Qed.

Lemma space_not_key : is_logfmt_key_byte space = false.
Proof. done. Qed.

Lemma field_at_match s eq i :
  s !! eq = Some x3d -> field_at s eq = Some i <-> field_match s i eq.
Proof.
  intros Heq. assert (Hlt := lookup_lt_Some _ _ _ Heq).
  destruct (key_start_spec s eq ltac:(lia)) as (Hle & Hin & Hout).
  unfold field_at, field_match. set (k := key_start s eq) in *.
  split.
  - case_if; [|done]. intros [= <-]. apply andb_true_iff in Heqb as [Hb Hsp].
    apply andb_true_iff in Hb as [Hke Hk0]. apply Nat.ltb_lt in Hke, Hk0.
    norm_bool. split_and!; [done|lia|done|].
    intros j c Hj Hc. eapply Hin; [|exact Hc]. lia.
  - intros (Hsp & Hi & _ & Hkeys).
    assert (Hki : k = S i).
    { destruct (decide (k <= i)%nat) as [Hki|Hki].
      - assert (Hx := Hin i space ltac:(lia) Hsp). by rewrite space_not_key in Hx.
      - destruct k as [|k'] eqn:Ek; [lia|].
        destruct (decide (k' = i)) as [->|Hne]; [done|].
        destruct (lookup_lt_is_Some_2 s k') as [c Hc]; [lia|].
        assert (Hf := Hout k' c eq_refl Hc).
        assert (Ht := Hkeys k' c ltac:(lia) Hc). congruence. }
    rewrite Hki. replace (S i - 1)%nat with i by lia.
    rewrite bool_decide_eq_true_2 by done.
    replace (S i <? eq)%nat with true by (symmetry; apply Nat.ltb_lt; lia). done.
Qed.

Lemma positions_elem n c s j :
  j ∈ positions_from n c s <-> (n <= j)%nat /\ s !! (j - n)%nat = Some c.
Proof.
  revert n. induction s as [|x s IH]; intros n; cbn.
  - rewrite elem_of_nil. naive_solver.
  - rewrite elem_of_app, IH. case_bool_decide as Hx.
    + subst x. rewrite list_elem_of_singleton. split.
      * intros [->|[Hle Hl]]; [by rewrite Nat.sub_diag|].
        split; [lia|]. by replace (j - n)%nat with (S (j - S n)) by lia.
      * intros [Hle Hl]. destruct (decide (j = n)) as [->|Hne]; [by left|right].
        split; [lia|]. by replace (j - n)%nat with (S (j - S n)) in Hl by lia.
    + rewrite elem_of_nil. split.
      * intros [[]|[Hle Hl]]. split; [lia|]. by replace (j - n)%nat with (S (j - S n)) by lia.
      * intros [Hle Hl]. right. destruct (decide (j = n)) as [->|Hne].
        -- rewrite Nat.sub_diag in Hl. cbn in Hl. congruence.
        -- split; [lia|]. by replace (j - n)%nat with (S (j - S n)) in Hl by lia.
Qed.

Lemma positions_sorted n c s : StronglySorted Nat.lt (positions_from n c s).
Proof.
  revert n. induction s as [|x s IH]; intros n; cbn; [constructor|].
  destruct (bool_decide (x = c)); cbn; [|apply IH].
  constructor; [apply IH|]. apply Forall_forall. intros j [Hj _]%positions_elem. red. lia.
Qed.

(** The scan over sorted candidates stops at the first that matches. *)
Lemma first_field_spec s eqs :
  (forall e, e ∈ eqs -> s !! e = Some x3d) -> StronglySorted Nat.lt eqs ->
  match first_field s eqs with
  | Some i => exists e, e ∈ eqs /\ field_match s i e /\
                forall e' i', e' ∈ eqs -> (e' < e)%nat -> ~ field_match s i' e'
  | None => forall e i, e ∈ eqs -> ~ field_match s i e
  end.
Proof.
  intros Hall Hs. induction Hs as [|e eqs Hs IH Hf]; cbn; [by intros e i ?%elem_of_nil|].
  assert (He : s !! e = Some x3d) by (apply Hall; left).
  destruct (field_at s e) as [i|] eqn:E.
  - apply field_at_match in E; [|done]. exists e. split_and!; [by left|done|].
    intros e' i' [->|Hin]%elem_of_cons Hlt; [lia|].
    rewrite Forall_forall in Hf. specialize (Hf e' Hin). red in Hf. lia.
  - assert (Hno : forall i, ~ field_match s i e).
    { intros i Hm. apply field_at_match in Hm; [congruence|done]. }
    specialize (IH ltac:(intros; apply Hall; by right)).
    destruct (first_field s eqs) as [i|].
    + destruct IH as (e0 & Hin & Hm & Hmin). exists e0. split_and!; [by right|done|].
      intros e' i' [->|Hin']%elem_of_cons Hlt; [apply Hno | by apply Hmin].
    + intros e' i' [->|Hin']%elem_of_cons; [apply Hno | by apply IH].
Qed.

Lemma field_match_S c s i e : field_match (c :: s) (S i) (S e) <-> field_match s i e.
Proof.
  unfold field_match. cbn. split.
  - intros (? & ? & ? & Hk). split_and!; [done|lia|done|]. intros j d Hj Hd.
    apply (Hk (S j) d); [lia|done].
  - intros (? & ? & ? & Hk). split_and!; [done|lia|done|]. intros [|j] d Hj Hd; [lia|].
    apply (Hk j d); [lia|done].
Qed.

Lemma looks_like_field_match s :
  looks_like_field s = true <-> exists e, field_match (space :: s) 0 e.
Proof.
  unfold looks_like_field. assert (Heq := span_eq is_logfmt_key_byte s).
  assert (Hk := span_fst is_logfmt_key_byte s).
  assert (Hst := span_snd is_logfmt_key_byte s).
  destruct (span is_logfmt_key_byte s) as [k r]. cbn [fst snd] in *.
  assert (Hkey : forall j c, k !! j = Some c -> is_logfmt_key_byte c = true).
  { intros j c Hc. rewrite forallb_forall in Hk. apply Hk.
    apply list_elem_of_In. by eapply list_elem_of_lookup_2. }
  split.
  - destruct k as [|a k], r as [|c r]; try done. intros Hc. norm_bool. subst c.
    exists (S (S (length k))). unfold field_match. split_and!; [done|lia| |].
    + subst s. change (((a :: k) ++ x3d :: r) !! length (a :: k) = Some x3d).
      rewrite lookup_app_r by lia. by rewrite Nat.sub_diag.
    + intros [|j] c Hj Hc; [lia|]. subst s.
      change (((a :: k) ++ x3d :: r) !! j = Some c) in Hc.
      rewrite lookup_app_l in Hc by (cbn; lia). by eapply Hkey.
  - intros [e (_ & Hlt & He & Hkeys)]. destruct e as [|e]; [lia|].
    change (s !! e = Some x3d) in He.
    assert (Hlen : e = length k).
    { destruct (Nat.lt_trichotomy e (length k)) as [Hl|[->|Hl]]; [|done|].
      - subst s. rewrite lookup_app_l in He by done. by apply Hkey in He.
      - subst s. destruct r as [|c r].
        { rewrite app_nil_r in He. apply lookup_lt_Some in He. lia. }
        assert (Hc := Hst c r eq_refl).
        assert (Ht : is_logfmt_key_byte c = true).
        { apply (Hkeys (S (length k)) c); [lia|].
          change ((k ++ c :: r) !! length k = Some c). rewrite lookup_app_r by lia. by rewrite Nat.sub_diag. }
        congruence. }
    subst e s. rewrite lookup_app_r, Nat.sub_diag in He by lia.
    destruct k as [|a k]; [cbn in Hlt; lia|]. destruct r as [|c r]; [done|].
    cbn in He. injection He as ->. by apply bool_decide_eq_true_2.
Qed.

Lemma field_start_ref_spec s :
  match field_start_ref s with
  | Some i => (exists e, field_match s i e) /\
              forall i' e', (i' < i)%nat -> ~ field_match s i' e'
  | None => forall i e, ~ field_match s i e
  end.
Proof.
  induction s as [|c s IH]; cbn.
  - intros i e (H & _). by rewrite lookup_nil in H.
  - destruct (is_space c && looks_like_field s) eqn:E.
    + apply andb_true_iff in E as [Hc Hl]. unfold is_space in Hc. norm_bool. subst c.
      split; [by apply looks_like_field_match | lia].
    + assert (H0 : forall e, ~ field_match (c :: s) 0 e).
      { intros e Hm. assert (Hc := proj1 Hm). cbn in Hc. injection Hc as ->.
        unfold is_space in E. rewrite bool_decide_eq_true_2 in E by done. cbn in E.
        rewrite (proj2 (looks_like_field_match s)) in E; [done|by exists e]. }
      destruct (field_start_ref s) as [i|]; cbn.
      * destruct IH as [[e He] Hmin]. split.
        -- exists (S e). by apply field_match_S.
        -- intros [|i'] e' Hlt; [apply H0|]. destruct e' as [|e'].
           ++ intros (_ & ? & _). lia.
           ++ rewrite field_match_S. apply Hmin. lia.
      * intros [|i] e; [apply H0|]. destruct e as [|e]; [intros (_ & ? & _); lia|].
        rewrite field_match_S. apply IH.
Qed.

(** Matches do not overlap: the one that starts later also ends later. *)
Lemma field_match_order s i e i' e' :
  field_match s i e -> field_match s i' e' -> (i < i')%nat -> (e < e')%nat.
Proof.
  intros (_ & _ & He & Hk) (Hs' & Hlt' & _ & _) Hi.
  destruct (decide (i' < e)%nat) as [Hlt|Hge]; [|lia].
  assert (Hx := Hk i' space ltac:(lia) Hs'). by rewrite space_not_key in Hx.
Qed.

Section field_start.
Context `{MemchrIter, !MemchrIterOk}.

Lemma logfmt_field_start_eq s : logfmt_field_start s = field_start_ref s.
Proof.
  unfold logfmt_field_start. rewrite memchr_iter_all.
  assert (Hall : forall e, e ∈ positions_from 0 x3d s <-> s !! e = Some x3d).
  { intros e. rewrite positions_elem, Nat.sub_0_r. split; [by intros [] | split; [lia|done]]. }
  assert (Hf := first_field_spec s (positions_from 0 x3d s)
                  (fun e He => proj1 (Hall e) He) (positions_sorted 0 x3d s)).
  assert (Hr := field_start_ref_spec s).
  destruct (first_field s _) as [i|], (field_start_ref s) as [j|].
  - destruct Hf as (e & Hin & Hm & Hmin), Hr as [[e' Hm'] Hmin'].
    destruct (Nat.lt_trichotomy i j) as [Hij|[->|Hij]]; [|done|].
    + by destruct (Hmin' i e Hij).
    + assert (He := field_match_order _ _ _ _ _ Hm' Hm Hij).
      destruct (Hmin e' j); [by apply Hall, Hm'|lia|done].
  - destruct Hf as (e & _ & Hm & _). by destruct (Hr i e).
  - destruct Hr as [[e Hm] _]. destruct (Hf e j); [|done]. by apply Hall, Hm.
  - done.
Qed.
End field_start.

(** * Scanning fields *)

Lemma quoted_value_cons c r :
  quoted_value (c :: r) =
    if bool_decide (c = x22) then ([], r)
    else if bool_decide (c = x5c) then
      match r with
      | d :: r' =>
        if bool_decide (d = x22) then (x22 :: (quoted_value r').1, (quoted_value r').2)
        else if bool_decide (d = x5c) then (x5c :: (quoted_value r').1, (quoted_value r').2)
        else if bool_decide (d = x6e) then (nl :: (quoted_value r').1, (quoted_value r').2)
        else (c :: (quoted_value r).1, (quoted_value r).2)
      | [] => ([c], [])
      end
    else (c :: (quoted_value r).1, (quoted_value r).2).
Proof.
  cbn [quoted_value]. destruct r as [|d r]; repeat case_if; try done;
    by repeat match goal with |- context [let '(_, _) := ?x in _] => destruct x end.
Qed.

Lemma quoted_value_length s : (length (quoted_value s).2 <= length s)%nat.
Proof.
  remember (length s) as n eqn:Hn. revert s Hn.
  induction (lt_wf n) as [n _ IH]. intros s ->.
  assert (Hrec : forall t, (length t < length s)%nat ->
                           (length (quoted_value t).2 <= length t)%nat).
  { intros t Ht. by apply (IH (length t) Ht). }
  destruct s as [|c r]; [cbn; lia|]. rewrite quoted_value_cons.
  assert (H1 := Hrec r ltac:(cbn; lia)).
  destruct r as [|d r]; [repeat case_if; cbn in *; lia|].
  assert (H2 := Hrec r ltac:(cbn; lia)).
  repeat case_if; cbn [snd length] in *; lia.
Qed.

(** More fuel than bytes never changes the scan: the loop ends by itself. *)
Lemma logfmt_loop_enough f1 f2 s :
  (length s < f1)%nat -> (length s < f2)%nat -> logfmt_loop f1 s = logfmt_loop f2 s.
Proof.
  revert f2 s. induction f1 as [|f1 IH]; intros f2 s H1 H2; [lia|].
  destruct f2 as [|f2]; [lia|]. cbn [logfmt_loop].
  assert (Hsp := span_length is_space s).
  assert (Hns := span_snd is_space s).
  destruct (span is_space s).2 as [|c0 s1]; [done|].
  specialize (Hns c0 s1 eq_refl).
  assert (Hkl := span_eq is_logfmt_key_byte (c0 :: s1)).
  destruct (span is_logfmt_key_byte (c0 :: s1)) as [key [|c s2]]; [done|].
  cbn [fst snd] in Hkl. assert (Hlen := f_equal length Hkl).
  rewrite length_app in Hlen. cbn [length] in *.
  destruct (is_empty key || negb (bool_decide (c = x3d))) eqn:Ebad.
  - assert (Hskip := span_length (fun c => negb (is_space c)) s2).
    cbn [span]. destruct (negb (is_space c)) eqn:Ec.
    + destruct (span (fun c => negb (is_space c)) s2). cbn [snd] in *. apply IH; lia.
    + destruct key as [|k0 key].
      * cbn in Hkl. injection Hkl as -> ->. rewrite Hns in Ec. done.
      * cbn [snd length] in *. apply IH; cbn [length]; lia.
  - destruct s2 as [|q s3]; [f_equal; apply IH; cbn; lia|]. cbn [length] in *.
    case_if.
    + assert (Hq := quoted_value_length s3). destruct (quoted_value s3).
      cbn [snd] in Hq. f_equal. apply IH; lia.
    + assert (Hq := span_length (fun c => negb (is_space c)) (q :: s3)).
      destruct (span _ (q :: s3)). cbn [snd length] in Hq. f_equal. apply IH; lia.
Qed.

(** Rendering of a field list the scanner understands. *)
Definition escape_byte (c : byte) : bytes :=
  if bool_decide (c = x22) then [x5c; x22]
  else if bool_decide (c = x5c) then [x5c; x5c]
  else if bool_decide (c = nl) then [x5c; x6e]
  else [c].

Definition render_field (kv : bytes * bytes) : bytes :=
  kv.1 ++ [x3d; x22] ++ concat (map escape_byte kv.2) ++ [x22].

Definition render_fields (fs : list (bytes * bytes)) : bytes :=
  concat (map (fun kv => space :: render_field kv) fs).

Definition valid_key (k : bytes) : bool := negb (is_empty k) && forallb is_logfmt_key_byte k.

Lemma quoted_value_escape v t :
  quoted_value (concat (map escape_byte v) ++ x22 :: t) = (v, t).
Proof.
  induction v as [|c v IH]; [done|]. cbn [map concat]. rewrite <- app_assoc.
  unfold escape_byte at 1. repeat case_bool_decide; subst; cbn [app].
  - cbn. by rewrite IH.
  - cbn. by rewrite IH.
  - cbn. by rewrite IH.
  - cbn [quoted_value]. rewrite !bool_decide_eq_false_2 by done. by rewrite IH.
Qed.

Lemma span_space_key k r :
  valid_key k = true -> span is_space (space :: k ++ r) = ([space], k ++ r).
Proof.
  intros [Hne Hk]%andb_true_iff. destruct k as [|c k]; [done|].
  cbn [forallb] in Hk. apply andb_true_iff in Hk as [Hc _].
  change (space :: (c :: k) ++ r) with ([space] ++ c :: (k ++ r)).
  rewrite span_app by done. rewrite span_stop; [done|].
  unfold is_space. case_bool_decide; [by subst|done].
Qed.

Lemma logfmt_loop_render fuel fs :
  Forall (fun kv => valid_key kv.1 = true) fs -> (length fs < fuel)%nat ->
  logfmt_loop fuel (render_fields fs) = fs.
Proof.
  intros Hfs. revert fuel. induction Hfs as [|[k v] fs Hk Hfs IH]; intros [|fuel] Hl;
    cbn [length] in *; try lia; [done|].
  change (render_fields ((k, v) :: fs))
    with ((space :: render_field (k, v)) ++ render_fields fs).
  unfold render_field. cbn [fst snd] in *. cbn [app]. rewrite <- !app_assoc. cbn [app].
  cbn [logfmt_loop]. rewrite span_space_key by done. cbn [snd].
  assert (Hk' := Hk). apply andb_true_iff in Hk as [Hne Hkb].
  destruct k as [|c k]; [done|]. cbn [app].
  change (c :: k ++ x3d :: x22 :: (concat (map escape_byte v) ++ [x22]) ++ render_fields fs)
    with ((c :: k) ++ x3d :: x22 :: (concat (map escape_byte v) ++ [x22]) ++ render_fields fs).
  rewrite span_app by done. rewrite span_stop by done. cbn [fst snd app is_empty orb].
  rewrite app_nil_r. cbn iota. rewrite <- app_assoc. cbn [app].
  change (negb (bool_decide (x3d = x3d))) with false.
  change (bool_decide (x22 = x22)) with true. cbn iota.
  rewrite quoted_value_escape. f_equal. apply IH. lia.
Qed.

Lemma render_fields_length fs : (length fs <= length (render_fields fs))%nat.
Proof.
  induction fs as [|kv fs IH]; [done|].
  change (render_fields (kv :: fs)) with ((space :: render_field kv) ++ render_fields fs).
  rewrite length_app. cbn [length]. lia.
Qed.

Lemma parse_logfmt_render fs :
  Forall (fun kv => valid_key kv.1 = true) fs ->
  parse_logfmt_fields (render_fields fs) = fs.
Proof.
  intros Hfs. apply logfmt_loop_render; [done|].
  assert (H := render_fields_length fs). lia.
Qed.

(** Leading spaces make no difference, so the tail after the split point (which
    starts at the first key) is scanned the same way. *)
Lemma logfmt_loop_skip_space fuel s :
  (length s < fuel)%nat -> logfmt_loop fuel (space :: s) = logfmt_loop fuel s.
Proof.
  intros _. destruct fuel as [|fuel]; [done|]. cbn [logfmt_loop].
  change (space :: s) with ([space] ++ s). by rewrite span_app by done.
Qed.

Lemma parse_logfmt_render_tail kv fs :
  Forall (fun kv => valid_key kv.1 = true) (kv :: fs) ->
  parse_logfmt_fields (render_field kv ++ render_fields fs) = kv :: fs.
Proof.
  intros Hfs. unfold parse_logfmt_fields. rewrite <- logfmt_loop_skip_space by lia.
  change (space :: render_field kv ++ render_fields fs) with (render_fields (kv :: fs)).
  apply logfmt_loop_render; [done|]. cbn [length].
  assert (H := render_fields_length fs). rewrite length_app.
  unfold render_field. rewrite !length_app. cbn [length]. lia.
Qed.

Lemma looks_like_field_render kv rest :
  valid_key kv.1 = true -> looks_like_field (render_field kv ++ rest) = true.
Proof.
  intros [Hne Hk]%andb_true_iff. unfold looks_like_field, render_field.
  rewrite <- !app_assoc. rewrite span_app by done. cbn [app].
  rewrite span_stop by done. cbn [fst snd]. rewrite app_nil_r.
  by destruct kv.1 as [|c k].
Qed.

Lemma looks_like_field_phrase p t :
  x3d ∉ p -> looks_like_field (p ++ space :: t) = false.
Proof.
  intros Hp. unfold looks_like_field.
  destruct (span is_logfmt_key_byte (p ++ space :: t)) as [k r] eqn:E.
  assert (Heq := span_eq is_logfmt_key_byte (p ++ space :: t)).
  assert (Hk := span_fst is_logfmt_key_byte (p ++ space :: t)).
  rewrite E in Heq, Hk. cbn [fst snd] in *.
  destruct k as [|k0 k]; [done|]. destruct r as [|c r]; [done|].
  apply bool_decide_eq_false_2. intros ->.
  apply app_eq_inv in Heq as [(l & Hl & Hr)|(l & Hl & Hr)].
  - destruct l as [|x l]; [done|]. cbn in Hr. injection Hr as <- _.
    apply Hp. rewrite Hl. set_solver.
  - destruct l as [|x l].
    + by cbn in Hr.
    + cbn in Hr. injection Hr as <- _. rewrite Hl in Hk.
      rewrite forallb_app in Hk. apply andb_true_iff in Hk as [_ Hk]. done.
Qed.

Lemma field_start_ref_phrase p kv rest :
  x3d ∉ p -> valid_key kv.1 = true ->
  field_start_ref (p ++ space :: render_field kv ++ rest) = Some (length p).
Proof.
  intros Hp Hk. induction p as [|c p IH].
  - cbn [app field_start_ref]. by rewrite looks_like_field_render.
  - rewrite elem_of_cons in Hp. cbn [app field_start_ref].
    rewrite looks_like_field_phrase by naive_solver. rewrite andb_false_r.
    by rewrite IH by naive_solver.
Qed.

Section message.
Context `{MemchrIter, !MemchrIterOk, SerdeJson}.

Lemma split_logfmt_roundtrip phrase kv fs :
  x3d ∉ phrase -> Forall (fun kv => valid_key kv.1 = true) (kv :: fs) ->
  split_logfmt (phrase ++ render_fields (kv :: fs)) =
    (phrase, Some (VObject (map_of_list (map (fun kv => (kv.1, VString kv.2)) (kv :: fs))))).
Proof.
  intros Hp Hfs. unfold split_logfmt. rewrite logfmt_field_start_eq.
  change (render_fields (kv :: fs)) with (space :: render_field kv ++ render_fields fs).
  assert (Hk : valid_key kv.1 = true) by (by apply Forall_cons in Hfs as [? _]).
  rewrite field_start_ref_phrase by done.
  rewrite take_app_length.
  rewrite <- drop_drop, drop_app_length. cbn [drop]. rewrite drop_0.
  by rewrite parse_logfmt_render_tail.
Qed.

Lemma split_message_plain message :
  starts_with b#"{" (trim_start message) = false -> split_message message = split_logfmt message.
Proof. intros E. unfold split_message. by rewrite E. Qed.
End message.

(** * Severity tokens *)

(** Reference tokenizer: the maximal runs of word bytes, by structural
    recursion. *)
Fixpoint tokens (s : bytes) : list bytes :=
  match s with
  | [] => []
  | c :: r =>
    if is_word_byte c then
      match r with
      | d :: _ =>
        if is_word_byte d then
          match tokens r with
          | t :: ts => (c :: t) :: ts
          | [] => [[c]]
          end
        else [c] :: tokens r
      | [] => [[c]]
      end
    else tokens r
  end.

Lemma tokens_span s c r :
  s = c :: r -> is_word_byte c = true ->
  tokens s = (span is_word_byte s).1 :: tokens (span is_word_byte s).2.
Proof.
  revert c r. induction s as [|x s IH]; intros c r [= -> <-] Hc.
  cbn [span]. rewrite Hc. cbn [tokens]. rewrite Hc.
  destruct s as [|d s]; [done|].
  destruct (is_word_byte d) eqn:Ed.
  - rewrite (IH d s) by done. by destruct (span is_word_byte (d :: s)).
  - rewrite span_stop by done. done.
Qed.

Lemma scan_loop_tokens fuel s :
  (length s < fuel)%nat -> scan_loop fuel s = head (omap level_for_token (tokens s)).
Proof.
  revert s. induction fuel as [|fuel IH]; intros s Hl; [lia|].
  destruct s as [|c r]; [done|]. cbn [scan_loop].
  destruct (is_word_byte c) eqn:Ec; cbn [negb].
  - rewrite (tokens_span (c :: r) c r) by done.
    assert (Hlen := span_length is_word_byte r).
    cbn [span] in *. rewrite Ec. destruct (span is_word_byte r) as [a b]. cbn [fst snd] in *.
    cbn [omap list_omap]. destruct (level_for_token (c :: a)); [done|].
    apply IH. cbn in Hl. lia.
  - cbn [tokens]. rewrite Ec. apply IH. cbn in Hl. lia.
Qed.

(** The severity scan of a line is the level of the first severity word among
    the words (maximal runs of letters, digits and underscores) of its first
    [LEVEL_SCAN_WINDOW] bytes: a severity name inside a longer word is not one. *)
Theorem scan_line_level_tokens line :
  scan_line_level line = head (omap level_for_token (tokens (take LEVEL_SCAN_WINDOW line))).
Proof. apply scan_loop_tokens. lia. Qed.
