(* ===== verification/Sink.v ===== *)
(** [src/src/sink.rs]: the output sink of metrics and logs, and the interface
    the log sources use it through.

    [Sink] wraps the Tell SDK client (live mode), a printing counter (dry run)
    or nothing (discard). The SDK is third-party code: [TellClient] is the part
    of its API the agent calls, [TellClientOk] the documented behaviour of its
    channel. [LogSink] is what the sink promises to the log sources; the
    sources' theorems are proved for every [LogSinkOk], which the live and
    dry-run sinks discharge here. *)
From S2P Require Import Prelude Str StrFacts External F64.
From Stdlib Require Import Strings.Byte.

Notation label := (bytes * bytes)%type.

(** One log call: [(level, message, component, service, data)]. *)
Record LogEntry := mkLogEntry {
  e_level : LogLevel;
  e_message : bytes;
  e_component : option bytes;
  e_service : option bytes;
  e_data : option Value;
}.

Inductive Kind := KGauge | KCounter | KCheckpoint.

Record Metric := mkMetric {
  m_kind : Kind;
  m_name : bytes;
  m_value : f64;
  m_labels : list label;
  m_temporality : Temporality;
}.

(** * The interface to the log sources *)

Class LogSink (S : Type) := {
  try_log_with_service : S -> LogEntry -> S * bool;
  sink_log : S -> LogEntry -> S;
  shipped : S -> list LogEntry;
}.

(** A refused entry is not shipped and changes nothing that was; an accepted
    one is shipped once, after everything before it; fire-and-forget may drop
    its entry. *)
Class LogSinkOk (S : Type) `{LogSink S} : Prop := {
  try_log_accepted : forall s e s', try_log_with_service s e = (s', true) ->
    shipped s' = shipped s ++ [e];
  try_log_refused : forall s e s', try_log_with_service s e = (s', false) ->
    shipped s' = shipped s;
  sink_log_appends : forall s e,
    shipped (sink_log s e) = shipped s ++ [e] \/ shipped (sink_log s e) = shipped s;
}.

(** * The SDK *)

Class TellClient := {
  tell : Type;
  tell_metric : tell -> Metric -> tell;
  tell_log : tell -> LogEntry -> tell;
  tell_try_log : tell -> LogEntry -> tell * bool;
  tell_queue : tell -> list LogEntry;
  tell_points : tell -> list Metric;
}.

(** The end of a client: what is queued is sent, or an error is returned. *)
Class TellLifecycle `{TellClient} := {
  tell_flush : tell -> tell * bool;
  tell_close : tell -> tell * bool;
}.

(** [try_log*] "returns false if the channel is full"; metrics travel apart. *)
Class TellClientOk `{TellClient} : Prop := {
  tell_try_true : forall t e t', tell_try_log t e = (t', true) ->
    tell_queue t' = tell_queue t ++ [e];
  tell_try_false : forall t e t', tell_try_log t e = (t', false) ->
    tell_queue t' = tell_queue t;
  tell_log_queue : forall t e,
    tell_queue (tell_log t e) = tell_queue t ++ [e] \/ tell_queue (tell_log t e) = tell_queue t;
  tell_metric_queue : forall t m, tell_queue (tell_metric t m) = tell_queue t;
  tell_metric_points : forall t m,
    tell_points (tell_metric t m) = tell_points t ++ [m] \/
    tell_points (tell_metric t m) = tell_points t;
  tell_try_points : forall t e, tell_points (tell_try_log t e).1 = tell_points t;
  tell_log_points : forall t e, tell_points (tell_log t e) = tell_points t;
}.

(** * Tags *)

(** The process-wide intern table. A leaked string keeps its content, so the
    content is what the model carries; the table records what was leaked. *)
Definition intern (s : bytes) (table : gset bytes) : bytes * gset bytes :=
  if bool_decide (s ∈ table) then (s, table) else (s, {[ s ]} ∪ table).

Fixpoint intern_all (tags : list label) (table : gset bytes) : list label * gset bytes :=
  match tags with
  | [] => ([], table)
  | (k, v) :: r =>
    let '(k', t1) := intern k table in
    let '(v', t2) := intern v t1 in
    let '(r', t3) := intern_all r t2 in
    ((k', v') :: r', t3)
  end.

Definition key_le (a b : label) : bool :=
  match bytes_cmp a.1 b.1 with Gt => false | _ => true end.

(** [sort_by_key] (a stable sort by the key). *)
Fixpoint insert_sorted (a : label) (l : list label) : list label :=
  match l with
  | [] => [a]
  | x :: r => if key_le a x then a :: l else x :: insert_sorted a r
  end.

Definition sort_by_key (l : list label) : list label := foldr insert_sorted [] l.

(** [tags] in the iteration order of the configuration's [HashMap]. *)
Definition leak_tags (tags : list label) (table : gset bytes) : list label * gset bytes :=
  let '(pairs, table') := intern_all tags table in
  (sort_by_key pairs, table').

Definition STACK : nat := 16.

(** [buf[at..at+src.len()].copy_from_slice(src)]. *)
Definition copy_from_slice {A} (buf : list A) (at_ : nat) (src : list A) : list A :=
  take at_ buf ++ src ++ drop (at_ + length src) buf.

Definition with_merged {R} (tags labels : list label) (f : list label -> R) : R :=
  let total := (length tags + length labels)%nat in
  if (total <=? STACK)%nat then
    let buf := replicate STACK ([], []) in
    let buf := copy_from_slice buf 0 tags in
    let buf := copy_from_slice buf (length tags) labels in
    f (take total buf)
  else
    let v := [] ++ tags in
    let v := v ++ labels in
    f v.

(** * The sink *)

Section sink.
Context `{TellClient}.

(** What dry-run mode prints to stderr, before number formatting. *)
Inductive Printed :=
| PMetric (m : Metric)
| PLog (level : LogLevel) (tag message : bytes) (data : option Value).

Inductive SinkInner :=
| Live (t : tell)
| DryRun (counter : N) (out : list Printed)
| Discard.

Record Sink := mkSink { inner : SinkInner; tags : list label }.

(** [DryRun::new]. *)
Definition dry_run_new : SinkInner := DryRun 0 [].

Definition sink_live (t : tell) (config_tags : list label) (table : gset bytes)
    : Sink * gset bytes :=
  let '(tags, table') := leak_tags config_tags table in (mkSink (Live t) tags, table').

Definition sink_dry_run (config_tags : list label) (table : gset bytes) : Sink * gset bytes :=
  let '(tags, table') := leak_tags config_tags table in (mkSink dry_run_new tags, table').

Definition sink_discard (table : gset bytes) : Sink * gset bytes :=
  let '(tags, table') := leak_tags [] table in (mkSink Discard tags, table').

(** The live branch shared by every metric method: the tags are merged in
    front of the labels, without the merge when there are none. *)
Definition send_metric (s : Sink) (t : tell) (m : list label -> Metric)
    (labels : list label) : SinkInner :=
  Live (if is_empty (tags s) then tell_metric t (m labels)
        else with_merged (tags s) labels (fun merged => tell_metric t (m merged))).

Definition emit (s : Sink) (m : list label -> Metric) (labels : list label) : Sink :=
  let inner' :=
    match inner s with
    | Live t => send_metric s t m labels
    | DryRun c out => DryRun (wrap64 (c + 1)) (out ++ [PMetric (m (tags s ++ labels))])
    | Discard => Discard
    end in
  mkSink inner' (tags s).

Definition gauge (s : Sink) (name : bytes) (value : f64) (labels : list label) : Sink :=
  emit s (fun l => mkMetric KGauge name value l Delta) labels.

Definition gauge_dyn (s : Sink) (name : bytes) (value : f64) (labels : list label) : Sink :=
  emit s (fun l => mkMetric KGauge name value l Delta) labels.

Definition counter (s : Sink) (name : bytes) (value : f64) (labels : list label) : Sink :=
  emit s (fun l => mkMetric KCounter name value l Delta) labels.

Definition counter_dyn (s : Sink) (name : bytes) (value : f64) (labels : list label) : Sink :=
  emit s (fun l => mkMetric KCounter name value l Delta) labels.

Definition counter_dyn_with_temporality (s : Sink) (name : bytes) (value : f64)
    (labels : list label) (temporality : Temporality) : Sink :=
  emit s (fun l => mkMetric KCheckpoint name value l temporality) labels.

(** The dry-run rendering: the message cut at a character boundary. *)
Definition dry_run_log (level : LogLevel) (tag message : bytes) (data : option Value) : Printed :=
  PLog level tag (take (N.to_nat (floor_char_boundary message 120)) message) data.

Definition dash : bytes := b#"-".

Definition log (s : Sink) (e : LogEntry) : Sink :=
  let inner' :=
    match inner s with
    | Live t => Live (tell_log t e)
    | DryRun c out =>
      DryRun (wrap64 (c + 1))
        (out ++ [dry_run_log (e_level e) (default dash (e_component e)) (e_message e) (e_data e)])
    | Discard => Discard
    end in
  mkSink inner' (tags s).

Definition try_log (s : Sink) (e : LogEntry) : Sink * bool :=
  match inner s with
  | Live t => let '(t', ok) := tell_try_log t e in (mkSink (Live t') (tags s), ok)
  | DryRun c out =>
    (mkSink (DryRun (wrap64 (c + 1))
       (out ++ [dry_run_log (e_level e) (default dash (e_component e)) (e_message e) (e_data e)]))
       (tags s), true)
  | Discard => (s, true)
  end.

Definition sink_try_log_with_service (s : Sink) (e : LogEntry) : Sink * bool :=
  match inner s with
  | Live t => let '(t', ok) := tell_try_log t e in (mkSink (Live t') (tags s), ok)
  | DryRun c out =>
    (mkSink (DryRun (wrap64 (c + 1))
       (out ++ [dry_run_log (e_level e) (default dash (e_service e)) (e_message e) (e_data e)]))
       (tags s), true)
  | Discard => (s, true)
  end.

Definition log_with_service (s : Sink) (e : LogEntry) : Sink :=
  (sink_try_log_with_service s e).1.

(** * Lifecycle *)

(** [DryRun::count]: the clones of a dry-run handle share the counter, which the
    sink holds. *)
Definition dry_run_count (s : Sink) : N := match inner s with DryRun c _ => c | _ => 0 end.

Context `{!TellLifecycle}.

(** The result is the error of the client, if any. *)
Definition sink_flush (s : Sink) : Sink * bool :=
  match inner s with
  | Live t => let '(t', ok) := tell_flush t in (mkSink (Live t') (tags s), ok)
  | DryRun _ _ | Discard => (s, true)
  end.

Definition sink_close (s : Sink) : Sink * bool :=
  match inner s with
  | Live t => let '(t', ok) := tell_close t in (mkSink (Live t') (tags s), ok)
  | DryRun _ _ | Discard => (s, true)
  end.
End sink.

(** * Formatting *)

Fixpoint join (sep : bytes) (l : list bytes) : bytes :=
  match l with
  | [] => []
  | [x] => x
  | x :: r => x ++ sep ++ join sep r
  end.

Definition fmt_labels (tags labels : list label) : bytes :=
  if is_empty tags && is_empty labels then []
  else
    let inner := map (fun kv : label => kv.1 ++ b#"=" ++ kv.2) (tags ++ labels) in
    b#"{" ++ join b#"," inner ++ b#"}".
