(* ===== verification/Format.v ===== *)
(** [src/src/sink.rs], the text of a dry run: numbers with a precision and a
    unit, labels, metrics and log lines as they are written to the terminal, and
    what a reader of the numbers gets back. *)
From S2P Require Import Prelude Str StrFacts External F64 Sink.
From Stdlib Require Import Strings.Byte ZArith SpecFloat.

(** * [{:.d}] of an [f64]

    The language prints the exact value rounded to [d] decimals, ties to even. *)

(** [num / den], rounded to the nearest, ties to even. *)
Definition div_even (num den : N) : N :=
  let q := num / den in
  match 2 * (num mod den) ?= den with
  | Lt => q
  | Eq => if N.even q then q else q + 1
  | Gt => q + 1
  end.

(** [m * 2^e * 10^d] as an integer. *)
Definition scaled (d : nat) (m : positive) (e : Z) : N :=
  let num := Npos m * 10 ^ N.of_nat d in
  if (0 <=? e)%Z then num * 2 ^ Z.to_N e else div_even num (2 ^ Z.to_N (- e)).

(** The last [k] decimal digits of [n]. *)
Fixpoint last_digits (k : nat) (n : N) : bytes :=
  match k with
  | O => []
  | S k' => last_digits k' (n / 10) ++ [byte_of (48 + n mod 10)]
  end.

(** [n / 10^d], with [d] digits after the point. *)
Definition fixed_point (d : nat) (n : N) : bytes :=
  show_N (n / 10 ^ N.of_nat d) ++ match d with O => [] | S _ => x2e :: last_digits d n end.

Definition minus (s : bool) : bytes := if s then [x2d] else [].

Definition fmt_fixed (d : nat) (x : f64) : bytes :=
  match x with
  | S754_nan => b#"NaN"
  | S754_infinity s => minus s ++ b#"inf"
  | S754_zero s => minus s ++ fixed_point d 0
  | S754_finite s m e => minus s ++ fixed_point d (scaled d m e)
  end.

(** * [fmt_value] *)

Definition f64_abs (x : f64) : f64 := SFabs x.

(** [f64::floor]: the sign of a zero is kept. *)
Definition f64_floor (x : f64) : f64 :=
  match x with
  | S754_finite s m e =>
    if (0 <=? e)%Z then x
    else
      let q := Npos m / 2 ^ Z.to_N (- e) in
      let r := Npos m mod 2 ^ Z.to_N (- e) in
      if s then f64_of_Z (- Z.of_N (if r =? 0 then q else q + 1))
      else f64_of_N q
  | _ => x
  end.

Definition f1e3 : f64 := Eval vm_compute in f64_of_N 1000.
Definition f1e4 : f64 := Eval vm_compute in f64_of_N 10000.
Definition f1e6 : f64 := Eval vm_compute in f64_of_N 1000000.
Definition f1e9 : f64 := Eval vm_compute in f64_of_N 1000000000.

Definition fmt_value (v : f64) : bytes :=
  if f64_le f1e9 (f64_abs v) then fmt_fixed 2 (f64_div v f1e9) ++ b#"G"
  else if f64_le f1e6 (f64_abs v) then fmt_fixed 2 (f64_div v f1e6) ++ b#"M"
  else if f64_le f1e4 (f64_abs v) then fmt_fixed 1 (f64_div v f1e3) ++ b#"K"
  else if SFeqb v (f64_floor v) then fmt_fixed 0 v
  else fmt_fixed 2 v.

(** * Lines *)

(** [tell::IntoPayload], of the SDK: the bytes of a structured payload. *)
Class IntoPayload := into_payload : option Value -> option bytes.

Definition kind_label (k : Kind) : bytes :=
  match k with KGauge => b#"gauge  " | KCounter => b#"counter" | KCheckpoint => b#"checkpoint" end.

(** The labels of a printed metric are the tags and its own, in this order. *)
Definition metric_line (m : Metric) : bytes :=
  b#"  " ++ kind_label (m_kind m) ++ b#" " ++ m_name m ++ fmt_labels [] (m_labels m) ++ b#" = " ++ fmt_value (m_value m).

(** [{level:?}]. *)
Definition level_debug (l : LogLevel) : bytes :=
  match l with
  | Emergency => b#"Emergency" | Alert => b#"Alert" | Critical => b#"Critical" | Error => b#"Error"
  | Warning => b#"Warning" | Notice => b#"Notice" | Info => b#"Info" | Debug => b#"Debug"
  end.

(** [{s:<w}]. *)
Definition pad_right (w : nat) (s : bytes) : bytes := s ++ replicate (w - length s) x20.

Definition log_line `{IntoPayload} (level : LogLevel) (tag msg : bytes) (data : option Value) : bytes :=
  let head := b#"  log     " ++ pad_right 9 (level_debug level) ++ b#" [" ++ tag ++ b#"] " ++ msg in
  match into_payload data with
  | Some bytes => if bool_decide (bytes = b#"{}") then head else head ++ b#"  " ++ from_utf8_lossy bytes
  | None => head
  end.

Definition printed_line `{IntoPayload} (p : Printed) : bytes :=
  match p with
  | PMetric m => metric_line m
  | PLog level tag message data => log_line level tag message data
  end.
