(* ===== verification/FormatFacts.v ===== *)
(** The numbers a dry run prints: the digits are the nearest decimal to the value,
    ties to even, and read back as that decimal; whole numbers are printed
    exactly. *)
From S2P Require Import Prelude Str StrFacts External F64 Sink Format.
From Stdlib Require Import Strings.Byte ZArith SpecFloat.

(** * Rounding *)

Lemma div_even_nearest num den :
  0 < den -> 2 * div_even num den * den <= 2 * num + den /\ 2 * num <= 2 * div_even num den * den + den.
Proof.
  intros Hd. unfold div_even. assert (E := N.div_mod num den ltac:(lia)). assert (M := N.mod_lt num den ltac:(lia)).
  revert E M. generalize (num / den), (num mod den). intros q r E M.
  destruct (N.compare_spec (2 * r) den); [destruct (N.even q)| |]; nia.
Qed.

Lemma div_even_exact q den : 0 < den -> div_even (q * den) den = q.
Proof.
  intros Hd. unfold div_even. rewrite N.div_mul, N.Div0.mod_mul by lia. cbn. destruct den; [lia|done].
Qed.

(** * Digits *)

Lemma digits_value_app a b : digits_value (a ++ b) = digits_value a * 10 ^ len b + digits_value b.
Proof.
  unfold digits_value. rewrite fold_left_app. generalize (fold_left (fun acc c => acc * 10 + (bN c - 48)) a 0).
  induction b as [|c b IH] using rev_ind; intros acc; [cbn; rewrite len_nil; lia|].
  rewrite !fold_left_app. cbn [fold_left]. rewrite IH, len_app. change (len [c]) with 1. rewrite N.pow_add_r. lia.
Qed.

Lemma digits_value_digit d : d < 10 -> digits_value [digit d] = d.
Proof. intros Hd. unfold digits_value, digit. cbn [fold_left]. rewrite bN_byte_of, N.mod_small; lia. Qed.


Lemma last_digits_length k n : length (last_digits k n) = k.
Proof. revert n. induction k as [|k IH]; intros n; cbn; [done|]. rewrite length_app, IH. cbn. lia. Qed.

Lemma last_digits_value k n : digits_value (last_digits k n) = n mod 10 ^ N.of_nat k.
Proof.
  revert n. induction k as [|k IH]; intros n; cbn [last_digits]; [cbn; by rewrite N.mod_1_r|].
  rewrite digits_value_app, IH. fold (digit (n mod 10)). rewrite digits_value_digit by by apply N.mod_lt.
  change (len [digit (n mod 10)]) with 1. rewrite Nat2N.inj_succ, N.pow_succ_r', N.Div0.mod_mul_r. lia.
Qed.

Lemma parse_digits_value max s v : all_digits s -> parse_digits 10 max 0 s = Some v -> digits_value s = v.
Proof.
  unfold digits_value. generalize 0. intros acc Hs. revert acc. induction Hs as [|c s Hc Hs IH]; intros acc; cbn.
  - by intros [= ->].
  - unfold digit_val. rewrite Hc. case_if; [apply IH|done].
Qed.

Lemma digits_value_show n : digits_value (show_N n) = n.
Proof. eapply (parse_digits_value n); [apply show_N_digits|]. by apply parse_digits_show. Qed.

Lemma last_digits_digits k n : all_digits (last_digits k n).
Proof.
  revert n. induction k as [|k IH]; intros n; cbn; [constructor|]. apply Forall_app. split; [apply IH|].
  apply Forall_singleton, digit_is_digit. by apply N.mod_lt.
Qed.

(** * Reading back *)

Lemma take_digits_all s r :
  all_digits s -> match r with [] => True | c :: _ => is_digit c = false end -> take_digits (s ++ r) = (s, r).
Proof.
  intros Hs Hr. unfold take_digits.
  assert (Hp : position (fun c => negb (is_digit c)) (s ++ r)
    = match r with [] => None | _ :: _ => Some (length s) end).
  { induction Hs as [|c s Hc Hs IH]; cbn [app position length].
    - destruct r as [|c r]; cbn [position]; [done|]. by rewrite Hr.
    - rewrite Hc. cbn [negb]. rewrite IH. by destruct r. }
  rewrite Hp. destruct r; [by rewrite app_nil_r|]. by rewrite take_app_length, drop_app_length.
Qed.

Lemma digit_not_word c s w : is_digit c = true -> match w with [] => False | x :: _ => is_digit (lower_byte x) = false end ->
  eq_ignore_ascii_case (c :: s) w = false.
Proof.
  intros Hc Hw. unfold eq_ignore_ascii_case. apply bool_decide_false. destruct w as [|x w]; [done|].
  cbn. intros [= Heq _]. assert (Hd : is_digit (lower_byte c) = true) by (by destruct c).
  by rewrite Heq, Hw in Hd.
Qed.

(** The decimal [n / 10^d], signed, as the parser sees it. *)
Definition decimal (s : bool) (d : nat) (n : N) : f64 :=
  match n with 0 => S754_zero s | Npos m => f64_of_decimal s m (- Z.of_nat d) end.

Lemma parse_fixed_point s d n : parse_f64 (minus s ++ fixed_point d n) = Some (decimal s d n).
Proof.
  unfold fixed_point. set (a := n / 10 ^ N.of_nat d).
  destruct (show_N a) as [|c r] eqn:Ea; [by apply show_N_nonempty in Ea|].
  assert (Hc : is_digit c = true).
  { assert (Hd := show_N_digits a). rewrite Ea in Hd. by apply Forall_cons in Hd as [? _]. }
  assert (Hsign : forall tl, parse_f64 (minus s ++ (c :: r) ++ tl) =
    let '(int, r1) := take_digits ((c :: r) ++ tl) in
    let '(frac, r2) := match r1 with x2e :: r' => take_digits r' | _ => ([], r1) end in
    if is_empty int && is_empty frac then None
    else match parse_exponent r2 with
      | None => None
      | Some e => match digits_value (int ++ frac) with
                  | 0 => Some (S754_zero s)
                  | Npos m => Some (f64_of_decimal s m (e - Z.of_nat (length frac)))
                  end
      end).
  { intros tl. unfold parse_f64.
    replace (match minus s ++ (c :: r) ++ tl with
             | x2d :: r0 => (true, r0) | x2b :: r0 => (false, r0) | _ => (false, minus s ++ (c :: r) ++ tl) end)
      with (s, (c :: r) ++ tl) by (destruct s; [done|]; by destruct c).
    cbn [app]. by rewrite !digit_not_word by done. }
  rewrite Hsign, <- Ea.
  assert (Hn : digits_value (show_N a ++ last_digits d n) = n).
  { rewrite digits_value_app, digits_value_show, last_digits_value. unfold len. rewrite last_digits_length.
    unfold a. rewrite N.mul_comm. symmetry. apply N.div_mod. by apply N.pow_nonzero. }
  destruct d as [|d].
  - rewrite take_digits_all by (done || apply show_N_digits). cbn [is_empty andb length].
    rewrite andb_false_r || rewrite andb_true_r.
    destruct (is_empty (show_N a)) eqn:Ee; [by rewrite Ea in Ee|]. cbn [parse_exponent].
    cbn [last_digits] in Hn. rewrite Hn. unfold decimal. by destruct n.
  - rewrite take_digits_all by (done || apply show_N_digits).
    rewrite <- (app_nil_r (last_digits (S d) n)) at 1.
    rewrite take_digits_all by (done || apply last_digits_digits).
    destruct (is_empty (show_N a)) eqn:Ee; [by rewrite Ea in Ee|]. cbn [andb parse_exponent].
    rewrite Hn, last_digits_length. unfold decimal. by destruct n.
Qed.

(** [n / 10^d] is a decimal nearest to [m * 2^e]. *)
Definition nearest (d : nat) (m : positive) (e : Z) (n : N) : Prop :=
  let num := Npos m * 10 ^ N.of_nat d in
  if (0 <=? e)%Z then n = num * 2 ^ Z.to_N e
  else let den := 2 ^ Z.to_N (- e) in 2 * n * den <= 2 * num + den /\ 2 * num <= 2 * n * den + den.

(** What a reader of [text] gets is [q] to [d] decimals. *)
Definition reads_as (d : nat) (q : f64) (text : bytes) : Prop :=
  match q with
  | S754_finite s m e => exists n, parse_f64 text = Some (decimal s d n) /\ nearest d m e n
  | _ => parse_f64 text = Some q
  end.

Lemma fmt_fixed_reads d q : reads_as d q (fmt_fixed d q).
Proof.
  destruct q as [s|s| |s m e]; cbn [reads_as fmt_fixed].
  - apply (parse_fixed_point s d 0).
  - by destruct s.
  - done.
  - exists (scaled d m e). split; [apply parse_fixed_point|]. unfold nearest, scaled.
    destruct (0 <=? e)%Z; [done|]. apply div_even_nearest, N.neq_0_lt_0. by apply N.pow_nonzero.
Qed.

Lemma nearest_whole d m e n w :
  nearest d m e n -> (e < 0)%Z -> Npos m = w * 2 ^ Z.to_N (- e) -> n = w * 10 ^ N.of_nat d.
Proof.
  unfold nearest. intros Hn He Hw. destruct (Z.leb_spec 0 e); [lia|]. cbv zeta in Hn. rewrite Hw in Hn.
  assert (Hp : 0 < 2 ^ Z.to_N (- e)) by by apply N.neq_0_lt_0, N.pow_nonzero.
  revert Hn Hp. generalize (2 ^ Z.to_N (- e)), (10 ^ N.of_nat d). intros a b. nia.
Qed.

Lemma f64_le_smaller m1 e1 m2 e2 x :
  (e1 < e2)%Z -> f64_le (S754_finite false m2 e2) x = true -> f64_le (S754_finite false m1 e1) x = true.
Proof.
  intros He. unfold f64_le, SFleb. destruct x as [s|s| |[] m e]; cbn [SFcompare]; try done.
  destruct (Z.compare_spec e2 e), (Z.compare_spec e1 e); try done; lia.
Qed.

(** The units: suffix, decimals, divisor. *)
Definition units : list (bytes * nat * f64) := [(b#"G", 2%nat, f1e9); (b#"M", 2%nat, f1e6); (b#"K", 1%nat, f1e3)].

(** A printed number, without its unit, reads back as the decimal nearest to the
    value, or to its quotient by the unit when it has one; from ten thousand on it
    has one, below it has none. Special values print as themselves. *)
Theorem fmt_value_reads v :
  exists text suffix d q, fmt_value v = text ++ suffix /\ reads_as d q text /\
    if f64_le f1e4 (f64_abs v) then exists u, (suffix, d, u) ∈ units /\ q = f64_div v u
    else suffix = [] /\ q = v.
Proof.
  assert (H9 : f64_le f1e9 (f64_abs v) = true -> f64_le f1e4 (f64_abs v) = true) by by apply f64_le_smaller.
  assert (H6 : f64_le f1e6 (f64_abs v) = true -> f64_le f1e4 (f64_abs v) = true) by by apply f64_le_smaller.
  assert (Hr := fmt_fixed_reads). unfold fmt_value.
  destruct (f64_le f1e9 _) eqn:E9; [rewrite H9 by done|destruct (f64_le f1e6 _) eqn:E6; [rewrite H6 by done|]].
  - eexists _, _, _, _. split_and!; [done|apply Hr|]. eexists. split; [by left|done].
  - eexists _, _, _, _. split_and!; [done|apply Hr|]. eexists. split; [by right; left|done].
  - destruct (f64_le f1e4 _).
    + eexists _, _, _, _. split_and!; [done|apply Hr|]. eexists. split; [by right; right; left|done].
    + destruct (SFeqb v (f64_floor v)); (eexists _, [], _, v; rewrite app_nil_r; split_and!; [done|apply Hr|done|done]).
Qed.

(** A whole number below ten thousand is printed exactly. *)
Lemma fmt_value_whole s m e w :
  (e < 0)%Z -> Npos m = w * 2 ^ Z.to_N (- e) -> f64_le f1e4 (f64_abs (S754_finite s m e)) = false ->
  exists d, parse_f64 (fmt_value (S754_finite s m e)) = Some (decimal s d (w * 10 ^ N.of_nat d)).
Proof.
  intros He Hw Hlt. destruct (fmt_value_reads (S754_finite s m e)) as (text & suffix & d & q & Ht & Hr & Hc).
  rewrite Hlt in Hc. destruct Hc as [-> ->]. rewrite Ht, app_nil_r. destruct Hr as (n & Hp & Hn).
  exists d. by rewrite Hp, (nearest_whole d m e n w Hn He Hw).
Qed.
