(* ===== verification/SinkFacts.v ===== *)
(** Properties of the sink: tags reach every metric in front of its labels and
    in one order, interning leaks each string once, and the live sink keeps the
    promises of [LogSink]. *)
From S2P Require Import Prelude Str StrFacts External Sink.
From Stdlib Require Import Strings.Byte SpecFloat.

(** * Key order *)

Lemma bytes_cmp_antisym s t : bytes_cmp t s = CompOpp (bytes_cmp s t).
Proof.
  revert t. induction s as [|x s IH]; intros [|y t]; cbn; try done.
  rewrite (N.compare_antisym (bN x) (bN y)).
  destruct (N.compare (bN x) (bN y)); cbn; [apply IH|done|done].
Qed.

Lemma bytes_cmp_lt_trans s t u :
  bytes_cmp s t = Lt -> bytes_cmp t u = Lt -> bytes_cmp s u = Lt.
Proof.
  revert t u. induction s as [|x s IH]; intros [|y t] [|z u]; cbn; try done.
  destruct (N.compare_spec (bN x) (bN y)) as [Hxy|Hxy|Hxy]; try done;
    destruct (N.compare_spec (bN y) (bN z)) as [Hyz|Hyz|Hyz]; try done; intros H1 H2;
    destruct (N.compare_spec (bN x) (bN z)); try lia; eauto.
Qed.

Lemma key_le_lt a b : key_le a b = false <-> bytes_cmp b.1 a.1 = Lt.
Proof.
  unfold key_le. rewrite (bytes_cmp_antisym a.1 b.1). by destruct (bytes_cmp a.1 b.1).
Qed.

Lemma key_le_true a b : key_le a b = true <-> a.1 = b.1 \/ bytes_cmp a.1 b.1 = Lt.
Proof.
  unfold key_le. rewrite <- (bytes_cmp_eq a.1 b.1).
  destruct (bytes_cmp a.1 b.1); naive_solver.
Qed.

Lemma key_le_trans a b c : key_le a b = true -> key_le b c = true -> key_le a c = true.
Proof.
  rewrite !key_le_true. intros [H1|H1] [H2|H2].
  - left. congruence.
  - right. by rewrite H1.
  - right. by rewrite <- H2.
  - right. by eapply bytes_cmp_lt_trans.
Qed.

Lemma key_le_total a b : key_le a b = false -> key_le b a = true.
Proof. rewrite key_le_lt, key_le_true. by right. Qed.

Lemma key_le_antisym a b : key_le a b = true -> key_le b a = true -> a.1 = b.1.
Proof.
  rewrite !key_le_true. intros [H1|H1] [H2|H2]; try done.
  rewrite bytes_cmp_antisym, H1 in H2. done.
Qed.

Lemma key_lt_of_ne a b : a.1 <> b.1 -> key_le a b = true -> key_le b a = false.
Proof.
  intros Hne H1. destruct (key_le b a) eqn:H2; [|done].
  by destruct Hne; apply key_le_antisym.
Qed.

Lemma insert_sorted_comm a b l :
  a.1 <> b.1 -> insert_sorted a (insert_sorted b l) = insert_sorted b (insert_sorted a l).
Proof.
  assert (Hdec : forall a b l, a.1 <> b.1 -> key_le a b = true ->
    insert_sorted a (insert_sorted b l) = insert_sorted b (insert_sorted a l)).
  { clear. intros a b l Hne Hab. assert (Hba := key_lt_of_ne a b Hne Hab).
    induction l as [|x r IH]; cbn; [by rewrite Hab, Hba|].
    destruct (key_le b x) eqn:Hbx; cbn [insert_sorted].
    - rewrite Hab, (key_le_trans a b x Hab Hbx). cbn. by rewrite Hba, Hbx.
    - destruct (key_le a x) eqn:Hax; cbn [insert_sorted].
      + by rewrite Hba, Hbx.
      + by rewrite Hbx, IH. }
  intros Hne. destruct (key_le a b) eqn:E; [by apply Hdec|].
  symmetry. apply Hdec; [done|by apply key_le_total].
Qed.

(** The sorted tags do not depend on the iteration order of the hash map. *)
Lemma sort_by_key_perm l l' : NoDup l.*1 -> l ≡ₚ l' -> sort_by_key l = sort_by_key l'.
Proof.
  unfold sort_by_key. intros Hnd Hp. revert Hnd. induction Hp as [|x l l' Hp IH|x y l|l1 l2 l3 Hp1 IH1 Hp2 IH2]; cbn.
  - done.
  - intros [_ Hnd]%NoDup_cons. by rewrite IH.
  - intros (Hx & Hnd)%NoDup_cons. apply insert_sorted_comm. set_solver.
  - intros Hnd. rewrite IH1 by done. apply IH2. by rewrite <- Hp1.
Qed.

Lemma insert_sorted_perm a l : insert_sorted a l ≡ₚ a :: l.
Proof.
  induction l as [|x r IH]; cbn; [done|]. destruct (key_le a x); [done|].
  rewrite IH. by constructor.
Qed.

Lemma sort_by_key_is_perm l : sort_by_key l ≡ₚ l.
Proof.
  unfold sort_by_key. induction l as [|x l IH]; cbn; [done|].
  by rewrite insert_sorted_perm, IH.
Qed.

(** * Interning *)

Definition tag_strings (tags : list label) : gset bytes :=
  list_to_set (tags.*1 ++ tags.*2).

Lemma intern_spec s table : intern s table = (s, {[ s ]} ∪ table).
Proof. unfold intern. case_bool_decide; [|done]. f_equal. set_solver. Qed.

Lemma intern_all_spec tags table :
  intern_all tags table = (tags, tag_strings tags ∪ table).
Proof.
  revert table. induction tags as [|[k v] r IH]; intros table; cbn.
  - f_equal. unfold tag_strings. cbn. set_solver.
  - rewrite !intern_spec, IH. f_equal. unfold tag_strings. cbn.
    rewrite list_to_set_app_L, list_to_set_app_L. cbn. set_solver.
Qed.

Lemma leak_tags_spec tags table :
  leak_tags tags table = (sort_by_key tags, tag_strings tags ∪ table).
Proof. unfold leak_tags. by rewrite intern_all_spec. Qed.

(** * Merging *)

Lemma with_merged_app {R} tags labels (f : list label -> R) :
  with_merged tags labels f = f (tags ++ labels).
Proof.
  unfold with_merged. destruct (_ <=? _)%nat eqn:E; [|done].
  apply Nat.leb_le in E. f_equal. unfold copy_from_slice.
  rewrite take_0. cbn [app]. rewrite take_app_length.
  rewrite app_assoc. rewrite take_app_length'; [done|]. by rewrite length_app.
Qed.

Section facts.
Context `{TellClient}.

Lemma send_metric_merged s t m labels :
  send_metric s t m labels = Live (tell_metric t (m (tags s ++ labels))).
Proof.
  unfold send_metric. rewrite with_merged_app.
  destruct (tags s) as [|x l] eqn:E; done.
Qed.

(** * The live sink keeps the interface's promises *)

Record LiveSink := mkLiveSink { live_tell : tell; live_tags : list label }.

Definition to_sink (l : LiveSink) : Sink := mkSink (Live (live_tell l)) (live_tags l).

Definition of_sink (old : LiveSink) (s : Sink) : LiveSink :=
  match inner s with Live t => mkLiveSink t (tags s) | _ => old end.

#[global] Instance live_log_sink : LogSink LiveSink := {
  try_log_with_service l e :=
    let '(s, ok) := sink_try_log_with_service (to_sink l) e in (of_sink l s, ok);
  sink_log l e := of_sink l (log (to_sink l) e);
  shipped l := tell_queue (live_tell l);
}.

#[global] Instance live_log_sink_ok : TellClientOk -> LogSinkOk LiveSink.
Proof.
  intros Hok. split.
  - intros l e l'. cbn. destruct (tell_try_log (live_tell l) e) as [t' ok] eqn:E.
    intros [= <- ->]. by apply tell_try_true.
  - intros l e l'. cbn. destruct (tell_try_log (live_tell l) e) as [t' ok] eqn:E.
    intros [= <- ->]. by eapply tell_try_false.
  - intros l e. cbn. apply tell_log_queue.
Qed.
End facts.

(** * A channel that never refuses

    What a source would ship if the channel always had room: the sources'
    specifications are stated against it. *)

Definition list_sink : LogSink (list LogEntry) := {|
  try_log_with_service l e := (l ++ [e], true);
  sink_log l e := l ++ [e];
  shipped l := l;
|}.

Lemma list_sink_ok : LogSinkOk (list LogEntry) (H := list_sink).
Proof.
  split; cbn.
  - by intros s e s' [= <-].
  - done.
  - intros s e. by left.
Qed.

(** * A reference SDK channel: bounded, dropping when full *)

Module RefTell.
Record chan := mkChan { c_room : nat; c_queue : list LogEntry; c_points : list Metric }.

#[global] Instance ref_tell : TellClient := {
  tell := chan;
  tell_metric c m := mkChan (c_room c) (c_queue c) (c_points c ++ [m]);
  tell_log c e :=
    match c_room c with
    | O => c
    | S r => mkChan r (c_queue c ++ [e]) (c_points c)
    end;
  tell_try_log c e :=
    match c_room c with
    | O => (c, false)
    | S r => (mkChan r (c_queue c ++ [e]) (c_points c), true)
    end;
  tell_queue := c_queue;
  tell_points := c_points;
}.

#[global] Instance ref_tell_ok : TellClientOk.
Proof.
  split; cbn.
  - intros [[|r] q p] e t' [= <-]; done.
  - intros [[|r] q p] e t' [= <-]; done.
  - intros [[|r] q p] e; cbn; auto.
  - done.
  - intros [r q p] m. by left.
  - by intros [[|r] q p] e.
  - by intros [[|r] q p] e.
Qed.

(** Closing sends what is queued. *)
#[global] Instance ref_tell_lifecycle : TellLifecycle := {
  tell_flush c := (c, true);
  tell_close c := (c, true);
}.
End RefTell.
