(* ===== verification/Tailed.v ===== *)
(** [src/src/logs/watcher.rs], the per-file half: file identity and encoding
    detection, the state of a tailed file, and the single-line read path
    ([read_lines], [drain_retained], [try_emit_line], [push_partial],
    [flush_partial]). The file table, polling and the main loop are in
    [Watcher]; multiline aggregation is in [Multiline]. *)
From S2P Require Import Prelude Str StrFacts External Text Structured Sink.
From Stdlib Require Import Strings.Byte.

(** * Constants (times in milliseconds where the source has milliseconds) *)

Definition POLL_BASE_MS : N := 250.
Definition POLL_MAX_MS : N := 2000.
Definition STALE_THRESHOLD : N := 30.
Definition IGNORE_OLDER_SECS : N := 86400.
Definition OFFSET_SAVE_MIN_SECS : N := 1.
Definition MAX_PARTIAL_BYTES : N := 1024 * 1024.
Definition MAX_LINES_PER_POLL : N := 32000.
Definition POLL_CATCHUP_MS : N := 50.

(** * File identity *)

Record FileId := mkFileId { dev : N; ino : N }.

#[global] Instance FileId_eq_dec : EqDecision FileId.
Proof. solve_decision. Defined.

#[global] Program Instance FileId_countable : Countable FileId :=
  inj_countable (fun f => (dev f, ino f)) (fun p => Some (mkFileId p.1 p.2)) _.
Next Obligation. by intros []. Qed.

(** [u64::from_le_bytes]. *)
Fixpoint from_le_bytes (s : bytes) : N :=
  match s with
  | [] => 0
  | b :: r => bN b + 256 * from_le_bytes r
  end.

(** [hash] is [DefaultHasher]'s digest, whose algorithm the standard library
    leaves unspecified. *)
Definition fold_file_id (hash : bytes -> N) (volume_serial : N) (id : bytes) : FileId :=
  let low := from_le_bytes (take 8 id) in
  let high := from_le_bytes (take 8 (drop 8 id)) in
  mkFileId volume_serial (if high =? 0 then low else hash id).

(** [FileId::from_path], which cannot tell a replaced file. *)
Definition from_path (hash : bytes -> N) (path : bytes) : FileId := mkFileId 0 (hash path).

(** [FileId::from_file] on Windows; [info] is the answer of
    [GetFileInformationByHandleEx], if it succeeded. *)
Definition from_file (hash : bytes -> N) (info : option (N * bytes)) (path : bytes) : FileId :=
  match info with
  | Some (volume_serial, id) => fold_file_id hash volume_serial id
  | None => from_path hash path
  end.

(** * Byte-order marks *)

Inductive Bom := Utf16Le | Utf16Be | Utf8 | NoBom.

Definition is_utf16 (b : Bom) : bool :=
  match b with Utf16Le | Utf16Be => true | _ => false end.

Definition detect_bom (s : bytes) : Bom :=
  if starts_with [xff; xfe] s then Utf16Le
  else if starts_with [xfe; xff] s then Utf16Be
  else if starts_with [xef; xbb; xbf] s then Utf8
  else NoBom.

(** * State of a tailed file *)

(** An open file is the inode it refers to. *)
Notation File := FileId.

(** In-flight multiline record ([multiline.rs], [Aggregator]). Instants are
    nanoseconds since the process started. *)
Record Aggregator := mkAggregator {
  record : bytes;
  record_bytes : N;
  read_ahead : N;
  partial_bytes : N;
  last_append : option N;
}.

Record TailedFile := mkTailedFile {
  path : bytes;
  pos : N;
  id : FileId;
  partial : bytes;
  open_failures : N;
  retained_fd : option File;
  skip_utf16 : bool;
  agg : option Aggregator;
}.

Definition set_pos (p : N) (t : TailedFile) : TailedFile :=
  mkTailedFile (path t) p (id t) (partial t) (open_failures t) (retained_fd t) (skip_utf16 t) (agg t).
Definition set_partial (p : bytes) (t : TailedFile) : TailedFile :=
  mkTailedFile (path t) (pos t) (id t) p (open_failures t) (retained_fd t) (skip_utf16 t) (agg t).
Definition set_open_failures (n : N) (t : TailedFile) : TailedFile :=
  mkTailedFile (path t) (pos t) (id t) (partial t) n (retained_fd t) (skip_utf16 t) (agg t).
Definition set_retained_fd (f : option File) (t : TailedFile) : TailedFile :=
  mkTailedFile (path t) (pos t) (id t) (partial t) (open_failures t) f (skip_utf16 t) (agg t).
Definition set_agg (a : option Aggregator) (t : TailedFile) : TailedFile :=
  mkTailedFile (path t) (pos t) (id t) (partial t) (open_failures t) (retained_fd t) (skip_utf16 t) a.

(** * Single-line reading *)

Section tailed.
Context `{SimdUtf8, Memchr, MemchrIter, SerdeJson} {S : Type} `{LogSink S}.

Definition push_partial (partial s : bytes) : bytes :=
  if MAX_PARTIAL_BYTES <=? len partial then partial
  else
    let p := partial ++ lossy s in
    if MAX_PARTIAL_BYTES <? len p
    then take (N.to_nat (floor_char_boundary p MAX_PARTIAL_BYTES)) p
    else p.

(** Trailing white space and a leading byte-order mark removed. *)
Definition normalize_line (line : bytes) : bytes :=
  let trimmed := trim_end line in
  match strip_prefix bom trimmed with Some r => r | None => trimmed end.

Definition classified_entry (c : Classified) : LogEntry :=
  mkLogEntry (c_level c) (c_body c) None (c_service c) (c_payload c).

(** The result, the partial buffer afterwards, the sink afterwards. *)
Definition try_emit_line (line_bytes partial : bytes) (sink : S) (opts : FileParseOpts)
    : bool * bytes * S :=
  let line_lossy := lossy line_bytes in
  let complete := if is_empty partial then line_lossy else partial ++ line_lossy in
  let trimmed := normalize_line complete in
  if is_empty trimmed then (true, [], sink)
  else
    let '(sink', ok) := try_log_with_service sink (classified_entry (classify_line trimmed opts)) in
    if ok then (true, [], sink') else (false, partial, sink').

Definition flush_partial (t : TailedFile) (sink : S) : TailedFile * S :=
  if is_empty (partial t) then (t, sink)
  else
    let line := partial t in
    let t' := set_partial [] t in
    let trimmed := trim line in
    if is_empty trimmed then (t', sink)
    else (t', sink_log sink (mkLogEntry Info trimmed None None None)).

(** Why a read loop stopped: end of file or a read error, a full channel, or
    the line cap. *)
Inductive Stop := StopEof | StopFull | StopCap.

(** The loop [read_lines] and [drain_retained] share, line by line: its state
    is the reader, the tailed file, the sink and the two counters. It ends by
    itself within [reader_size] passes ([line_loop_total]); [None] is the
    out-of-fuel answer, never given with the fuel [run_lines] supplies. *)
Fixpoint line_loop (fuel : nat) (r : reader) (t : TailedFile) (sink : S) (opts : FileParseOpts)
    (bytes_read lines_emitted : N) : option (Stop * N * TailedFile * S) :=
  match fuel with
  | O => None
  | Datatypes.S fuel' =>
    match read_line r [] with
    | (Err, _, _) => Some (StopEof, bytes_read, t, sink)
    | (Ok n, buf, r') =>
      if n =? 0 then Some (StopEof, bytes_read, t, sink)
      else if ends_with_nl buf then
        let '(ok, partial', sink') :=
          try_emit_line (take (length buf - 1) buf) (partial t) sink opts in
        if negb ok then Some (StopFull, bytes_read, set_partial partial' t, sink')
        else
          let t' := set_pos (pos t + n) (set_partial partial' t) in
          if MAX_LINES_PER_POLL <=? lines_emitted + 1
          then Some (StopCap, bytes_read + n, t', sink')
          else line_loop fuel' r' t' sink' opts (bytes_read + n) (lines_emitted + 1)
      else
        let t' := set_partial (push_partial (partial t) buf) (set_pos (pos t + n) t) in
        line_loop fuel' r' t' sink opts (bytes_read + n) lines_emitted
    end
  end.

Definition run_lines (r : reader) (t : TailedFile) (sink : S) (opts : FileParseOpts)
    : Stop * N * TailedFile * S :=
  match line_loop (Datatypes.S (reader_size r)) r t sink opts 0 0 with
  | Some res => res
  | None => (StopEof, 0, t, sink)
  end.

(** [file] is the opened file seen through [seek(SeekFrom::Start(pos))] and
    the reads that follow; [None] when the seek fails. *)
Definition read_lines (file : option reader) (t : TailedFile) (sink : S) (opts : FileParseOpts)
    : N * TailedFile * S :=
  match file with
  | None => (0, t, sink)
  | Some r =>
    let '(_, bytes_read, t', sink') := run_lines r t sink opts in (bytes_read, t', sink')
  end.

(** [open] answers the seek of the retained descriptor at a position. *)
Definition drain_retained (open : File -> N -> option reader) (t : TailedFile) (sink : S)
    (opts : FileParseOpts) : N * TailedFile * S :=
  match retained_fd t with
  | None => (0, t, sink)
  | Some file =>
    let t := set_retained_fd None t in
    match open file (pos t) with
    | None => (0, t, sink)
    | Some r =>
      let '(stop, bytes_read, t', sink') := run_lines r t sink opts in
      match stop with
      | StopFull | StopCap => (bytes_read, set_retained_fd (Some file) t', sink')
      | StopEof =>
        let '(t'', sink'') := flush_partial t' sink' in (bytes_read, t'', sink'')
      end
    end
  end.
End tailed.
