(* ===== verification/TailedFacts.v ===== *)
(** Properties of the single-line read path of [Tailed].

    [feed_all] is the specification of a run of reads: what is shipped and what
    stays buffered, as a fold over the lines consumed. [line_loop] refines it
    line by line, advances the offset by exactly the bytes it consumed, and
    stops for one of three reasons. [ideal_entries]/[pending] say what the
    shipped entries are in terms of the file's content alone. *)
From S2P Require Import Prelude Str StrFacts External Text Structured Sink Tailed.
From Stdlib Require Import Strings.Byte.

(** * Lines of a content *)

Definition line_body (l : bytes) : bytes := take (length l - 1) l.

(** The unterminated tail of [c]. *)
Fixpoint pending (c : bytes) : bytes :=
  match c with
  | [] => []
  | x :: r => if bool_decide (nl ∈ c) then pending r else c
  end.

Lemma raw_lines_line body (r : bytes) :
  nl ∉ body -> raw_lines (body ++ nl :: r) = (body, true) :: raw_lines r.
Proof.
  induction body as [|x body IH]; intros Hb; cbn [app raw_lines].
  - by rewrite bool_decide_eq_true_2.
  - rewrite elem_of_cons in Hb. rewrite bool_decide_eq_false_2 by naive_solver.
    by rewrite IH by naive_solver.
Qed.

Lemma raw_lines_partial s : nl ∉ s -> s <> [] -> raw_lines s = [(s, false)].
Proof.
  induction s as [|x s IH]; [done|]. intros Hs _. cbn [raw_lines].
  rewrite elem_of_cons in Hs. rewrite bool_decide_eq_false_2 by naive_solver.
  destruct s as [|y s]; [done|]. by rewrite IH by naive_solver.
Qed.

Lemma pending_none c : nl ∉ c -> pending c = c.
Proof. destruct c; [done|]. intros Hc. cbn. by rewrite bool_decide_eq_false_2. Qed.

Lemma pending_line body (r : bytes) : pending (body ++ nl :: r) = pending r.
Proof.
  induction body as [|x body IH]; cbn [app pending].
  - rewrite bool_decide_eq_true_2; [done | left].
  - rewrite bool_decide_eq_true_2; [done | set_solver].
Qed.

Lemma pending_no_nl c : nl ∉ pending c.
Proof.
  induction c as [|x c IH]; cbn; [apply not_elem_of_nil|].
  by case_bool_decide.
Qed.

Lemma line_body_snoc body : line_body (body ++ [nl]) = body.
Proof.
  unfold line_body. rewrite length_app. cbn [length].
  replace (length body + 1 - 1)%nat with (length body) by lia. apply take_app_length.
Qed.

Lemma ends_with_nl_line l : is_line l -> ends_with_nl l = false -> nl ∉ l.
Proof.
  intros [?|(body & -> & _)]; [done|].
  rewrite ends_with_nl_snoc, bool_decide_eq_true_2; done.
Qed.

(** * File identity *)

Lemma from_le_bytes_inj s t : length s = length t -> from_le_bytes s = from_le_bytes t -> s = t.
Proof.
  revert t. induction s as [|a s IH]; intros [|b t] Hl Heq; try done. cbn in *.
  assert (Ha := bN_lt_256 a). assert (Hb := bN_lt_256 b).
  f_equal; [apply bN_inj; lia|apply IH; lia].
Qed.

Lemma from_le_bytes_zero s : from_le_bytes s = 0 -> s = replicate (length s) x00.
Proof.
  induction s as [|b s IH]; [done|]. cbn. intros Hz. f_equal; [|apply IH; lia].
  apply bN_inj. change (bN x00) with 0. lia.
Qed.

(** The identity of a file of a volume is lossless when its 128 bits fit 64, as
    they do on NTFS, whatever the hash. *)
Lemma fold_file_id_lossless hash v v' a b :
  length a = 16%nat -> length b = 16%nat ->
  from_le_bytes (drop 8 a) = 0 -> from_le_bytes (drop 8 b) = 0 ->
  fold_file_id hash v a = fold_file_id hash v' b -> v = v' /\ a = b.
Proof.
  intros Ha Hb Hza Hzb. unfold fold_file_id. rewrite !(take_ge (drop 8 _)) by (rewrite length_drop; lia).
  rewrite Hza, Hzb. cbn [N.eqb]. intros [= -> Hlow]. split; [done|].
  apply from_le_bytes_inj in Hlow; [|rewrite !length_take; lia].
  apply from_le_bytes_zero in Hza, Hzb. rewrite <- (take_drop 8 a), <- (take_drop 8 b), Hlow, Hza, Hzb.
  by rewrite !length_drop, Ha, Hb.
Qed.

Section facts.
Context `{SimdUtf8, Memchr, MemchrIter, SerdeJson, !SimdUtf8Ok, !MemchrOk}.
Context {S : Type} `{LogSink S, !LogSinkOk S}.
Implicit Types (t : TailedFile) (sink : S) (opts : FileParseOpts) (r : reader).

(** * Specification *)

Definition text_entry opts (text : bytes) : list LogEntry :=
  let trimmed := normalize_line text in
  if is_empty trimmed then [] else [classified_entry (classify_line trimmed opts)].

Definition feed opts (part l : bytes) : list LogEntry * bytes :=
  if ends_with_nl l then (text_entry opts (part ++ lossy (line_body l)), [])
  else ([], push_partial part l).

Fixpoint feed_all opts (part : bytes) (ls : list bytes) : list LogEntry * bytes :=
  match ls with
  | [] => ([], part)
  | l :: rest =>
    let '(es, part') := feed opts part l in
    let '(es', part'') := feed_all opts part' rest in
    (es ++ es', part'')
  end.

Definition chunk_ok (l : bytes) : Prop := l <> [] /\ is_line l.

(** [reads r ls r']: successive non-empty [read_line]s take [r] to [r']. *)
Inductive reads : reader -> list bytes -> reader -> Prop :=
| reads_nil r : reads r [] r
| reads_cons r l r1 ls r' :
    read_line r [] = (Ok (len l), l, r1) -> l <> [] -> reads r1 ls r' -> reads r (l :: ls) r'.

Lemma reads_chunks r ls r' :
  reads r ls r' -> Forall chunk_ok ls /\ stream r = concat ls ++ stream r'.
Proof.
  induction 1 as [r|r l r1 ls r' Hr Hne _ [Hf Hs]]; [by split; [constructor|]|].
  apply read_line_ok in Hr as (Hl & _ & Hst & _). split; [by constructor|].
  cbn. by rewrite Hst, Hs, app_assoc.
Qed.

Lemma feed_all_app opts part a b :
  feed_all opts part (a ++ b) =
    ((feed_all opts part a).1 ++ (feed_all opts (feed_all opts part a).2 b).1,
     (feed_all opts (feed_all opts part a).2 b).2).
Proof.
  revert part. induction a as [|l a IH]; intros part; cbn [app feed_all].
  - cbn [fst snd app]. by destruct (feed_all opts part b).
  - destruct (feed opts part l) as [es p]. rewrite IH.
    destruct (feed_all opts p a) as [es' p']. cbn [fst snd].
    by rewrite app_assoc.
Qed.

(** * Emission *)

Lemma try_emit_line_spec body part sink opts ok part' sink' :
  try_emit_line body part sink opts = (ok, part', sink') ->
  if ok then part' = [] /\ shipped sink' = shipped sink ++ text_entry opts (part ++ lossy body)
  else part' = part /\ shipped sink' = shipped sink.
Proof.
  unfold try_emit_line, text_entry.
  replace (if is_empty part then lossy body else part ++ lossy body) with (part ++ lossy body)
    by (by destruct part).
  destruct (is_empty (normalize_line (part ++ lossy body))) eqn:Ee.
  - intros [= <- <- <-]. by rewrite app_nil_r.
  - destruct (try_log_with_service sink _) as [s2 ok2] eqn:E.
    destruct ok2; intros [= <- <- <-].
    + split; [done|]. by apply try_log_accepted.
    + split; [done|]. by eapply try_log_refused.
Qed.

(** * Refinement of the loop *)

Lemma line_loop_refines fuel r t sink opts b n stop b' t' sink' :
  line_loop fuel r t sink opts b n = Some (stop, b', t', sink') ->
  exists ls r',
    reads r ls r' /\
    b' = b + len (concat ls) /\
    t' = set_pos (pos t + len (concat ls)) (set_partial (feed_all opts (partial t) ls).2 t) /\
    shipped sink' = shipped sink ++ (feed_all opts (partial t) ls).1 /\
    (stop = StopEof -> quiet r -> stream r' = []).
Proof.
  assert (Hstop : forall t, t = set_pos (pos t + len (concat (@nil bytes)))
                               (set_partial (feed_all opts (partial t) []).2 t)).
  { intros [p q ? ? ? ? ? ?]. unfold set_pos, set_partial. cbn. by rewrite len_nil, N.add_0_r. }
  revert r t sink b n. induction fuel as [|fuel IH]; intros r t sink b n; cbn [line_loop]; [done|].
  assert (Hdone : forall stop0 sink0, shipped sink0 = shipped sink ->
    (stop0 = StopEof -> quiet r -> stream r = []) ->
    exists ls r', reads r ls r' /\ b = b + len (concat ls) /\
      t = set_pos (pos t + len (concat ls)) (set_partial (feed_all opts (partial t) ls).2 t) /\
      shipped sink0 = shipped sink ++ (feed_all opts (partial t) ls).1 /\
      (stop0 = StopEof -> quiet r -> stream r' = [])).
  { intros stop0 sink0 Hsh Hq. exists [], r. split_and!; [constructor| |apply Hstop| |done].
    - cbn [concat]. rewrite len_nil. lia.
    - cbn. by rewrite app_nil_r. }
  destruct (read_line r []) as [[[k|] buf] r'] eqn:Er.
  2: { intros [= <- <- <- <-]. apply Hdone; [done|]. intros _ Hq.
       destruct (read_line_quiet r Hq) as (? & Hr & _). congruence. }
  assert (Hok := Er). apply read_line_ok in Hok as (Hline & -> & Hst & _).
  destruct (N.eqb_spec (len buf) 0) as [Hz|Hz].
  { intros [= <- <- <- <-]. apply Hdone; [done|]. intros _ Hq.
    destruct (read_line_quiet r Hq) as (r2 & Hr & Hq2 & Hs2 & _).
    rewrite Er in Hr. injection Hr as Hlen -> ->. apply len_0_nil in Hz.
    rewrite Hz in *. apply first_line_nil in Hz. done. }
  assert (Hne : buf <> []) by (by intros ->).
  assert (Hquiet : quiet r -> quiet r').
  { intros Hq. destruct (read_line_quiet r Hq) as (r2 & Hr & Hq2 & _). congruence. }
  destruct (ends_with_nl buf) eqn:Enl.
  - destruct (try_emit_line _ (partial t) sink opts) as [[ok part'] s2] eqn:Et.
    apply try_emit_line_spec in Et. destruct ok; cbn [negb].
    + destruct Et as [-> Hsh]. fold (line_body buf) in Hsh.
      assert (Hfeed : feed opts (partial t) buf
                      = (text_entry opts (partial t ++ lossy (line_body buf)), []))
        by (unfold feed; by rewrite Enl).
      case_if.
      * intros [= <- <- <- <-]. exists [buf], r'. cbn [concat feed_all].
        rewrite Hfeed, !app_nil_r. split_and!; [|done|done|done|done].
        econstructor; [done|done|constructor].
      * intros Hrec. apply IH in Hrec as (ls & r2 & Hls & -> & -> & Hs' & Heof).
        exists (buf :: ls), r2. cbn [concat feed_all pos partial set_pos set_partial] in *.
        rewrite Hfeed. destruct (feed_all opts [] ls) as [es p]. cbn [fst snd] in *.
        rewrite len_app. split_and!; [by econstructor|lia| | |by auto].
        -- unfold set_pos, set_partial. cbn. f_equal. lia.
        -- by rewrite Hs', Hsh, <- app_assoc.
    + destruct Et as [-> Hsh]. intros [= <- <- <- <-].
      replace (set_partial (partial t) t) with t by (by destruct t). by apply Hdone.
  - assert (Hfeed : feed opts (partial t) buf = ([], push_partial (partial t) buf))
      by (unfold feed; by rewrite Enl).
    intros Hrec. apply IH in Hrec as (ls & r2 & Hls & -> & -> & Hs' & Heof).
    exists (buf :: ls), r2. cbn [concat feed_all pos partial set_pos set_partial] in *.
    rewrite Hfeed. destruct (feed_all opts _ ls) as [es p]. cbn [fst snd app] in *.
    rewrite len_app. split_and!; [by econstructor|lia| |done|by auto].
    unfold set_pos, set_partial. cbn. f_equal. lia.
Qed.

Lemma line_loop_total fuel r t sink opts b n :
  (reader_size r < fuel)%nat -> is_Some (line_loop fuel r t sink opts b n).
Proof.
  revert r t sink b n. induction fuel as [|fuel IH]; intros r t sink b n Hf; [lia|].
  cbn [line_loop]. destruct (read_line r []) as [[[k|] buf] r'] eqn:Er; [|by eexists].
  apply read_line_ok in Er as (_ & -> & _ & Hsz).
  destruct (N.eqb_spec (len buf) 0) as [Hz|Hz]; [by eexists|].
  assert (Hlt : (reader_size r' < fuel)%nat).
  { assert (Hne : buf <> []) by (by intros ->). specialize (Hsz Hne). lia. }
  destruct (ends_with_nl buf); [|by apply IH].
  destruct (try_emit_line _ _ _ _) as [[[] part'] s2]; cbn [negb]; [|by eexists].
  case_if; [by eexists|]. by apply IH.
Qed.

Lemma run_lines_refines r t sink opts stop n t' sink' :
  run_lines r t sink opts = (stop, n, t', sink') ->
  exists ls r',
    reads r ls r' /\ n = len (concat ls) /\
    t' = set_pos (pos t + n) (set_partial (feed_all opts (partial t) ls).2 t) /\
    shipped sink' = shipped sink ++ (feed_all opts (partial t) ls).1 /\
    (stop = StopEof -> quiet r -> stream r' = []).
Proof.
  unfold run_lines.
  destruct (line_loop_total (Datatypes.S (reader_size r)) r t sink opts 0 0 ltac:(lia))
    as [[[[st m] t2] s2] E].
  rewrite E. intros [= <- <- <- <-].
  apply line_loop_refines in E as (ls & r' & Hls & -> & -> & Hs & Heof).
  exists ls, r'. by rewrite N.add_0_l.
Qed.

(** * The partial-line buffer *)

Lemma push_partial_bound part s :
  len part <= MAX_PARTIAL_BYTES -> len (push_partial part s) <= MAX_PARTIAL_BYTES.
Proof.
  intros Hp. unfold push_partial. case_if; norm_bool; [done|]. case_if; norm_bool; [|lia].
  assert (Hle := floor_char_boundary_le (part ++ lossy s) MAX_PARTIAL_BYTES).
  unfold len at 1. rewrite length_take. lia.
Qed.

Lemma push_partial_valid part s :
  valid_utf8 part = true -> valid_utf8 (push_partial part s) = true.
Proof.
  intros Hp. unfold push_partial. case_if; [done|].
  assert (Hv : valid_utf8 (part ++ lossy s) = true).
  { rewrite valid_utf8_app by done. rewrite lossy_std. apply lossy_is_valid. }
  case_if; [|done]. by apply truncate_floor_valid.
Qed.

Lemma push_partial_small part s :
  len part + len s <= MAX_PARTIAL_BYTES -> s <> [] -> valid_utf8 s = true ->
  push_partial part s = part ++ s.
Proof.
  intros Hl Hs Hv. unfold push_partial. rewrite (lossy_id s Hv).
  assert (0 < len s) by (destruct s; [done | rewrite len_cons; lia]).
  case_if; norm_bool; [lia|]. case_if; norm_bool; [|done]. rewrite len_app in *. lia.
Qed.

(** The buffer a run of reads leaves is valid UTF-8 within its cap. *)
Definition partial_ok (part : bytes) : Prop :=
  valid_utf8 part = true /\ len part <= MAX_PARTIAL_BYTES.

Lemma feed_all_partial_ok opts part ls : partial_ok part -> partial_ok (feed_all opts part ls).2.
Proof.
  revert part. induction ls as [|l ls IH]; intros part Hp; cbn [feed_all]; [done|].
  assert (Hp' : partial_ok (feed opts part l).2).
  { unfold feed. destruct Hp as [Hv Hl]. case_if; cbn [snd]; [by split|].
    split; [by apply push_partial_valid|by apply push_partial_bound]. }
  destruct (feed opts part l) as [es p]. specialize (IH p Hp'). by destruct (feed_all opts p ls).
Qed.

(** * The content of a file, line by line *)

(** The entries of the complete lines of [c]. *)
Definition ideal_entries opts (c : bytes) : list LogEntry :=
  concat (map (fun p : bytes * bool => if p.2 then text_entry opts (lossy p.1) else [])
              (raw_lines c)).

Lemma ideal_line opts body (r : bytes) :
  nl ∉ body -> ideal_entries opts (body ++ nl :: r)
               = text_entry opts (lossy body) ++ ideal_entries opts r.
Proof. intros Hb. unfold ideal_entries. by rewrite raw_lines_line. Qed.

Lemma ideal_none opts c : nl ∉ c -> ideal_entries opts c = [].
Proof.
  intros Hc. destruct c as [|x c]; [done|]. unfold ideal_entries.
  by rewrite raw_lines_partial.
Qed.

(** Reading on from where the pending tail starts gives the remaining lines. *)
Lemma ideal_app opts c d :
  ideal_entries opts (c ++ d) = ideal_entries opts c ++ ideal_entries opts (pending c ++ d) /\
  pending (c ++ d) = pending (pending c ++ d).
Proof.
  remember (length c) as n eqn:Hn. revert c Hn.
  induction (lt_wf n) as [n _ IH]. intros c ->.
  destruct (decide (nl ∈ c)) as [Hin|Hno].
  - apply find_byte_in in Hin as (body & r & -> & Hb).
    rewrite <- app_assoc. cbn [app]. rewrite !ideal_line, !pending_line by done.
    destruct (IH (length r) ltac:(rewrite length_app; cbn; lia) r eq_refl) as [-> ->].
    by rewrite app_assoc.
  - rewrite (ideal_none opts c), (pending_none c) by done. done.
Qed.

(** One chunk read after the raw tail [raw] has been buffered as is. *)
Lemma feed_ideal opts raw l :
  nl ∉ raw -> valid_utf8 raw = true -> chunk_ok l ->
  (ends_with_nl l = false -> valid_utf8 l = true /\ len raw + len l <= MAX_PARTIAL_BYTES) ->
  feed opts raw l = (ideal_entries opts (raw ++ l), pending (raw ++ l)).
Proof.
  intros Hraw Hv [Hne Hline] Hpart. unfold feed. destruct (ends_with_nl l) eqn:E.
  - destruct Hline as [Hno|(body & -> & Hb)].
    { by rewrite ends_with_nl_not_elem in E. }
    rewrite line_body_snoc, app_assoc. rewrite ideal_line, pending_line by set_solver.
    rewrite lossy_app by done. cbn. by rewrite app_nil_r.
  - apply ends_with_nl_line in E; [|done]. destruct Hpart as [Hvl Hlen]; [done|].
    rewrite push_partial_small by done. rewrite ideal_none, pending_none by set_solver. done.
Qed.

(** In a quiet reader only the last chunk can be unterminated, and then the
    reader is exhausted. *)
Lemma reads_quiet r ls r' :
  quiet r -> reads r ls r' ->
  Forall (fun l => ends_with_nl l = true) ls \/
  exists ls0 l, ls = ls0 ++ [l] /\ Forall (fun l => ends_with_nl l = true) ls0 /\ nl ∉ l.
Proof.
  intros Hq Hr. induction Hr as [r|r l r1 ls r' Hl Hne Hr IH]; [by left|].
  destruct (read_line_quiet r Hq) as (r2 & Hl2 & Hq2 & Hst & Hnil).
  rewrite Hl in Hl2. injection Hl2 as _ -> ->.
  assert (Hline : is_line (first_line (stream r))) by (by apply read_line_ok in Hl as [? _]).
  destruct (ends_with_nl (first_line (stream r))) eqn:E.
  - destruct (IH Hq2) as [Hall|(ls0 & l & -> & Hall & Hn)]; [left; by constructor|].
    right. exists (first_line (stream r) :: ls0), l. split_and!; [done|by constructor|done].
  - apply ends_with_nl_line in E; [|done].
    assert (Hns : nl ∉ stream r) by (by apply first_line_no_nl).
    rewrite (Hnil Hns) in Hr. right. exists [], (first_line (stream r)).
    inversion Hr as [|? l0 ? ? ? Hl0 Hne0]; subst; [done|].
    cbn in Hl0. injection Hl0 as _ <- _. done.
Qed.

Definition fits (c : bytes) : Prop :=
  valid_utf8 (pending c) = true /\ len (pending c) <= MAX_PARTIAL_BYTES.

Lemma feed_all_terminated opts raw ls :
  nl ∉ raw -> valid_utf8 raw = true -> Forall chunk_ok ls ->
  Forall (fun l => ends_with_nl l = true) ls ->
  feed_all opts raw ls = (ideal_entries opts (raw ++ concat ls), pending (raw ++ concat ls)).
Proof.
  intros Hraw Hv Hc Ht. revert raw Hraw Hv Hc.
  induction Ht as [|l ls Hl Ht IH]; intros raw Hraw Hv Hc; cbn [concat feed_all].
  - by rewrite app_nil_r, ideal_none, pending_none.
  - apply Forall_cons in Hc as [Hcl Hc].
    rewrite feed_ideal by (done || (rewrite Hl; done)).
    assert (Hp : pending (raw ++ l) = []).
    { destruct Hcl as [_ [Hno|(body & -> & Hb)]].
      - by rewrite ends_with_nl_not_elem in Hl.
      - by rewrite app_assoc, pending_line. }
    rewrite Hp, IH by (done || apply not_elem_of_nil). cbn [app].
    rewrite app_assoc. destruct (ideal_app opts (raw ++ l) (concat ls)) as [-> ->].
    by rewrite Hp.
Qed.

Lemma feed_all_ideal opts raw r ls r' :
  nl ∉ raw -> valid_utf8 raw = true -> quiet r -> reads r ls r' ->
  fits (raw ++ concat ls) ->
  feed_all opts raw ls = (ideal_entries opts (raw ++ concat ls), pending (raw ++ concat ls)).
Proof.
  intros Hraw Hv Hq Hr [Hfv Hfl]. assert (Hc := proj1 (reads_chunks _ _ _ Hr)).
  destruct (reads_quiet _ _ _ Hq Hr) as [Hall|(ls0 & l & -> & Hall & Hn)].
  { by apply feed_all_terminated. }
  apply Forall_app in Hc as [Hc0 Hcl]. apply Forall_cons in Hcl as [Hcl _].
  rewrite concat_app in *. cbn [concat] in *. rewrite app_nil_r in *.
  rewrite feed_all_app, feed_all_terminated by done. cbn [fst snd feed_all].
  destruct (ideal_app opts (raw ++ concat ls0) l) as [Hi Hp].
  rewrite app_assoc in *. rewrite Hi. rewrite Hp in *.
  assert (Hraw' : nl ∉ pending (raw ++ concat ls0)) by apply pending_no_nl.
  assert (Hno : nl ∉ pending (raw ++ concat ls0) ++ l) by set_solver.
  rewrite (pending_none (pending (raw ++ concat ls0) ++ l)) in * by done.
  assert (Hv' : valid_utf8 (pending (raw ++ concat ls0)) = true).
  { destruct ls0 as [|l0 ls0] using rev_ind; [cbn; rewrite app_nil_r; by rewrite pending_none|].
    apply Forall_app in Hall as [_ Hl0]. apply Forall_cons in Hl0 as [Hl0 _].
    apply Forall_app in Hc0 as [_ Hc1]. apply Forall_cons in Hc1 as [[_ [Hx|(body & -> & _)]] _].
    - cbn beta in Hl0. by rewrite ends_with_nl_not_elem in Hl0.
    - rewrite concat_app. cbn [concat]. rewrite app_nil_r.
      by rewrite !app_assoc, pending_line. }
  rewrite feed_ideal; [by rewrite app_nil_r, (pending_none (_ ++ l)) | done|done|done|].
  intros _. rewrite valid_utf8_app in Hfv by done. rewrite len_app in Hfl. done.
Qed.
End facts.
