(* ===== verification/Multiline.v ===== *)
(** [src/src/logs/multiline.rs]: aggregation of consecutive physical lines into
    one record. A start pattern opens a record, other lines continue it; the
    persisted offset [pos] stays at the start of the in-flight record until the
    whole record ships. *)
From S2P Require Import Prelude Str StrFacts External Text Structured Sink Tailed.
From Stdlib Require Import Strings.Byte.

(** Durations and instants are in nanoseconds. *)
Definition from_millis (ms : N) : N := ms * 1000000.

Section multiline.
Context `{SimdUtf8, Memchr, MemchrIter, SerdeJson, Regex} {S : Type} `{LogSink S}.

Record MultilineOpts := mkMultilineOpts {
  ml_pattern : regex;
  ml_timeout : N;
  ml_max_bytes : N;
}.

Definition multiline_opts_new (pat : bytes) (timeout_ms max_bytes : N) : option MultilineOpts :=
  match regex_new pat with
  | Some p => Some (mkMultilineOpts p (from_millis timeout_ms) max_bytes)
  | None => None
  end.

(** * The aggregator *)

Definition aggregator_new (pos : N) : Aggregator := mkAggregator [] 0 pos 0 None.

Definition has_record (a : Aggregator) : bool := 0 <? record_bytes a.

Definition append_to_record (a : Aggregator) (line : bytes) (line_span max_bytes : N) : Aggregator :=
  let rec1 := if is_empty (record a) then record a else record a ++ [nl] in
  let rec2 := rec1 ++ line in
  let rec3 :=
    if max_bytes <? len rec2
    then take (N.to_nat (floor_char_boundary rec2 max_bytes)) rec2 else rec2 in
  mkAggregator rec3 (record_bytes a + line_span) (read_ahead a) (partial_bytes a) (last_append a).

Definition clear_record (a : Aggregator) : Aggregator :=
  mkAggregator [] 0 (read_ahead a) (partial_bytes a) None.

Definition ensure_agg (t : TailedFile) : TailedFile :=
  match agg t with
  | None => set_agg (Some (aggregator_new (pos t))) t
  | Some _ => t
  end.

(** The result, the file and the sink afterwards. *)
Definition ship (t : TailedFile) (sink : S) (opts : FileParseOpts) : bool * TailedFile * S :=
  match agg t with
  | None => (true, t, sink)
  | Some a =>
    if negb (has_record a) then (true, t, sink)
    else if is_empty (trim (record a)) then
      (true, set_agg (Some (clear_record a)) (set_pos (pos t + record_bytes a) t), sink)
    else
      let '(sink', ok) :=
        try_log_with_service sink (classified_entry (classify_line (record a) opts)) in
      if ok then
        (true, set_agg (Some (clear_record a)) (set_pos (pos t + record_bytes a) t), sink')
      else (false, t, sink')
  end.

Definition fold_partial (t : TailedFile) (ml : MultilineOpts) : TailedFile :=
  if is_empty (partial t) then t
  else
    let line := partial t in
    let t := set_partial [] t in
    let normalized := normalize_line line in
    match agg t with
    | Some a =>
      let span := partial_bytes a in
      let a := mkAggregator (record a) (record_bytes a) (read_ahead a) 0 (last_append a) in
      set_agg (Some (append_to_record a normalized span (ml_max_bytes ml))) t
    | None => t
    end.

Definition reset (t : TailedFile) : TailedFile :=
  let t := set_partial [] t in
  match agg t with
  | Some _ => set_agg (Some (aggregator_new (pos t))) t
  | None => t
  end.

(** * Reading *)

Inductive Commit := CommitOk | CommitBackpressure.

(** [now] is the clock read for [last_append]. *)
Definition commit_line (t : TailedFile) (line_bytes : bytes) (n : N) (sink : S)
    (opts : FileParseOpts) (ml : MultilineOpts) (now : N) : Commit * TailedFile * S :=
  let line_lossy := lossy line_bytes in
  let complete := if is_empty (partial t) then line_lossy else partial t ++ line_lossy in
  let normalized := normalize_line complete in
  let is_start := negb (is_empty normalized) && is_match (ml_pattern ml) normalized in
  let line_span := match agg t with Some a => partial_bytes a | None => 0 end + n in
  let '(shipped_ok, t1, sink1) :=
    if is_start && match agg t with Some a => has_record a | None => false end
    then ship t sink opts else (true, t, sink) in
  if negb shipped_ok then (CommitBackpressure, t1, sink1)
  else
    match agg t1 with
    | None => (CommitBackpressure, t1, sink1)
    | Some a =>
      let a := mkAggregator (record a) (record_bytes a) (read_ahead a + n) 0 (last_append a) in
      let a := append_to_record a normalized line_span (ml_max_bytes ml) in
      let a := mkAggregator (record a) (record_bytes a) (read_ahead a) (partial_bytes a) (Some now) in
      (CommitOk, set_agg (Some a) (set_partial [] t1), sink1)
    end.

Inductive StopReason := Eof | Backpressure | Cap.

Fixpoint ml_loop (fuel : nat) (r : reader) (t : TailedFile) (sink : S) (opts : FileParseOpts)
    (ml : MultilineOpts) (now consumed lines : N) : option (StopReason * N * TailedFile * S) :=
  match fuel with
  | O => None
  | Datatypes.S fuel' =>
    match read_line r [] with
    | (Err, _, _) => Some (Eof, consumed, t, sink)
    | (Ok n, buf, r') =>
      if n =? 0 then Some (Eof, consumed, t, sink)
      else if ends_with_nl buf then
        match commit_line t (take (N.to_nat (n - 1)) buf) n sink opts ml now with
        | (CommitOk, t', sink') =>
          if MAX_LINES_PER_POLL <=? lines + 1 then Some (Cap, consumed + n, t', sink')
          else ml_loop fuel' r' t' sink' opts ml now (consumed + n) (lines + 1)
        | (CommitBackpressure, t', sink') => Some (Backpressure, consumed, t', sink')
        end
      else
        match agg t with
        | Some a =>
          let a := mkAggregator (record a) (record_bytes a) (read_ahead a + n)
                     (partial_bytes a + n) (last_append a) in
          let t' := set_partial (push_partial (partial t) buf) (set_agg (Some a) t) in
          ml_loop fuel' r' t' sink opts ml now (consumed + n) lines
        | None => ml_loop fuel' r' t sink opts ml now consumed lines
        end
    end
  end.

(** [reader_size] passes are always enough ([ml_loop_total]). *)
Definition read_loop (r : reader) (t : TailedFile) (sink : S) (opts : FileParseOpts)
    (ml : MultilineOpts) (now : N) : StopReason * N * TailedFile * S :=
  match ml_loop (Datatypes.S (reader_size r)) r t sink opts ml now 0 0 with
  | Some res => res
  | None => (Eof, 0, t, sink)
  end.

Definition read_from (t : TailedFile) : N :=
  match agg t with Some a => read_ahead a | None => pos t end.

(** [open] answers the seek of the file at a position. *)
Definition read_live (open : N -> option reader) (t : TailedFile) (sink : S)
    (opts : FileParseOpts) (ml : MultilineOpts) (now : N) : N * TailedFile * S :=
  let t := ensure_agg t in
  match open (read_from t) with
  | None => (0, t, sink)
  | Some r =>
    let '(_, consumed, t', sink') := read_loop r t sink opts ml now in (consumed, t', sink')
  end.

Definition drain (open : File -> N -> option reader) (t : TailedFile) (sink : S)
    (opts : FileParseOpts) (ml : MultilineOpts) (now : N) : N * TailedFile * S :=
  match retained_fd t with
  | None => (0, t, sink)
  | Some file =>
    let t := ensure_agg (set_retained_fd None t) in
    match open file (read_from t) with
    | None => (0, t, sink)
    | Some r =>
      let '(reason, consumed, t1, sink1) := read_loop r t sink opts ml now in
      match reason with
      | Backpressure | Cap => (consumed, set_retained_fd (Some file) t1, sink1)
      | Eof =>
        let t2 := fold_partial t1 ml in
        let '(ok, t3, sink3) := ship t2 sink1 opts in
        (consumed, if ok then t3 else set_retained_fd (Some file) t3, sink3)
      end
    end
  end.

(** * Flushing *)

Definition flush_final (t : TailedFile) (sink : S) (opts : FileParseOpts) (ml : MultilineOpts)
    : TailedFile * S :=
  let '(_, t', sink') := ship (fold_partial t ml) sink opts in (t', sink').

(** [now1] and [now2] are the two clock readings of the body; an instant's
    [elapsed] saturates at zero, as [N] subtraction does. *)
Definition flush_if_expired (t : TailedFile) (sink : S) (opts : FileParseOpts)
    (ml : MultilineOpts) (now1 now2 : N) : option N * TailedFile * S :=
  let elapsed now a :=
    match last_append a with None => 0 | Some i => now - i end in
  match agg t with
  | Some a =>
    if has_record a then
      let '(t', sink') :=
        if ml_timeout ml <=? elapsed now1 a
        then let '(_, t', sink') := ship t sink opts in (t', sink')
        else (t, sink) in
      match agg t' with
      | Some a' =>
        if has_record a' then (Some (ml_timeout ml - elapsed now2 a'), t', sink')
        else (None, t', sink')
      | None => (None, t', sink')
      end
    else (None, t, sink)
  | None => (None, t, sink)
  end.
End multiline.
