(* ===== verification/MultilineFacts.v ===== *)
(** Properties of multiline aggregation.

    The specification works on lists of lines: [ml_feed_all] groups the lines
    read into records, closing one only when the next start line arrives.
    [represents] relates the aggregator to the lines in flight; the read loop
    refines the grouping, ships the closed records in order, and keeps the
    offset at the first byte of the record in flight. *)
From S2P Require Import Prelude Str StrFacts External Text Structured Sink Tailed TailedFacts Multiline.
From Stdlib Require Import Strings.Byte.

Section facts.
Context `{SimdUtf8, Memchr, MemchrIter, SerdeJson, Regex, !SimdUtf8Ok, !MemchrOk}.
Context {S : Type} `{LogSink S, !LogSinkOk S}.
Implicit Types (t : TailedFile) (sink : S) (opts : FileParseOpts) (ml : MultilineOpts) (r : reader).

(** * Specification *)

(** A physical line: its normalized text and its span of bytes on disk. *)
Notation mline := (bytes * N)%type.

Definition add_line (max_bytes : N) (rec line : bytes) : bytes :=
  let joined := (if is_empty rec then rec else rec ++ [nl]) ++ line in
  if max_bytes <? len joined
  then take (N.to_nat (floor_char_boundary joined max_bytes)) joined else joined.

Definition record_text ml (g : list mline) : bytes :=
  fold_left (fun rec l => add_line (ml_max_bytes ml) rec l.1) g [].

Definition span_sum (g : list mline) : N := foldr (fun l acc => l.2 + acc) 0 g.

Definition starts_record ml (text : bytes) : bool :=
  negb (is_empty text) && is_match (ml_pattern ml) text.

(** Lines in flight, buffered sub-line text, its bytes on disk. *)
Notation mstate := (list mline * bytes * N)%type.

Definition ml_feed ml (st : mstate) (chunk : bytes) : list (list mline) * mstate :=
  let '(cur, part, pb) := st in
  if ends_with_nl chunk then
    let text := normalize_line (part ++ lossy (line_body chunk)) in
    let l := (text, pb + len chunk) in
    if starts_record ml text && negb (is_empty cur) then ([cur], ([l], [], 0))
    else ([], (cur ++ [l], [], 0))
  else ([], (cur, push_partial part chunk, pb + len chunk)).

Fixpoint ml_feed_all ml (st : mstate) (chunks : list bytes) : list (list mline) * mstate :=
  match chunks with
  | [] => ([], st)
  | c :: rest =>
    let '(g, st') := ml_feed ml st c in
    let '(gs, st'') := ml_feed_all ml st' rest in
    (g ++ gs, st'')
  end.

Definition group_entries opts ml (g : list mline) : list LogEntry :=
  let text := record_text ml g in
  if is_empty (trim text) then [] else [classified_entry (classify_line text opts)].

Definition closed_entries opts ml (gs : list (list mline)) : list LogEntry :=
  concat (map (group_entries opts ml) gs).

Definition closed_span (gs : list (list mline)) : N := foldr (fun g acc => span_sum g + acc) 0 gs.

Definition represents ml t (st : mstate) : Prop :=
  let '(cur, part, pb) := st in
  exists a, agg t = Some a /\ record a = record_text ml cur /\
    record_bytes a = span_sum cur /\ partial_bytes a = pb /\ partial t = part /\
    read_ahead a = pos t + span_sum cur + pb /\ Forall (fun l : mline => 0 < l.2) cur.

(** * Sums *)

Lemma span_sum_app g h : span_sum (g ++ h) = span_sum g + span_sum h.
Proof. unfold span_sum. induction g as [|l g IH]; cbn; [done|]. rewrite IH. lia. Qed.

Lemma closed_span_app g h : closed_span (g ++ h) = closed_span g + closed_span h.
Proof. unfold closed_span. induction g as [|l g IH]; cbn; [done|]. rewrite IH. lia. Qed.

Lemma closed_entries_app opts ml g h :
  closed_entries opts ml (g ++ h) = closed_entries opts ml g ++ closed_entries opts ml h.
Proof. unfold closed_entries. by rewrite map_app, concat_app. Qed.

Lemma record_text_snoc ml g l :
  record_text ml (g ++ [l]) = add_line (ml_max_bytes ml) (record_text ml g) l.1.
Proof. unfold record_text. by rewrite fold_left_app. Qed.

Lemma span_pos_nonempty g :
  Forall (fun l : mline => 0 < l.2) g -> (0 <? span_sum g) = negb (is_empty g).
Proof.
  destruct 1 as [|l g Hl Hg]; [done|]. cbn. apply N.ltb_lt. lia.
Qed.

Lemma represents_has_record ml t cur part pb a :
  represents ml t (cur, part, pb) -> agg t = Some a -> has_record a = negb (is_empty cur).
Proof.
  intros (a' & Ha & _ & Hrb & _ & _ & _ & Hf) Ha'. simplify_eq.
  unfold has_record. rewrite Hrb. by apply span_pos_nonempty.
Qed.

(** * The record never exceeds its cap *)

Lemma add_line_cap max rec line : len (add_line max rec line) <= max.
Proof.
  unfold add_line. case_if; norm_bool; [|done].
  assert (Hle := floor_char_boundary_le ((if is_empty rec then rec else rec ++ [nl]) ++ line) max).
  unfold len at 1. rewrite length_take. lia.
Qed.

Lemma record_text_cap ml g : len (record_text ml g) <= ml_max_bytes ml.
Proof.
  destruct g as [|l g] using rev_ind; [cbn; rewrite len_nil; lia|].
  rewrite record_text_snoc. apply add_line_cap.
Qed.

(** * Shipping *)

Lemma ship_spec t sink opts ml cur part pb ok t' sink' :
  represents ml t (cur, part, pb) -> ship t sink opts = (ok, t', sink') ->
  if ok then represents ml t' ([], part, pb) /\ pos t' = pos t + span_sum cur /\
             shipped sink' = shipped sink ++ match cur with [] => [] | _ => group_entries opts ml cur end /\
             t' = set_agg (agg t') (set_pos (pos t') t)
  else t' = t /\ shipped sink' = shipped sink.
Proof.
  intros Hrep. assert (Hhr := represents_has_record ml t cur part pb).
  destruct Hrep as (a & Ha & Hrec & Hrb & Hpb & Hpart & Hra & Hf).
  specialize (Hhr a ltac:(by exists a) Ha). unfold ship. rewrite Ha, Hhr.
  destruct cur as [|l cur]; cbn [is_empty negb].
  { intros [= <- <- <-]. split_and!; [by exists a|cbn; lia|by rewrite app_nil_r|by destruct t]. }
  rewrite Hrec, Hrb. unfold group_entries.
  assert (Hnew : represents ml (set_agg (Some (clear_record a)) (set_pos (pos t + span_sum (l :: cur)) t))
                   ([], part, pb)).
  { exists (clear_record a). cbn [agg set_agg pos set_pos partial clear_record record record_bytes
      partial_bytes read_ahead]. split_and!; try done. cbn [span_sum foldr] in *. lia. }
  destruct (is_empty (trim (record_text ml (l :: cur)))).
  { intros [= <- <- <-]. split_and!; [done|done|by rewrite app_nil_r|by destruct t]. }
  destruct (try_log_with_service sink _) as [s2 []] eqn:E; intros [= <- <- <-].
  - split_and!; [done|done| |by destruct t]. by apply try_log_accepted.
  - split; [done|]. by eapply try_log_refused.
Qed.

(** * Committing a line *)

Lemma commit_line_spec t chunk sink opts ml now cur part pb c t' sink' :
  represents ml t (cur, part, pb) -> ends_with_nl chunk = true ->
  commit_line t (line_body chunk) (len chunk) sink opts ml now = (c, t', sink') ->
  match c with
  | CommitOk =>
    let '(gs, st') := ml_feed ml (cur, part, pb) chunk in
    represents ml t' st' /\ pos t' = pos t + closed_span gs /\
    shipped sink' = shipped sink ++ closed_entries opts ml gs
  | CommitBackpressure => t' = t /\ shipped sink' = shipped sink
  end.
Proof.
  intros Hrep Hnl. assert (Hpos : 0 < len chunk).
  { destruct chunk; [done|rewrite len_cons; lia]. }
  assert (Hrep' := Hrep). destruct Hrep as (a & Ha & Hrec & Hrb & Hpb & Hpart & Hra & Hf).
  unfold commit_line. rewrite Ha, Hpart.
  replace (if is_empty part then lossy (line_body chunk) else part ++ lossy (line_body chunk))
    with (part ++ lossy (line_body chunk)) by (by destruct part).
  set (text := normalize_line (part ++ lossy (line_body chunk))).
  fold (starts_record ml text). rewrite (represents_has_record _ _ _ _ _ a Hrep' Ha).
  unfold ml_feed. rewrite Hnl. fold text.
  destruct (starts_record ml text && negb (is_empty cur)) eqn:Es.
  - destruct (ship t sink opts) as [[ok t1] s1] eqn:Eship.
    apply (ship_spec _ _ _ ml cur part pb) in Eship; [|done]. destruct ok; cbn [negb].
    + destruct Eship as ((a1 & Ha1 & Hrec1 & Hrb1 & Hpb1 & Hp1 & Hra1 & _) & Hpos1 & Hs1 & _).
      rewrite Ha1. intros [= <- <- <-]. split_and!.
      * eexists. cbn [agg set_agg]. split; [done|].
        cbn [append_to_record record record_bytes partial_bytes read_ahead partial set_partial
             set_agg pos last_append].
        cbn in Hrec1, Hrb1, Hra1. rewrite Hrec1, Hrb1, Hra1, Hpb.
        split_and!; [done|cbn; lia|done|done|cbn; lia|].
        apply Forall_singleton. cbn. lia.
      * cbn. lia.
      * rewrite Hs1. unfold closed_entries. cbn. rewrite app_nil_r.
        by destruct cur; [rewrite andb_false_r in Es|].
    + intros [= <- <- <-]. done.
  - cbn [negb]. rewrite Ha. intros [= <- <- <-]. split_and!.
    + eexists. cbn [agg set_agg]. split; [done|].
      cbn [append_to_record record record_bytes partial_bytes read_ahead partial set_partial
           set_agg pos last_append].
      rewrite record_text_snoc, span_sum_app, Hrec, Hrb, Hra, Hpb. cbn [span_sum foldr fst snd].
      split_and!; [done|lia|done|done|lia|].
      apply Forall_app. split; [done|]. apply Forall_singleton. cbn. lia.
    + cbn. lia.
    + cbn. by rewrite app_nil_r.
Qed.

(** * The read loop *)

Lemma ml_feed_all_cons ml st c rest :
  ml_feed_all ml st (c :: rest) =
    ((ml_feed ml st c).1 ++ (ml_feed_all ml (ml_feed ml st c).2 rest).1,
     (ml_feed_all ml (ml_feed ml st c).2 rest).2).
Proof.
  cbn [ml_feed_all]. destruct (ml_feed ml st c) as [g st']. cbn [fst snd].
  by destruct (ml_feed_all ml st' rest).
Qed.

Definition ml_result opts ml t sink (gs : list (list mline)) (st' : mstate) t' sink' : Prop :=
  represents ml t' st' /\ pos t' = pos t + closed_span gs /\
  shipped sink' = shipped sink ++ closed_entries opts ml gs.

Lemma ml_result_trans opts ml t sink g st1 t1 sink1 gs st2 t2 sink2 :
  ml_result opts ml t sink g st1 t1 sink1 -> ml_result opts ml t1 sink1 gs st2 t2 sink2 ->
  ml_result opts ml t sink (g ++ gs) st2 t2 sink2.
Proof.
  intros (_ & Hp1 & Hs1) (Hr2 & Hp2 & Hs2). split_and!; [done| |].
  - rewrite closed_span_app. lia.
  - by rewrite Hs2, Hs1, closed_entries_app, app_assoc.
Qed.

Lemma ml_result_refl opts ml t sink sink' st :
  represents ml t st -> shipped sink' = shipped sink -> ml_result opts ml t sink [] st t sink'.
Proof. intros Hr Hs. split_and!; [done|cbn; lia|cbn; by rewrite app_nil_r]. Qed.

Lemma line_body_len buf : take (N.to_nat (len buf - 1)) buf = line_body buf.
Proof. unfold line_body, len. f_equal. lia. Qed.

Lemma partial_step ml t cur part pb chunk a :
  represents ml t (cur, part, pb) -> agg t = Some a -> ends_with_nl chunk = false ->
  represents ml
    (set_partial (push_partial (partial t) chunk)
       (set_agg (Some (mkAggregator (record a) (record_bytes a) (read_ahead a + len chunk)
                         (partial_bytes a + len chunk) (last_append a))) t))
    (ml_feed ml (cur, part, pb) chunk).2.
Proof.
  intros (a' & Ha & Hrec & Hrb & Hpb & Hp & Hra & Hf) Ha' Hnl. simplify_eq.
  unfold ml_feed. rewrite Hnl. eexists. split; [done|].
  cbn [record record_bytes partial_bytes read_ahead partial set_partial set_agg pos].
  split_and!; [done|done|done|done|lia|done].
Qed.

Lemma ml_loop_refines fuel r t sink opts ml now c n reason c' t' sink' st :
  represents ml t st ->
  ml_loop fuel r t sink opts ml now c n = Some (reason, c', t', sink') ->
  exists ls r', reads r ls r' /\ c' = c + len (concat ls) /\
    ml_result opts ml t sink (ml_feed_all ml st ls).1 (ml_feed_all ml st ls).2 t' sink'.
Proof.
  revert r t sink c n st. induction fuel as [|fuel IH]; intros r t sink c n st Hrep;
    cbn [ml_loop]; [done|].
  assert (Hdone : forall sink0, shipped sink0 = shipped sink ->
    exists ls r', reads r ls r' /\ c = c + len (concat ls) /\
      ml_result opts ml t sink (ml_feed_all ml st ls).1 (ml_feed_all ml st ls).2 t sink0).
  { intros sink0 Hs. exists [], r. cbn [concat ml_feed_all fst snd]. rewrite len_nil.
    split_and!; [constructor|lia|by apply ml_result_refl]. }
  destruct (read_line r []) as [[[k|] buf] r'] eqn:Er.
  2: { intros [= <- <- <- <-]. by apply Hdone. }
  assert (Hok := Er). apply read_line_ok in Hok as (_ & -> & _ & _).
  destruct (N.eqb_spec (len buf) 0) as [Hz|Hz]; [intros [= <- <- <- <-]; by apply Hdone|].
  assert (Hne : buf <> []) by (by intros ->).
  destruct st as [[cur part] pb]. destruct (ends_with_nl buf) eqn:Enl.
  - rewrite line_body_len. destruct (commit_line _ _ _ _ _ _ _) as [[cm t1] s1] eqn:Ec.
    apply (commit_line_spec _ _ _ _ _ _ cur part pb) in Ec; [|done|done]. destruct cm.
    + assert (Hres : ml_result opts ml t sink (ml_feed ml (cur, part, pb) buf).1
                       (ml_feed ml (cur, part, pb) buf).2 t1 s1).
      { destruct (ml_feed ml (cur, part, pb) buf) as [g st1]. exact Ec. }
      case_if.
      * intros [= <- <- <- <-]. exists [buf], r'. rewrite ml_feed_all_cons.
        cbn [concat ml_feed_all fst snd]. rewrite !app_nil_r.
        split_and!; [|done|done]. econstructor; [done|done|constructor].
      * intros Hrec. apply (IH _ _ _ _ _ _ (proj1 Hres)) in Hrec as (ls & r2 & Hls & -> & Hr2).
        exists (buf :: ls), r2. rewrite ml_feed_all_cons. cbn [concat fst snd].
        rewrite len_app. split_and!; [by econstructor|lia|by eapply ml_result_trans].
    + destruct Ec as [-> Hs]. intros [= <- <- <- <-]. by apply Hdone.
  - assert (Hrep' := Hrep). destruct Hrep as (a & Ha & _). rewrite Ha. intros Hrec.
    assert (Hst := partial_step ml t cur part pb buf a Hrep' Ha Enl).
    apply (IH _ _ _ _ _ _ Hst) in Hrec as (ls & r2 & Hls & -> & Hr2).
    exists (buf :: ls), r2. rewrite ml_feed_all_cons. cbn [concat fst snd].
    rewrite len_app. split_and!; [by econstructor|lia|].
    eapply ml_result_trans; [|done]. unfold ml_result. cbn [pos set_partial set_agg].
    assert (Hg : (ml_feed ml (cur, part, pb) buf).1 = []) by (unfold ml_feed; by rewrite Enl).
    rewrite Hg. cbn. rewrite app_nil_r. split_and!; [done|lia|done].
Qed.

Lemma ml_loop_total fuel r t sink opts ml now c n :
  (reader_size r < fuel)%nat -> is_Some (ml_loop fuel r t sink opts ml now c n).
Proof.
  revert r t sink c n. induction fuel as [|fuel IH]; intros r t sink c n Hf; [lia|].
  cbn [ml_loop]. destruct (read_line r []) as [[[k|] buf] r'] eqn:Er; [|by eexists].
  apply read_line_ok in Er as (_ & -> & _ & Hsz).
  destruct (N.eqb_spec (len buf) 0) as [Hz|Hz]; [by eexists|].
  assert (Hlt : (reader_size r' < fuel)%nat).
  { assert (Hne : buf <> []) by (by intros ->). specialize (Hsz Hne). lia. }
  destruct (ends_with_nl buf).
  - destruct (commit_line _ _ _ _ _ _ _) as [[[] t1] s1]; [|by eexists].
    case_if; [by eexists|]. by apply IH.
  - destruct (agg t); by apply IH.
Qed.

Lemma read_loop_refines r t sink opts ml now reason c' t' sink' st :
  represents ml t st -> read_loop r t sink opts ml now = (reason, c', t', sink') ->
  exists ls r', reads r ls r' /\ c' = len (concat ls) /\
    ml_result opts ml t sink (ml_feed_all ml st ls).1 (ml_feed_all ml st ls).2 t' sink'.
Proof.
  intros Hrep. unfold read_loop.
  destruct (ml_loop_total (Datatypes.S (reader_size r)) r t sink opts ml now 0 0 ltac:(lia))
    as [[[[st0 m] t2] s2] E].
  rewrite E. intros [= <- <- <- <-]. apply (ml_loop_refines _ _ _ _ _ _ _ _ _ _ _ _ _ _ Hrep) in E.
  by setoid_rewrite N.add_0_l in E.
Qed.

(** * Reading the span in flight again *)

(** Only the first line of a record in flight can be a start line, so feeding
    its lines to a fresh aggregator closes nothing. *)
Definition tail_continues ml (cur : list mline) : Prop :=
  Forall (fun l : mline => starts_record ml l.1 = false) (tail cur).

Lemma ml_feed_continues ml st c :
  tail_continues ml st.1.1 -> tail_continues ml (ml_feed ml st c).2.1.1.
Proof.
  destruct st as [[cur part] pb]. unfold ml_feed, tail_continues. cbn [fst snd]. intros Hc.
  case_if; [|done].
  destruct (starts_record ml _ && negb (is_empty cur)) eqn:E; cbn [fst snd]; [by constructor|].
  destruct cur as [|l cur]; [by constructor|]. cbn [app tail] in *. apply Forall_app.
  split; [done|]. apply Forall_singleton. cbn [fst]. by rewrite andb_true_r in E.
Qed.

Lemma ml_feed_all_continues ml st ls :
  tail_continues ml st.1.1 -> tail_continues ml (ml_feed_all ml st ls).2.1.1.
Proof.
  revert st. induction ls as [|c ls IH]; intros st Hc; [done|].
  rewrite ml_feed_all_cons. cbn [snd]. by apply IH, ml_feed_continues.
Qed.

(** * Timeout flushing and shutdown *)

Lemma fold_partial_represents ml t cur part pb :
  represents ml t (cur, part, pb) -> 0 < pb \/ part = [] ->
  represents ml (fold_partial t ml)
    (if is_empty part then (cur, part, pb) else (cur ++ [(normalize_line part, pb)], [], 0)).
Proof.
  intros (a & Ha & Hrec & Hrb & Hpb & Hp & Hra & Hf) Hpos. unfold fold_partial. rewrite Hp.
  destruct part as [|x part]; cbn [is_empty]; [by exists a|].
  destruct Hpos as [Hpos|]; [|done].
  cbn [agg set_partial]. rewrite Ha. eexists. cbn [agg set_agg]. split; [done|].
  cbn [append_to_record record record_bytes partial_bytes read_ahead partial set_partial
       set_agg pos last_append].
  rewrite record_text_snoc, span_sum_app, Hrec, Hrb, Hra, Hpb. cbn [span_sum foldr fst snd].
  split_and!; [done|lia|done|done|lia|].
  apply Forall_app. split; [done|]. by apply Forall_singleton.
Qed.

Lemma reset_represents ml t :
  is_Some (agg t) -> represents ml (reset t) ([], [], 0) /\ pos (reset t) = pos t.
Proof.
  intros [a Ha]. unfold reset. cbn [agg set_partial]. rewrite Ha. split; [|done].
  eexists. split; [done|]. cbn. by split_and!; [..|lia|].
Qed.

Lemma ensure_agg_represents ml t :
  agg t = None -> partial t = [] -> represents ml (ensure_agg t) ([], [], 0).
Proof.
  intros Ha Hp. unfold ensure_agg. rewrite Ha. eexists. split; [done|].
  cbn. by split_and!; [..|lia|].
Qed.
End facts.
