(* ===== verification/Watcher.v ===== *)
(** [src/src/logs/watcher.rs], the table half: registration, polling, rotation,
    offset persistence and the main loop of the file tailer.

    The operating system is the record [Os] of its answers to the calls the
    tailer makes during one event: every theorem holds whatever it answers. The
    iteration order of a [HashMap] is a list argument. *)
From S2P Require Import Prelude Str StrFacts External Text Structured Sink Tailed Multiline.
From Stdlib Require Import Strings.Byte.

(** * The operating system *)

Record Metadata := mkMetadata {
  md_id : FileId;                (* FileId::from_metadata *)
  md_len : N;
  md_modified : option N;        (* nanoseconds since the epoch *)
}.

Record Os := mkOs {
  os_metadata : bytes -> option Metadata;            (* std::fs::metadata *)
  os_open : bytes -> option File;                    (* File::open *)
  os_fstat : File -> option Metadata;                (* file.metadata() *)
  os_seek : File -> N -> option reader;              (* seek, then the reads *)
  os_head : File -> bytes;                           (* the first read, at most 3 bytes *)
  os_read_dir : bytes -> option (list (bytes * option Metadata));
  os_glob : bytes -> option (list bytes);            (* glob::glob, errors dropped *)
  os_is_file : bytes -> bool;
  os_now : N;                                        (* SystemTime::now, nanoseconds *)
}.

(** [Path::parent] of a path without trailing or repeated separators. *)
Definition parent (p : bytes) : option bytes :=
  match rfind_byte x2f p with
  | Some O => if bool_decide (p = [x2f]) then None else Some [x2f]
  | Some i => Some (take i p)
  | None => if is_empty p then None else Some []
  end.

(** * Saved offsets *)

Record SavedOffset := mkSavedOffset { s_pos : N; s_dev : N; s_ino : N }.

Notation saved_map := (gmap bytes SavedOffset).

Definition tab : byte := x09.

Definition offset_line (t : TailedFile) : bytes :=
  from_utf8_lossy (path t) ++ [tab] ++ show_N (pos t) ++ [tab] ++ show_N (dev (id t))
  ++ [tab] ++ show_N (ino (id t)) ++ [nl].

(** [order] is the iteration order of [files.values()]. *)
Definition offsets_text (order : list TailedFile) : bytes := concat (map offset_line order).

(** How the write of the temporary file went: it could be created, this many
    bytes of the text reached it, the rename succeeded. *)
Record SaveIo := mkSaveIo { create_ok : bool; written : nat; rename_ok : bool }.

(** [disk] is the content of the state file, if it exists. *)
Definition save_offsets (io : SaveIo) (order : list TailedFile) (disk : option bytes)
    : option bytes :=
  if negb (create_ok io) then disk
  else if rename_ok io then Some (take (written io) (offsets_text order))
  else disk.

Definition parse_offset_line (line : bytes) : option (bytes * SavedOffset) :=
  match splitn 4 tab line with
  | [p; a; b; c] =>
    match parse_u64 a, parse_u64 b, parse_u64 c with
    | Some pos, Some dev, Some ino => Some (p, mkSavedOffset pos dev ino)
    | _, _, _ => None
    end
  | _ => None
  end.

(** [read_to_string] fails on a missing or non-UTF-8 file. *)
Definition load_offsets (disk : option bytes) : saved_map :=
  match disk with
  | Some contents =>
    if valid_utf8 contents then
      fold_left (fun m line =>
        match parse_offset_line line with
        | Some (p, s) => <[p := s]> m
        | None => m
        end) (lines contents) ∅
    else ∅
  | None => ∅
  end.

(** * Glob resolution *)

Definition is_glob_char (c : byte) : bool :=
  bool_decide (c = x2a) || bool_decide (c = x3f) || bool_decide (c = x5b).

Definition resolve_globs (os : Os) (patterns : list bytes) : list bytes :=
  concat (map (fun pattern =>
    if existsb is_glob_char pattern then
      match os_glob os pattern with
      | Some entries => List.filter (os_is_file os) entries
      | None => []
      end
    else if os_is_file os pattern then [pattern] else []) patterns).

(** * Registration *)

Record Tail := mkTail {
  files : gmap FileId TailedFile;
  path_index : gmap bytes FileId;
}.

Definition file_is_utf16 (os : Os) (path : bytes) : bool :=
  match os_open os path with
  | Some f => is_utf16 (detect_bom (os_head os f))
  | None => false
  end.

(** Unix: the identity comes from the metadata. *)
Definition file_id_of (path : bytes) (m : Metadata) : FileId := md_id m.

Definition checkpoint_of (saved : saved_map) (path : bytes) (id : FileId) : option SavedOffset :=
  match saved !! from_utf8_lossy path with
  | Some s => if (s_dev s =? dev id) && (s_ino s =? ino id) then Some s else None
  | None => None
  end.

Definition too_old (os : Os) (m : Metadata) : bool :=
  match md_modified m with
  | Some modified =>
    (modified <=? os_now os) && (IGNORE_OLDER_SECS <? (os_now os - modified) / 1000000000)
  | None => false
  end.

Definition register_file (os : Os) (tl : Tail) (path : bytes) (saved : saved_map)
    (initial_pos : option N) : Tail :=
  match os_metadata os path with
  | None => tl
  | Some metadata =>
    let id := file_id_of path metadata in
    match files tl !! id with
    | Some _ => tl
    | None =>
      let skip_utf16 := file_is_utf16 os path in
      let checkpoint := checkpoint_of saved path id in
      if match initial_pos with None => true | Some _ => false end
         && match checkpoint with None => true | Some _ => false end
         && too_old os metadata
      then tl
      else
        let pos :=
          match initial_pos with
          | Some p => p
          | None =>
            match checkpoint with
            | Some s => N.min (s_pos s) (md_len metadata)
            | None => md_len metadata
            end
          end in
        mkTail
          (<[id := mkTailedFile path pos id [] 0 None skip_utf16 None]> (files tl))
          (<[path := id]> (path_index tl))
    end
  end.

(** * Rotation *)

Definition rotation_suffixes : list bytes := [b#".1"; b#".0"; b#"-1"].

Fixpoint find_suffix (os : Os) (t : TailedFile) (suffixes : list bytes) : option File :=
  match suffixes with
  | [] => None
  | suffix :: rest =>
    match os_open os (from_utf8_lossy (path t) ++ suffix) with
    | Some file =>
      match os_fstat os file with
      | Some meta => if bool_decide (md_id meta = id t) then Some file else find_suffix os t rest
      | None => find_suffix os t rest
      end
    | None => find_suffix os t rest
    end
  end.

Fixpoint find_entry (os : Os) (t : TailedFile) (entries : list (bytes * option Metadata))
    : option File :=
  match entries with
  | [] => None
  | (entry_path, meta) :: rest =>
    if bool_decide (entry_path = path t) then find_entry os t rest
    else
      match meta with
      | Some m =>
        if bool_decide (md_id m = id t) then
          match os_open os entry_path with
          | Some file => Some file
          | None => find_entry os t rest
          end
        else find_entry os t rest
      | None => find_entry os t rest
      end
  end.

Definition find_rotated_file (os : Os) (t : TailedFile) : option File :=
  match find_suffix os t rotation_suffixes with
  | Some f => Some f
  | None =>
    match parent (path t) with
    | Some dir =>
      match os_read_dir os dir with
      | Some entries => find_entry os t entries
      | None => None
      end
    | None => None
    end
  end.

(** * Polling *)

Inductive ReadResult :=
| RBytes (n : N)
| Rotated (old_fd : File)
| RotatedLost
| OpenFailed
| Idle.

Section watcher.
Context `{SimdUtf8, Memchr, MemchrIter, SerdeJson, Regex} {S : Type} `{LogSink S}.

(** [ml] is the compiled multiline configuration, if any; [now] the clock. *)
Definition check_and_read (os : Os) (t : TailedFile) (sink : S) (opts : FileParseOpts)
    (ml : option MultilineOpts) (now : N) : ReadResult * TailedFile * S :=
  match os_open os (path t) with
  | None => (OpenFailed, t, sink)
  | Some file =>
    match os_fstat os file with
    | None => (OpenFailed, t, sink)
    | Some metadata =>
      if negb (bool_decide (md_id metadata = id t)) then
        let '(t1, sink1) :=
          match ml with None => flush_partial t sink | Some _ => (t, sink) end in
        match find_rotated_file os t1 with
        | Some old_fd => (Rotated old_fd, t1, sink1)
        | None => (RotatedLost, t1, sink1)
        end
      else
        let current_len := md_len metadata in
        let '(t1, sink1) :=
          if current_len <? pos t then
            let t0 := set_pos 0 t in
            match ml with
            | Some _ => (reset t0, sink)
            | None => flush_partial t0 sink
            end
          else (t, sink) in
        if current_len <=? pos t1 then (Idle, t1, sink1)
        else
          let '(bytes_read, t2, sink2) :=
            match ml with
            | Some m => read_live (os_seek os file) t1 sink1 opts m now
            | None => read_lines (os_seek os file (pos t1)) t1 sink1 opts
            end in
          (if 0 <? bytes_read then RBytes bytes_read else Idle, t2, sink2)
    end
  end.

(** [path_index.remove(&path)], only when it still points at [id]. *)
Definition unindex (path : bytes) (id : FileId) (index : gmap bytes FileId) : gmap bytes FileId :=
  if bool_decide (index !! path = Some id) then delete path index else index.

(** The loop body of [poll_all] for one identity. *)
Definition poll_file (os : Os) (tl : Tail) (sink : S) (opts : FileParseOpts)
    (ml : option MultilineOpts) (now : N) (fid : FileId) : N * Tail * S :=
  match files tl !! fid with
  | None => (0, tl, sink)
  | Some t =>
    if skip_utf16 t then (0, tl, sink)
    else
      match retained_fd t with
      | Some _ =>
        let '(n, t1, sink1) :=
          match ml with
          | Some m => drain (os_seek os) t sink opts m now
          | None => drain_retained (os_seek os) t sink opts
          end in
        let tl1 :=
          match retained_fd t1 with
          | Some _ => mkTail (<[fid := t1]> (files tl)) (path_index tl)
          | None => mkTail (delete fid (files tl)) (unindex (path t1) (id t1) (path_index tl))
          end in
        (n, tl1, sink1)
      | None =>
        let '(res, t1, sink1) := check_and_read os t sink opts ml now in
        match res with
        | RBytes n =>
          (n, mkTail (<[fid := set_open_failures 0 t1]> (files tl)) (path_index tl), sink1)
        | Rotated old_fd =>
          let t2 := set_open_failures 0 (set_retained_fd (Some old_fd) t1) in
          let tl1 := mkTail (<[fid := t2]> (files tl)) (unindex (path t2) fid (path_index tl)) in
          (0, register_file os tl1 (path t2) ∅ (Some 0), sink1)
        | RotatedLost =>
          let tl1 := mkTail (delete fid (files tl)) (delete (path t1) (path_index tl)) in
          (0, register_file os tl1 (path t1) ∅ (Some 0), sink1)
        | OpenFailed =>
          (0, mkTail (<[fid := set_open_failures (wrap32 (open_failures t1 + 1)) t1]> (files tl))
                (path_index tl), sink1)
        | Idle => (0, mkTail (<[fid := t1]> (files tl)) (path_index tl), sink1)
        end
      end
  end.

(** [ids] is the snapshot of [files.keys()]. *)
Fixpoint poll_all (os : Os) (ids : list FileId) (tl : Tail) (sink : S) (opts : FileParseOpts)
    (ml : option MultilineOpts) (now : N) : N * Tail * S :=
  match ids with
  | [] => (0, tl, sink)
  | fid :: rest =>
    let '(n, tl1, sink1) := poll_file os tl sink opts ml now fid in
    let '(m, tl2, sink2) := poll_all os rest tl1 sink1 opts ml now in
    (n + m, tl2, sink2)
  end.

(** * The main loop *)

(** Durations are in nanoseconds. *)
Definition poll_delay (poll_interval_ms : N) (pending_flush : option N) : N :=
  let base := from_millis poll_interval_ms in
  match pending_flush with
  | Some remaining => N.max (N.min base remaining) (from_millis POLL_CATCHUP_MS)
  | None => base
  end.

Fixpoint flush_expired (ids : list FileId) (fs : gmap FileId TailedFile) (sink : S)
    (opts : FileParseOpts) (ml : MultilineOpts) (now1 now2 : N) (nearest : option N)
    : option N * gmap FileId TailedFile * S :=
  match ids with
  | [] => (nearest, fs, sink)
  | fid :: rest =>
    match fs !! fid with
    | None => flush_expired rest fs sink opts ml now1 now2 nearest
    | Some t =>
      let '(remaining, t', sink') := flush_if_expired t sink opts ml now1 now2 in
      let nearest' :=
        match remaining with
        | Some r => Some (match nearest with Some n => N.min n r | None => r end)
        | None => nearest
        end in
      flush_expired rest (<[fid := t']> fs) sink' opts ml now1 now2 nearest'
    end
  end.

Definition flush_expired_records (ids : list FileId) (fs : gmap FileId TailedFile) (sink : S)
    (opts : FileParseOpts) (ml : option MultilineOpts) (now1 now2 : N)
    : option N * gmap FileId TailedFile * S :=
  match ml with
  | None => (None, fs, sink)
  | Some m => flush_expired ids fs sink opts m now1 now2 None
  end.

Definition removable (t : TailedFile) : bool :=
  (STALE_THRESHOLD <=? open_failures t)
  && match retained_fd t with None => true | Some _ => false end.

(** The eviction pass over the identities collected before it. *)
Definition evict_one (tl : Tail) (fid : FileId) : Tail :=
  match files tl !! fid with
  | Some f =>
    if removable f
    then mkTail (delete fid (files tl)) (unindex (path f) (id f) (path_index tl))
    else tl
  | None => tl
  end.

Definition evict_stale (tl : Tail) (ids : list FileId) : Tail := fold_left evict_one ids tl.

Record Tailer := mkTailer {
  tl_tail : Tail;
  tl_sink : S;
  tl_poll_ms : N;
  tl_pending : option N;
  tl_last_save : N;
  tl_disk : option bytes;
  tl_stopped : bool;
}.

(** What wakes the [select!]: the poll sleep, the glob interval, the save
    interval, cancellation. Each carries the answers of the system during it:
    [ids] are the hash map's iteration orders, [now]s the clock. *)
Inductive Event :=
| EvPoll (os : Os) (ids ids' : list FileId) (now : N) (order : list FileId) (io : SaveIo)
| EvGlob (os : Os)
| EvSave (now : N) (order : list FileId) (io : SaveIo)
| EvCancel (os : Os) (ids ids' : list FileId) (now : N) (order : list FileId) (io : SaveIo).

Definition values_in (order : list FileId) (fs : gmap FileId TailedFile) : list TailedFile :=
  omap (fun fid => fs !! fid) order.

Definition initial_discovery (os : Os) (patterns : list bytes) (saved : saved_map) : Tail :=
  fold_left (fun tl p => register_file os tl p saved None) (resolve_globs os patterns)
    (mkTail ∅ ∅).

Definition discover_new (os : Os) (patterns : list bytes) (tl : Tail) : Tail :=
  fold_left (fun tl p =>
    match path_index tl !! p with
    | None => register_file os tl p ∅ None
    | Some _ => tl
    end) (resolve_globs os patterns) tl.

Fixpoint flush_all (ids : list FileId) (fs : gmap FileId TailedFile) (sink : S)
    (opts : FileParseOpts) (ml : option MultilineOpts) : gmap FileId TailedFile * S :=
  match ids with
  | [] => (fs, sink)
  | fid :: rest =>
    match fs !! fid with
    | None => flush_all rest fs sink opts ml
    | Some t =>
      let '(t', sink') :=
        match ml with
        | Some m => flush_final t sink opts m
        | None => flush_partial t sink
        end in
      flush_all rest (<[fid := t']> fs) sink' opts ml
    end
  end.

Definition tail_step (patterns : list bytes) (opts : FileParseOpts) (ml : option MultilineOpts)
    (st : Tailer) (ev : Event) : Tailer :=
  if tl_stopped st then st
  else
    match ev with
    | EvPoll os ids ids' now order io =>
      let '(total_bytes, tl1, sink1) := poll_all os ids (tl_tail st) (tl_sink st) opts ml now in
      let '(pending, fs2, sink2) :=
        flush_expired_records ids' (files tl1) sink1 opts ml now now in
      let '(poll_ms, disk, last_save) :=
        if 0 <? total_bytes then
          if OFFSET_SAVE_MIN_SECS <=? (now - tl_last_save st) / 1000000000
          then (POLL_CATCHUP_MS, save_offsets io (values_in order fs2) (tl_disk st), now)
          else (POLL_CATCHUP_MS, tl_disk st, tl_last_save st)
        else (N.min (tl_poll_ms st * 2) POLL_MAX_MS, tl_disk st, tl_last_save st) in
      let tl3 := evict_stale (mkTail fs2 (path_index tl1)) ids' in
      mkTailer tl3 sink2 poll_ms pending last_save disk false
    | EvGlob os =>
      mkTailer (discover_new os patterns (tl_tail st)) (tl_sink st) (tl_poll_ms st)
        (tl_pending st) (tl_last_save st) (tl_disk st) false
    | EvSave now order io =>
      mkTailer (tl_tail st) (tl_sink st) (tl_poll_ms st) (tl_pending st) now
        (save_offsets io (values_in order (files (tl_tail st))) (tl_disk st)) false
    | EvCancel os ids ids' now order io =>
      let '(_, tl1, sink1) := poll_all os ids (tl_tail st) (tl_sink st) opts ml now in
      let '(fs2, sink2) := flush_all ids' (files tl1) sink1 opts ml in
      mkTailer (mkTail fs2 (path_index tl1)) sink2 (tl_poll_ms st) (tl_pending st)
        (tl_last_save st) (save_offsets io (values_in order fs2) (tl_disk st)) true
    end.

(** The state the loop starts in: offsets loaded, files discovered. *)
Definition tail_start (os : Os) (patterns : list bytes) (sink : S) (disk : option bytes)
    (now : N) : Tailer :=
  mkTailer (initial_discovery os patterns (load_offsets disk)) sink POLL_BASE_MS None now disk false.

Definition tail_files (os : Os) (patterns : list bytes) (opts : FileParseOpts)
    (ml : option MultilineOpts) (sink : S) (disk : option bytes) (now : N) (evs : list Event)
    : Tailer :=
  fold_left (tail_step patterns opts ml) evs (tail_start os patterns sink disk now).
End watcher.
