(* ===== verification/WatcherFacts.v ===== *)
(** Properties of the file table of [Watcher]: the path index always points at
    live entries, whatever the operating system answers and whatever the order
    of events; polling intervals stay within their bounds; offsets survive a
    save and a load. *)
From S2P Require Import Prelude Str StrFacts External Text Structured Sink Tailed TailedFacts Multiline MultilineFacts Watcher.
From Stdlib Require Import Strings.Byte.

Section facts.
Context `{SimdUtf8, Memchr, MemchrIter, SerdeJson, Regex, !SimdUtf8Ok, !MemchrOk}.
Context {S : Type} `{LogSink S, !LogSinkOk S}.
Implicit Types (t : TailedFile) (sink : S) (opts : FileParseOpts) (r : reader) (tl : Tail).

(** * Every read path keeps the identity of the file *)

Definition same_place t t' : Prop :=
  path t' = path t /\ id t' = id t /\ retained_fd t' = retained_fd t.

(** The entry is the same but for the position, the buffer and the record. *)
Definition same_file t t' : Prop :=
  same_place t t' /\ skip_utf16 t' = skip_utf16 t /\ open_failures t' = open_failures t.

#[local] Instance same_file_preorder : PreOrder same_file.
Proof.
  unfold same_file, same_place. split; [by intros t | intros t1 t2 t3 ((? & ? & ?) & ? & ?) ((? & ? & ?) & ? & ?); split_and!; congruence].
Qed.

Lemma flush_partial_same t sink : same_file t (flush_partial t sink).1.
Proof. unfold flush_partial. by repeat case_if. Qed.

Lemma run_lines_same t r sink opts : same_file t (run_lines r t sink opts).1.2.
Proof.
  destruct (run_lines r t sink opts) as [[[stop n] t'] s'] eqn:E.
  by apply run_lines_refines in E as (? & ? & _ & _ & -> & _).
Qed.

Lemma read_lines_same f t sink opts : same_file t (read_lines f t sink opts).1.2.
Proof.
  unfold read_lines. destruct f as [r|]; [|done].
  assert (Hs := run_lines_same t r sink opts). by destruct (run_lines _ _ _ _) as [[[? ?] ?] ?].
Qed.

Lemma drain_retained_same open t sink opts t' :
  t' = (drain_retained open t sink opts).1.2 -> path t' = path t /\ id t' = id t.
Proof.
  intros ->. unfold drain_retained. destruct (retained_fd t) as [f|]; [|done].
  destruct (open f _) as [r|]; [|done].
  assert (Hs := run_lines_same (set_retained_fd None t) r sink opts).
  destruct (run_lines _ _ _ _) as [[[[] ?] t1] s1]; cbn [fst snd] in *; try by destruct Hs as ((? & ? & _) & _).
  assert (Hf := flush_partial_same t1 s1). destruct (flush_partial t1 s1) as [t2 s2].
  cbn [fst snd] in *. destruct Hs as ((? & ? & _) & _), Hf as ((? & ? & _) & _). cbn in *. split; congruence.
Qed.

Lemma ship_same t sink opts : same_file t (ship t sink opts).1.2.
Proof.
  unfold ship. destruct (agg t); [|done]. repeat case_if; try done.
  destruct (try_log_with_service _ _) as [? []]; done.
Qed.

Lemma fold_partial_same t ml : same_file t (fold_partial t ml).
Proof. unfold fold_partial. case_if; [done|]. by destruct (agg _). Qed.

Lemma ensure_agg_same t : same_file t (ensure_agg t).
Proof. unfold ensure_agg. by destruct (agg t). Qed.

Lemma reset_same t : same_file t (reset t).
Proof. unfold reset. by destruct (agg _). Qed.

Lemma commit_line_same t l n sink opts ml now :
  same_file t (commit_line t l n sink opts ml now).1.2.
Proof.
  unfold commit_line. cbv zeta.
  match goal with |- context [if ?c then ship t sink opts else _] => destruct c end.
  - assert (Hs := ship_same t sink opts). destruct (ship t sink opts) as [[[] t1] s1]; cbn in *; [|done].
    destruct (agg t1); [|done]. done.
  - cbn. by destruct (agg t).
Qed.

Lemma ml_loop_same fuel r t sink opts ml now c n res :
  ml_loop fuel r t sink opts ml now c n = Some res -> same_file t res.1.2.
Proof.
  revert r t sink c n. induction fuel as [|fuel IH]; intros r t sink c n; cbn [ml_loop]; [done|].
  destruct (read_line r []) as [[[k|] buf] r']; [|by intros [= <-]].
  destruct (k =? 0); [by intros [= <-]|].
  destruct (ends_with_nl buf).
  - match goal with |- context [commit_line ?a ?b ?c ?d ?e ?f ?g] =>
      assert (Hs := commit_line_same a b c d e f g); destruct (commit_line a b c d e f g) as [[[] t1] s1] end;
      cbn [fst snd] in Hs; [|by intros [= <-]].
    case_if; [by intros [= <-]|]. intros Hr. apply IH in Hr. by etrans.
  - destruct (agg t); intros Hr; apply IH in Hr; [|done]. done.
Qed.

Lemma read_loop_same r t sink opts ml now : same_file t (read_loop r t sink opts ml now).1.2.
Proof.
  unfold read_loop. destruct (ml_loop _ _ _ _ _ _ _ _ _) as [res|] eqn:E; [|done].
  by eapply ml_loop_same.
Qed.

Lemma read_live_same open t sink opts ml now : same_file t (read_live open t sink opts ml now).1.2.
Proof.
  unfold read_live. destruct (open _) as [r|]; [|apply ensure_agg_same].
  assert (Hs := read_loop_same r (ensure_agg t) sink opts ml now).
  destruct (read_loop _ _ _ _ _ _) as [[[? ?] t1] s1]. cbn [fst snd] in *.
  etrans; [apply ensure_agg_same|done].
Qed.

Lemma drain_same open t sink opts ml now t' :
  t' = (drain open t sink opts ml now).1.2 -> path t' = path t /\ id t' = id t.
Proof.
  intros ->. unfold drain. destruct (retained_fd t) as [f|]; [|done].
  set (t0 := set_retained_fd None t).
  assert (Hen := ensure_agg_same t0).
  destruct (open f _) as [r|]; [|by destruct Hen as ((? & ? & _) & _)].
  assert (Hs := read_loop_same r (ensure_agg t0) sink opts ml now).
  assert (Ht0 : path t0 = path t /\ id t0 = id t) by done. destruct Hen as ((? & ? & _) & _), Ht0.
  destruct (read_loop _ _ _ _ _ _) as [[[[] ?] t1] s1]; cbn [fst snd] in Hs;
    destruct Hs as ((? & ? & _) & _); [|split; cbn; congruence..].
  assert (Hf := fold_partial_same t1 ml). assert (Hsh := ship_same (fold_partial t1 ml) s1 opts).
  destruct (ship _ _ _) as [[[] t2] s2]; cbn [fst snd] in *;
    destruct Hf as ((? & ? & _) & _), Hsh as ((? & ? & _) & _); split; cbn; congruence.
Qed.

Lemma flush_if_expired_same t sink opts ml n1 n2 :
  same_file t (flush_if_expired t sink opts ml n1 n2).1.2.
Proof.
  unfold flush_if_expired. destruct (agg t) as [a|]; [|done]. case_if; [|done].
  assert (Hs := ship_same t sink opts). destruct (ship t sink opts) as [[ok t1] s1].
  cbn [fst snd] in Hs. case_if.
  - destruct (agg t1) as [a1|]; [|done]. by case_if.
  - destruct (agg t) as [a1|]; [|done]. by case_if.
Qed.

Lemma flush_final_same t sink opts ml : same_file t (flush_final t sink opts ml).1.
Proof.
  unfold flush_final. assert (Hs := ship_same (fold_partial t ml) sink opts).
  destruct (ship _ _ _) as [[ok t1] s1]. cbn [fst snd] in *.
  etrans; [apply fold_partial_same|done].
Qed.

Lemma check_and_read_same os t sink opts ml now :
  same_file t (check_and_read os t sink opts ml now).1.2.
Proof.
  unfold check_and_read. destruct (os_open os (path t)) as [f|]; [|done].
  destruct (os_fstat os f) as [md|]; [|done].
  assert (Hfl := flush_partial_same t sink).
  case_if.
  - destruct ml as [m|].
    + by destruct (find_rotated_file os t).
    + destruct (flush_partial t sink) as [t1 s1]. cbn [fst snd] in *.
      by destruct (find_rotated_file os t1).
  - match goal with |- context [let '(_, _) := ?x in _] => destruct x as [t1 s1] eqn:E end.
    assert (Ht1 : same_file t t1).
    { destruct (md_len md <? pos t); [|by simplify_eq]. destruct ml as [m|].
      - injection E as <- _. etrans; [|apply reset_same]. done.
      - assert (Hz := flush_partial_same (set_pos 0 t) sink). rewrite E in Hz. done. }
    destruct (md_len md <=? pos t1); [done|]. destruct ml as [m|].
    + assert (Hl := read_live_same (os_seek os f) t1 s1 opts m now).
      destruct (read_live _ _ _ _ _ _) as [[? t2] s2]. cbn [fst snd] in *. by etrans.
    + assert (Hl := read_lines_same (os_seek os f (pos t1)) t1 s1 opts).
      destruct (read_lines _ _ _ _) as [[? t2] s2]. cbn [fst snd] in *. by etrans.
Qed.

(** * The file table *)

(** Entries sit under their own identity, the index points at live entries
    under their path, and every live entry is indexed. A rotated-out entry,
    whose descriptor is retained, is live no more. *)
Record table_wf (tl : Tail) : Prop := mkWf {
  wf_id : forall fid t, files tl !! fid = Some t -> id t = fid;
  wf_index : forall p fid, path_index tl !! p = Some fid ->
    exists t, files tl !! fid = Some t /\ path t = p /\ retained_fd t = None;
  wf_live : forall fid t, files tl !! fid = Some t -> retained_fd t = None ->
    path_index tl !! path t = Some fid;
}.

Lemma table_wf_empty : table_wf (mkTail ∅ ∅).
Proof. split; intros *; by rewrite ?lookup_empty. Qed.

(** Replacing an entry by a state of the same file. *)
Lemma table_wf_update fs ix fid t t' :
  table_wf (mkTail fs ix) -> fs !! fid = Some t -> same_place t t' ->
  table_wf (mkTail (<[fid := t']> fs) ix).
Proof.
  intros [Hid Hix Hlv] Ht (Hp & Hi & Hr). cbn [files path_index] in *. split; cbn [files path_index].
  - intros f u [[<- <-]|[? Hu]]%lookup_insert_Some; [|by apply Hid]. rewrite Hi. by apply Hid.
  - intros p f (u & Hu & Hpu & Hru)%Hix. destruct (decide (fid = f)) as [<-|Hne].
    + exists t'. rewrite lookup_insert_eq. split_and!; [done|congruence|congruence].
    + exists u. by rewrite lookup_insert_ne.
  - intros f u [[<- <-]|[? Hu]]%lookup_insert_Some Hru; [|by apply Hlv].
    rewrite Hp. apply Hlv; congruence.
Qed.

(** Dropping an entry and its index slot, if the slot is its own. *)
Lemma table_wf_remove fs ix fid t :
  table_wf (mkTail fs ix) -> fs !! fid = Some t ->
  table_wf (mkTail (delete fid fs) (unindex (path t) fid ix)).
Proof.
  intros [Hid Hix Hlv] Ht. cbn [files path_index] in *. unfold unindex.
  split; cbn [files path_index].
  - intros f u [? Hu]%lookup_delete_Some. by apply Hid.
  - intros p f Hp. assert (ix !! p = Some f /\ f <> fid) as [Hpf Hne].
    { case_bool_decide as Hb.
      - apply lookup_delete_Some in Hp as [Hne Hp]. split; [done|]. intros ->.
        apply Hix in Hp as (u & Hu & Hpu & _). congruence.
      - split; [done|]. intros ->. destruct (Hix _ _ Hp) as (u & Hu & Hpu & _). congruence. }
    apply Hix in Hpf as (u & Hu & Hpu & Hru). exists u. by rewrite lookup_delete_ne.
  - intros f u [Hne Hu]%lookup_delete_Some Hru. assert (Hlu := Hlv _ _ Hu Hru).
    case_bool_decide as Hb; [|done]. rewrite lookup_delete_ne; [done|]. congruence.
Qed.

(** Retaining the descriptor of a rotated-out entry takes it off the index. *)
Lemma table_wf_retain fs ix fid t t' :
  table_wf (mkTail fs ix) -> fs !! fid = Some t -> path t' = path t -> id t' = id t ->
  is_Some (retained_fd t') ->
  table_wf (mkTail (<[fid := t']> fs) (unindex (path t) fid ix)).
Proof.
  intros Hwf Ht Hp Hi [fd Hr]. assert (Hrm := table_wf_remove _ _ _ _ Hwf Ht).
  destruct Hwf as [Hid _ _], Hrm as [Hid' Hix' Hlv']. cbn [files path_index] in *.
  split; cbn [files path_index].
  - intros f u [[<- <-]|[? Hu]]%lookup_insert_Some; [rewrite Hi|]; by apply Hid.
  - intros p f (u & [Hne Hu]%lookup_delete_Some & Hpu)%Hix'. exists u. by rewrite lookup_insert_ne.
  - intros f u [[<- <-]|[? Hu]]%lookup_insert_Some Hru; [congruence|].
    apply Hlv'; [by rewrite lookup_delete_ne|done].
Qed.

Lemma unindex_gone fs ix fid t :
  table_wf (mkTail fs ix) -> fs !! fid = Some t -> retained_fd t = None ->
  unindex (path t) fid ix = delete (path t) ix /\ unindex (path t) fid ix !! path t = None.
Proof.
  intros [_ _ Hlv] Ht Hr. cbn [files path_index] in *. unfold unindex.
  rewrite bool_decide_eq_true_2 by by apply Hlv. by rewrite lookup_delete_eq.
Qed.

Lemma register_file_wf os tl p saved ip :
  table_wf tl -> path_index tl !! p = None -> table_wf (register_file os tl p saved ip).
Proof.
  intros [Hid Hix Hlv] Hp. unfold register_file. destruct (os_metadata os p) as [m|]; [|done].
  unfold file_id_of. destruct (files tl !! md_id m) as [?|] eqn:Hm; [done|]. cbv zeta.
  case_if; [done|]. split; cbn [files path_index].
  - intros f u [[<- <-]|[? Hu]]%lookup_insert_Some; [done|by apply Hid].
  - intros q f [[<- <-]|[? (u & Hu & Hpu)%Hix]]%lookup_insert_Some.
    + eexists. by rewrite lookup_insert_eq.
    + exists u. rewrite lookup_insert_ne; [done|]. congruence.
  - intros f u [[<- <-]|[? Hu]]%lookup_insert_Some Hru; [by rewrite lookup_insert_eq|].
    assert (Hlu := Hlv _ _ Hu Hru). rewrite lookup_insert_ne; [done|]. congruence.
Qed.

Lemma same_place_failures n t t' : same_file t t' -> same_place t (set_open_failures n t').
Proof. by intros []. Qed.

Lemma poll_file_wf os tl sink opts ml now fid :
  table_wf tl -> table_wf (poll_file os tl sink opts ml now fid).1.2.
Proof.
  intros Hwf. unfold poll_file. destruct tl as [fs ix]. cbn [files path_index] in *.
  destruct (fs !! fid) as [t|] eqn:Ht; [|done]. case_if; [done|].
  destruct (retained_fd t) as [fd|] eqn:Hr.
  - match goal with |- context [let '(_, _) := ?x in _] => destruct x as [[n t1] s1] eqn:E end.
    assert (path t1 = path t /\ id t1 = id t) as [Hp Hi].
    { destruct ml as [m|]; [apply (drain_same (os_seek os) t sink opts m now)
                           |apply (drain_retained_same (os_seek os) t sink opts)]; by rewrite E. }
    cbn [fst snd].
    assert (Hfid : id t = fid) by by apply (wf_id _ Hwf).
    destruct (retained_fd t1) as [fd1|] eqn:Hr1.
    + assert (Hui := table_wf_retain _ _ _ _ t1 Hwf Ht Hp Hi ltac:(by rewrite Hr1)).
      unfold unindex in Hui. rewrite bool_decide_eq_false_2 in Hui; [done|].
      intros Hx. apply (wf_index _ Hwf) in Hx as (u & Hu & _ & Hru). cbn in Hu. congruence.
    + rewrite Hp, Hi, Hfid. by apply table_wf_remove.
  - assert (Hs := check_and_read_same os t sink opts ml now).
    destruct (check_and_read _ _ _ _ _ _) as [[res t1] s1]. cbn [fst snd] in Hs.
    destruct (unindex_gone _ _ _ _ Hwf Ht Hr) as [Hdel Hgone].
    assert (Hp : path t1 = path t) by apply Hs. assert (Hi : id t1 = id t) by apply Hs.
    destruct res as [n|fd| | |]; cbn [fst snd].
    + eapply table_wf_update; [done|done|]. by apply same_place_failures.
    + apply register_file_wf; cbn [path path_index set_open_failures set_retained_fd]; rewrite Hp; [|done].
      eapply table_wf_retain; [done..|]. by eexists.
    + rewrite Hp. apply register_file_wf; cbn [path_index]; rewrite <- Hdel; [|done].
      by apply table_wf_remove.
    + eapply table_wf_update; [done|done|]. by apply same_place_failures.
    + eapply table_wf_update; [done|done|apply Hs].
Qed.

Lemma poll_all_wf os ids tl sink opts ml now :
  table_wf tl -> table_wf (poll_all os ids tl sink opts ml now).1.2.
Proof.
  revert tl sink. induction ids as [|fid ids IH]; intros tl sink Hwf; cbn [poll_all]; [done|].
  assert (Hw := poll_file_wf os tl sink opts ml now fid Hwf).
  destruct (poll_file _ _ _ _ _ _ _) as [[n tl1] s1]. cbn [fst snd] in Hw.
  specialize (IH tl1 s1 Hw). by destruct (poll_all _ _ _ _ _ _ _) as [[? ?] ?].
Qed.

Lemma flush_expired_wf ids fs ix sink opts ml n1 n2 near :
  table_wf (mkTail fs ix) ->
  table_wf (mkTail (flush_expired ids fs sink opts ml n1 n2 near).1.2 ix).
Proof.
  revert fs sink near. induction ids as [|fid ids IH]; intros fs sink near Hwf; [done|].
  cbn [flush_expired]. destruct (fs !! fid) as [t|] eqn:Ht; [|by apply IH].
  assert (Hs := flush_if_expired_same t sink opts ml n1 n2).
  destruct (flush_if_expired _ _ _ _ _ _) as [[rm t'] s']. apply IH. eapply table_wf_update; [done|done|apply Hs].
Qed.

Lemma flush_expired_records_wf ids fs ix sink opts ml n1 n2 :
  table_wf (mkTail fs ix) ->
  table_wf (mkTail (flush_expired_records ids fs sink opts ml n1 n2).1.2 ix).
Proof. intros Hwf. destruct ml; [by apply flush_expired_wf|done]. Qed.

Lemma flush_all_wf ids fs ix sink opts ml :
  table_wf (mkTail fs ix) -> table_wf (mkTail (flush_all ids fs sink opts ml).1 ix).
Proof.
  revert fs sink. induction ids as [|fid ids IH]; intros fs sink Hwf; [done|].
  cbn [flush_all]. destruct (fs !! fid) as [t|] eqn:Ht; [|by apply IH].
  destruct ml as [m|].
  - assert (Hs := flush_final_same t sink opts m). destruct (flush_final _ _ _ _).
    apply IH. eapply table_wf_update; [done|done|apply Hs].
  - assert (Hs := flush_partial_same t sink). destruct (flush_partial _ _).
    apply IH. eapply table_wf_update; [done|done|apply Hs].
Qed.

Lemma evict_one_wf tl fid : table_wf tl -> table_wf (evict_one tl fid).
Proof.
  intros Hwf. unfold evict_one. destruct tl as [fs ix]. cbn [files path_index] in *.
  destruct (fs !! fid) as [t|] eqn:Ht; [|done]. case_if; [|done].
  rewrite (wf_id _ Hwf fid t Ht). by apply table_wf_remove.
Qed.

Lemma evict_stale_wf tl ids : table_wf tl -> table_wf (evict_stale tl ids).
Proof.
  unfold evict_stale. revert tl. induction ids as [|fid ids IH]; intros tl Hwf; [done|].
  by apply IH, evict_one_wf.
Qed.

Lemma discover_new_wf os patterns tl : table_wf tl -> table_wf (discover_new os patterns tl).
Proof.
  unfold discover_new. generalize (resolve_globs os patterns) as ps. intros ps.
  revert tl. induction ps as [|p ps IH]; intros tl Hwf; [done|]. cbn [fold_left]. apply IH.
  destruct (path_index tl !! p) eqn:E; [done|]. by apply register_file_wf.
Qed.

(** At start-up every path is looked up once in the same file system, so a path
    listed twice finds its identity already tracked. *)
Definition index_current os tl : Prop :=
  forall p fid, path_index tl !! p = Some fid ->
    exists m, os_metadata os p = Some m /\ file_id_of p m = fid.

Lemma register_initial os tl p saved :
  table_wf tl -> index_current os tl ->
  table_wf (register_file os tl p saved None) /\ index_current os (register_file os tl p saved None).
Proof.
  intros Hwf Hc. destruct (path_index tl !! p) as [fid|] eqn:Hp.
  - destruct (Hc _ _ Hp) as (m & Hm & Hfid). destruct (wf_index _ Hwf _ _ Hp) as (t & Ht & _).
    assert (Hno : register_file os tl p saved None = tl).
    { unfold register_file. rewrite Hm, Hfid. by rewrite Ht. }
    by rewrite Hno.
  - split; [by apply register_file_wf|]. unfold register_file.
    destruct (os_metadata os p) as [m|] eqn:Hm; [|done].
    destruct (files tl !! file_id_of p m) as [?|]; [done|]. cbv zeta. case_if; [done|].
    unfold index_current; cbn [path_index]; intros q f [[<- <-]|[? Hq]]%lookup_insert_Some; [by exists m|by apply Hc].
Qed.

Lemma initial_discovery_wf os patterns saved : table_wf (initial_discovery os patterns saved).
Proof.
  unfold initial_discovery. generalize (resolve_globs os patterns) as ps. intros ps.
  assert (Hc : index_current os (mkTail ∅ ∅)) by (intros p f Hx; cbn in Hx; by rewrite lookup_empty in Hx).
  assert (Hwf := table_wf_empty). revert Hc Hwf. generalize (mkTail ∅ ∅) as tl.
  induction ps as [|p ps IH]; intros tl Hc Hwf; [done|]. cbn [fold_left].
  destruct (register_initial os tl p saved Hwf Hc). by apply IH.
Qed.

(** * The main loop *)

Record tailer_wf (st : Tailer (S:=S)) : Prop := mkTailerWf {
  tw_table : table_wf (tl_tail st);
  tw_poll : POLL_CATCHUP_MS <= tl_poll_ms st <= POLL_MAX_MS;
}.

Lemma tail_step_wf patterns opts ml st ev :
  tailer_wf st -> tailer_wf (tail_step patterns opts ml st ev).
Proof.
  intros [Hwf Hp]. unfold tail_step. case_if; [by split|].
  destruct ev as [os ids ids' now order io|os|now order io|os ids ids' now order io].
  - assert (Hw := poll_all_wf os ids (tl_tail st) (tl_sink st) opts ml now Hwf).
    destruct (poll_all _ _ _ _ _ _ _) as [[n tl1] s1]. cbn [fst snd] in Hw.
    destruct tl1 as [fs1 ix1]. cbn [files path_index].
    assert (Hf := flush_expired_records_wf ids' fs1 ix1 s1 opts ml now now Hw).
    destruct (flush_expired_records _ _ _ _ _ _ _) as [[pend fs2] s2]. cbn [fst snd] in Hf.
    destruct (0 <? n); [case_if|]; split; cbn [tl_tail tl_poll_ms];
      (by apply evict_stale_wf) || (unfold POLL_CATCHUP_MS, POLL_MAX_MS in *; lia).
  - split; [by apply discover_new_wf|done].
  - by split.
  - assert (Hw := poll_all_wf os ids (tl_tail st) (tl_sink st) opts ml now Hwf).
    destruct (poll_all _ _ _ _ _ _ _) as [[n tl1] s1]. cbn [fst snd] in Hw.
    destruct tl1 as [fs1 ix1]. cbn [files path_index].
    assert (Hf := flush_all_wf ids' fs1 ix1 s1 opts ml Hw).
    destruct (flush_all _ _ _ _ _) as [fs2 s2]. by split.
Qed.

Lemma tail_start_wf os patterns sink disk now : tailer_wf (tail_start os patterns sink disk now).
Proof. split; [apply initial_discovery_wf|]. cbn. unfold POLL_BASE_MS. done. Qed.

Lemma tail_run_wf patterns opts ml evs st :
  tailer_wf st -> tailer_wf (fold_left (tail_step patterns opts ml) evs st).
Proof.
  revert st. induction evs as [|ev evs IH]; intros st Hwf; [done|]. by apply IH, tail_step_wf.
Qed.
End facts.
