(* ===== verification/MemoryFacts.v ===== *)
(** Memory held per file: the partial-line buffer and the record in flight stay
    within their caps (and the buffer stays valid UTF-8) on every read path, and
    so for every entry of the file table in every run of the tailer. *)
From S2P Require Import Prelude Str StrFacts External Text Structured Sink Tailed TailedFacts.
From S2P Require Import Multiline MultilineFacts Watcher.
From Stdlib Require Import Strings.Byte.

Section memory.
Context `{SimdUtf8, Memchr, MemchrIter, SerdeJson, Regex, !SimdUtf8Ok, !MemchrOk}.
Context {S : Type} `{LogSink S, !LogSinkOk S}.
Implicit Types (t : TailedFile) (sink : S) (opts : FileParseOpts) (r : reader) (tl : Tail).

Definition bounded (cap : N) t : Prop :=
  partial_ok (partial t) /\ forall a, agg t = Some a -> len (record a) <= cap.

Lemma empty_ok : partial_ok [].
Proof. split; [done|]. rewrite len_nil. lia. Qed.
#[local] Hint Resolve empty_ok : core.

Lemma append_cap a line span cap : len (record (append_to_record a line span cap)) <= cap.
Proof. apply add_line_cap. Qed.

(** * Single lines *)

Lemma flush_partial_bounded cap t sink : bounded cap t -> bounded cap (flush_partial t sink).1.
Proof. intros [Hp Ha]. unfold flush_partial. by repeat case_if; split. Qed.

Lemma run_lines_bounded cap r t sink opts : bounded cap t -> bounded cap (run_lines r t sink opts).1.2.
Proof.
  intros [Hp Ha]. destruct (run_lines r t sink opts) as [[[stop n] t'] s'] eqn:E.
  apply run_lines_refines in E as (? & ? & _ & _ & -> & _). split; [by apply feed_all_partial_ok|done].
Qed.

Lemma read_lines_bounded cap f t sink opts : bounded cap t -> bounded cap (read_lines f t sink opts).1.2.
Proof.
  intros Hb. unfold read_lines. destruct f as [r|]; [|done].
  apply (run_lines_bounded cap r t sink opts) in Hb. by destruct (run_lines _ _ _ _) as [[[? ?] ?] ?].
Qed.

Lemma drain_retained_bounded cap open t sink opts :
  bounded cap t -> bounded cap (drain_retained open t sink opts).1.2.
Proof.
  intros Hb. unfold drain_retained. destruct (retained_fd t) as [f|]; [|done].
  destruct (open f _) as [r|]; [|done].
  assert (Hs := run_lines_bounded cap r (set_retained_fd None t) sink opts Hb).
  destruct (run_lines _ _ _ _) as [[[[] ?] t1] s1]; cbn [fst snd] in *; [|done..].
  apply (flush_partial_bounded cap t1 s1) in Hs. by destruct (flush_partial t1 s1).
Qed.

(** * Records *)

Lemma ship_bounded cap t sink opts : bounded cap t -> bounded cap (ship t sink opts).1.2.
Proof.
  intros Hb. assert (Hc : forall a p, bounded cap (set_agg (Some (clear_record a)) (set_pos p t))).
  { intros a p. split; [apply Hb|]. intros ? [= <-]. cbn. rewrite len_nil. lia. }
  unfold ship. destruct (agg t); [|done]. repeat case_if; [done|apply Hc|].
  destruct (try_log_with_service _ _) as [? []]; [apply Hc|done].
Qed.

Lemma fold_partial_bounded t ml : bounded (ml_max_bytes ml) t -> bounded (ml_max_bytes ml) (fold_partial t ml).
Proof.
  intros [Hp Ha]. unfold fold_partial. case_if; [done|]. cbn [agg set_partial].
  destruct (agg t) as [a|] eqn:E; (split; [done|]); cbn.
  - intros ? [= <-]. apply append_cap.
  - by rewrite E.
Qed.

Lemma ensure_agg_bounded cap t : bounded cap t -> bounded cap (ensure_agg t).
Proof.
  intros [Hp Ha]. unfold ensure_agg. destruct (agg t) eqn:E; [by split; [|rewrite E]|].
  split; [done|]. intros ? [= <-]. cbn. rewrite len_nil. lia.
Qed.

Lemma reset_bounded cap t : bounded cap (reset t).
Proof.
  unfold reset. cbn [agg set_partial]. destruct (agg t) eqn:E; (split; [done|]); cbn; [|by rewrite E].
  intros ? [= <-]. cbn. rewrite len_nil. lia.
Qed.

Lemma commit_line_bounded t l n sink opts ml now :
  bounded (ml_max_bytes ml) t -> bounded (ml_max_bytes ml) (commit_line t l n sink opts ml now).1.2.
Proof.
  intros Hb. unfold commit_line. cbv zeta.
  match goal with |- context [let '(_, _) := ?x in _] => destruct x as [[ok t1] s1] eqn:E end.
  assert (Ht1 : bounded (ml_max_bytes ml) t1).
  { revert E. case_if; intros E; [|by simplify_eq].
    assert (Hs := ship_bounded _ t sink opts Hb). by rewrite E in Hs. }
  case_if; [done|]. destruct (agg t1) as [a|]; [|done]. split; [done|].
  intros ? [= <-]. apply add_line_cap.
Qed.

Lemma ml_loop_bounded fuel r t sink opts ml now c n res :
  bounded (ml_max_bytes ml) t ->
  ml_loop fuel r t sink opts ml now c n = Some res -> bounded (ml_max_bytes ml) res.1.2.
Proof.
  revert r t sink c n. induction fuel as [|fuel IH]; intros r t sink c n Hb; cbn [ml_loop]; [done|].
  destruct (read_line r []) as [[[k|] buf] r']; [|by intros [= <-]].
  destruct (k =? 0); [by intros [= <-]|]. destruct (ends_with_nl buf).
  - match goal with |- context [commit_line ?a ?b ?c ?d ?e ?f ?g] =>
      assert (Hs := commit_line_bounded a b c d e f g Hb);
      destruct (commit_line a b c d e f g) as [[[] t1] s1] end; cbn [fst snd] in Hs; [|by intros [= <-]].
    case_if; [by intros [= <-]|]. by apply IH.
  - destruct Hb as [Hp Ha]. destruct (agg t) as [a|] eqn:E; apply IH.
    + split; [|intros ? [= <-]; by apply (Ha a)]. destruct Hp.
      split; [by apply push_partial_valid|by apply push_partial_bound].
    + by split; [|rewrite E].
Qed.

Lemma read_loop_bounded r t sink opts ml now :
  bounded (ml_max_bytes ml) t -> bounded (ml_max_bytes ml) (read_loop r t sink opts ml now).1.2.
Proof.
  intros Hb. unfold read_loop. destruct (ml_loop _ _ _ _ _ _ _ _ _) as [res|] eqn:E; [|done].
  by eapply ml_loop_bounded.
Qed.

Lemma read_live_bounded open t sink opts ml now :
  bounded (ml_max_bytes ml) t -> bounded (ml_max_bytes ml) (read_live open t sink opts ml now).1.2.
Proof.
  intros Hb%ensure_agg_bounded. unfold read_live. destruct (open _) as [r|]; [|done].
  apply (read_loop_bounded r (ensure_agg t) sink opts ml now) in Hb.
  by destruct (read_loop _ _ _ _ _ _) as [[[? ?] t1] s1].
Qed.

Lemma drain_bounded open t sink opts ml now :
  bounded (ml_max_bytes ml) t -> bounded (ml_max_bytes ml) (drain open t sink opts ml now).1.2.
Proof.
  intros Hb. unfold drain. destruct (retained_fd t) as [f|]; [|done].
  assert (Hen := ensure_agg_bounded _ (set_retained_fd None t) Hb).
  destruct (open f _) as [r|]; [|done].
  apply (read_loop_bounded r _ sink opts ml now) in Hen.
  destruct (read_loop _ _ _ _ _ _) as [[[[] ?] t1] s1]; cbn [fst snd] in Hen; [|done..].
  apply fold_partial_bounded, (ship_bounded _ _ s1 opts) in Hen.
  by destruct (ship _ _ _) as [[[] t2] s2].
Qed.

Lemma flush_if_expired_bounded cap t sink opts ml n1 n2 :
  bounded cap t -> bounded cap (flush_if_expired t sink opts ml n1 n2).1.2.
Proof.
  intros Hb. unfold flush_if_expired. destruct (agg t) as [a|]; [|done]. case_if; [|done].
  assert (Hs := ship_bounded cap t sink opts Hb). destruct (ship t sink opts) as [[ok t1] s1].
  cbn [fst snd] in Hs. case_if.
  - destruct (agg t1) as [a1|]; [|done]. by case_if.
  - destruct (agg t) as [a1|]; [|done]. by case_if.
Qed.

Lemma flush_final_bounded t sink opts ml :
  bounded (ml_max_bytes ml) t -> bounded (ml_max_bytes ml) (flush_final t sink opts ml).1.
Proof.
  intros Hb. unfold flush_final.
  assert (Hs := ship_bounded _ (fold_partial t ml) sink opts (fold_partial_bounded _ _ Hb)).
  by destruct (ship _ _ _) as [[ok t1] s1].
Qed.

(** * The table *)

Definition cap_of (ml : option MultilineOpts) : N :=
  match ml with Some m => ml_max_bytes m | None => 0 end.

Lemma check_and_read_bounded os t sink opts ml now :
  bounded (cap_of ml) t -> bounded (cap_of ml) (check_and_read os t sink opts ml now).1.2.
Proof.
  intros Hb. unfold check_and_read. destruct (os_open os (path t)) as [f|]; [|done].
  destruct (os_fstat os f) as [md|]; [|done]. case_if.
  - destruct ml as [m|]; [by destruct (find_rotated_file os t)|].
    apply (flush_partial_bounded _ _ sink) in Hb. destruct (flush_partial t sink) as [t1 s1].
    by destruct (find_rotated_file os t1).
  - match goal with |- context [let '(_, _) := ?x in _] => destruct x as [t1 s1] eqn:E end.
    assert (Ht1 : bounded (cap_of ml) t1).
    { destruct (md_len md <? pos t); [|by simplify_eq]. destruct ml as [m|].
      - injection E as <- _. apply reset_bounded.
      - assert (Hz := flush_partial_bounded 0 (set_pos 0 t) sink Hb). by rewrite E in Hz. }
    destruct (md_len md <=? pos t1); [done|]. destruct ml as [m|].
    + apply (read_live_bounded (os_seek os f) t1 s1 opts m now) in Ht1.
      by destruct (read_live _ _ _ _ _ _) as [[? t2] s2].
    + apply (read_lines_bounded _ (os_seek os f (pos t1)) t1 s1 opts) in Ht1.
      by destruct (read_lines _ _ _ _) as [[? t2] s2].
Qed.

Definition all_bounded cap (fs : gmap FileId TailedFile) : Prop := map_Forall (fun _ t => bounded cap t) fs.

Lemma register_file_bounded cap os tl p saved ip :
  all_bounded cap (files tl) -> all_bounded cap (files (register_file os tl p saved ip)).
Proof.
  intros Hb. unfold register_file. destruct (os_metadata os p) as [m|]; [|done].
  destruct (files tl !! file_id_of p m); [done|]. cbv zeta. case_if; [done|].
  apply map_Forall_insert_2; [by split|done].
Qed.

Lemma poll_file_bounded os tl sink opts ml now fid :
  all_bounded (cap_of ml) (files tl) ->
  all_bounded (cap_of ml) (files (poll_file os tl sink opts ml now fid).1.2).
Proof.
  intros Hb. unfold poll_file. destruct (files tl !! fid) as [t|] eqn:Ht; [|done]. case_if; [done|].
  assert (Hbt : bounded (cap_of ml) t) by by apply (Hb fid). destruct (retained_fd t) as [fd|].
  - match goal with |- context [let '(_, _) := ?x in _] => destruct x as [[n t1] s1] eqn:E end.
    assert (Ht1 : bounded (cap_of ml) t1).
    { destruct ml as [m|]; [assert (Hd := drain_bounded (os_seek os) t sink opts m now Hbt)
        |assert (Hd := drain_retained_bounded 0 (os_seek os) t sink opts Hbt)]; by rewrite E in Hd. }
    destruct (retained_fd t1); cbn; [by apply map_Forall_insert_2|by apply map_Forall_delete].
  - apply (check_and_read_bounded os t sink opts ml now) in Hbt.
    destruct (check_and_read _ _ _ _ _ _) as [[res t1] s1]. cbn [fst snd] in Hbt.
    destruct res; cbn [fst snd files]; try apply register_file_bounded;
      (by apply map_Forall_insert_2) || by apply map_Forall_delete.
Qed.

Lemma poll_all_bounded os ids tl sink opts ml now :
  all_bounded (cap_of ml) (files tl) ->
  all_bounded (cap_of ml) (files (poll_all os ids tl sink opts ml now).1.2).
Proof.
  revert tl sink. induction ids as [|fid ids IH]; intros tl sink Hb; cbn [poll_all]; [done|].
  apply (poll_file_bounded os tl sink opts ml now fid) in Hb.
  destruct (poll_file _ _ _ _ _ _ _) as [[n tl1] s1]. cbn [fst snd] in Hb.
  specialize (IH tl1 s1 Hb). by destruct (poll_all _ _ _ _ _ _ _) as [[? ?] ?].
Qed.

Lemma flush_expired_records_bounded ids fs sink opts ml n1 n2 :
  all_bounded (cap_of ml) fs ->
  all_bounded (cap_of ml) (flush_expired_records ids fs sink opts ml n1 n2).1.2.
Proof.
  destruct ml as [m|]; cbn [flush_expired_records]; [|done]. generalize (@None N) as near.
  revert fs sink. induction ids as [|fid ids IH]; intros fs sink near Hb; [done|].
  cbn [flush_expired]. destruct (fs !! fid) as [t|] eqn:Ht; [|by apply IH].
  assert (Hs := flush_if_expired_bounded _ t sink opts m n1 n2 (Hb _ _ Ht)).
  destruct (flush_if_expired _ _ _ _ _ _) as [[rm t'] s']. apply IH. by apply map_Forall_insert_2.
Qed.

Lemma flush_all_bounded ids fs sink opts ml :
  all_bounded (cap_of ml) fs -> all_bounded (cap_of ml) (flush_all ids fs sink opts ml).1.
Proof.
  revert fs sink. induction ids as [|fid ids IH]; intros fs sink Hb; [done|].
  cbn [flush_all]. destruct (fs !! fid) as [t|] eqn:Ht; [|by apply IH].
  assert (Hbt := Hb _ _ Ht). cbn in Hbt. destruct ml as [m|].
  - apply (flush_final_bounded t sink opts m) in Hbt. destruct (flush_final _ _ _ _).
    apply IH. by apply map_Forall_insert_2.
  - apply (flush_partial_bounded _ t sink) in Hbt. destruct (flush_partial _ _).
    apply IH. by apply map_Forall_insert_2.
Qed.

Lemma evict_stale_bounded cap ids tl :
  all_bounded cap (files tl) -> all_bounded cap (files (evict_stale tl ids)).
Proof.
  unfold evict_stale. revert tl. induction ids as [|fid ids IH]; intros tl Hb; [done|].
  apply IH. unfold evict_one. destruct (files tl !! fid); [|done]. case_if; [|done].
  by apply map_Forall_delete.
Qed.

Lemma register_all_bounded cap os (ps : list bytes) (f : Tail -> bytes -> Tail) tl :
  (forall tl p, f tl p = tl \/ exists saved ip, f tl p = register_file os tl p saved ip) ->
  all_bounded cap (files tl) -> all_bounded cap (files (fold_left f ps tl)).
Proof.
  intros Hf. revert tl. induction ps as [|p ps IH]; intros tl Hb; [done|]. cbn [fold_left]. apply IH.
  destruct (Hf tl p) as [->|(saved & ip & ->)]; [done|by apply register_file_bounded].
Qed.

Lemma tail_step_bounded patterns opts ml st ev :
  all_bounded (cap_of ml) (files (tl_tail st)) ->
  all_bounded (cap_of ml) (files (tl_tail (tail_step patterns opts ml st ev))).
Proof.
  intros Hb. unfold tail_step. case_if; [done|].
  destruct ev as [os ids ids' now order io|os|now order io|os ids ids' now order io]; [| |done|].
  - apply (poll_all_bounded os ids _ (tl_sink st) opts ml now) in Hb.
    destruct (poll_all _ _ _ _ _ _ _) as [[n tl1] s1]. cbn [fst snd] in Hb.
    apply (flush_expired_records_bounded ids' _ s1 opts ml now now) in Hb.
    destruct (flush_expired_records _ _ _ _ _ _ _) as [[pend fs2] s2]. cbn [fst snd] in Hb.
    destruct (0 <? n); [case_if|]; by apply evict_stale_bounded.
  - cbn [tl_tail]. unfold discover_new. apply (register_all_bounded _ os); [|done].
    intros tl p. destruct (path_index tl !! p); [by left|right; by eexists _, _].
  - apply (poll_all_bounded os ids _ (tl_sink st) opts ml now) in Hb.
    destruct (poll_all _ _ _ _ _ _ _) as [[n tl1] s1]. cbn [fst snd] in Hb.
    apply (flush_all_bounded ids' _ s1 opts ml) in Hb. by destruct (flush_all _ _ _ _ _) as [fs2 s2].
Qed.

Lemma tail_files_bounded os patterns opts ml sink disk now evs :
  all_bounded (cap_of ml) (files (tl_tail (tail_files os patterns opts ml sink disk now evs))).
Proof.
  unfold tail_files. assert (Hs : all_bounded (cap_of ml) (files (tl_tail (tail_start os patterns sink disk now)))).
  { cbn [tail_start tl_tail]. unfold initial_discovery. apply (register_all_bounded _ os); [|apply map_Forall_empty].
    intros tl p. right. by eexists _, _. }
  revert Hs. generalize (tail_start os patterns sink disk now) as st.
  induction evs as [|ev evs IH]; intros st Hs; [done|]. by apply IH, tail_step_bounded.
Qed.
End memory.
