(* ===== verification/OffsetFacts.v ===== *)
(** The state file of the tailer: what [save_offsets] writes is what
    [load_offsets] reads back, line by line, and the file that is registered
    after a restart resumes at the position that was saved. *)
From S2P Require Import Prelude Str StrFacts External Text Structured Sink Tailed TailedFacts Multiline Watcher.
From Stdlib Require Import Strings.Byte.

(** * ASCII text is valid UTF-8 *)

Lemma valid_utf8_nil : valid_utf8 [] = true.
Proof. done. Qed.

Lemma valid_utf8_ascii s : Forall (fun c => bN c < 128) s -> valid_utf8 s = true.
Proof.
  induction 1 as [|c s Hc Hs IH]; [done|].
  rewrite valid_utf8_unfold by done. unfold decode_one.
  rewrite (proj2 (N.ltb_lt _ _) Hc). exact IH.
Qed.

Lemma valid_utf8_concat ss : Forall (fun s => valid_utf8 s = true) ss -> valid_utf8 (concat ss) = true.
Proof. induction 1; cbn [concat]; [done|]. by rewrite valid_utf8_app. Qed.

Lemma show_N_ascii n : Forall (fun c => bN c < 128) (show_N n).
Proof.
  eapply Forall_impl; [apply show_N_digits|]. intros c Hc. unfold is_digit, in_range in Hc.
  norm_bool. lia.
Qed.

(** * Splitting lines *)

Lemma lines_terminated ls :
  Forall (fun l => nl ∉ l /\ strip_cr l = l) ls ->
  lines (concat (map (fun l => l ++ [nl]) ls)) = ls.
Proof.
  unfold lines. induction 1 as [|l ls [Hn Hcr] Hls IH]; [done|]. cbn [map concat].
  rewrite <- app_assoc. cbn [app]. rewrite raw_lines_line by done. cbn [map fst snd].
  by rewrite Hcr, IH.
Qed.

(** * The state file *)

Definition offset_body (t : TailedFile) : bytes :=
  from_utf8_lossy (path t) ++ tab :: show_N (pos t) ++ tab :: show_N (dev (id t))
  ++ tab :: show_N (ino (id t)).

(** The entries the format can carry: a path without tab and newline, values
    that fit [u64]. *)
Definition storable (t : TailedFile) : Prop :=
  tab ∉ from_utf8_lossy (path t) /\ nl ∉ from_utf8_lossy (path t) /\
  pos t <= u64_max /\ dev (id t) <= u64_max /\ ino (id t) <= u64_max.

Definition saved_of (t : TailedFile) : SavedOffset :=
  mkSavedOffset (pos t) (dev (id t)) (ino (id t)).

Lemma offsets_text_lines order :
  offsets_text order = concat (map (fun l => l ++ [nl]) (map offset_body order)).
Proof.
  unfold offsets_text. rewrite map_map. f_equal. apply map_ext. intros t.
  unfold offset_line, offset_body. by rewrite <- !app_assoc, !app_comm_cons, <- !app_assoc.
Qed.

Lemma offset_body_line t : storable t -> nl ∉ offset_body t /\ strip_cr (offset_body t) = offset_body t.
Proof.
  intros (_ & Hn & _). split.
  - unfold offset_body. assert (Hs := fun n => show_N_not_elem n nl eq_refl).
    assert (nl <> tab) by done. set_solver.
  - unfold strip_cr. destruct (strip_suffix [x0d] (offset_body t)) as [r|] eqn:E; [|done].
    apply strip_suffix_Some in E. exfalso.
    apply (f_equal last) in E. rewrite last_snoc in E. unfold offset_body in E.
    destruct (last (show_N (ino (id t)))) as [d|] eqn:Ed; [|by apply last_None, show_N_nonempty in Ed].
    repeat first [rewrite last_app in E | rewrite last_cons in E]. rewrite Ed in E.
    simplify_eq. apply last_Some_elem_of in Ed.
    by apply (show_N_not_elem (ino (id t)) x0d eq_refl).
Qed.

Lemma parse_offset_body t :
  storable t -> parse_offset_line (offset_body t) = Some (from_utf8_lossy (path t), saved_of t).
Proof.
  intros (Ht & _ & Hp & Hd & Hi). unfold parse_offset_line, offset_body.
  assert (Hs := fun n => show_N_not_elem n tab eq_refl).
  rewrite !splitn_cons by done. cbn [splitn]. unfold parse_u64.
  by rewrite !parse_uint_show.
Qed.

Lemma offsets_text_valid order : valid_utf8 (offsets_text order) = true.
Proof.
  unfold offsets_text. apply valid_utf8_concat, Forall_map, Forall_true. intros t.
  unfold offset_line. rewrite valid_utf8_app by apply lossy_is_valid. apply valid_utf8_ascii.
  assert (Hs := show_N_ascii). repeat (apply Forall_app; split); try apply Hs; by repeat constructor.
Qed.

Lemma load_offsets_text order :
  Forall storable order ->
  load_offsets (Some (offsets_text order))
  = fold_left (fun m t => <[from_utf8_lossy (path t) := saved_of t]> m) order ∅.
Proof.
  intros Ho. unfold load_offsets. rewrite offsets_text_valid, offsets_text_lines.
  rewrite lines_terminated.
  2: { apply Forall_map. eapply Forall_impl; [exact Ho|]. apply offset_body_line. }
  generalize (∅ : saved_map). induction Ho as [|t order Ht Ho IH]; intros m; [done|].
  cbn [map fold_left]. by rewrite parse_offset_body.
Qed.

Lemma fold_insert_notin (order : list TailedFile) (m : saved_map) k :
  k ∉ map (fun t => from_utf8_lossy (path t)) order ->
  fold_left (fun m t => <[from_utf8_lossy (path t) := saved_of t]> m) order m !! k = m !! k.
Proof.
  revert m. induction order as [|t order IH]; intros m Hk; [done|]. cbn [map fold_left] in *.
  rewrite not_elem_of_cons in Hk. rewrite IH by apply Hk. by rewrite lookup_insert_ne by naive_solver.
Qed.

Lemma load_offsets_lookup order t :
  Forall storable order -> NoDup (map (fun t => from_utf8_lossy (path t)) order) -> t ∈ order ->
  load_offsets (Some (offsets_text order)) !! from_utf8_lossy (path t) = Some (saved_of t).
Proof.
  intros Hs Hnd Hin. rewrite load_offsets_text by done. clear Hs. generalize (∅ : saved_map).
  induction order as [|u order IH]; intros m; [set_solver|]. cbn [map fold_left] in *.
  apply NoDup_cons in Hnd as [Hu Hnd].
  apply elem_of_cons in Hin as [->|Hin]; [|by apply IH].
  rewrite fold_insert_notin by done. by rewrite lookup_insert_eq.
Qed.
