(* ===== verification/SessionFacts.v ===== *)
(** Tailing a growing file through any number of polls, single-line mode.

    [synced] relates the state of the tailed file and of the sink to the
    content of the file: the bytes before the offset have been shipped line by
    line, exactly once and in order, and the buffered partial is the
    unterminated rest of them. It is kept by every poll, whatever the channel
    refuses, and a poll on an accepting channel makes progress. *)
From S2P Require Import Prelude Str StrFacts External Text Structured Sink Tailed TailedFacts Multiline MultilineFacts Watcher WatcherFacts.
From Stdlib Require Import Strings.Byte.

Section session.
Context `{SimdUtf8, Memchr, MemchrIter, SerdeJson, Regex, !SimdUtf8Ok, !MemchrOk}.
Context {S : Type} `{LogSink S, !LogSinkOk S}.
Implicit Types (t : TailedFile) (sink : S) (opts : FileParseOpts) (r : reader) (os : Os).

(** The file at the path of [t] is the one [t] tracks, holds [c], and reads
    without hard errors. *)
Definition serves os t (c : bytes) : Prop :=
  exists f m, os_open os (path t) = Some f /\ os_fstat os f = Some m /\
    md_id m = id t /\ md_len m = len c /\
    forall p, p <= len c ->
      exists r, os_seek os f p = Some r /\ quiet r /\ stream r = drop (N.to_nat p) c.

Definition synced opts (base : list LogEntry) (start : N) (c : bytes) t sink : Prop :=
  exists done rest, drop (N.to_nat start) c = done ++ rest /\
    pos t = start + len done /\ start <= len c /\
    partial t = pending done /\ fits done /\
    shipped sink = base ++ ideal_entries opts done.

Lemma synced_start opts start c t sink :
  pos t = start -> start <= len c -> partial t = [] -> synced opts (shipped sink) start c t sink.
Proof.
  intros Hp Hs Hpart. exists [], (drop (N.to_nat start) c). rewrite len_nil, app_nil_r.
  split_and!; [done|lia|done|done|done|done].
Qed.

(** The file may have grown since. *)
Lemma synced_grow opts base start c d t sink :
  synced opts base start c t sink -> synced opts base start (c ++ d) t sink.
Proof.
  intros (dn & rest & Hd & Hp & Hs & Hrest). exists dn, (rest ++ d).
  rewrite drop_app_le by len_lia. rewrite Hd, <- app_assoc, len_app. split_and!; [done|done|lia|apply Hrest..].
Qed.

Lemma reads_quiet_end r ls r' :
  quiet r -> reads r ls r' -> Forall (fun l => ends_with_nl l = true) ls \/ stream r' = [].
Proof.
  intros Hq Hr. induction Hr as [r|r l r1 ls r' Hl Hne Hr IH]; [by left|].
  destruct (read_line_quiet r Hq) as (r2 & Hl2 & Hq2 & Hst & Hnil).
  rewrite Hl in Hl2. injection Hl2 as _ -> ->.
  assert (Hline : is_line (first_line (stream r))) by (by apply read_line_ok in Hl as [? _]).
  destruct (ends_with_nl (first_line (stream r))) eqn:E.
  - destruct (IH Hq2) as [Hall|Hend]; [left; by constructor|by right].
  - right. apply ends_with_nl_line in E; [|done].
    rewrite (Hnil (first_line_no_nl _ E)) in Hr.
    inversion Hr as [|? l0 ? ? ? Hl0 Hne0]; subst; [done|].
    cbn in Hl0. injection Hl0 as _ <- _. done.
Qed.

Lemma pending_terminated ls raw :
  nl ∉ raw -> Forall chunk_ok ls -> Forall (fun l => ends_with_nl l = true) ls -> ls <> [] ->
  pending (raw ++ concat ls) = [].
Proof.
  intros Hraw Hc Ht Hne. destruct ls as [|l ls] using rev_ind; [done|].
  apply Forall_app in Ht as [_ Hl]. apply Forall_app in Hc as [_ Hcl].
  apply Forall_inv in Hl. apply Forall_inv in Hcl as [_ [Hno|(body & -> & Hb)]].
  - cbn beta in Hl. by rewrite ends_with_nl_not_elem in Hl.
  - rewrite concat_app. cbn [concat]. by rewrite app_nil_r, !app_assoc, pending_line.
Qed.

(** What a run of reads consumes keeps the partial within its buffer, when the
    whole content does. *)
Lemma fits_prefix dn r ls r' :
  quiet r -> reads r ls r' -> fits dn -> fits (dn ++ stream r) -> fits (dn ++ concat ls).
Proof.
  intros Hq Hr Hf Hfull. destruct (reads_chunks _ _ _ Hr) as [Hc Hs].
  destruct (reads_quiet_end _ _ _ Hq Hr) as [Ht|Hend].
  - destruct ls as [|l ls]; [cbn; by rewrite app_nil_r|]. unfold fits.
    destruct (ideal_app (mkFileParseOpts false false false) dn (concat (l :: ls))) as [_ ->].
    rewrite pending_terminated; [done|apply pending_no_nl|done|done|done].
  - rewrite Hend, app_nil_r in Hs. by rewrite <- Hs.
Qed.

Lemma run_lines_synced opts base dn r t sink stop n t' sink' :
  quiet r -> fits dn -> fits (dn ++ stream r) -> partial t = pending dn ->
  shipped sink = base ++ ideal_entries opts dn ->
  run_lines r t sink opts = (stop, n, t', sink') ->
  exists more rest, stream r = more ++ rest /\ pos t' = pos t + len more /\ n = len more /\
    partial t' = pending (dn ++ more) /\ fits (dn ++ more) /\
    shipped sink' = base ++ ideal_entries opts (dn ++ more) /\
    (stop = StopEof -> rest = []).
Proof.
  intros Hq Hf Hfull Hpart Hsh Hrun.
  apply run_lines_refines in Hrun as (ls & r' & Hls & -> & -> & Hs & Heof).
  assert (Hfit := fits_prefix _ _ _ _ Hq Hls Hf Hfull).
  destruct (ideal_app opts dn (concat ls)) as [Hi Hp].
  assert (Hfa : feed_all opts (partial t) ls
                = (ideal_entries opts (pending dn ++ concat ls), pending (pending dn ++ concat ls))).
  { rewrite Hpart. eapply feed_all_ideal; [apply pending_no_nl|apply Hf|done|done|].
    unfold fits in *. by rewrite <- Hp. }
  rewrite Hfa in *. exists (concat ls), (stream r'). cbn [fst snd pos partial set_pos set_partial] in *.
  split_and!; [by apply reads_chunks|done|done|done|done| |by auto].
  by rewrite Hs, Hsh, Hi, app_assoc.
Qed.

(** One poll of a file that is neither rotated nor truncated. *)
Lemma check_and_read_synced os opts base start c t sink now res t' sink' :
  synced opts base start c t sink -> serves os t c -> fits (drop (N.to_nat start) c) ->
  check_and_read os t sink opts None now = (res, t', sink') ->
  synced opts base start c t' sink' /\ pos t <= pos t' /\
  res = (if pos t <? pos t' then RBytes (pos t' - pos t) else Idle).
Proof.
  intros (dn & rest & Hd & Hp & Hst & Hpart & Hfit & Hsh) (f & m & Ho & Hm & Hid & Hlen & Hseek) Hfull.
  unfold check_and_read. rewrite Ho, Hm, Hid, bool_decide_eq_true_2 by done. cbn [negb].
  assert (Hlc : len c = start + len dn + len rest).
  { apply (f_equal len) in Hd. rewrite len_app in Hd. revert Hd Hst. len_lia. }
  destruct (N.ltb_spec (md_len m) (pos t)); [lia|]. destruct (N.leb_spec (md_len m) (pos t)).
  { intros [= <- <- <-]. rewrite N.ltb_irrefl. split_and!; [|lia|done].
    exists dn, rest. done. }
  destruct (Hseek (pos t) ltac:(lia)) as (r & Hr & Hq & Hstr). rewrite Hr. cbn [read_lines].
  assert (Hrest : stream r = rest).
  { rewrite Hstr, Hp, N2Nat.inj_add, <- drop_drop, Hd. apply drop_len_app. }
  destruct (run_lines r t sink opts) as [[[stop n] t1] s1] eqn:Hrun.
  apply (run_lines_synced opts base dn) in Hrun as (more & rest' & Hmr & Hp1 & -> & Hpa & Hft & Hs1 & _);
    [|done|done|by rewrite Hrest, <- Hd|done|done].
  intros [= <- <- <-]. split_and!; [|lia|].
  - exists (dn ++ more), rest'. rewrite len_app. split_and!; [|lia|done..].
    by rewrite Hd, <- Hrest, Hmr, app_assoc.
  - rewrite Hp1. replace (pos t + len more - pos t) with (len more) by lia.
    destruct (N.ltb_spec 0 (len more)), (N.ltb_spec (pos t) (pos t + len more)); done || lia.
Qed.

(** * Progress *)

Definition accepting : Prop := forall (s : S) e, (try_log_with_service s e).2 = true.

Lemma try_emit_accepting body part sink opts :
  accepting -> (try_emit_line body part sink opts).1.1 = true.
Proof.
  intros Hacc. unfold try_emit_line. case_if; [done|].
  assert (Ha := Hacc sink (classified_entry (classify_line
    (normalize_line (if is_empty part then lossy body else part ++ lossy body)) opts))).
  destruct (try_log_with_service _ _) as [s2 ok]. cbn [snd] in Ha. by subst ok.
Qed.

Lemma line_loop_progress fuel r t sink opts b n stop b' t' sink' :
  accepting -> n < MAX_LINES_PER_POLL -> n <= b ->
  line_loop fuel r t sink opts b n = Some (stop, b', t', sink') ->
  stop = StopEof \/ stop = StopCap /\ MAX_LINES_PER_POLL <= b'.
Proof.
  intros Hacc. revert r t sink b n. induction fuel as [|fuel IH]; intros r t sink b n Hn Hb;
    cbn [line_loop]; [done|].
  destruct (read_line r []) as [[[k|] buf] r'] eqn:Er; [|intros [= <- <- <- <-]; by left].
  destruct (N.eqb_spec k 0) as [Hz|Hz]; [intros [= <- <- <- <-]; by left|].
  destruct (ends_with_nl buf).
  - assert (Ha := try_emit_accepting (take (length buf - 1) buf) (partial t) sink opts Hacc).
    destruct (try_emit_line _ _ _ _) as [[ok p] s2]. cbn [fst] in Ha. subst ok. cbn [negb].
    case_if; norm_bool; [intros [= <- <- <- <-]; right; split; [done|lia]|]. apply IH; lia.
  - apply IH; lia.
Qed.

Lemma run_lines_progress r t sink opts stop n t' sink' :
  accepting -> run_lines r t sink opts = (stop, n, t', sink') ->
  stop = StopEof \/ stop = StopCap /\ MAX_LINES_PER_POLL <= n.
Proof.
  intros Hacc. unfold run_lines.
  destruct (line_loop_total (Datatypes.S (reader_size r)) r t sink opts 0 0 ltac:(lia))
    as [[[[st m] t2] s2] E].
  rewrite E. intros [= <- <- <- <-]. by eapply line_loop_progress in E.
Qed.

Lemma check_and_read_progress os opts base start c t sink now res t' sink' :
  accepting -> synced opts base start c t sink -> serves os t c -> fits (drop (N.to_nat start) c) ->
  check_and_read os t sink opts None now = (res, t', sink') ->
  pos t' = len c \/ pos t + MAX_LINES_PER_POLL <= pos t'.
Proof.
  intros Hacc (dn & rest & Hd & Hp & Hst & Hpart & Hfit & Hsh) (f & m & Ho & Hm & Hid & Hlen & Hseek) Hfull.
  unfold check_and_read. rewrite Ho, Hm, Hid, bool_decide_eq_true_2 by done. cbn [negb].
  assert (Hlc : len c = start + len dn + len rest).
  { apply (f_equal len) in Hd. rewrite len_app in Hd. revert Hd Hst. len_lia. }
  destruct (N.ltb_spec (md_len m) (pos t)); [lia|]. destruct (N.leb_spec (md_len m) (pos t)).
  { intros [= <- <- <-]. left. lia. }
  destruct (Hseek (pos t) ltac:(lia)) as (r & Hr & Hq & Hstr). rewrite Hr. cbn [read_lines].
  assert (Hrest : stream r = rest).
  { rewrite Hstr, Hp, N2Nat.inj_add, <- drop_drop, Hd. apply drop_len_app. }
  destruct (run_lines r t sink opts) as [[[stop n] t1] s1] eqn:Hrun.
  assert (Hpr := run_lines_progress _ _ _ _ _ _ _ _ Hacc Hrun).
  apply (run_lines_synced opts base dn) in Hrun as (more & rest' & Hmr & Hp1 & -> & Hpa & Hft & Hs1 & Heof);
    [|done|done|by rewrite Hrest, <- Hd|done|done].
  intros [= <- <- <-]. rewrite Hp1. destruct Hpr as [->|[_ Hcap]]; [left|right; lia].
  rewrite (Heof eq_refl), app_nil_r in Hmr. rewrite <- Hmr, Hrest. lia.
Qed.

(** * Many polls *)

Fixpoint poll_session (oss : list Os) t sink opts (now : N) : TailedFile * S :=
  match oss with
  | [] => (t, sink)
  | os :: rest =>
    let '(_, t', sink') := check_and_read os t sink opts None now in
    poll_session rest t' sink' opts now
  end.

(** Each system serves the file as it is then; it only grows. *)
Inductive growing opts (start : N) t : bytes -> list Os -> bytes -> Prop :=
| growing_nil c : growing opts start t c [] c
| growing_cons c d os oss c' :
    serves os t (c ++ d) -> fits (drop (N.to_nat start) (c ++ d)) ->
    growing opts start t (c ++ d) oss c' -> growing opts start t c (os :: oss) c'.

Lemma serves_same os t t' c : same_file t t' -> serves os t c -> serves os t' c.
Proof. intros ((Hp & Hi & _) & _). unfold serves. by rewrite Hp, Hi. Qed.

Lemma growing_same opts start t t' c oss c' :
  same_file t t' -> growing opts start t c oss c' -> growing opts start t' c oss c'.
Proof.
  intros Hs Hg. induction Hg; econstructor; try done. by eapply serves_same.
Qed.

Lemma poll_session_synced opts base start c oss c' t sink now :
  synced opts base start c t sink -> growing opts start t c oss c' ->
  synced opts base start c' (poll_session oss t sink opts now).1 (poll_session oss t sink opts now).2.
Proof.
  intros Hsy Hg. revert t sink Hsy Hg. revert c.
  induction oss as [|os oss IH]; intros c t sink Hsy Hg; inversion Hg; subst; [done|].
  cbn [poll_session]. assert (Hsame := check_and_read_same os t sink opts None now).
  destruct (check_and_read os t sink opts None now) as [[res t1] s1] eqn:E. cbn [fst snd] in Hsame.
  eapply check_and_read_synced in E as [Hsy1 _]; [|by apply synced_grow|done|done].
  eapply IH; [done|]. by eapply growing_same.
Qed.

Lemma growing_still opts start t c oss :
  fits (drop (N.to_nat start) c) -> Forall (fun os => serves os t c) oss -> growing opts start t c oss c.
Proof.
  intros Hfit Hos. induction Hos as [|os oss Ho Hos IH]; [constructor|].
  apply (growing_cons opts start t c [] os oss c); by rewrite app_nil_r.
Qed.

Lemma synced_bound opts base start c t sink : synced opts base start c t sink -> pos t <= len c.
Proof.
  intros (dn & rest & Hd & Hp & Hst & _). apply (f_equal len) in Hd. rewrite len_app in Hd.
  revert Hd Hp Hst. len_lia.
Qed.

(** Polls of a file that stands still, on an accepting channel. *)
Lemma poll_session_progress opts base start c oss t sink now :
  accepting -> synced opts base start c t sink -> fits (drop (N.to_nat start) c) ->
  Forall (fun os => serves os t c) oss ->
  pos (poll_session oss t sink opts now).1 = len c \/
  pos t + MAX_LINES_PER_POLL * len oss <= pos (poll_session oss t sink opts now).1.
Proof.
  intros Hacc Hsy Hfit Hos. revert t sink Hsy Hos.
  induction oss as [|os oss IH]; intros t sink Hsy Hos; cbn [poll_session].
  { right. cbn. unfold len. cbn [length]. lia. }
  apply Forall_cons in Hos as [Hserve Hos].
  assert (Hsame := check_and_read_same os t sink opts None now).
  destruct (check_and_read os t sink opts None now) as [[res t1] s1] eqn:E. cbn [fst snd] in Hsame.
  assert (Hpr := check_and_read_progress _ _ _ _ _ _ _ _ _ _ _ Hacc Hsy Hserve Hfit E).
  destruct (check_and_read_synced _ _ _ _ _ _ _ _ _ _ _ Hsy Hserve Hfit E) as (Hsy1 & Hmono & _).
  assert (Hos1 : Forall (fun os => serves os t1 c) oss).
  { eapply Forall_impl; [exact Hos|]. intros os' Hs. by eapply serves_same. }
  destruct (IH t1 s1 Hsy1 Hos1) as [Hend|Hgo]; [by left|]. destruct Hpr as [Hend|Hstep].
  - left. assert (Hsy2 := poll_session_synced opts base start c oss c t1 s1 now Hsy1
      (growing_still _ _ _ _ _ Hfit Hos1)).
    apply synced_bound in Hsy2. lia.
  - right. rewrite len_cons. lia.
Qed.

(** At the end of the file everything has been shipped. *)
Lemma synced_end opts base start c t sink :
  synced opts base start c t sink -> pos t = len c ->
  shipped sink = base ++ ideal_entries opts (drop (N.to_nat start) c) /\
  partial t = pending (drop (N.to_nat start) c).
Proof.
  intros (dn & rest & Hd & Hp & Hst & Hpart & _ & Hs) Hend.
  assert (Hr : rest = []).
  { apply len_0_nil. assert (Hl := f_equal len Hd). rewrite len_app in Hl. revert Hl Hp Hend. len_lia. }
  subst rest. rewrite app_nil_r in Hd. by subst dn.
Qed.

(** * Draining a rotated-out file *)

Lemma flush_partial_spec t sink t' sink' :
  flush_partial t sink = (t', sink') ->
  t' = set_partial [] t /\
  exists tail, shipped sink' = shipped sink ++ tail /\
    (tail = [] \/ tail = [mkLogEntry Info (trim (partial t)) None None None]).
Proof.
  unfold flush_partial. destruct (partial t) as [|x p] eqn:Ep; cbn [is_empty].
  { intros [= <- <-]. split; [by destruct t; cbn in *; subst|]. exists []. rewrite app_nil_r. auto. }
  case_if; intros [= <- <-]; (split; [done|]).
  - exists []. rewrite app_nil_r. auto.
  - destruct (sink_log_appends sink (mkLogEntry Info (trim (x :: p)) None None None)) as [Hs|Hs].
    + eexists. split; [exact Hs|]. by right.
    + exists []. rewrite app_nil_r. auto.
Qed.

Lemma drain_retained_complete open f opts base dn r t sink n t' sink' :
  retained_fd t = Some f -> open f (pos t) = Some r -> quiet r -> fits dn -> fits (dn ++ stream r) ->
  partial t = pending dn -> shipped sink = base ++ ideal_entries opts dn ->
  drain_retained open t sink opts = (n, t', sink') ->
  exists more rest, stream r = more ++ rest /\ pos t' = pos t + len more /\ n = len more /\
    ((retained_fd t' = Some f /\ partial t' = pending (dn ++ more) /\
      shipped sink' = base ++ ideal_entries opts (dn ++ more)) \/
     (retained_fd t' = None /\ rest = [] /\ partial t' = [] /\
      exists tail, shipped sink' = (base ++ ideal_entries opts (dn ++ more)) ++ tail /\
        (tail = [] \/ tail = [mkLogEntry Info (trim (pending (dn ++ more))) None None None]))).
Proof.
  intros Hfd Hop Hq Hf Hfull Hpart Hsh. unfold drain_retained. rewrite Hfd.
  replace (pos (set_retained_fd None t)) with (pos t) by done. rewrite Hop.
  destruct (run_lines r (set_retained_fd None t) sink opts) as [[[stop m] t1] s1] eqn:Hrun.
  assert (Hret : retained_fd t1 = None).
  { assert (Hs := run_lines_same (set_retained_fd None t) r sink opts). rewrite Hrun in Hs. apply Hs. }
  apply (run_lines_synced opts base dn) in Hrun as (more & rest & Hmr & Hp1 & -> & Hpa & Hft & Hs1 & Heof);
    [|done..].
  cbn [pos set_retained_fd] in Hp1. destruct stop.
  - destruct (flush_partial t1 s1) as [t2 s2] eqn:Ef. intros [= <- <- <-].
    apply flush_partial_spec in Ef as (-> & tail & Htl & Hcase).
    exists more, rest. split_and!; [done|done|done|]. right. rewrite Hpa in Hcase.
    split_and!; [done|by apply Heof|done|]. exists tail. by rewrite Htl, Hs1.
  - intros [= <- <- <-]. exists more, rest. split_and!; [done|done|done|]. by left.
  - intros [= <- <- <-]. exists more, rest. split_and!; [done|done|done|]. by left.
Qed.
End session.
