(* ===== verification/MlSessionFacts.v ===== *)
(** Tailing a growing file through any number of polls, multiline mode.

    [ml_ideal] groups the lines of a content into records from the content
    alone. Whatever the polls and refusals were, what was shipped is the closed
    records, the offset is the first byte of the record in flight, and the
    aggregator holds exactly the lines after it. *)
From S2P Require Import Prelude Str StrFacts External Text Structured Sink Tailed TailedFacts Multiline MultilineFacts Watcher WatcherFacts SessionFacts.
From Stdlib Require Import Strings.Byte.

(** * The chunks of a content *)

Definition content_chunks (c : bytes) : list bytes :=
  map (fun p : bytes * bool => if p.2 then p.1 ++ [nl] else p.1) (raw_lines c).

Lemma content_chunks_line body (r : bytes) :
  nl ∉ body -> content_chunks (body ++ nl :: r) = (body ++ [nl]) :: content_chunks r.
Proof. intros Hb. unfold content_chunks. by rewrite raw_lines_line. Qed.

Lemma content_chunks_partial s : nl ∉ s -> s <> [] -> content_chunks s = [s].
Proof. intros Hs Hne. unfold content_chunks. by rewrite raw_lines_partial. Qed.

(** Induction on the lines of a content. *)
Lemma lines_ind (P : bytes -> Prop) :
  (forall s, nl ∉ s -> P s) ->
  (forall body r, nl ∉ body -> P r -> P (body ++ nl :: r)) -> forall c, P c.
Proof.
  intros Hbase Hstep c. remember (length c) as n eqn:Hn. revert c Hn.
  induction (lt_wf n) as [n _ IH]. intros c ->. destruct (decide (nl ∈ c)) as [Hin|Hno]; [|by apply Hbase].
  apply find_byte_in in Hin as (body & r & -> & Hb). apply Hstep; [done|].
  eapply IH; [|done]. rewrite length_app. cbn. lia.
Qed.

Lemma content_chunks_app a b :
  pending a = [] -> content_chunks (a ++ b) = content_chunks a ++ content_chunks b.
Proof.
  induction a as [s Hs|body r Hb IH] using lines_ind; intros Hp.
  - rewrite pending_none in Hp by done. by subst.
  - rewrite pending_line in Hp. rewrite <- app_assoc. cbn [app].
    rewrite !content_chunks_line by done. by rewrite IH.
Qed.

Lemma content_complete c : exists a, c = a ++ pending c /\ pending a = [].
Proof.
  induction c as [s Hs|body r Hb (a & Ha & Hp)] using lines_ind.
  - exists []. by rewrite pending_none.
  - exists (body ++ nl :: a). rewrite !pending_line. split; [|done].
    rewrite <- app_assoc. cbn [app]. by rewrite <- Ha.
Qed.

(** What follows the start of a line ends where the whole does. *)
Lemma pending_suffix a b : pending (a ++ b) = [] -> pending b = [].
Proof.
  induction a as [s Hs|body r Hb IH] using lines_ind.
  - destruct (decide (nl ∈ b)) as [Hin|Hno].
    + apply find_byte_in in Hin as (body & r & -> & Hb). by rewrite app_assoc, !pending_line.
    + rewrite !pending_none by set_solver. by intros [_ ?]%app_eq_nil.
  - rewrite <- app_assoc. cbn [app]. rewrite pending_line. exact IH.
Qed.

(** The chunks of a run of reads are those of its bytes. *)
Lemma content_chunks_concat ls0 last_ :
  Forall chunk_ok ls0 -> Forall (fun l => ends_with_nl l = true) ls0 -> nl ∉ last_ ->
  content_chunks (concat ls0 ++ last_) = ls0 ++ (if is_empty last_ then [] else [last_]).
Proof.
  intros Hc Ht Hn. induction Ht as [|l ls Hl Ht IH]; cbn [concat app].
  - destruct last_ as [|x s]; [done|]. cbn [is_empty]. by apply content_chunks_partial.
  - apply Forall_cons in Hc as [[_ [Hno|(body & -> & Hb)]] Hc].
    + by rewrite ends_with_nl_not_elem in Hl.
    + rewrite <- !app_assoc. cbn [app]. rewrite content_chunks_line by done. by rewrite IH.
Qed.

Section session.
Context `{SimdUtf8, Memchr, MemchrIter, SerdeJson, Regex, !SimdUtf8Ok, !MemchrOk}.
Context {S : Type} `{LogSink S, !LogSinkOk S}.
Implicit Types (t : TailedFile) (sink : S) (opts : FileParseOpts) (r : reader) (os : Os) (ml : MultilineOpts).

Definition ml_ideal ml (c : bytes) := ml_feed_all ml ([], [], 0) (content_chunks c).

Lemma ml_feed_all_app ml st a b :
  ml_feed_all ml st (a ++ b)
  = ((ml_feed_all ml st a).1 ++ (ml_feed_all ml (ml_feed_all ml st a).2 b).1,
     (ml_feed_all ml (ml_feed_all ml st a).2 b).2).
Proof.
  revert st. induction a as [|x a IH]; intros st; cbn [app].
  - cbn [ml_feed_all fst snd app]. by destruct (ml_feed_all ml st b).
  - rewrite !ml_feed_all_cons, IH. cbn [fst snd]. by rewrite app_assoc.
Qed.

Lemma ml_feed_all_complete ml cur a :
  pending a = [] -> exists cur', (ml_feed_all ml (cur, [], 0) (content_chunks a)).2 = (cur', [], 0).
Proof.
  revert cur. induction a as [s Hs|body r Hb IH] using lines_ind; intros cur Hp.
  - rewrite pending_none in Hp by done. subst. by exists cur.
  - rewrite pending_line in Hp. rewrite content_chunks_line, ml_feed_all_cons by done. cbn [snd].
    unfold ml_feed. rewrite ends_with_nl_snoc, bool_decide_eq_true_2 by done.
    case_if; cbn [snd]; by apply IH.
Qed.

(** A chunk that completes a buffered tail is the line read in one piece. *)
Lemma ml_feed_joined ml cur raw l :
  nl ∉ raw -> valid_utf8 raw = true -> chunk_ok l ->
  (ends_with_nl l = false -> valid_utf8 l = true /\ len raw + len l <= MAX_PARTIAL_BYTES) ->
  ml_feed ml (cur, raw, len raw) l = ml_feed ml (cur, [], 0) (raw ++ l).
Proof.
  intros Hraw Hv [Hne Hline] Hpart. unfold ml_feed.
  replace (ends_with_nl (raw ++ l)) with (ends_with_nl l)
    by (unfold ends_with_nl; rewrite last_app; destruct (last l) eqn:El; [done|by apply last_None in El]).
  destruct (ends_with_nl l) eqn:E.
  - destruct Hline as [Hno|(body & -> & Hb)]; [by rewrite ends_with_nl_not_elem in E|].
    rewrite app_assoc, !line_body_snoc, lossy_app by done. cbn [app]. rewrite N.add_0_l, !len_app.
    by rewrite N.add_assoc.
  - destruct Hpart as [Hvl Hlen]; [done|]. rewrite N.add_0_l, len_app.
    rewrite !push_partial_small; try done.
    + rewrite len_nil, len_app. lia.
    + by destruct raw.
    + by rewrite valid_utf8_app.
Qed.

(** The state after a content: its complete lines grouped, its tail buffered. *)
Lemma ml_ideal_split ml c a :
  c = a ++ pending c -> pending a = [] -> fits c ->
  exists cur, (ml_feed_all ml ([], [], 0) (content_chunks a)).2 = (cur, [], 0) /\
    ml_ideal ml c = ((ml_feed_all ml ([], [], 0) (content_chunks a)).1, (cur, pending c, len (pending c))).
Proof.
  intros Hc Ha [Hv Hl]. destruct (ml_feed_all_complete ml [] a Ha) as [cur Hcur].
  exists cur. split; [done|]. unfold ml_ideal. rewrite Hc at 1. rewrite content_chunks_app by done.
  rewrite ml_feed_all_app, Hcur. destruct (pending c) as [|x p] eqn:Ep.
  - cbn. by rewrite app_nil_r.
  - rewrite (content_chunks_partial (x :: p)); [|rewrite <- Ep; apply pending_no_nl|done].
    rewrite ml_feed_all_cons. cbn [ml_feed_all fst snd].
    unfold ml_feed. rewrite ends_with_nl_not_elem by (rewrite <- Ep; apply pending_no_nl).
    rewrite push_partial_small; [|rewrite len_nil; lia|done|done]. cbn [fst snd app].
    by rewrite app_nil_r, N.add_0_l.
Qed.

Lemma ml_ideal_step ml dn r ls r' :
  fits dn -> quiet r -> reads r ls r' -> fits (dn ++ concat ls) ->
  ml_ideal ml (dn ++ concat ls)
  = ((ml_ideal ml dn).1 ++ (ml_feed_all ml (ml_ideal ml dn).2 ls).1,
     (ml_feed_all ml (ml_ideal ml dn).2 ls).2).
Proof.
  intros Hf Hq Hr Hf'. destruct (content_complete dn) as (a & Ha & Hp).
  destruct (ml_ideal_split ml dn a Ha Hp Hf) as (cur & Hcur & Hid). rewrite Hid. cbn [fst snd].
  destruct ls as [|l ls].
  { cbn [concat ml_feed_all fst snd]. rewrite !app_nil_r. exact Hid. }
  assert (Hc := proj1 (reads_chunks _ _ _ Hr)).
  assert (Hshape : exists ls0 last_, pending dn ++ concat (l :: ls) = concat ls0 ++ last_ /\
    Forall chunk_ok ls0 /\ Forall (fun l => ends_with_nl l = true) ls0 /\ nl ∉ last_ /\
    (pending dn ++ l) :: ls = ls0 ++ (if is_empty last_ then [] else [last_])).
  { assert (Hjoin : chunk_ok l -> chunk_ok (pending dn ++ l)).
    { intros [Hne Hl]. split; [by destruct (pending dn)|]. assert (Hn := pending_no_nl dn).
      destruct Hl as [Hno|(body & -> & Hb)]; [left; set_solver|right].
      exists (pending dn ++ body). rewrite app_assoc. split; [done|set_solver]. }
    assert (Hends : ends_with_nl l = true -> ends_with_nl (pending dn ++ l) = true).
    { unfold ends_with_nl. rewrite last_app. by destruct (last l). }
    destruct (reads_quiet _ _ _ Hq Hr) as [Hall|(ls0 & x & Hls & Hall & Hn)].
    - exists ((pending dn ++ l) :: ls), []. cbn [concat is_empty]. rewrite !app_nil_r.
      apply Forall_cons in Hc as [? ?], Hall as [? ?]. rewrite app_assoc.
      split_and!; [done|constructor; auto|constructor; auto|apply not_elem_of_nil|done].
    - destruct ls0 as [|l0 ls0]; cbn [app] in Hls; simplify_eq.
      + exists [], (pending dn ++ x). cbn [concat app]. rewrite !app_nil_r.
        apply Forall_cons in Hc as [[Hne _] _]. assert (Hnp := pending_no_nl dn).
        split_and!; [done|done|done|set_solver|by destruct (pending dn), x].
      + exists ((pending dn ++ l0) :: ls0), x. apply Forall_cons in Hc as [? Hc].
        apply Forall_app in Hc as [? Hcx]. apply Forall_inv in Hcx as [Hx _].
        apply Forall_cons in Hall as [? ?]. cbn [concat]. rewrite concat_app. cbn [concat].
        rewrite app_nil_r, !app_assoc.
        split_and!; [done|constructor; auto|constructor; auto|done|by destruct x]. }
  destruct Hshape as (ls0 & last_ & Hcat & Hok & Ht & Hn & Hl).
  unfold ml_ideal. rewrite Ha at 1. rewrite <- app_assoc, content_chunks_app by done.
  rewrite Hcat, content_chunks_concat, <- Hl by done.
  rewrite ml_feed_all_app, Hcur, !ml_feed_all_cons. rewrite (ml_feed_joined ml cur (pending dn) l); [done| |apply Hf| |].
  - apply pending_no_nl.
  - by apply Forall_cons in Hc as [? _].
  - intros Hnl. destruct (reads_quiet _ _ _ Hq Hr) as [Hall|(ls1 & x & Hls & Hall & Hx)].
    { apply Forall_inv in Hall. cbn beta in Hall. congruence. }
    destruct ls1 as [|l1 ls1]; cbn [app] in Hls; simplify_eq.
    2: { apply Forall_inv in Hall. cbn beta in Hall. congruence. }
    destruct Hf' as [Hv' Hl']. destruct (ideal_app (mkFileParseOpts false false false) dn (concat [x])) as [_ He].
    cbn [concat] in *. rewrite app_nil_r in *. rewrite He in *.
    rewrite (pending_none (pending dn ++ x)) in *
      by (assert (Hpn := pending_no_nl dn); set_solver).
    rewrite valid_utf8_app in Hv' by apply Hf. rewrite len_app in Hl'. done.
Qed.

(** The bytes of the records closed and in flight are the bytes consumed. *)
Definition state_bytes (st : list (bytes * N) * bytes * N) : N := span_sum st.1.1 + st.2.

Lemma ml_feed_bytes ml st l :
  closed_span (ml_feed ml st l).1 + state_bytes (ml_feed ml st l).2 = state_bytes st + len l.
Proof.
  destruct st as [[cur part] pb]. unfold ml_feed, state_bytes. repeat case_if; cbn [fst snd].
  - unfold closed_span, span_sum. cbn. lia.
  - rewrite span_sum_app. unfold closed_span, span_sum. cbn. lia.
  - unfold closed_span. cbn. lia.
Qed.

Lemma ml_feed_all_bytes ml st ls :
  closed_span (ml_feed_all ml st ls).1 + state_bytes (ml_feed_all ml st ls).2
  = state_bytes st + len (concat ls).
Proof.
  revert st. induction ls as [|l ls IH]; intros st; [cbn [ml_feed_all fst snd concat]; unfold closed_span, len; cbn [foldr length]; lia|].
  rewrite ml_feed_all_cons. cbn [fst snd concat]. rewrite closed_span_app, len_app.
  specialize (IH (ml_feed ml st l).2). assert (Hb := ml_feed_bytes ml st l). lia.
Qed.

(** * Reading the span in flight again *)

(** The chunks split at the first byte of the record in flight; feeding the
    second part to a fresh aggregator closes nothing and rebuilds the state. *)
Lemma ml_feed_all_rederive ml chunks :
  Forall (fun c => ends_with_nl c = true) chunks ->
  exists a b, chunks = a ++ b /\
    len (concat a) = closed_span (ml_feed_all ml ([], [], 0) chunks).1 /\
    ml_feed_all ml ([], [], 0) b = ([], (ml_feed_all ml ([], [], 0) chunks).2) /\
    (ml_feed_all ml ([], [], 0) chunks).2.1.2 = [] /\ (ml_feed_all ml ([], [], 0) chunks).2.2 = 0.
Proof.
  induction chunks as [|c chunks IH] using rev_ind; intros Ht.
  { exists [], []. by cbn. }
  apply Forall_app in Ht as [Ht Hc]. apply Forall_inv in Hc. cbn beta in Hc.
  destruct (IH Ht) as (a & b & Hab & Hla & Hb & Hpart & Hpb). rewrite ml_feed_all_app.
  destruct (ml_feed_all ml ([], [], 0) chunks) as [gs [[cur part] pb]]. cbn [fst snd] in *. subst part pb.
  rewrite ml_feed_all_cons. cbn [ml_feed_all fst snd]. rewrite app_nil_r, closed_span_app.
  unfold ml_feed at 1 2 3 4. rewrite Hc. case_if; cbn [fst snd].
  - exists chunks, [c]. split_and!; [done| | |done|done].
    + cbn [closed_span foldr]. assert (Hby := ml_feed_all_bytes ml ([], [], 0) b). rewrite Hb in Hby.
      rewrite Hab, concat_app, len_app, Hla. unfold state_bytes, closed_span, span_sum in *. cbn in Hby |- *. lia.
    + rewrite ml_feed_all_cons. cbn [ml_feed_all]. unfold ml_feed. rewrite Hc. cbn [is_empty negb].
      rewrite andb_false_r. done.
  - exists a, (b ++ [c]). split_and!; [by rewrite Hab, app_assoc|unfold closed_span; cbn; unfold closed_span in Hla; lia| |done|done].
    rewrite ml_feed_all_app, Hb. cbn [fst snd]. rewrite ml_feed_all_cons. cbn [ml_feed_all].
    unfold ml_feed. rewrite Hc, Heqb0. done.
Qed.

(** * Polling *)

Definition ml_synced opts ml (base : list LogEntry) (start : N) (c : bytes) t sink : Prop :=
  exists done rest, drop (N.to_nat start) c = done ++ rest /\ start <= len c /\ fits done /\
    (agg t = None -> done = [] /\ partial t = []) /\
    (is_Some (agg t) -> represents ml t (ml_ideal ml done).2) /\
    pos t = start + closed_span (ml_ideal ml done).1 /\
    shipped sink = base ++ closed_entries opts ml (ml_ideal ml done).1.

Lemma ml_synced_start opts ml start c t sink :
  pos t = start -> start <= len c -> partial t = [] -> agg t = None ->
  ml_synced opts ml (shipped sink) start c t sink.
Proof.
  intros Hp Hs Hpart Hagg. exists [], (drop (N.to_nat start) c). rewrite Hagg. cbn.
  rewrite app_nil_r. split_and!; done || lia || by intros [? ?].
Qed.

Lemma ml_synced_grow opts ml base start c d t sink :
  ml_synced opts ml base start c t sink -> ml_synced opts ml base start (c ++ d) t sink.
Proof.
  intros (dn & rest & Hd & Hs & Hrest). exists dn, (rest ++ d).
  rewrite drop_app_le by len_lia. rewrite Hd, <- app_assoc, len_app. split_and!; [done|lia|apply Hrest..].
Qed.

Lemma content_chunks_bytes c : concat (content_chunks c) = c.
Proof.
  induction c as [s Hs|body r Hb IH] using lines_ind.
  - destruct s; [done|]. rewrite content_chunks_partial by done. cbn. by rewrite app_nil_r.
  - rewrite content_chunks_line by done. cbn [concat]. by rewrite IH, <- app_assoc.
Qed.

Lemma ml_ideal_bytes ml c :
  closed_span (ml_ideal ml c).1 + state_bytes (ml_ideal ml c).2 = len c.
Proof. unfold ml_ideal. rewrite ml_feed_all_bytes, content_chunks_bytes. unfold state_bytes, span_sum. cbn [fst snd foldr]. lia. Qed.

Lemma represents_read_from ml t st : represents ml t st -> read_from t = pos t + state_bytes st.
Proof.
  destruct st as [[cur part] pb]. intros (a & Ha & _ & _ & _ & _ & Hra & _).
  unfold read_from, state_bytes. rewrite Ha. cbn [fst snd]. lia.
Qed.

Lemma content_chunks_ok c : Forall chunk_ok (content_chunks c).
Proof.
  induction c as [s Hs|body r Hb IH] using lines_ind.
  - destruct s as [|x s]; [constructor|]. rewrite content_chunks_partial by done.
    constructor; [|constructor]. split; [done|by left].
  - rewrite content_chunks_line by done. constructor; [|done].
    split; [by destruct body|right]. by exists body.
Qed.

Lemma content_chunks_terminated c :
  pending c = [] -> Forall (fun l => ends_with_nl l = true) (content_chunks c).
Proof.
  induction c as [s Hs|body r Hb IH] using lines_ind; intros Hp.
  - rewrite pending_none in Hp by done. subst. constructor.
  - rewrite pending_line in Hp. rewrite content_chunks_line by done. constructor; [|by apply IH].
    by rewrite ends_with_nl_snoc, bool_decide_eq_true_2.
Qed.

(** Reading again from the first byte of the record in flight. *)
Lemma ml_ideal_rederive ml c :
  pending c = [] ->
  ml_ideal ml (drop (N.to_nat (closed_span (ml_ideal ml c).1)) c) = ([], (ml_ideal ml c).2).
Proof.
  intros Hp. assert (Ht := content_chunks_terminated c Hp).
  destruct (ml_feed_all_rederive ml (content_chunks c) Ht) as (a & b & Hab & Hla & Hb & _ & _).
  fold (ml_ideal ml c) in *. rewrite <- Hla.
  assert (Hc : c = concat a ++ concat b) by by rewrite <- concat_app, <- Hab, content_chunks_bytes.
  rewrite Hc at 1. rewrite drop_len_app. unfold ml_ideal at 1.
  assert (Hok := content_chunks_ok c). rewrite Hab in Ht, Hok.
  apply Forall_app in Ht as [_ Ht]. apply Forall_app in Hok as [_ Hok].
  replace (concat b) with (concat b ++ []) by apply app_nil_r.
  rewrite content_chunks_concat; [|done|done|apply not_elem_of_nil]. cbn [is_empty].
  by rewrite app_nil_r.
Qed.

(** What a shorter reading closed, a longer one closed first. *)
Lemma ml_ideal_prefix ml dn rest :
  fits dn -> (ml_ideal ml dn).1 `prefix_of` (ml_ideal ml (dn ++ rest)).1.
Proof.
  intros Hf. destruct (content_complete dn) as (a & Ha & Hp).
  destruct (ml_ideal_split ml dn a Ha Hp Hf) as (cur & _ & Hid). rewrite Hid. cbn [fst].
  unfold ml_ideal. rewrite Ha, <- app_assoc, content_chunks_app, ml_feed_all_app by done. by eexists.
Qed.

Lemma check_and_read_ml_synced os opts ml base start c t sink now res t' sink' :
  ml_synced opts ml base start c t sink -> serves os t c -> fits (drop (N.to_nat start) c) ->
  check_and_read os t sink opts (Some ml) now = (res, t', sink') ->
  ml_synced opts ml base start c t' sink'.
Proof.
  intros (dn & rest & Hd & Hst & Hfit & Hnone & Hsome & Hp & Hsh) (f & m & Ho & Hm & Hid & Hlen & Hseek) Hfull.
  assert (Hb := ml_ideal_bytes ml dn).
  assert (Hlc : len c = start + len dn + len rest).
  { apply (f_equal len) in Hd. rewrite len_app in Hd. revert Hd Hst. len_lia. }
  unfold check_and_read. rewrite Ho, Hm, Hid, bool_decide_eq_true_2 by done. cbn [negb].
  destruct (N.ltb_spec (md_len m) (pos t)); [lia|].
  destruct (N.leb_spec (md_len m) (pos t)).
  { intros [= <- <- <-]. by exists dn, rest. }
  unfold read_live.
  assert (Hrep : represents ml (ensure_agg t) (ml_ideal ml dn).2 /\ pos (ensure_agg t) = pos t).
  { destruct (agg t) as [a|] eqn:Ea.
    - unfold ensure_agg. rewrite Ea. split; [apply Hsome|]; done.
    - destruct (Hnone eq_refl) as [-> Hpt]. split; [by apply ensure_agg_represents|].
      unfold ensure_agg. by rewrite Ea. }
  destruct Hrep as [Hrep Hpe]. assert (Hrf := represents_read_from _ _ _ Hrep).
  destruct (Hseek (read_from (ensure_agg t)) ltac:(lia)) as (r & Hr & Hq & Hstr). rewrite Hr.
  assert (Hrest : stream r = rest).
  { rewrite Hstr, Hrf, Hpe, Hp. replace (_ + _ + _) with (start + len dn) by lia.
    rewrite N2Nat.inj_add, <- drop_drop, Hd. apply drop_len_app. }
  destruct (read_loop _ _ _ _ _ _) as [[[reason n] t1] s1] eqn:Hrun.
  apply (read_loop_refines _ _ _ _ _ _ _ _ _ _ _ Hrep) in Hrun as (ls & r' & Hls & -> & Hrep' & Hp' & Hsh').
  intros [= <- <- <-].
  assert (Hfit' : fits (dn ++ concat ls)).
  { eapply fits_prefix; [done|done|done|]. by rewrite Hrest, <- Hd. }
  assert (Hstep := ml_ideal_step ml dn r ls r' Hfit Hq Hls Hfit').
  exists (dn ++ concat ls), (stream r'). rewrite Hstep. cbn [fst snd].
  split_and!; [|done|done| |done| |].
  - rewrite Hd, <- Hrest, <- app_assoc. f_equal. by apply reads_chunks.
  - destruct (ml_feed_all ml (ml_ideal ml dn).2 ls).2 as [[? ?] ?]. destruct Hrep' as (a & -> & _). done.
  - rewrite closed_span_app. lia.
  - by rewrite Hsh', Hsh, closed_entries_app, app_assoc.
Qed.

Fixpoint ml_poll_session (oss : list Os) t sink opts ml (now : N) : TailedFile * S :=
  match oss with
  | [] => (t, sink)
  | os :: rest =>
    let '(_, t', sink') := check_and_read os t sink opts (Some ml) now in
    ml_poll_session rest t' sink' opts ml now
  end.

Lemma ml_poll_session_synced opts ml base start c oss c' t sink now :
  ml_synced opts ml base start c t sink -> growing opts start t c oss c' ->
  ml_synced opts ml base start c' (ml_poll_session oss t sink opts ml now).1
    (ml_poll_session oss t sink opts ml now).2.
Proof.
  intros Hsy Hg. revert t sink Hsy Hg. revert c.
  induction oss as [|os oss IH]; intros c t sink Hsy Hg; inversion Hg; subst; [done|].
  cbn [ml_poll_session]. assert (Hsame := check_and_read_same os t sink opts (Some ml) now).
  destruct (check_and_read os t sink opts (Some ml) now) as [[res t1] s1] eqn:E. cbn [fst snd] in Hsame.
  eapply check_and_read_ml_synced in E as Hsy1; [|by apply ml_synced_grow|done|done].
  eapply IH; [done|]. by eapply growing_same.
Qed.
(** At the end of the file the state is that of the whole content. *)
Lemma ml_synced_end opts ml base start c t sink :
  ml_synced opts ml base start c t sink -> is_Some (agg t) -> read_from t = len c ->
  represents ml t (ml_ideal ml (drop (N.to_nat start) c)).2 /\
  pos t = start + closed_span (ml_ideal ml (drop (N.to_nat start) c)).1.
Proof.
  intros (dn & rest & Hd & Hs & _ & _ & Hrep & Hp & _) Ha Hr. specialize (Hrep Ha).
  assert (Hf := represents_read_from _ _ _ Hrep). assert (Hby := ml_ideal_bytes ml dn).
  assert (rest = []) as ->.
  { apply len_0_nil. assert (Hl := f_equal len Hd). rewrite len_app in Hl. revert Hl Hs Hf Hby. len_lia. }
  rewrite app_nil_r in Hd. by rewrite Hd.
Qed.

(** Reading on from the record in flight closes nothing. *)
Lemma ml_synced_in_flight opts ml base start c p t sink :
  pending (drop (N.to_nat start) c) = [] -> p = start + closed_span (ml_ideal ml (drop (N.to_nat start) c)).1 ->
  ml_synced opts ml base p c t sink ->
  shipped sink = base /\ pos t = p /\
  ml_ideal ml (drop (N.to_nat p) c) = ([], (ml_ideal ml (drop (N.to_nat start) c)).2).
Proof.
  intros Hpend Hp (dn & rest & Hd & _ & Hf & _ & _ & Hpos & Hsh).
  assert (Hred := ml_ideal_rederive ml _ Hpend). rewrite drop_drop, <- N2Nat.inj_add, <- Hp in Hred.
  assert (Hnone : (ml_ideal ml dn).1 = []).
  { apply prefix_nil_inv. assert (Hpre := ml_ideal_prefix ml dn rest Hf). by rewrite <- Hd, Hred in Hpre. }
  rewrite Hnone in *. cbn in *. rewrite app_nil_r in Hsh. split_and!; [done|lia|done].
Qed.
End session.
