(* ===== verification/RestartFacts.v ===== *)
(** The whole tailer over many lifetimes, single-line mode: several files, the
    event loop of [Watcher.tail_step], a graceful stop, the state file, and the
    next start.

    What the sink was given is explained by a trace that tags each entry with the
    file it came from: entries of different files interleave, those of one file
    stay in order. [table_synced] relates the table of files, the sink and the
    content of the files; every event of the loop keeps it while the files are
    only appended to, a stop turns it into what the next start resumes from. *)
From stdpp Require Import functions.
From S2P Require Import Prelude Str StrFacts External Text Structured Sink Tailed TailedFacts Multiline MultilineFacts.
From S2P Require Import Watcher WatcherFacts OffsetFacts SessionFacts MlSessionFacts.
From Stdlib Require Import Strings.Byte.

Notation trace := (list (FileId * LogEntry)).

(** The entries of one file in a trace. *)
Definition of_file (fid : FileId) (tr : trace) : list LogEntry :=
  snd <$> filter (fun x => x.1 = fid) tr.

Definition tagged (fid : FileId) (es : list LogEntry) : trace := pair fid <$> es.

Lemma of_file_app fid tr tr' : of_file fid (tr ++ tr') = of_file fid tr ++ of_file fid tr'.
Proof. unfold of_file. by rewrite list.filter_app, fmap_app. Qed.

Lemma of_file_tagged fid es : of_file fid (tagged fid es) = es.
Proof.
  unfold of_file, tagged. induction es as [|e es IH]; [done|]. cbn [fmap list_fmap].
  rewrite filter_cons_True by done. cbn [fmap list_fmap snd]. by rewrite IH.
Qed.

Lemma of_file_tagged_ne fid fid' es : fid <> fid' -> of_file fid (tagged fid' es) = [].
Proof.
  intros Hne. unfold of_file, tagged. induction es as [|e es IH]; [done|]. cbn [fmap list_fmap].
  by rewrite filter_cons_False by (cbn; congruence).
Qed.

Lemma tagged_entries fid es : (tagged fid es).*2 = es.
Proof. unfold tagged. rewrite <- list_fmap_compose. apply list_fmap_id. Qed.

Section restart.
Context `{SimdUtf8, Memchr, MemchrIter, SerdeJson, Regex, !SimdUtf8Ok, !MemchrOk}.
Context {S : Type} `{LogSink S, !LogSinkOk S}.
Implicit Types (t : TailedFile) (sink : S) (os : Os) (tl : Tail).

(** * One file *)

(** The tracked file has consumed [dn] of [c] from [start] on. *)
Definition file_at (c : bytes) (start : N) (dn : bytes) t : Prop :=
  (exists rest, drop (N.to_nat start) c = dn ++ rest) /\ start <= len c /\
  pos t = start + len dn /\ partial t = pending dn /\ fits dn.

Lemma file_at_grow c d start dn t : file_at c start dn t -> file_at (c ++ d) start dn t.
Proof.
  intros ([rest Hd] & Hs & Hrest). split_and!; [|len_lia|apply Hrest..].
  exists (rest ++ d). rewrite drop_app_le by len_lia. by rewrite Hd, app_assoc.
Qed.

(** One poll: what it consumes, and what it appends to the sink. *)
Lemma check_and_read_appends os opts c start dn t sink now res t' sink' :
  file_at c start dn t -> serves os t c -> fits (drop (N.to_nat start) c) ->
  check_and_read os t sink opts None now = (res, t', sink') ->
  exists more new, file_at c start (dn ++ more) t' /\ shipped sink' = shipped sink ++ new /\
    ideal_entries opts (dn ++ more) = ideal_entries opts dn ++ new /\
    (res = Idle \/ exists n, res = RBytes n).
Proof.
  intros ([rest Hd] & Hst & Hp & Hpart & Hfit) Hserve Hfull Hrun.
  destruct (content_complete dn) as (a & Ha & _). set (q := pending dn) in *.
  assert (Hlen : len c = start + len dn + len rest).
  { apply (f_equal len) in Hd. rewrite len_app in Hd. revert Hd Hst. len_lia. }
  assert (Hla : len dn = len a + len q) by (rewrite Ha at 1; by rewrite len_app).
  assert (Hdrop : drop (N.to_nat (start + len a)) c = q ++ rest).
  { rewrite N2Nat.inj_add, <- drop_drop, Hd, Ha, <- app_assoc. apply drop_len_app. }
  assert (Hqn : pending q = q) by (apply pending_none, pending_no_nl).
  apply (check_and_read_synced os opts (shipped sink) (start + len a) c) in Hrun; [|exists q, rest|done|].
  - destruct Hrun as ((dn' & rest' & Hd' & Hp' & _ & Hpart' & Hfit' & Hsh) & Hmono & Hres).
    assert (Hq : exists more, dn' = q ++ more).
    { assert (Hl : (length q <= length dn')%nat) by (revert Hp Hp' Hmono Hla; unfold len; lia).
      exists (drop (length q) dn'). rewrite Hdrop in Hd'. apply (f_equal (take (length q))) in Hd'.
      rewrite take_app_length, take_app_le in Hd' by done. rewrite Hd' at 1. by rewrite take_drop. }
    destruct Hq as [more ->]. exists more, (ideal_entries opts (q ++ more)).
    destruct (ideal_app opts dn more) as [Hi Hpe]. fold q in Hi, Hpe.
    split_and!; [|done|done|].
    + split_and!; [|done|rewrite len_app in *; lia|by rewrite Hpe|].
      * exists rest'. rewrite Hd. rewrite Hdrop, <- app_assoc in Hd'. apply (inj (q ++.)) in Hd'.
        by rewrite Hd', app_assoc.
      * unfold fits in *. by rewrite Hpe.
    + rewrite Hres. case_if; [right; by eexists|by left].
  - split_and!; [done|lia|lia|by rewrite Hqn|unfold fits in *; by rewrite Hqn|].
    replace (ideal_entries opts q) with (@nil LogEntry); [by rewrite app_nil_r|].
    symmetry. apply ideal_none, pending_no_nl.
  - rewrite Hdrop. destruct (ideal_app opts dn rest) as [_ Hpe]. fold q in Hpe.
    unfold fits in *. by rewrite <- Hpe, <- Hd.
Qed.

(** What a stop ships of an unterminated line: nothing, or the line as it is. *)
Definition tail_of (part : bytes) (tail : list LogEntry) : Prop :=
  tail = [] \/ part <> [] /\ tail = [mkLogEntry Info (trim part) None None None].

(** The entries shipped of a segment: its complete lines, then at most one entry
    for the unterminated line it ends in. *)
Definition line_entries opts (es : list LogEntry) (seg : bytes) : Prop :=
  exists tail, es = ideal_entries opts seg ++ tail /\ tail_of (pending seg) tail.

(** * Modes of reading *)

Definition flush_one opts (ml : option MultilineOpts) t sink : TailedFile * S :=
  match ml with Some m => flush_final t sink opts m | None => flush_partial t sink end.

(** What the table of files relies on in a mode of reading, file by file. While
    the tailer runs, the entry [t] of a file with content [c] that was resumed at
    [start] has moved its offset past [dn] and shipped [es] ([fm_at]); during a
    stop the same holds of entries some of which were flushed ([fm_done]); then
    [es] are the entries of [dn] ([fm_ships]). *)
Class FileMode opts (ml : option MultilineOpts) := {
  fm_at : bytes -> N -> bytes -> list LogEntry -> TailedFile -> Prop;
  fm_done : bytes -> N -> bytes -> list LogEntry -> TailedFile -> Prop;
  fm_ships : list LogEntry -> bytes -> Prop;
  fm_start : forall c start p fid, start <= len c -> fm_at c start [] [] (mkTailedFile p start fid [] 0 None false None);
  fm_grow : forall c d start dn es t, fm_at c start dn es t -> fm_at (c ++ d) start dn es t;
  fm_poll : forall os c start dn es t sink now res t' sink',
    fm_at c start dn es t -> serves os t c -> fits (drop (N.to_nat start) c) ->
    check_and_read os t sink opts ml now = (res, t', sink') ->
    exists more new, shipped sink' = shipped sink ++ new /\ fm_at c start (dn ++ more) (es ++ new) t' /\
      (res = Idle \/ exists n, res = RBytes n);
  fm_expire : forall m c start dn es t sink now1 now2 left t' sink',
    ml = Some m -> fm_at c start dn es t -> flush_if_expired t sink opts m now1 now2 = (left, t', sink') ->
    exists more new, shipped sink' = shipped sink ++ new /\ fm_at c start (dn ++ more) (es ++ new) t';
  fm_stop : forall c start dn es t, fm_at c start dn es t -> fm_done c start dn es t;
  fm_flush : forall c start dn es t sink t' sink',
    fm_done c start dn es t -> flush_one opts ml t sink = (t', sink') ->
    exists more new, shipped sink' = shipped sink ++ new /\ fm_done c start (dn ++ more) (es ++ new) t';
  fm_pos : forall c start dn es t, fm_done c start dn es t ->
    (exists rest, drop (N.to_nat start) c = dn ++ rest) /\ start <= len c /\ pos t = start + len dn /\ fm_ships es dn;
}.

(** Single-line mode. *)
Definition line_at_stop opts (c : bytes) (start : N) (dn : bytes) (es : list LogEntry) t : Prop :=
  (exists rest, drop (N.to_nat start) c = dn ++ rest) /\ start <= len c /\ pos t = start + len dn /\
  exists tail, es = ideal_entries opts dn ++ tail /\
    (partial t = pending dn /\ tail = [] \/ partial t = [] /\ tail_of (pending dn) tail).

Lemma flush_partial_done opts c start dn es t sink t' sink' :
  line_at_stop opts c start dn es t -> flush_partial t sink = (t', sink') ->
  exists new, shipped sink' = shipped sink ++ new /\ line_at_stop opts c start dn (es ++ new) t'.
Proof.
  intros (Hd & Hs & Hp & tail & Ho & Hcase) Ef.
  assert (Hnew : exists new, t' = set_partial [] t /\ shipped sink' = shipped sink ++ new /\
    (partial t = [] /\ new = [] \/ partial t <> [] /\ tail_of (partial t) new)).
  { destruct (partial t) as [|x p] eqn:Ep.
    - unfold flush_partial in Ef. rewrite Ep in Ef. injection Ef as <- <-. exists []. rewrite app_nil_r.
      split_and!; [by destruct t; cbn in *; subst|done|by left].
    - apply flush_partial_spec in Ef as (-> & new & Hn & Hc). rewrite Ep in Hc. exists new.
      split_and!; [done|done|]. right. split; [done|]. unfold tail_of. naive_solver. }
  destruct Hnew as (new & -> & Hn & Hc). exists new. split; [done|]. split_and!; [done..|].
  exists (tail ++ new). rewrite Ho, app_assoc. split; [done|]. right. split; [done|].
  destruct Hc as [[He ->]|[Hne Hto]]; destruct Hcase as [[Hq ->]|[Hq Hto']].
  - cbn. by left.
  - by rewrite app_nil_r.
  - by rewrite <- Hq.
  - by rewrite Hq in Hne.
Qed.

#[global] Program Instance line_mode opts : FileMode opts None := {|
  fm_at c start dn es t := file_at c start dn t /\ es = ideal_entries opts dn;
  fm_done := line_at_stop opts;
  fm_ships := line_entries opts;
|}.
Next Obligation.
  intros opts c start p fid Hs. split; [|done]. split_and!; [by exists (drop (N.to_nat start) c)|done|cbn; rewrite len_nil; lia|done|by split].
Qed.
Next Obligation. intros opts c d start dn es t [Hat ->]. split; [by apply file_at_grow|done]. Qed.
Next Obligation.
  intros opts os c start dn es t sink now res t' sink' [Hat ->] Hserve Hfit Hrun.
  destruct (check_and_read_appends _ _ _ _ _ _ _ _ _ _ _ Hat Hserve Hfit Hrun) as (more & new & Hat' & Hnew & Hi & Hres).
  exists more, new. by rewrite Hi.
Qed.
Next Obligation. done. Qed.
Next Obligation.
  intros opts c start dn es t [(Hd & Hs & Hp & Hpart & _) ->]. split_and!; [done..|].
  exists []. rewrite app_nil_r. split; [done|by left].
Qed.
Next Obligation.
  intros opts c start dn es t sink t' sink' Hdone Hf. destruct (flush_partial_done _ _ _ _ _ _ _ _ _ Hdone Hf) as (new & Hn & Hd').
  exists [], new. by rewrite app_nil_r.
Qed.
Next Obligation.
  intros opts c start dn es t (Hd & Hs & Hp & tail & Ho & Hcase). split_and!; [done..|]. exists tail. split; [done|].
  destruct Hcase as [[_ ->]|[_ ?]]; [by left|done].
Qed.

(** * The table *)

(** What each tracked file holds, by identity; files are only appended to. *)
Notation world := (FileId -> bytes).

Definition grows (w w' : world) : Prop := forall fid, exists d, w' fid = w fid ++ d.

#[global] Instance grows_preorder : PreOrder grows.
Proof.
  split.
  - intros w fid. exists []. by rewrite app_nil_r.
  - intros w1 w2 w3 Hg1 Hg2 fid. destruct (Hg1 fid) as [d1 E1], (Hg2 fid) as [d2 E2].
    exists (d1 ++ d2). by rewrite E2, E1, app_assoc.
Qed.

(** What was consumed only gets more. *)
Definition further (dn dn' : FileId -> bytes) : Prop := forall fid, len (dn fid) <= len (dn' fid).

#[global] Instance further_preorder : PreOrder further.
Proof. split; [intros d fid; lia|]. intros d1 d2 d3 H12 H23 fid. specialize (H12 fid). specialize (H23 fid). lia. Qed.

Lemma further_insert dn fid more : further dn (<[fid := dn fid ++ more]> dn).
Proof.
  intros fid'. destruct (decide (fid = fid')) as [<-|Hne].
  - rewrite fn_lookup_insert, len_app. lia.
  - rewrite fn_lookup_insert_ne by done. lia.
Qed.

Lemma flush_one_same opts ml t sink : same_file t (flush_one opts ml t sink).1.
Proof. unfold flush_one. destruct ml as [m|]; [apply flush_final_same|apply flush_partial_same]. Qed.

Lemma flush_expired_records_cases ids fs sink opts ml now1 now2 :
  flush_expired_records ids fs sink opts ml now1 now2 = (None, fs, sink) \/
  exists m, ml = Some m /\ flush_expired_records ids fs sink opts ml now1 now2 = flush_expired ids fs sink opts m now1 now2 None.
Proof. destruct ml as [m|]; [right; by exists m|by left]. Qed.

Section table.
Context {opts : FileParseOpts} {ml : option MultilineOpts} (fm : FileMode opts ml).
Context (paths : gmap FileId bytes) (start : FileId -> N).

(** The system serves every tracked file as it is in [w], each with a last line
    that fits the buffer. *)
Definition serves_all os (w : world) : Prop :=
  forall t, paths !! id t = Some (path t) ->
    serves os t (w (id t)) /\ fits (drop (N.to_nat (start (id t))) (w (id t))).

(** The table holds exactly the tracked files, none of them rotated or failing. *)
Definition tracked tl : Prop :=
  (forall fid, is_Some (files tl !! fid) <-> is_Some (paths !! fid)) /\
  (forall fid t, files tl !! fid = Some t ->
     id t = fid /\ paths !! fid = Some (path t) /\
     retained_fd t = None /\ skip_utf16 t = false /\ open_failures t = 0) /\
  (forall fid p, paths !! fid = Some p -> path_index tl !! p = Some fid).

(** Every entry is of a tracked file. *)
Definition of_tracked (tr : trace) : Prop := Forall (fun x => is_Some (paths !! x.1)) tr.

Definition table_at (at_ : bytes -> N -> bytes -> list LogEntry -> TailedFile -> Prop)
    (base : list LogEntry) (w : world) tl sink (dn : FileId -> bytes) (tr : trace) : Prop :=
  tracked tl /\ (shipped sink = base ++ tr.*2 /\ of_tracked tr) /\
  forall fid t, files tl !! fid = Some t -> at_ (w fid) (start fid) (dn fid) (of_file fid tr) t.

(** While the tailer runs, and during a stop. *)
Notation table_synced := (table_at (fm_at (FileMode := fm))).
Notation table_flushed := (table_at (fm_done (FileMode := fm))).

Lemma table_synced_grow base w w' tl sink dn tr :
  grows w w' -> table_synced base w tl sink dn tr -> table_synced base w' tl sink dn tr.
Proof.
  intros Hg (Htr & Hsh & Hf). split; [done|]. split; [done|]. intros fid t Ht.
  destruct (Hg fid) as [d ->]. by apply fm_grow, Hf.
Qed.

Lemma table_synced_flushed base w tl sink dn tr :
  table_synced base w tl sink dn tr -> table_flushed base w tl sink dn tr.
Proof. intros (Htr & Hsh & Hf). split; [done|]. split; [done|]. intros fid t Ht. by apply fm_stop, Hf. Qed.

Lemma tracked_insert tl fid t t' :
  tracked tl -> files tl !! fid = Some t -> same_file t t' -> tracked (mkTail (<[fid := t']> (files tl)) (path_index tl)).
Proof.
  intros (Hdom & Hall & Hidx) Ht ((Hp & Hi & Hr) & Hs & Ho). split_and!; [|intros fid' u|done].
  - intros fid'. cbn [files]. destruct (decide (fid = fid')) as [<-|Hne]; [|by rewrite lookup_insert_ne].
    rewrite lookup_insert_eq, <- Hdom, Ht. split; by eexists.
  - cbn [files]. destruct (decide (fid = fid')) as [<-|Hne]; [|rewrite lookup_insert_ne by done; apply Hall].
    rewrite lookup_insert_eq. intros [= <-]. rewrite Hp, Hi, Hr, Hs, Ho. by apply Hall.
Qed.

(** Replacing the entry of one file, which consumed [more] and shipped [new]. *)
Lemma table_at_insert at_ base w tl sink sink' dn tr fid t t' more new :
  table_at at_ base w tl sink dn tr -> files tl !! fid = Some t -> same_file t t' ->
  shipped sink' = shipped sink ++ new -> at_ (w fid) (start fid) (dn fid ++ more) (of_file fid tr ++ new) t' ->
  table_at at_ base w (mkTail (<[fid := t']> (files tl)) (path_index tl)) sink'
    (<[fid := dn fid ++ more]> dn) (tr ++ tagged fid new).
Proof.
  intros (Htr & [Hsh Hof] & Hf) Ht Hsame Hnew Hat. split; [|split; [split|]].
  - by eapply tracked_insert.
  - by rewrite Hnew, Hsh, fmap_app, tagged_entries, app_assoc.
  - apply Forall_app. split; [done|]. apply Forall_fmap, Forall_true. intros e. apply (proj1 Htr). by eexists.
  - intros fid' u. cbn [files]. rewrite of_file_app. destruct (decide (fid = fid')) as [<-|Hne].
    + rewrite lookup_insert_eq, fn_lookup_insert, of_file_tagged. by intros [= <-].
    + rewrite lookup_insert_ne, fn_lookup_insert_ne, of_file_tagged_ne, app_nil_r by done. apply Hf.
Qed.

Lemma poll_file_synced os base w tl sink dn tr now fid :
  table_synced base w tl sink dn tr -> serves_all os w ->
  let '(n, tl', sink') := poll_file os tl sink opts ml now fid in
  exists dn' tr', table_synced base w tl' sink' dn' tr' /\ further dn dn'.
Proof.
  intros Hsy Hos. unfold poll_file. destruct (files tl !! fid) as [t|] eqn:Ht; [|by exists dn, tr].
  assert (Hsy' := Hsy). destruct Hsy' as (Htr & Hsh & Hf).
  destruct (proj1 (proj2 Htr) fid t Ht) as (Hid & Hpath & Hret & Hskip & Hfail). rewrite Hskip, Hret.
  destruct (Hos t) as [Hserve Hfit]; [by rewrite Hid|]. rewrite Hid in Hserve, Hfit.
  assert (Hsame := check_and_read_same os t sink opts ml now).
  destruct (check_and_read os t sink opts ml now) as [[res t'] sink'] eqn:Hrun. cbn [fst snd] in Hsame.
  destruct (fm_poll _ _ _ _ _ _ _ _ _ _ _ (Hf fid t Ht) Hserve Hfit Hrun) as (more & new & Hnew & Hat & Hres).
  assert (Hins := table_at_insert _ base w tl sink sink' dn tr fid t t' more new Hsy Ht Hsame Hnew Hat).
  assert (Hfur := further_insert dn fid more).
  destruct Hres as [->|[n ->]]; [by eexists _, _|].
  replace (set_open_failures 0 t') with t' by (destruct Hsame as (_ & _ & Ho), t', t; cbn in *; by subst).
  by eexists _, _.
Qed.

Lemma poll_all_synced os base w ids tl sink dn tr now :
  table_synced base w tl sink dn tr -> serves_all os w ->
  let '(n, tl', sink') := poll_all os ids tl sink opts ml now in
  exists dn' tr', table_synced base w tl' sink' dn' tr' /\ further dn dn'.
Proof.
  intros Hsy Hos. revert tl sink dn tr Hsy. induction ids as [|fid ids IH]; intros tl sink dn tr Hsy; cbn [poll_all].
  - by exists dn, tr.
  - assert (Hp := poll_file_synced os base w tl sink dn tr now fid Hsy Hos).
    destruct (poll_file os tl sink opts ml now fid) as [[n tl1] s1]. destruct Hp as (dn1 & tr1 & Hsy1 & Hf1).
    specialize (IH tl1 s1 dn1 tr1 Hsy1). destruct (poll_all _ _ _ _ _ _ _) as [[m tl2] s2].
    destruct IH as (dn2 & tr2 & Hsy2 & Hf2). exists dn2, tr2. split; [done|]. by etrans.
Qed.

(** Records whose time is up are flushed after a poll. *)
Lemma flush_expired_synced m base w ids fs idx sink dn tr now1 now2 near :
  ml = Some m -> table_synced base w (mkTail fs idx) sink dn tr ->
  let '(_, fs', sink') := flush_expired ids fs sink opts m now1 now2 near in
  exists dn' tr', table_synced base w (mkTail fs' idx) sink' dn' tr' /\ further dn dn'.
Proof.
  intros Hml. revert fs sink dn tr near. induction ids as [|fid ids IH]; intros fs sink dn tr near Hsy; cbn [flush_expired].
  - by exists dn, tr.
  - destruct (fs !! fid) as [t|] eqn:Ht; [|by eapply IH].
    assert (Hsame := flush_if_expired_same t sink opts m now1 now2).
    destruct (flush_if_expired t sink opts m now1 now2) as [[left t'] sink'] eqn:E. cbn [fst snd] in Hsame.
    destruct (fm_expire m _ _ _ _ _ _ _ _ _ _ _ Hml (proj2 (proj2 Hsy) fid t Ht) E) as (more & new & Hnew & Hat).
    assert (Hins := table_at_insert _ base w (mkTail fs idx) sink sink' dn tr fid t t' more new Hsy Ht Hsame Hnew Hat).
    cbv zeta. specialize (IH _ _ _ _ (match left with Some r => Some (match near with Some n => N.min n r | None => r end) | None => near end) Hins).
    cbn [files path_index] in IH. destruct (flush_expired _ _ _ _ _ _ _ _) as [[rm fs2] s2].
    destruct IH as (dn2 & tr2 & Hsy2 & Hf2). exists dn2, tr2. split; [done|]. etrans; [apply further_insert|done].
Qed.

Lemma flush_expired_records_synced base w ids fs idx sink dn tr now1 now2 :
  table_synced base w (mkTail fs idx) sink dn tr ->
  let '(_, fs', sink') := flush_expired_records ids fs sink opts ml now1 now2 in
  exists dn' tr', table_synced base w (mkTail fs' idx) sink' dn' tr' /\ further dn dn'.
Proof.
  intros Hsy. destruct (flush_expired_records_cases ids fs sink opts ml now1 now2) as [->|(m & Hm & ->)]; [by exists dn, tr|].
  by eapply flush_expired_synced.
Qed.

(** A poll of the whole table with the flush after it. *)
Lemma poll_round_synced os base w ids ids' tl sink dn tr now :
  table_synced base w tl sink dn tr -> serves_all os w ->
  let '(_, tl1, sink1) := poll_all os ids tl sink opts ml now in
  let '(_, fs2, sink2) := flush_expired_records ids' (files tl1) sink1 opts ml now now in
  exists dn' tr', table_synced base w (mkTail fs2 (path_index tl1)) sink2 dn' tr' /\ further dn dn'.
Proof.
  intros Hsy Hos. assert (Hp := poll_all_synced os base w ids tl sink dn tr now Hsy Hos).
  destruct (poll_all _ _ _ _ _ _ _) as [[n tl1] s1]. destruct Hp as (dn1 & tr1 & Hsy1 & Hf1).
  assert (He := flush_expired_records_synced base w ids' (files tl1) (path_index tl1) s1 dn1 tr1 now now
    ltac:(by destruct tl1)).
  destruct (flush_expired_records _ _ _ _ _ _ _) as [[pd fs2] s2]. destruct He as (dn2 & tr2 & Hsy2 & Hf2).
  exists dn2, tr2. split; [done|]. by etrans.
Qed.

(** * The event loop *)

Context (patterns : list bytes).

(** The events of a lifetime before its stop: polls of the files as they are
    then, rescans that find nothing but tracked files, saves. *)
Inductive events_ok : world -> list Event -> world -> Prop :=
| events_nil w : events_ok w [] w
| events_poll w w1 w2 os ids ids' now order io evs :
    grows w w1 -> serves_all os w1 -> events_ok w1 evs w2 ->
    events_ok w (EvPoll os ids ids' now order io :: evs) w2
| events_glob w w2 os evs :
    (forall p, p ∈ resolve_globs os patterns -> exists fid, paths !! fid = Some p) -> events_ok w evs w2 ->
    events_ok w (EvGlob os :: evs) w2
| events_save w w2 now order io evs : events_ok w evs w2 -> events_ok w (EvSave now order io :: evs) w2.

Lemma events_ok_grows w evs w' : events_ok w evs w' -> grows w w'.
Proof. induction 1; [done| |done|done]. by etrans. Qed.

Lemma discover_new_tracked os tl :
  tracked tl -> (forall p, p ∈ resolve_globs os patterns -> exists fid, paths !! fid = Some p) ->
  discover_new os patterns tl = tl.
Proof.
  intros (_ & _ & Hidx) Hg. unfold discover_new. induction (resolve_globs os patterns) as [|p ps IH]; [done|].
  cbn [fold_left]. destruct (Hg p) as [fid Hp]; [by left|]. rewrite (Hidx fid p Hp). apply IH.
  intros q Hq. apply Hg. by right.
Qed.

Lemma evict_stale_tracked tl ids : tracked tl -> evict_stale tl ids = tl.
Proof.
  intros (_ & Hall & _). unfold evict_stale. induction ids as [|fid ids IH]; [done|]. cbn [fold_left].
  replace (evict_one tl fid) with tl; [done|]. unfold evict_one. destruct (files tl !! fid) as [t|] eqn:Ht; [|done].
  destruct (Hall fid t Ht) as (_ & _ & _ & _ & Hf). unfold removable. by rewrite Hf.
Qed.

(** What a poll event does to a tailer that runs. *)
Lemma poll_event os ids ids' now order io st base w dn tr :
  tl_stopped st = false -> table_synced base w (tl_tail st) (tl_sink st) dn tr -> serves_all os w ->
  let st' := tail_step patterns opts ml st (EvPoll os ids ids' now order io) in
  tl_stopped st' = false /\
  (exists dn' tr', table_synced base w (tl_tail st') (tl_sink st') dn' tr' /\ further dn dn') /\
  (tl_disk st' = tl_disk st \/ tl_disk st' = save_offsets io (values_in order (files (tl_tail st'))) (tl_disk st)).
Proof.
  intros Hns Hsy Hos. cbv zeta. unfold tail_step. rewrite Hns.
  assert (Hp := poll_round_synced os base w ids ids' (tl_tail st) (tl_sink st) dn tr now Hsy Hos).
  destruct (poll_all _ _ _ _ _ _ _) as [[n tl1] s1]. destruct (flush_expired_records _ _ _ _ _ _ _) as [[pd fs2] s2].
  destruct Hp as (dn2 & tr2 & Hsy2 & Hf2).
  assert (Hev : evict_stale (mkTail fs2 (path_index tl1)) ids' = mkTail fs2 (path_index tl1)) by apply evict_stale_tracked, Hsy2.
  rewrite Hev. destruct (0 <? n); [destruct (_ <=? _)|]; cbn [tl_stopped tl_tail tl_sink tl_disk files];
    (split_and!; [done|by exists dn2, tr2|by auto]).
Qed.

Definition tailer_synced (base : list LogEntry) (w : world) (st : Tailer) : Prop :=
  tl_stopped st = false /\ exists dn tr, table_synced base w (tl_tail st) (tl_sink st) dn tr.

Lemma tail_run_synced base w evs w' st :
  events_ok w evs w' -> tailer_synced base w st ->
  tailer_synced base w' (fold_left (tail_step patterns opts ml) evs st).
Proof.
  intros He. revert st. induction He as [|w w1 w2 os ids ids' now order io evs Hg Hos He IH|w w2 os evs Hpat He IH
    |w w2 now order io evs He IH]; intros st Hst; [done|cbn [fold_left]; apply IH..];
    destruct Hst as (Hns & dn & tr & Hsy).
  - destruct (poll_event os ids ids' now order io st base w1 dn tr Hns (table_synced_grow _ _ _ _ _ _ _ Hg Hsy) Hos)
      as (Hns' & (dn' & tr' & Hsy' & _) & _). split; [done|]. by exists dn', tr'.
  - unfold tail_step. rewrite Hns. split; [done|]. exists dn, tr. cbn [tl_tail tl_sink].
    by rewrite discover_new_tracked by (done || apply Hsy).
  - unfold tail_step. rewrite Hns. split; [done|]. by exists dn, tr.
Qed.

(** * The stop *)

Lemma flush_all_flushed base w ids fs idx sink dn tr :
  table_flushed base w (mkTail fs idx) sink dn tr ->
  let '(fs', sink') := flush_all ids fs sink opts ml in
  exists dn' tr', table_flushed base w (mkTail fs' idx) sink' dn' tr'.
Proof.
  revert fs sink dn tr. induction ids as [|fid ids IH]; intros fs sink dn tr Hfl; cbn [flush_all]; [by exists dn, tr|].
  destruct (fs !! fid) as [t|] eqn:Ht; [|by eapply IH]. fold (flush_one opts ml t sink).
  assert (Hsame := flush_one_same opts ml t sink). destruct (flush_one opts ml t sink) as [t' sink'] eqn:E.
  destruct (fm_flush _ _ _ _ _ _ _ _ (proj2 (proj2 Hfl) fid t Ht) E) as (more & new & Hnew & Hat).
  assert (Hins := table_at_insert _ base w (mkTail fs idx) sink sink' dn tr fid t t' more new Hfl Ht Hsame Hnew Hat).
  by eapply IH.
Qed.
End table.

(** * The start *)

(** Where a file is resumed: at its checkpoint, else at its end. *)
Definition resume (saved : saved_map) (p : bytes) (fid : FileId) (c : bytes) : N :=
  match checkpoint_of saved p fid with Some s => N.min (s_pos s) (len c) | None => len c end.

Section lifetimes.
Context (opts : FileParseOpts) (ml : option MultilineOpts) (fm : FileMode opts ml).
Context (paths : gmap FileId bytes) (patterns : list bytes).

(** Paths are told apart by the text the state file has for them, and it can
    hold them. *)
Hypothesis paths_inj : forall fid fid' p p', paths !! fid = Some p -> paths !! fid' = Some p' ->
  from_utf8_lossy p = from_utf8_lossy p' -> fid = fid'.
Hypothesis paths_storable : forall fid p, paths !! fid = Some p ->
  tab ∉ from_utf8_lossy p /\ nl ∉ from_utf8_lossy p /\ dev fid <= u64_max /\ ino fid <= u64_max.

(** The patterns find exactly the tracked files, as they are in [w]; those
    without a checkpoint are recent. *)
Definition discovers os (saved : saved_map) (w : FileId -> bytes) : Prop :=
  (forall p, p ∈ resolve_globs os patterns <-> exists fid, paths !! fid = Some p) /\
  forall fid p, paths !! fid = Some p ->
    exists m, os_metadata os p = Some m /\ md_id m = fid /\ md_len m = len (w fid) /\
      file_is_utf16 os p = false /\ (checkpoint_of saved p fid = None -> too_old os m = false).

Definition start_of (saved : saved_map) (w : FileId -> bytes) (fid : FileId) : N :=
  match paths !! fid with Some p => resume saved p fid (w fid) | None => 0 end.

Definition started (saved : saved_map) (w : FileId -> bytes) tl : Prop :=
  forall fid t, files tl !! fid = Some t ->
    paths !! fid = Some (path t) /\
    t = mkTailedFile (path t) (start_of saved w fid) fid [] 0 None false None /\
    path_index tl !! path t = Some fid.

Lemma register_started os saved w tl fid p :
  discovers os saved w -> started saved w tl -> paths !! fid = Some p ->
  let tl' := register_file os tl p saved None in
  started saved w tl' /\ is_Some (files tl' !! fid) /\
  (forall fid', is_Some (files tl !! fid') -> is_Some (files tl' !! fid')).
Proof.
  intros [_ Hdis] Hst Hp. destruct (Hdis fid p Hp) as (m & Hm & Hid & Hlen & Hutf & Hold). cbv zeta.
  unfold register_file, file_id_of. rewrite Hm, Hid, Hutf. destruct (files tl !! fid) as [t|] eqn:Ht; [naive_solver|].
  replace (_ && _ && _) with false.
  2: { symmetry. cbn [andb]. destruct (checkpoint_of saved p fid); [done|]. cbn [andb]. by apply Hold. }
  split_and!; cbn [files path_index].
  - intros fid' u. cbn [files path_index]. destruct (decide (fid = fid')) as [<-|Hne].
    + rewrite lookup_insert_eq. intros [= <-]. cbn [path]. rewrite lookup_insert_eq. split_and!; [done| |done].
      f_equal. unfold start_of, resume. by rewrite Hp, Hlen.
    + rewrite lookup_insert_ne by done. intros Hu. destruct (Hst fid' u Hu) as (Hp' & Hu' & Hi').
      split_and!; [done..|]. rewrite lookup_insert_ne; [done|]. intros Heq. apply Hne.
      by eapply (paths_inj fid fid' p (path u)); [..|rewrite Heq].
  - rewrite lookup_insert_eq. by eexists.
  - intros fid' Hs. destruct (decide (fid = fid')) as [<-|Hne]; [rewrite lookup_insert_eq; by eexists|].
    by rewrite lookup_insert_ne.
Qed.

Lemma initial_discovery_started os saved w :
  discovers os saved w ->
  tracked paths (initial_discovery os patterns saved) /\ started saved w (initial_discovery os patterns saved).
Proof.
  intros Hdis. unfold initial_discovery.
  assert (Hgo : forall ps tl, (forall p, p ∈ ps -> exists fid, paths !! fid = Some p) -> started saved w tl ->
    let tl' := fold_left (fun tl p => register_file os tl p saved None) ps tl in
    started saved w tl' /\ (forall fid, is_Some (files tl !! fid) -> is_Some (files tl' !! fid)) /\
    (forall fid p, paths !! fid = Some p -> p ∈ ps -> is_Some (files tl' !! fid))).
  { induction ps as [|p ps IH]; intros tl Hps Hst; cbn [fold_left].
    - split_and!; [done|done|]. intros fid p _ Hp. by apply not_elem_of_nil in Hp.
    - destruct (Hps p) as [fid Hfid]; [by left|].
      destruct (register_started os saved w tl fid p Hdis Hst Hfid) as (Hst1 & Hin & Hmono).
      destruct (IH (register_file os tl p saved None)) as (Hst2 & Hmono2 & Hall); [|done|].
      { intros q Hq. apply Hps. by right. }
      split_and!; [done|by auto|]. intros fid' p' Hp' [->|Hin']%elem_of_cons; [|by eapply Hall].
      apply Hmono2. by rewrite (paths_inj fid' fid p p Hp' Hfid eq_refl). }
  destruct (Hgo (resolve_globs os patterns) (mkTail ∅ ∅)) as (Hst & _ & Hall).
  - intros p. apply Hdis.
  - intros fid t. cbn [files]. by rewrite lookup_empty.
  - split; [|done]. split_and!.
    + intros fid. split; [intros [t Ht]; destruct (Hst fid t Ht); by eexists|].
      intros [p Hp]. apply (Hall fid p Hp). apply Hdis. by exists fid.
    + intros fid t Ht. destruct (Hst fid t Ht) as (Hp & Hu & _). rewrite Hu. cbn. split_and!; done.
    + intros fid p Hp. destruct (Hall fid p Hp) as [t Ht]; [apply Hdis; by exists fid|].
      destruct (Hst fid t Ht) as (Hp' & _ & Hi). congruence.
Qed.

Lemma tail_start_synced os saved w sink disk now :
  saved = load_offsets disk -> discovers os saved w ->
  tailer_synced fm paths (start_of saved w) (shipped sink) w (tail_start os patterns sink disk now).
Proof.
  intros -> Hdis. destruct (initial_discovery_started _ _ _ Hdis) as [Htr Hst].
  split; [done|]. exists (fun _ => []), []. split; [done|]. split; [split; [by rewrite app_nil_r|constructor]|].
  intros fid t Ht. destruct (Hst fid t Ht) as (Hp & -> & _). apply fm_start.
  unfold start_of. rewrite Hp. unfold resume. destruct (checkpoint_of _ _ _); lia.
Qed.

(** * The state file *)

(** The write of the state file is complete; [order] is an iteration of the
    whole table. *)
Definition saves (io : SaveIo) (order : list FileId) (fs : gmap FileId TailedFile) : Prop :=
  create_ok io = true /\ rename_ok io = true /\ (length (offsets_text (values_in order fs)) <= written io)%nat /\
  NoDup order /\ (forall fid p, paths !! fid = Some p -> fid ∈ order).

Lemma values_in_elem order (fs : gmap FileId TailedFile) t :
  t ∈ values_in order fs <-> exists fid, fid ∈ order /\ fs !! fid = Some t.
Proof. unfold values_in. rewrite list_elem_of_omap. naive_solver. Qed.

Lemma values_in_paths order tl :
  tracked paths tl -> NoDup order ->
  NoDup (map (fun t => from_utf8_lossy (path t)) (values_in order (files tl))).
Proof.
  intros (_ & Hall & _). induction 1 as [|fid order Hn Hnd IH]; [constructor|]. unfold values_in in *. cbn [omap list_omap].
  destruct (files tl !! fid) as [t|] eqn:Ht; [|done]. cbn [map]. constructor; [|done].
  intros (u & Hu & Hin)%list_elem_of_fmap. apply values_in_elem in Hin as (fid' & Hin & Hu').
  destruct (Hall fid t Ht) as (_ & Hp & _), (Hall fid' u Hu') as (_ & Hp' & _).
  by rewrite (paths_inj fid fid' _ _ Hp Hp' Hu) in Hn.
Qed.

(** The next start finds every file at the position it was left. *)
Lemma save_offsets_checkpoint io order tl disk fid t :
  tracked paths tl -> saves io order (files tl) ->
  (forall fid t, files tl !! fid = Some t -> pos t <= u64_max) -> files tl !! fid = Some t ->
  checkpoint_of (load_offsets (save_offsets io (values_in order (files tl)) disk)) (path t) fid
  = Some (mkSavedOffset (pos t) (dev fid) (ino fid)).
Proof.
  intros Htr (Hc & Hr & Hw & Hnd & Hall) Hpos Ht. destruct (proj1 (proj2 Htr) fid t Ht) as (Hid & Hp & _).
  unfold save_offsets. rewrite Hc, Hr. cbn [negb]. rewrite take_ge by done. unfold checkpoint_of.
  rewrite load_offsets_lookup.
  - unfold saved_of. cbn [s_dev s_ino]. by rewrite Hid, !N.eqb_refl.
  - apply Forall_forall. intros u (fid' & _ & Hu)%values_in_elem.
    destruct (proj1 (proj2 Htr) fid' u Hu) as (Hid' & Hp' & _).
    destruct (paths_storable fid' _ Hp') as (H1' & H2' & H3' & H4'). unfold storable. rewrite Hid'.
    split_and!; try done. by eapply Hpos.
  - by apply values_in_paths.
  - apply values_in_elem. exists fid. split; [|done]. by eapply Hall.
Qed.

(** * Lifetimes *)

(** The offset of a file in the table. *)
Definition reach_of (st : Tailer (S := S)) (fid : FileId) : N :=
  match files (tl_tail st) !! fid with Some t => pos t | None => 0 end.

(** A lifetime of the tailer, from its start to a graceful stop: a run of the
    agent between two reloads. Each has its own client of the SDK. *)
Record Lifetime := mkLifetime {
  lf_os : Os; lf_now : N; lf_sink : S; lf_events : list Event;
  lf_stop_os : Os; lf_ids : list FileId; lf_ids' : list FileId; lf_stop_now : N;
  lf_order : list FileId; lf_io : SaveIo;
}.

Definition stop_event (l : Lifetime) : Event :=
  EvCancel (lf_stop_os l) (lf_ids l) (lf_ids' l) (lf_stop_now l) (lf_order l) (lf_io l).

Definition lifetime (l : Lifetime) (disk : option bytes) : Tailer :=
  tail_files (lf_os l) patterns opts ml (lf_sink l) disk (lf_now l) (lf_events l ++ [stop_event l]).

(** The tailer when it is killed after its events, or just before the stop. *)
Definition cut_off (l : Lifetime) (disk : option bytes) : Tailer :=
  tail_files (lf_os l) patterns opts ml (lf_sink l) disk (lf_now l) (lf_events l).

(** The tailer as each lifetime ends, with the state file the lifetime has found,
    which is the one that the lifetime before has left. *)
Fixpoint lifetimes (ls : list Lifetime) (disk : option bytes) : list (option bytes * Tailer) :=
  match ls with
  | [] => []
  | l :: rest => let st := lifetime l disk in (disk, st) :: lifetimes rest (tl_disk st)
  end.

(** The files are appended to before, during and after a lifetime; the state
    file is written at its end. *)
Definition orderly_life (w : FileId -> bytes) (l : Lifetime) (disk : option bytes) (w' : FileId -> bytes) : Prop :=
  exists w1 w2, grows w w1 /\ discovers (lf_os l) (load_offsets disk) w1 /\
    events_ok paths (start_of (load_offsets disk) w1) patterns w1 (lf_events l) w2 /\ grows w2 w' /\
    serves_all paths (start_of (load_offsets disk) w1) (lf_stop_os l) w' /\
    saves (lf_io l) (lf_order l) (files (tl_tail (lifetime l disk))) /\
    forall fid, len (w' fid) <= u64_max.

Lemma lifetime_spec w l disk w' :
  orderly_life w l disk w' ->
  let st := lifetime l disk in
  exists w1 (dn : FileId -> bytes) (tr : trace), grows w w1 /\ grows w1 w' /\
    shipped (tl_sink st) = shipped (lf_sink l) ++ tr.*2 /\ of_tracked paths tr /\
    forall fid p, paths !! fid = Some p ->
      let from := resume (load_offsets disk) p fid (w1 fid) in
      (exists rest, drop (N.to_nat from) (w' fid) = dn fid ++ rest) /\ from <= len (w' fid) /\
      fm_ships (of_file fid tr) (dn fid) /\ reach_of st fid = from + len (dn fid) /\
      checkpoint_of (load_offsets (tl_disk st)) p fid = Some (mkSavedOffset (from + len (dn fid)) (dev fid) (ino fid)).
Proof.
  intros (w1 & w2 & Hg1 & Hdis & Hev & Hg2 & Hserve & Hsave & Hmax). cbv zeta.
  assert (Hsy := tail_start_synced _ _ _ (lf_sink l) disk (lf_now l) eq_refl Hdis).
  apply (tail_run_synced _ _ _ _ _ _ _ _ _ Hev) in Hsy.
  assert (Hg : grows w1 w') by (etrans; [by eapply events_ok_grows|done]).
  unfold lifetime, tail_files in *. rewrite fold_left_app in *. cbn [fold_left] in *.
  set (st := fold_left _ (lf_events l) _) in *. destruct Hsy as (Hns & dn & tr & Hsy).
  apply (table_synced_grow _ _ _ _ _ _ _ _ _ _ Hg2) in Hsy. unfold stop_event, tail_step in *. rewrite Hns in *.
  assert (Hp := poll_all_synced _ _ _ _ _ _ (lf_ids l) _ _ _ _ (lf_stop_now l) Hsy Hserve).
  destruct (poll_all _ _ _ _ _ _ _) as [[n tl1] s1]. destruct Hp as (dn1 & tr1 & Hsy1 & _).
  assert (Hfl := flush_all_flushed fm _ _ _ _ (lf_ids' l) (files tl1) (path_index tl1) s1 dn1 tr1
    ltac:(destruct tl1; by apply table_synced_flushed)).
  destruct (flush_all _ _ _ _ _) as [fs2 s2]. destruct Hfl as (dn2 & tr2 & Htr2 & [Hsh2 Hof2] & Hf2). cbn [tl_sink tl_disk tl_tail] in *.
  assert (Hbound : forall fid t, fs2 !! fid = Some t -> pos t <= u64_max).
  { intros fid t Ht. destruct (fm_pos _ _ _ _ _ (Hf2 fid t Ht)) as ([rest Hd] & Hs & -> & _). specialize (Hmax fid).
    apply (f_equal len) in Hd. rewrite len_app in Hd. revert Hd Hs Hmax. len_lia. }
  exists w1, dn2, tr2. split_and!; [done..|]. intros fid p Hp.
  destruct (proj2 (proj1 Htr2 fid)) as [t Ht]; [by eexists|]. cbn [files] in Ht.
  destruct (fm_pos _ _ _ _ _ (Hf2 fid t Ht)) as (Hd & Hs & Hpos & Hships).
  assert (Hpath : path t = p) by (destruct (proj1 (proj2 Htr2) fid t Ht) as (_ & Hpt & _); congruence).
  assert (Hfrom : start_of (load_offsets disk) w1 fid = resume (load_offsets disk) p fid (w1 fid))
    by (unfold start_of; by rewrite Hp).
  rewrite Hfrom in Hd, Hs, Hpos. split_and!; [done..| |]; rewrite <- Hpos.
  { unfold reach_of. cbn. by rewrite Ht. }
  assert (Hck := save_offsets_checkpoint (lf_io l) (lf_order l) (mkTail fs2 (path_index tl1)) (tl_disk st) fid t
    Htr2 Hsave Hbound Ht). by rewrite Hpath in Hck.
Qed.
End lifetimes.
End restart.
