(* ===== verification/DrainFacts.v ===== *)
(** The final drain of a stop: on a channel that has room for what it is given,
    a stop reads every file to its end, as long as fewer lines are left than one
    poll may read. *)
From stdpp Require Import functions.
From S2P Require Import Prelude Str StrFacts External Text Structured Sink Tailed TailedFacts Multiline MultilineFacts.
From S2P Require Import Watcher WatcherFacts OffsetFacts SessionFacts MlSessionFacts RestartFacts.
From Stdlib Require Import Strings.Byte.

(** The number of newlines in a text. *)
Definition newlines (s : bytes) : N := len (filter (fun b => b = nl) s).

Lemma newlines_app a b : newlines (a ++ b) = newlines a + newlines b.
Proof. unfold newlines. by rewrite list.filter_app, len_app. Qed.

Lemma newlines_line s : ends_with_nl s = true -> 1 <= newlines s.
Proof.
  intros He. destruct (decide (nl ∈ s)) as [Hin|Hn]; [|by rewrite ends_with_nl_not_elem in He].
  unfold newlines. assert (Hf : nl ∈ filter (fun b => b = nl) s) by (by apply list_elem_of_filter).
  destruct (filter _ s); [by apply not_elem_of_nil in Hf|]. rewrite len_cons. lia.
Qed.

Section drain.
Context `{SimdUtf8, Memchr, MemchrIter, SerdeJson, Regex, !SimdUtf8Ok, !MemchrOk}.
Context {S : Type} `{LogSink S, !LogSinkOk S}.
Implicit Types (t : TailedFile) (sink : S) (os : Os) (opts : FileParseOpts).

(** Calls of the sink, the entries without an answer marked. *)
Definition sink_calls (s : S) (cs : list (bool * LogEntry)) : S :=
  fold_left (fun (s : S) (c : bool * LogEntry) => if c.1 then sink_log s c.2 else (try_log_with_service s c.2).1) cs s.

(** The channel has room for [k] more entries, whatever they are. *)
Definition has_room (k : N) (s : S) : Prop := forall cs e, len cs < k -> (try_log_with_service (sink_calls s cs) e).2 = true.

Lemma has_room_le k k' s : has_room k s -> k' <= k -> has_room k' s.
Proof. intros Hr Hk cs e Hl. apply Hr. lia. Qed.

Lemma has_room_try k s e :
  has_room (k + 1) s -> (try_log_with_service s e).2 = true /\ has_room k (try_log_with_service s e).1.
Proof.
  intros Hr. split; [apply (Hr []); rewrite len_nil; lia|]. intros cs e' Hl. apply (Hr ((false, e) :: cs)). rewrite len_cons. lia.
Qed.

Lemma has_room_log k s e : has_room (k + 1) s -> has_room k (sink_log s e).
Proof. intros Hr cs e' Hl. apply (Hr ((true, e) :: cs)). rewrite len_cons. lia. Qed.

Lemma try_emit_room k body part sink opts :
  has_room (k + 1) sink -> (try_emit_line body part sink opts).1.1 = true /\ has_room k (try_emit_line body part sink opts).2.
Proof.
  intros Hr. unfold try_emit_line. case_if; [split; [done|]; eapply has_room_le; [done|lia]|].
  destruct (has_room_try k sink (classified_entry (classify_line
    (normalize_line (if is_empty part then lossy body else part ++ lossy body)) opts)) Hr) as [Ha Hr'].
  destruct (try_log_with_service _ _) as [s2 ok]. cbn [fst snd] in *. by subst ok.
Qed.

Lemma line_loop_room k fuel r t sink opts b n stop b' t' sink' :
  has_room (k + newlines (stream r)) sink -> line_loop fuel r t sink opts b n = Some (stop, b', t', sink') ->
  has_room k sink' /\ (n + newlines (stream r) < MAX_LINES_PER_POLL -> stop = StopEof).
Proof.
  revert r t sink b n. induction fuel as [|fuel IH]; intros r t sink b n Hr; cbn [line_loop]; [done|].
  assert (Hrk : has_room k sink) by (eapply has_room_le; [exact Hr|lia]).
  destruct (read_line r []) as [[[m|] buf] r'] eqn:Er; [|by intros [= <- <- <- <-]].
  destruct (N.eqb_spec m 0) as [Hz|Hz]; [by intros [= <- <- <- <-]|].
  assert (Hst : stream r = buf ++ stream r') by (by apply read_line_ok in Er as (_ & _ & ? & _)).
  rewrite Hst, newlines_app in *. destruct (ends_with_nl buf) eqn:Enl.
  - apply newlines_line in Enl.
    destruct (try_emit_room (k + newlines (stream r')) (take (length buf - 1) buf) (partial t) sink opts) as [Ha Hr'];
      [eapply has_room_le; [exact Hr|lia]|].
    destruct (try_emit_line _ _ _ _) as [[ok p] s2]. cbn [fst snd] in *. subst ok. cbn [negb].
    case_if; norm_bool; [intros [= <- <- <- <-]; split; [eapply has_room_le; [exact Hr'|lia]|lia]|].
    intros [? Hn]%IH; [|done]. split; [done|]. intros Hlt. apply Hn. lia.
  - intros [? Hn]%IH; [|eapply has_room_le; [exact Hr|lia]]. split; [done|]. intros Hlt. apply Hn. lia.
Qed.

Lemma run_lines_room k r t sink opts stop n t' sink' :
  has_room (k + newlines (stream r)) sink -> run_lines r t sink opts = (stop, n, t', sink') ->
  has_room k sink' /\ (newlines (stream r) < MAX_LINES_PER_POLL -> stop = StopEof).
Proof.
  intros Hr. unfold run_lines.
  destruct (line_loop_total (Datatypes.S (reader_size r)) r t sink opts 0 0 ltac:(lia)) as [[[[st m] t2] s2] E].
  rewrite E. intros [= <- <- <- <-]. by eapply line_loop_room in E.
Qed.

Lemma flush_partial_room k t sink : has_room (k + 1) sink -> has_room k (flush_partial t sink).2.
Proof.
  intros Hr. unfold flush_partial. do 2 (case_if; [eapply has_room_le; [done|lia]|]). by apply has_room_log.
Qed.

(** * A poll that reads to the end *)

(** How far a file was read: up to its offset, or past it when a record is in
    flight. *)
Definition read_to (ml : option MultilineOpts) t : N := match ml with Some _ => read_from t | None => pos t end.

(** What a stop relies on in a mode of reading: with room in the channel a poll
    reads to the end of the file when few lines are left, and the flush moves the
    offset to what was read. *)
Class DrainMode opts ml (fm : FileMode (S := S) opts ml) := {
  dm_poll : forall k os c start dn es t sink now res t' sink',
    fm_at c start dn es t -> serves os t c -> fits (drop (N.to_nat start) c) ->
    has_room (k + newlines (drop (N.to_nat (read_to ml t)) c)) sink -> check_and_read os t sink opts ml now = (res, t', sink') ->
    has_room k sink' /\ (newlines (drop (N.to_nat (read_to ml t)) c) < MAX_LINES_PER_POLL -> read_to ml t' = len c);
  dm_flush : forall k c start dn es t sink t' sink',
    fm_done c start dn es t -> has_room (k + 1) sink -> flush_one opts ml t sink = (t', sink') ->
    has_room k sink' /\ pos t' = read_to ml t /\ read_to ml t' = pos t';
}.

(** Single-line mode. *)
Lemma check_and_read_room k os opts c start dn t sink now res t' sink' :
  has_room (k + newlines (drop (N.to_nat (pos t)) c)) sink -> file_at c start dn t -> serves os t c -> fits (drop (N.to_nat start) c) ->
  check_and_read os t sink opts None now = (res, t', sink') ->
  has_room k sink' /\ (newlines (drop (N.to_nat (pos t)) c) < MAX_LINES_PER_POLL -> pos t' = len c).
Proof.
  intros Hr ([rest Hd] & Hst & Hp & Hpart & Hfit) (f & m & Ho & Hm & Hid & Hlen & Hseek) Hfull.
  unfold check_and_read. rewrite Ho, Hm, Hid, bool_decide_eq_true_2 by done. cbn [negb].
  assert (Hlc : len c = start + len dn + len rest).
  { apply (f_equal len) in Hd. rewrite len_app in Hd. revert Hd Hst. len_lia. }
  destruct (N.ltb_spec (md_len m) (pos t)); [lia|]. destruct (N.leb_spec (md_len m) (pos t)).
  { intros [= <- <- <-]. split; [eapply has_room_le; [done|]|]; lia. }
  destruct (Hseek (pos t) ltac:(lia)) as (r & Hrd & Hq & Hstr). rewrite Hrd. cbn [read_lines].
  assert (Hrest : stream r = rest).
  { rewrite Hstr, Hp, N2Nat.inj_add, <- drop_drop, Hd. apply drop_len_app. }
  destruct (run_lines r t sink opts) as [[[stop n] t1] s1] eqn:Hrun.
  rewrite <- Hstr in Hr. destruct (run_lines_room _ _ _ _ _ _ _ _ _ Hr Hrun) as [Hr1 Hstop].
  apply run_lines_refines in Hrun as (ls & r' & Hls & -> & -> & _ & Heof).
  intros [= <- <- <-]. split; [done|]. rewrite <- Hstr. intros Hn. cbn [pos set_pos].
  assert (Hs := proj2 (reads_chunks _ _ _ Hls)). rewrite (Heof (Hstop Hn) Hq), app_nil_r, Hrest in Hs. rewrite <- Hs. lia.
Qed.

#[global] Instance line_drain opts : DrainMode opts None (line_mode opts).
Proof.
  split.
  - intros k os c start dn es t sink now res t' sink' [Hat _] Hs Hf Hr Hrun. by eapply check_and_read_room.
  - intros k c start dn es t sink t' sink' _ Hr Hf. cbn in Hf. assert (Hr' := flush_partial_room k t sink Hr). rewrite Hf in Hr'.
    apply flush_partial_spec in Hf as [-> _]. done.
Qed.

(** * The table *)

Section table.
Context {opts : FileParseOpts} {ml : option MultilineOpts} {fm : FileMode opts ml} (dm : DrainMode opts ml fm).
Context (paths : gmap FileId bytes) (start : FileId -> N) (w : FileId -> bytes).
Notation table_synced := (table_at paths start (fm_at (FileMode := fm))).
Notation table_flushed := (table_at paths start (fm_done (FileMode := fm))).

(** The lines of a file that were not read yet, and those of several files. *)
Definition left_in (fs : gmap FileId TailedFile) (fid : FileId) : N :=
  match fs !! fid with Some t => newlines (drop (N.to_nat (read_to ml t)) (w fid)) | None => 0 end.
Definition left_in_all (fs : gmap FileId TailedFile) (ids : list FileId) : N :=
  foldr (fun fid n => left_in fs fid + n) 0 ids.

(** The file was read to its end; its offset is there. *)
Definition read_all (fs : gmap FileId TailedFile) (fid : FileId) : Prop :=
  forall t, fs !! fid = Some t -> read_to ml t = len (w fid).
Definition at_end (fs : gmap FileId TailedFile) (fid : FileId) : Prop :=
  forall t, fs !! fid = Some t -> pos t = len (w fid).

Lemma left_in_all_same fs fs' ids : (forall fid, fid ∈ ids -> fs' !! fid = fs !! fid) -> left_in_all fs' ids = left_in_all fs ids.
Proof.
  induction ids as [|fid ids IH]; intros Hall; [done|]. cbn [left_in_all foldr]. unfold left_in at 1 3.
  rewrite Hall by (by left). f_equal. apply IH. intros fid' Hin. apply Hall. by right.
Qed.

Lemma poll_file_drains k os base tl sink dn tr now fid :
  table_synced base w tl sink dn tr -> serves_all paths start os w -> has_room (k + left_in (files tl) fid) sink ->
  let '(n, tl', sink') := poll_file os tl sink opts ml now fid in
  has_room k sink' /\ (left_in (files tl) fid < MAX_LINES_PER_POLL -> read_all (files tl') fid) /\
  forall fid', fid' <> fid -> files tl' !! fid' = files tl !! fid'.
Proof.
  intros (Htr & Hsh & Hf) Hos. unfold poll_file, left_in. destruct (files tl !! fid) as [t|] eqn:Ht; intros Hr.
  2: { split_and!; [eapply has_room_le; [done|lia]| |done]. intros _ t Ht'. by rewrite Ht in Ht'. }
  destruct (proj1 (proj2 Htr) fid t Ht) as (Hid & Hpath & Hret & Hskip & Hfail). rewrite Hskip, Hret.
  destruct (Hos t) as [Hserve Hfit]; [by rewrite Hid|]. rewrite Hid in Hserve, Hfit.
  destruct (check_and_read os t sink opts ml now) as [[res t'] sink'] eqn:Hrun.
  destruct (dm_poll _ _ _ _ _ _ _ _ _ _ _ _ (Hf fid t Ht) Hserve Hfit Hr Hrun) as [Hr' Hend].
  destruct (fm_poll _ _ _ _ _ _ _ _ _ _ _ (Hf fid t Ht) Hserve Hfit Hrun) as (more & new & _ & _ & Hres).
  assert (Hto : forall k u, read_to ml (set_open_failures k u) = read_to ml u) by (by intros k' u; destruct ml).
  destruct Hres as [->|[n ->]]; (split_and!; [done| |intros fid' Hne; cbn [files]; by rewrite ?lookup_insert_ne]);
    intros Hn u; cbn [files]; rewrite lookup_insert_eq; intros [= <-]; rewrite ?Hto; by apply Hend.
Qed.

Lemma poll_all_drains k os base ids tl sink dn tr now :
  NoDup ids -> table_synced base w tl sink dn tr -> serves_all paths start os w ->
  has_room (k + left_in_all (files tl) ids) sink ->
  let '(n, tl', sink') := poll_all os ids tl sink opts ml now in
  has_room k sink' /\
  (forall fid, fid ∈ ids -> left_in (files tl) fid < MAX_LINES_PER_POLL -> read_all (files tl') fid) /\
  forall fid, fid ∉ ids -> files tl' !! fid = files tl !! fid.
Proof.
  intros Hnd Hsy Hos. revert tl sink dn tr Hsy. induction Hnd as [|fid0 ids Hni Hnd IH]; intros tl sink dn tr Hsy Hr;
    cbn [poll_all left_in_all foldr] in *.
  { split_and!; [eapply has_room_le; [done|lia]| |done]. intros fid Hin. by apply not_elem_of_nil in Hin. }
  assert (Hp := poll_file_synced _ _ _ os base w tl sink dn tr now fid0 Hsy Hos).
  assert (Hd := poll_file_drains (k + left_in_all (files tl) ids) os base tl sink dn tr now fid0 Hsy Hos
    ltac:(eapply has_room_le; [done|unfold left_in_all; lia])).
  destruct (poll_file os tl sink opts ml now fid0) as [[n tl1] s1]. destruct Hp as (dn1 & tr1 & Hsy1 & _).
  destruct Hd as (Hr1 & Hend & Hother). specialize (IH tl1 s1 dn1 tr1 Hsy1).
  rewrite (left_in_all_same (files tl)) in IH by (intros fid Hin; apply Hother; by intros ->). specialize (IH Hr1).
  destruct (poll_all _ _ _ _ _ _ _) as [[m tl2] s2]. destruct IH as (Hr2 & Hread & Hkeep). split_and!; [done|..].
  - intros fid [->|Hin]%elem_of_cons Hn.
    + intros t. rewrite Hkeep by done. by apply Hend.
    + apply Hread; [done|]. unfold left_in. rewrite Hother by (by intros ->). exact Hn.
  - intros fid [Hne Hn]%not_elem_of_cons. by rewrite Hkeep, Hother.
Qed.

Lemma flush_all_drains base ids fs idx sink dn tr :
  NoDup ids -> table_flushed base w (mkTail fs idx) sink dn tr -> has_room (len ids) sink ->
  let '(fs', sink') := flush_all ids fs sink opts ml in
  (forall fid, fid ∈ ids -> read_all fs fid -> at_end fs' fid) /\
  forall fid, fid ∉ ids -> fs' !! fid = fs !! fid.
Proof.
  intros Hnd. revert fs sink dn tr. induction Hnd as [|fid0 ids Hni Hnd IH]; intros fs sink dn tr Hfl Hr; cbn [flush_all].
  { split; [|done]. intros fid Hin. by apply not_elem_of_nil in Hin. }
  rewrite len_cons in Hr. destruct (fs !! fid0) as [t|] eqn:Ht.
  2: { specialize (IH fs sink dn tr Hfl ltac:(eapply has_room_le; [done|lia])). destruct (flush_all _ _ _ _ _) as [fs' sink'].
       destruct IH as [Hend Hkeep]. split; [|intros fid [_ Hn]%not_elem_of_cons; by apply Hkeep].
       intros fid [->|Hin]%elem_of_cons Ha; [|by apply Hend]. intros u. rewrite Hkeep, Ht by done. done. }
  fold (flush_one opts ml t sink). assert (Hsame := flush_one_same opts ml t sink).
  destruct (flush_one opts ml t sink) as [t' sink'] eqn:E. assert (Hat := proj2 (proj2 Hfl) fid0 t Ht).
  destruct (dm_flush (len ids) _ _ _ _ _ _ _ _ Hat ltac:(eapply has_room_le; [done|lia]) E) as (Hr' & Hpos & Hto).
  destruct (fm_flush _ _ _ _ _ _ _ _ Hat E) as (more & new & Hnew & Hat').
  assert (Hins := table_at_insert _ _ _ base w (mkTail fs idx) sink sink' dn tr fid0 t t' more new Hfl Ht Hsame Hnew Hat').
  specialize (IH _ sink' _ _ Hins Hr'). cbn [files path_index] in IH. destruct (flush_all _ _ _ _ _) as [fs2 s2].
  destruct IH as [Hend Hkeep]. split.
  - intros fid [->|Hin]%elem_of_cons Ha.
    + intros u. rewrite Hkeep, lookup_insert_eq by done. intros [= <-]. rewrite Hpos. by apply Ha.
    + apply Hend; [done|]. intros u. rewrite lookup_insert_ne by (by intros ->). apply Ha.
  - intros fid [Hne Hn]%not_elem_of_cons. by rewrite Hkeep, lookup_insert_ne.
Qed.
End table.

(** * The stop *)

Section stop.
Context (opts : FileParseOpts) (ml : option MultilineOpts) (fm : FileMode opts ml) (dm : DrainMode opts ml fm).
Context (paths : gmap FileId bytes) (patterns : list bytes).
Context (paths_inj : forall fid fid' p p', paths !! fid = Some p -> paths !! fid' = Some p' ->
  from_utf8_lossy p = from_utf8_lossy p' -> fid = fid').
Context (paths_storable : forall fid p, paths !! fid = Some p ->
  tab ∉ from_utf8_lossy p /\ nl ∉ from_utf8_lossy p /\ dev fid <= u64_max /\ ino fid <= u64_max).

(** When the stop comes, the channel has room for the lines that are left of all
    files and for what a flush may send, and those left of the file are fewer than
    one poll may read. The files hold [w]. *)
Definition can_drain (l : Lifetime (S := S)) (disk : option bytes) (w : FileId -> bytes) (fid : FileId) : Prop :=
  let st := cut_off opts ml patterns l disk in
  let fs := files (tl_tail st) in
  has_room (left_in_all (ml := ml) w fs (lf_ids l) + len (lf_ids' l)) (tl_sink st) /\
  NoDup (lf_ids l) /\ NoDup (lf_ids' l) /\ fid ∈ lf_ids l /\ fid ∈ lf_ids' l /\
  left_in (ml := ml) w fs fid < MAX_LINES_PER_POLL.

Lemma lifetime_drains w l disk w' fid :
  orderly_life opts ml paths patterns w l disk w' -> is_Some (paths !! fid) -> can_drain l disk w' fid ->
  reach_of (lifetime opts ml patterns l disk) fid = len (w' fid).
Proof.
  intros (w1 & w2 & Hg1 & Hdis & Hev & Hg2 & Hserve & _) [p Hp] (Hroom & Hnd & Hnd' & Hi & Hi' & Hn).
  assert (Hsy := tail_start_synced opts ml fm paths patterns paths_inj paths_storable (lf_os l) _ w1 (lf_sink l) disk (lf_now l) eq_refl Hdis).
  apply (tail_run_synced _ _ _ _ _ _ _ _ _ Hev) in Hsy. unfold cut_off, lifetime, tail_files in *.
  rewrite fold_left_app. cbn [fold_left] in *. set (st := fold_left _ (lf_events l) _) in *.
  destruct Hsy as (Hns & dn & tr & Hsy). apply (table_synced_grow _ _ _ _ _ _ _ _ _ _ Hg2) in Hsy.
  unfold stop_event, tail_step. rewrite Hns. rewrite N.add_comm in Hroom.
  assert (Hpo := poll_all_synced _ _ _ _ _ _ (lf_ids l) _ _ _ _ (lf_stop_now l) Hsy Hserve).
  assert (Hd := poll_all_drains dm _ _ _ _ _ _ (lf_ids l) _ _ _ _ (lf_stop_now l) Hnd Hsy Hserve Hroom).
  destruct (poll_all _ _ _ _ _ _ _) as [[n tl1] s1]. destruct Hpo as (dn1 & tr1 & Hsy1 & _). destruct Hd as (Hr1 & Hd & _).
  specialize (Hd fid Hi Hn). assert (Hfl1 := table_synced_flushed _ _ _ _ _ _ _ _ _ Hsy1).
  assert (Hfl := flush_all_flushed fm _ _ _ _ (lf_ids' l) (files tl1) (path_index tl1) s1 dn1 tr1 ltac:(by destruct tl1)).
  assert (Hfd := flush_all_drains dm _ _ w' _ (lf_ids' l) (files tl1) (path_index tl1) s1 dn1 tr1 Hnd' ltac:(by destruct tl1) Hr1).
  destruct (flush_all _ _ _ _ _) as [fs2 s2]. destruct Hfl as (dn2 & tr2 & Htr2 & _). destruct Hfd as [Hfd _].
  specialize (Hfd fid Hi' Hd). destruct (proj2 (proj1 Htr2 fid)) as [t Ht]; [by eexists|]. cbn [files] in Ht.
  unfold reach_of. cbn [tl_tail files]. rewrite Ht. by apply Hfd.
Qed.
End stop.
End drain.
