(* ===== verification/EpisodeFacts.v ===== *)
(** Lifetimes of the tailer, one after the other, by what each does to a file.

    An episode is what is left of a lifetime once the sink and the table of files
    are forgotten: where it resumes each file, what it consumes from there, what
    it ships of it, and which checkpoint it leaves. A graceful stop leaves the
    position it has reached; a lifetime that is cut off leaves that or an earlier
    one. Episodes chain through the state file, and a chain says what all of them
    together ship of a file. *)
From stdpp Require Import functions.
From S2P Require Import Prelude Str StrFacts External Text Structured Sink Tailed TailedFacts Multiline MultilineFacts.
From S2P Require Import Watcher WatcherFacts OffsetFacts SessionFacts MlSessionFacts RestartFacts.
From Stdlib Require Import Strings.Byte.

Section episodes.
Notation world := (FileId -> bytes).

(** [acc] says which entries are shipped of a segment. *)
Context (acc : list LogEntry -> bytes -> Prop) (paths : gmap FileId bytes).

(** A segment of a file and the entries shipped for it in one lifetime. *)
Definition ships (fid : FileId) (tr : trace) (seg : bytes) : Prop := acc (of_file fid tr) seg.

(** A lifetime: the state file it found, what it shipped, and the offset of each
    file in its table as it ended. *)
Record Life := mkLife { lv_found : option bytes; lv_trace : trace; lv_reach : FileId -> N }.

(** A lifetime that left [disk'] while the files grew from [w] to [w']: everything
    it shipped is of a tracked file, and what it shipped of a file is what its
    offset has passed. With [exact] it leaves the offsets it has reached. *)
Definition episode (exact : bool) (w : world) (lv : Life) (disk' : option bytes) (w' : world) : Prop :=
  grows w w' /\ of_tracked paths (lv_trace lv) /\
  forall fid p s, paths !! fid = Some p -> checkpoint_of (load_offsets (lv_found lv)) p fid = Some s -> s_pos s <= len (w fid) ->
    exists dn rest k, drop (N.to_nat (s_pos s)) (w' fid) = dn ++ rest /\ ships fid (lv_trace lv) dn /\
      lv_reach lv fid = s_pos s + len dn /\ k <= len dn /\ (exact = true -> k = len dn) /\
      checkpoint_of (load_offsets disk') p fid = Some (mkSavedOffset (s_pos s + k) (dev fid) (ino fid)).

Inductive episodes (exact : bool) : world -> option bytes -> list Life -> world -> Prop :=
| episodes_nil w disk : episodes exact w disk [] w
| episodes_cons w lv disk1 w1 lvs w2 :
    episode exact w lv disk1 w1 -> episodes exact w1 disk1 lvs w2 -> episodes exact w (lv_found lv) (lv :: lvs) w2.

Lemma episodes_grows exact w disk lvs w' : episodes exact w disk lvs w' -> grows w w'.
Proof. induction 1 as [|w lv disk1 w1 lvs w2 [Hg _] _ IH]; [done|]. by etrans. Qed.

Lemma episodes_tracked exact w disk lvs w' : episodes exact w disk lvs w' -> Forall (of_tracked paths) (lv_trace <$> lvs).
Proof. induction 1 as [|w lv disk1 w1 lvs w2 (_ & Ht & _) _ IH]; by constructor. Qed.

(** * What happens to one file *)

(** The lifetimes resume the content [c] at the positions of the spans, the first
    at [x], each at or before the place the one before it has reached. *)
Inductive chained (exact : bool) (fid : FileId) (c : bytes) : N -> list trace -> list (N * bytes) -> Prop :=
| chained_nil x : chained exact fid c x [] []
| chained_cons x tr trs dn rest k spans :
    drop (N.to_nat x) c = dn ++ rest -> ships fid tr dn -> k <= len dn -> (exact = true -> k = len dn) ->
    chained exact fid c (x + k) trs spans -> chained exact fid c x (tr :: trs) ((x, dn) :: spans).

(** The part of the content [c] between the checkpoint in [found] and an offset. *)
Definition span_of (fid : FileId) (p c : bytes) (found : option bytes) (reach : N) : N * bytes :=
  let from := match checkpoint_of (load_offsets found) p fid with Some s => s_pos s | None => 0 end in
  (from, take (N.to_nat (reach - from)) (drop (N.to_nat from) c)).

Definition life_span (fid : FileId) (p c : bytes) (lv : Life) : N * bytes :=
  span_of fid p c (lv_found lv) (lv_reach lv fid).

Lemma episodes_chained exact w disk lvs w' fid p s :
  episodes exact w disk lvs w' -> paths !! fid = Some p -> checkpoint_of (load_offsets disk) p fid = Some s ->
  s_pos s <= len (w fid) ->
  chained exact fid (w' fid) (s_pos s) (lv_trace <$> lvs) (life_span fid p (w' fid) <$> lvs) /\
  Forall (fun lv => (life_span fid p (w' fid) lv).1 + len (life_span fid p (w' fid) lv).2 = lv_reach lv fid) lvs.
Proof.
  intros He Hp. revert s. induction He as [w disk|w lv disk1 w1 lvs w2 (Hg & _ & Hep) He IH]; intros s Hck Hpos.
  { split; constructor. }
  destruct (Hep fid p s Hp Hck Hpos) as (dn & rest & k & Hd & Hsh & Hre & Hk & Hex & Hck1).
  assert (Hl : s_pos s <= len (w1 fid)) by (destruct (Hg fid) as [d ->]; rewrite len_app; lia).
  assert (Hlen : s_pos s + len dn + len rest = len (w1 fid)).
  { apply (f_equal len) in Hd. rewrite len_app in Hd. revert Hd Hl. len_lia. }
  destruct (IH _ Hck1) as [Hch Hall]; [cbn [s_pos]; lia|]. destruct (episodes_grows _ _ _ _ _ He fid) as [d Hw].
  assert (Hfull : drop (N.to_nat (s_pos s)) (w2 fid) = dn ++ rest ++ d)
    by (by rewrite Hw, drop_app_le, Hd, <- app_assoc by (revert Hl; clear; len_lia)).
  assert (Hspan : life_span fid p (w2 fid) lv = (s_pos s, dn)).
  { unfold life_span, span_of. rewrite Hck, Hre, Hfull. f_equal.
    replace (N.to_nat _) with (length dn) by (unfold len; lia). apply take_app_length. }
  split; [|constructor; [by rewrite Hspan|done]]. cbn [fmap list_fmap]. rewrite Hspan. by econstructor.
Qed.

(** Exact lifetimes cut the content into consecutive segments. *)
Lemma chained_segments fid c x trs spans :
  chained true fid c x trs spans ->
  (exists rest, drop (N.to_nat x) c = concat spans.*2 ++ rest) /\ Forall2 (ships fid) trs spans.*2.
Proof.
  induction 1 as [x|x tr trs dn rest k spans Hd Hsh Hk Hex Hch [[r IHd] IHs]]; [by split; [exists (drop (N.to_nat x) c)|]|].
  split; [|by constructor]. exists r. rewrite (Hex eq_refl), N2Nat.inj_add, <- drop_drop, Hd, drop_len_app in IHd.
  cbn [fmap list_fmap concat snd]. by rewrite Hd, IHd, app_assoc.
Qed.

(** When the last of them has reached the end, they are all of the content. *)
Lemma chained_whole fid c x trs spans sp :
  chained true fid c x trs spans -> x <= len c -> last spans = Some sp -> sp.1 + len sp.2 = len c ->
  concat spans.*2 = drop (N.to_nat x) c.
Proof.
  induction 1 as [x|x tr trs dn rest k spans Hd Hsh Hk Hex Hch IH]; intros Hx; [done|]. rewrite (Hex eq_refl) in *.
  assert (Hlen : x + len dn + len rest = len c).
  { apply (f_equal len) in Hd. rewrite len_app in Hd. revert Hd Hx. len_lia. }
  cbn [fmap list_fmap concat snd]. destruct spans as [|sp' spans].
  - cbn. intros [= <-]. cbn [fst snd]. intros Hend. rewrite app_nil_r, Hd.
    assert (rest = []) as -> by (apply len_0_nil; lia). by rewrite app_nil_r.
  - intros Hl Hend. change (last (sp' :: spans) = Some sp) in Hl. rewrite IH by (done || lia).
    by rewrite N2Nat.inj_add, <- drop_drop, Hd, drop_len_app.
Qed.

Lemma chained_weaken fid c x trs spans : chained true fid c x trs spans -> chained false fid c x trs spans.
Proof. induction 1; econstructor; by eauto. Qed.

Lemma episode_weaken exact w lv disk' w' : episode true w lv disk' w' -> episode exact w lv disk' w'.
Proof.
  intros (Hg & Ht & Hall). split_and!; [done..|]. intros fid p s Hp Hck Hpos.
  destruct (Hall fid p s Hp Hck Hpos) as (dn & rest & k & ? & ? & ? & ? & Hk & ?). exists dn, rest, k. by split_and!; auto.
Qed.

(** What some lifetime has read up to the end. *)
Definition reached (a : N) (l : bytes) (spans : list (N * bytes)) : Prop :=
  exists sp, sp ∈ spans /\ a + len l <= sp.1 + len sp.2.

(** No lifetime resumes in the middle of it. *)
Definition unsplit (a : N) (l : bytes) (spans : list (N * bytes)) : Prop :=
  forall sp, sp ∈ spans -> sp.1 <= a \/ a + len l <= sp.1.

(** What was read to its end, and in which no lifetime resumed, is within the span
    of one of them. *)
Lemma chained_within exact fid c x trs spans a l :
  chained exact fid c x trs spans -> x <= a -> reached a l spans -> unsplit a l spans ->
  Exists (fun tr => exists y dn rest, drop (N.to_nat y) c = dn ++ rest /\ ships fid tr dn /\ y <= a /\ a + len l <= y + len dn) trs.
Proof.
  intros Hch. induction Hch as [x|x tr trs dn rest k spans Hd Hsh Hk Hex Hch IH]; intros Hxa [sp [Hin Hr]] Hun.
  { by apply not_elem_of_nil in Hin. }
  destruct (decide (a + len l <= x + len dn)) as [Hend|Hend]; [left; by exists x, dn, rest|]. right.
  apply elem_of_cons in Hin as [->|Hin]; [cbn in Hr; lia|].
  assert (Hun' : unsplit a l spans) by (intros sp' Hsp; apply Hun; by right). apply IH; [|by exists sp|done].
  inversion Hch as [y Hy Ht Hs|y tr' trs' dn' rest' k' spans' _ _ _ _ _ Hy Ht Hs]; subst; [by apply not_elem_of_nil in Hin|].
  destruct (Hun' (x + k, dn') ltac:(by left)) as [?|?]; cbn [fst] in *; lia.
Qed.
End episodes.

(** * Lines *)

Section lines.
Context `{SimdUtf8, Memchr, MemchrIter, SerdeJson, Regex, !SimdUtf8Ok, !MemchrOk}.
Context (opts : FileParseOpts).
Notation ships := (ships (line_entries opts)).

Lemma ships_whole_lines fid trs segs :
  Forall2 (ships fid) trs segs -> Forall (fun seg => pending seg = []) segs ->
  concat (map (of_file fid) trs) = ideal_entries opts (concat segs).
Proof.
  induction 1 as [|tr seg trs segs (tail & Ho & Htl) Hs IH]; [done|].
  intros [Hp Hps]%Forall_cons. cbn [map concat]. rewrite Ho, IH by done.
  destruct (ideal_app opts seg (concat segs)) as [-> _]. rewrite Hp.
  destruct Htl as [->|[Hne _]]; [by rewrite app_nil_r|done].
Qed.

(** [l] is a line of [c] and starts at [a]. *)
Definition line_at (c : bytes) (a : N) (l : bytes) : Prop :=
  (exists body, l = body ++ [nl] /\ nl ∉ body) /\ pending (take (N.to_nat a) c) = [] /\ a <= len c /\
  exists rest, drop (N.to_nat a) c = l ++ rest.

Definition shipped_by (fid : FileId) (l : bytes) (tr : trace) : Prop :=
  exists before after, of_file fid tr = before ++ ideal_entries opts l ++ after.

Lemma ships_line fid c x tr dn rest a l :
  drop (N.to_nat x) c = dn ++ rest -> ships fid tr dn -> line_at c a l -> x <= a -> a + len l <= x + len dn ->
  shipped_by fid l tr.
Proof.
  intros Hd (tail & Ho & _) ((body & -> & Hb) & Hp & Hac & r & Hl) Hxa Hend.
  set (l := body ++ [nl]) in *. set (pre := take (N.to_nat (a - x)) (drop (N.to_nat x) c)).
  assert (Hcut : take (N.to_nat a) c = take (N.to_nat x) c ++ pre).
  { unfold pre. rewrite <- (take_drop (N.to_nat x) (take (N.to_nat a) c)), take_take, take_drop_commute. f_equal; f_equal; [lia|].
    f_equal. lia. }
  assert (Hpre : pending pre = []) by (rewrite Hcut in Hp; by apply pending_suffix in Hp).
  assert (Hlp : len pre = a - x) by (unfold pre; revert Hac Hxa; len_lia).
  assert (Hdn : exists post, dn = pre ++ l ++ post).
  { assert (Hall : drop (N.to_nat x) c = pre ++ l ++ r).
    { rewrite <- (take_drop (N.to_nat (a - x)) (drop (N.to_nat x) c)), drop_drop. fold pre. f_equal.
      replace (N.to_nat x + N.to_nat (a - x))%nat with (N.to_nat a) by lia. exact Hl. }
    exists (drop (length (pre ++ l)) dn). rewrite Hd, app_assoc in Hall. apply (f_equal (take (length (pre ++ l)))) in Hall.
    rewrite take_app_length in Hall. rewrite app_assoc, <- Hall at 1.
    assert (Hle : (length (pre ++ l) <= length dn)%nat) by (rewrite length_app; revert Hend Hlp Hxa; unfold len; lia).
    rewrite take_app_le by done. by rewrite take_drop. }
  destruct Hdn as [post ->]. destruct (ideal_app opts pre (l ++ post)) as [Hi _]. destruct (ideal_app opts l post) as [Hj _].
  assert (Hpl : pending l = []) by (unfold l; by rewrite pending_line).
  rewrite Hpre in Hi. rewrite Hpl in Hj. cbn [app] in Hi, Hj. rewrite Hi, Hj in Ho.
  exists (ideal_entries opts pre), (ideal_entries opts post ++ tail). by rewrite Ho, <- !app_assoc.
Qed.

(** A line that was read to its end, and in which no lifetime resumed, is shipped
    by one of them. *)
Lemma chained_line exact fid c x trs spans a l :
  chained (line_entries opts) exact fid c x trs spans -> line_at c a l -> x <= a -> reached a l spans -> unsplit a l spans ->
  Exists (shipped_by fid l) trs.
Proof.
  intros Hch Hline Hx Hr Hu. eapply Exists_impl; [by eapply chained_within|].
  intros tr (y & dn & rest & Hd & Hsh & Hy & Hend). by eapply ships_line.
Qed.
End lines.
