(* ===== verification/CrashFacts.v ===== *)
(** The state file of the tailer when the agent is killed.

    While the tailer runs, the state file is the one it started from or records
    positions it has passed; so a lifetime that is cut off anywhere is an episode
    that resumes later at or before the place it had reached, and a lifetime with
    a graceful stop an exact one. *)
From stdpp Require Import functions.
From S2P Require Import Prelude Str StrFacts External Text Structured Sink Tailed TailedFacts Multiline MultilineFacts.
From S2P Require Import Watcher WatcherFacts OffsetFacts SessionFacts MlSessionFacts RestartFacts EpisodeFacts.
From Stdlib Require Import Strings.Byte.

Section crash.
Context `{SimdUtf8, Memchr, MemchrIter, SerdeJson, Regex, !SimdUtf8Ok, !MemchrOk}.
Context {S : Type} `{LogSink S, !LogSinkOk S}.
Context (opts : FileParseOpts) (ml : option MultilineOpts) (fm : FileMode opts ml).
Context (paths : gmap FileId bytes) (patterns : list bytes).
Implicit Types (t : TailedFile) (sink : S) (os : Os) (tl : Tail).
Notation world := (FileId -> bytes).
Notation step := (tail_step patterns opts ml).
Notation lifetime := (lifetime opts ml patterns).
Notation cut_off := (cut_off opts ml patterns).
Notation orderly_life := (orderly_life opts ml paths patterns).
Notation episode := (episode (fm_ships (FileMode := fm)) paths).

Hypothesis paths_inj : forall fid fid' p p', paths !! fid = Some p -> paths !! fid' = Some p' ->
  from_utf8_lossy p = from_utf8_lossy p' -> fid = fid'.
Hypothesis paths_storable : forall fid p, paths !! fid = Some p ->
  tab ∉ from_utf8_lossy p /\ nl ∉ from_utf8_lossy p /\ dev fid <= u64_max /\ ino fid <= u64_max.

(** * A lifetime that ends in a stop *)

Lemma lifetime_episode w (l : Lifetime (S := S)) disk w' :
  orderly_life w l disk w' ->
  exists tr, shipped (tl_sink (lifetime l disk)) = shipped (lf_sink l) ++ tr.*2 /\
    episode true w (mkLife disk tr (reach_of (lifetime l disk))) (tl_disk (lifetime l disk)) w'.
Proof.
  intros Hlife. destruct (lifetime_spec opts ml fm paths patterns paths_inj paths_storable w l disk w' Hlife)
    as (wa & dn & tr & Hg1 & Hg2 & Hsh & Hof & Hfile).
  exists tr. split; [done|]. split_and!; [by etrans|done|]. cbn [lv_found lv_trace lv_reach]. intros fid p s Hp Hck Hpos.
  destruct (Hfile fid p Hp) as ([r Hd] & _ & Hships & Hre & Hck1). unfold resume in Hd, Hre, Hck1. rewrite Hck in Hd, Hre, Hck1.
  assert (Hla : len (w fid) <= len (wa fid)) by (destruct (Hg1 fid) as [d ->]; len_lia).
  rewrite N.min_l in Hd, Hre, Hck1 by lia. by exists (dn fid), r, (len (dn fid)).
Qed.

(** * A lifetime that is cut off *)

(** A write of the state file takes effect as a whole or not at all. *)
Definition saves_or_fails (io : SaveIo) (order : list FileId) (fs : gmap FileId TailedFile) : Prop :=
  saves paths io order fs \/ create_ok io = false \/ rename_ok io = false.

Fixpoint saves_atomic (st : Tailer (S := S)) (evs : list Event) : Prop :=
  match evs with
  | [] => True
  | ev :: rest =>
    match ev with
    | EvPoll _ _ _ _ order io | EvSave _ order io => saves_or_fails io order (files (tl_tail (step st ev)))
    | _ => True
    end /\ saves_atomic (step st ev) rest
  end.

Section run.
Context (start : FileId -> N) (disk0 : option bytes).
Notation table_synced := (table_at paths start (fm_at (FileMode := fm))).

(** The state file is the first one, or it records positions that were passed. *)
Definition recorded (dn : FileId -> bytes) (disk : option bytes) : Prop :=
  disk = disk0 \/ forall fid p, paths !! fid = Some p -> exists k, k <= len (dn fid) /\
    checkpoint_of (load_offsets disk) p fid = Some (mkSavedOffset (start fid + k) (dev fid) (ino fid)).

Lemma recorded_further dn dn' disk : further dn dn' -> recorded dn disk -> recorded dn' disk.
Proof.
  intros Hf [->|Hr]; [by left|right]. intros fid p Hp. destruct (Hr fid p Hp) as (k & Hk & Hck).
  exists k. split; [specialize (Hf fid); lia|done].
Qed.

Lemma table_synced_pos base (w : world) tl sink dn tr fid t :
  (forall fid, len (w fid) <= u64_max) -> table_synced base w tl sink dn tr ->
  files tl !! fid = Some t -> pos t <= u64_max.
Proof.
  intros Hmax (_ & _ & Hf) Ht. destruct (fm_pos _ _ _ _ _ (fm_stop _ _ _ _ _ (Hf fid t Ht))) as ([r Hd] & Hs & -> & _). specialize (Hmax fid).
  apply (f_equal len) in Hd. rewrite len_app in Hd. revert Hd Hs Hmax. len_lia.
Qed.

Lemma recorded_save base (w : world) tl sink dn tr io order disk :
  (forall fid, len (w fid) <= u64_max) -> table_synced base w tl sink dn tr ->
  saves_or_fails io order (files tl) -> recorded dn disk ->
  recorded dn (save_offsets io (values_in order (files tl)) disk).
Proof.
  intros Hmax Hsy [Hsv|Hfail] Hr.
  - right. intros fid p Hp. destruct Hsy as (Htr & Hsh & Hf) eqn:E. clear E.
    destruct (proj2 (proj1 Htr fid)) as [t Ht]; [by eexists|].
    destruct (proj1 (proj2 Htr) fid t Ht) as (_ & Hpt & _). assert (p = path t) as -> by congruence.
    exists (len (dn fid)). split; [lia|]. destruct (fm_pos _ _ _ _ _ (fm_stop _ _ _ _ _ (Hf fid t Ht))) as (_ & _ & <- & _).
    apply (save_offsets_checkpoint paths paths_inj paths_storable); try done.
    intros fid' t'. by apply (table_synced_pos base w tl sink dn tr).
  - unfold save_offsets. destruct Hfail as [->| ->]; [done|]. by destruct (create_ok io).
Qed.

Definition tailer_recorded (base : list LogEntry) (w : world) (st : Tailer) : Prop :=
  tl_stopped st = false /\ exists dn tr, table_synced base w (tl_tail st) (tl_sink st) dn tr /\
    recorded dn (tl_disk st).

Lemma tail_run_recorded base w evs w' st :
  events_ok paths start patterns w evs w' -> (forall fid, len (w' fid) <= u64_max) ->
  saves_atomic st evs -> tailer_recorded base w st -> tailer_recorded base w' (fold_left step evs st).
Proof.
  intros He Hmax. revert st. induction He as [|w w1 w2 os ids ids' now order io evs Hg Hos He IH|w w2 os evs Hpat He IH
    |w w2 now order io evs He IH]; intros st; cbn [saves_atomic fold_left]; [done|..];
    intros [Hsv Hat] (Hns & dn & tr & Hsy & Hr); (apply IH; [done|done|]); clear IH Hat.
  - assert (Hmax1 : forall fid, len (w1 fid) <= u64_max).
    { intros fid. specialize (Hmax fid). destruct (events_ok_grows _ _ _ _ _ _ He fid) as [d E]. rewrite E, len_app in Hmax. lia. }
    destruct (poll_event fm paths start patterns os ids ids' now order io st base w1 dn tr Hns
      (table_synced_grow _ _ _ _ _ _ _ _ _ _ Hg Hsy) Hos) as (Hns' & (dn1 & tr1 & Hsy1 & Hf1) & Hdisk).
    apply (recorded_further dn dn1) in Hr; [|done]. split; [done|]. exists dn1, tr1. split; [done|].
    destruct Hdisk as [->| ->]; [done|]. by eapply recorded_save.
  - unfold tail_step. rewrite Hns. split; [done|]. exists dn, tr. cbn [tl_tail tl_sink tl_disk].
    by rewrite (discover_new_tracked paths) by (done || apply Hsy).
  - assert (Hmax1 : forall fid, len (w fid) <= u64_max).
    { intros fid. specialize (Hmax fid). destruct (events_ok_grows _ _ _ _ _ _ He fid) as [d E]. rewrite E, len_app in Hmax. lia. }
    unfold tail_step in *. rewrite Hns in *. cbn [tl_tail] in Hsv. split; [done|]. exists dn, tr. split; [done|].
    cbn [tl_disk]. by apply (recorded_save base w _ (tl_sink st) dn tr).
Qed.
End run.

Lemma checkpoint_of_id saved p fid s :
  checkpoint_of saved p fid = Some s -> s = mkSavedOffset (s_pos s) (dev fid) (ino fid).
Proof.
  unfold checkpoint_of. destruct (saved !! _) as [s'|]; [|done].
  destruct (s_dev s' =? _) eqn:E1, (s_ino s' =? _) eqn:E2; intros [= ->]. apply N.eqb_eq in E1, E2. rewrite <- E1, <- E2. by destruct s.
Qed.

Definition cut_life (w : world) (l : Lifetime (S := S)) (disk : option bytes) (w' : world) : Prop :=
  exists w1, grows w w1 /\ discovers paths patterns (lf_os l) (load_offsets disk) w1 /\
    events_ok paths (start_of paths (load_offsets disk) w1) patterns w1 (lf_events l) w' /\
    saves_atomic (tail_start (lf_os l) patterns (lf_sink l) disk (lf_now l)) (lf_events l) /\
    forall fid, len (w' fid) <= u64_max.

Lemma cut_episode w l disk w' :
  cut_life w l disk w' ->
  exists tr, shipped (tl_sink (cut_off l disk)) = shipped (lf_sink l) ++ tr.*2 /\
    episode false w (mkLife disk tr (reach_of (cut_off l disk))) (tl_disk (cut_off l disk)) w'.
Proof.
  intros (w1 & Hg1 & Hdis & Hev & Hsv & Hmax).
  destruct (tail_start_synced opts ml fm paths patterns paths_inj paths_storable (lf_os l) _ w1 (lf_sink l) disk (lf_now l) eq_refl Hdis)
    as (Hns & dn0 & tr0 & Hsy0).
  assert (Hrun := tail_run_recorded (start_of paths (load_offsets disk) w1) disk _ _ _ _ _ Hev Hmax Hsv
    (conj Hns (ex_intro _ dn0 (ex_intro _ tr0 (conj Hsy0 (or_introl eq_refl)))))).
  unfold cut_off, tail_files. set (st := fold_left _ _ _) in *. destruct Hrun as (_ & dn & tr & (Htr & [Hsh Hof] & Hf) & Hrec).
  assert (Hg : grows w1 w') by (by eapply events_ok_grows). exists tr. split; [done|].
  split_and!; [by etrans|done|]. cbn [lv_found lv_trace lv_reach]. intros fid p s Hp Hck Hpos. destruct (proj2 (proj1 Htr fid)) as [t Ht]; [by eexists|].
  destruct (fm_pos _ _ _ _ _ (fm_stop _ _ _ _ _ (Hf fid t Ht))) as ([r Hd] & _ & Hpt & Hships).
  assert (Hst : start_of paths (load_offsets disk) w1 fid = s_pos s).
  { unfold start_of, resume. rewrite Hp, Hck. destruct (Hg1 fid) as [d ->]. rewrite N.min_l; [done|]. rewrite len_app. lia. }
  assert (Hre : reach_of st fid = s_pos s + len (dn fid)) by (unfold reach_of; by rewrite Ht, Hpt, Hst).
  rewrite Hst in Hd. assert (Hk : exists k, k <= len (dn fid) /\
    checkpoint_of (load_offsets (tl_disk st)) p fid = Some (mkSavedOffset (s_pos s + k) (dev fid) (ino fid))).
  { destruct Hrec as [->|Hrec]; [|rewrite <- Hst; by apply Hrec]. exists 0. split; [lia|]. rewrite Hck, N.add_0_r.
    f_equal. by apply (checkpoint_of_id (load_offsets disk) p). }
  destruct Hk as (k & Hk & Hck'). by exists (dn fid), r, k.
Qed.
End crash.
