(* ===== verification/MlRestartFacts.v ===== *)
(** Multiline mode over many lifetimes: the instance of [RestartFacts.FileMode]
    for record aggregation.

    A block is a part of the content that on its own is one record: a line, then
    lines that do not start a record. The offset of a file is always at the end
    of a block, so what was shipped is a cut of the content before it into
    blocks, whatever was refused, expired or flushed; the lines in flight after
    it are rebuilt by reading them again. *)
From stdpp Require Import functions.
From S2P Require Import Prelude Str StrFacts External Text Structured Sink Tailed TailedFacts Multiline MultilineFacts.
From S2P Require Import Watcher WatcherFacts OffsetFacts SessionFacts MlSessionFacts RestartFacts DrainFacts.
From Stdlib Require Import Strings.Byte.

Lemma pending_app_nil `{SimdUtf8, Memchr, MemchrIter, SerdeJson, Regex, !SimdUtf8Ok, !MemchrOk} a b :
  pending a = [] -> pending (a ++ b) = pending b.
Proof. intros Ha. destruct (ideal_app (mkFileParseOpts false false false) a b) as [_ ->]. by rewrite Ha. Qed.

Lemma concat_map_concat {A} (l : list (list (list A))) : concat (map (@concat A) l) = concat (concat l).
Proof. induction l as [|x l IH]; [done|]. cbn. by rewrite IH, concat_app. Qed.

Section mode.
Context `{SimdUtf8, Memchr, MemchrIter, SerdeJson, Regex, !SimdUtf8Ok, !MemchrOk}.
Context {S : Type} `{LogSink S, !LogSinkOk S}.
Implicit Types (t : TailedFile) (sink : S) (os : Os) (opts : FileParseOpts).
Notation mline := (bytes * N)%type.

Section blocks.
Context (ml : MultilineOpts).

(** The lines of a record whose last line may be unterminated. *)
Definition folded (cur : list mline) (part : bytes) (pb : N) : list mline :=
  cur ++ (if is_empty part then [] else [(normalize_line part, pb)]).

Definition block (b : bytes) (g : list mline) : Prop :=
  b <> [] /\ exists cur part pb, ml_ideal ml b = ([], (cur, part, pb)) /\ g = folded cur part pb.

Definition whole_block (b : bytes) (g : list mline) : Prop :=
  b <> [] /\ pending b = [] /\ ml_ideal ml b = ([], (g, [], 0)).

Lemma whole_block_block b g : whole_block b g -> block b g.
Proof. intros (Hne & _ & Hi). split; [done|]. exists g, [], 0. unfold folded. cbn. by rewrite app_nil_r. Qed.

Inductive cut : bytes -> list (list mline) -> Prop :=
| cut_nil : cut [] []
| cut_snoc seg gs b g : cut seg gs -> block b g -> cut (seg ++ b) (gs ++ [g]).

Lemma cut_app seg gs bs gs' : cut seg gs -> Forall2 whole_block bs gs' -> cut (seg ++ concat bs) (gs ++ gs').
Proof.
  intros Hc Hb. revert seg gs Hc. induction Hb as [|b g bs gs' Hb Hbs IH]; intros seg gs Hc; cbn [concat]; [by rewrite !app_nil_r|].
  rewrite app_assoc. replace (gs ++ g :: gs') with ((gs ++ [g]) ++ gs') by (by rewrite <- app_assoc).
  apply IH. constructor; [done|by apply whole_block_block].
Qed.

(** Every byte of a cut is in one of its blocks. *)
Lemma cut_block seg gs i :
  cut seg gs -> i < len seg ->
  exists pre b post gs1 g gs2, seg = pre ++ b ++ post /\ gs = gs1 ++ g :: gs2 /\ block b g /\
    len pre <= i /\ i < len pre + len b.
Proof.
  induction 1 as [|seg gs b g Hc IH Hb]; intros Hi; [rewrite len_nil in Hi; lia|].
  destruct (decide (i < len seg)) as [Hlt|Hge].
  - destruct (IH Hlt) as (pre & b' & post & gs1 & g' & gs2 & -> & -> & Hb' & Hp & Hi').
    exists pre, b', (post ++ b), gs1, g', (gs2 ++ [g]). rewrite <- !app_assoc. by split_and!.
  - exists seg, b, [], gs, g, []. rewrite len_app in Hi. rewrite app_nil_r. split_and!; [done..|lia|lia].
Qed.

Lemma pending_blocks bs gs : Forall2 whole_block bs gs -> pending (concat bs) = [].
Proof. induction 1 as [|b g bs gs (_ & Hp & _) _ IH]; [done|]. cbn [concat]. by rewrite pending_app_nil. Qed.

(** * The records of a content as blocks *)

Lemma ml_feed_all_blocks chunks :
  Forall (fun c => ends_with_nl c = true) chunks ->
  exists bs tl, chunks = concat bs ++ tl /\
    Forall2 (fun blk g => blk <> [] /\ ml_feed_all ml ([], [], 0) blk = ([], (g, [], 0))) bs (ml_feed_all ml ([], [], 0) chunks).1 /\
    ml_feed_all ml ([], [], 0) tl = ([], (ml_feed_all ml ([], [], 0) chunks).2) /\
    exists cur, (ml_feed_all ml ([], [], 0) chunks).2 = (cur, [], 0).
Proof.
  induction chunks as [|c chunks IH] using rev_ind; intros Ht.
  { exists [], []. cbn. split_and!; [done|constructor|done|by exists []]. }
  apply Forall_app in Ht as [Ht Hc]. apply Forall_inv in Hc. cbn beta in Hc.
  destruct (IH Ht) as (bs & tl & Hch & Hbs & Htl & cur & Hcur). rewrite ml_feed_all_app.
  destruct (ml_feed_all ml ([], [], 0) chunks) as [gs st]. cbn [fst snd] in *. subst st.
  rewrite ml_feed_all_cons. cbn [ml_feed_all fst snd]. rewrite app_nil_r.
  unfold ml_feed at 1 2 3. rewrite Hc. case_if; cbn [fst snd].
  - exists (bs ++ [tl]), [c]. split_and!.
    + by rewrite concat_app, Hch, <- !app_assoc; cbn; rewrite app_nil_r.
    + apply Forall2_app; [done|]. constructor; [|constructor]. split; [|done].
      intros ->. injection Htl as <-. by rewrite andb_false_r in Heqb.
    + rewrite ml_feed_all_cons. cbn [ml_feed_all]. unfold ml_feed. rewrite Hc. by rewrite andb_false_r.
    + by eexists.
  - exists bs, (tl ++ [c]). split_and!; [by rewrite Hch, app_assoc|by rewrite app_nil_r| |by eexists].
    rewrite ml_feed_all_app, Htl. cbn [fst snd]. rewrite ml_feed_all_cons. cbn [ml_feed_all].
    unfold ml_feed. by rewrite Hc, Heqb.
Qed.

Lemma chunks_of_block blk :
  Forall chunk_ok blk -> Forall (fun c => ends_with_nl c = true) blk ->
  content_chunks (concat blk) = blk /\ pending (concat blk) = [].
Proof.
  intros Hok Ht. split.
  - rewrite <- (app_nil_r (concat blk)). rewrite content_chunks_concat by (done || apply not_elem_of_nil). by rewrite app_nil_r.
  - destruct blk as [|l ls]; [done|]. apply (pending_terminated (l :: ls) []); [apply not_elem_of_nil|done..].
Qed.

(** A content is its closed records, as blocks, and the part in flight. *)
Lemma ml_blocks c :
  fits c -> exists bs infl, c = concat bs ++ infl /\ Forall2 whole_block bs (ml_ideal ml c).1 /\
    ml_ideal ml infl = ([], (ml_ideal ml c).2) /\ fits infl.
Proof.
  intros Hf. destruct (content_complete c) as (a & Ha & Hp).
  destruct (ml_ideal_split ml c a Ha Hp Hf) as (cur & Hcur & Hid).
  assert (Ht := content_chunks_terminated a Hp). assert (Hok := content_chunks_ok a).
  destruct (ml_feed_all_blocks _ Ht) as (blks & tl & Hch & Hbs & Htl & cur' & Hcur'). rewrite Hcur in Hcur', Htl.
  injection Hcur' as <-. rewrite Hch in Ht, Hok. apply Forall_app in Ht as [Htb Htt], Hok as [Hob Hot].
  destruct (chunks_of_block tl Hot Htt) as [Hct Hpt].
  exists (map (@concat byte) blks), (concat tl ++ pending c). rewrite Hid. cbn [fst snd].
  assert (Hpi : pending (concat tl ++ pending c) = pending c).
  { rewrite pending_app_nil by done. apply pending_none, pending_no_nl. }
  assert (Hfi : fits (concat tl ++ pending c)) by (unfold fits in *; by rewrite Hpi).
  split_and!; [| | |done].
  - rewrite app_assoc. rewrite Ha at 1. f_equal. by rewrite <- (content_chunks_bytes a), Hch, concat_app, concat_map_concat.
  - clear -Hbs Htb Hob. revert Hbs. generalize (ml_feed_all ml ([], [], 0) (content_chunks a)).1 as gs. intros gs Hbs.
    induction Hbs as [|blk g blks gs [Hne Hg] _ IH]; [constructor|]. cbn [concat map] in *.
    apply Forall_app in Htb as [Htb1 Htb], Hob as [Hob1 Hob]. constructor; [|by apply IH].
    destruct (chunks_of_block blk Hob1 Htb1) as [Hcb Hpb]. split_and!; [|done|unfold ml_ideal; by rewrite Hcb].
    destruct blk as [|l blk]; [done|]. apply Forall_inv in Hob1 as [Hl _]. by destruct l.
  - destruct (ml_ideal_split ml (concat tl ++ pending c) (concat tl)) as (cur2 & Hcur2 & Hid2);
      [by rewrite Hpi|done|done|]. rewrite Hid2, Hct, Hpi. rewrite Hct in Hcur2. rewrite Htl in *. cbn [fst snd] in *. by injection Hcur2 as <-.
Qed.

(** The part in flight: its complete lines, then the buffered one. *)
Lemma in_flight_split infl cur part pb :
  fits infl -> ml_ideal ml infl = ([], (cur, part, pb)) ->
  exists a, infl = a ++ part /\ pending a = [] /\ pb = len part /\ fits part /\
    ml_ideal ml a = ([], (cur, [], 0)) /\ ml_ideal ml part = ([], ([], part, pb)) /\ len a = span_sum cur.
Proof.
  intros Hf Hi. destruct (content_complete infl) as (a & Ha & Hp).
  destruct (ml_ideal_split ml infl a Ha Hp Hf) as (cur' & Hcur & Hid). rewrite Hi in Hid. injection Hid as Hgs <- Hpart ->.
  exists a. assert (Hpp : pending part = part) by (rewrite Hpart; apply pending_none, pending_no_nl).
  assert (Hfp : fits part) by (unfold fits in *; by rewrite Hpp, Hpart).
  assert (Hia : ml_ideal ml a = ([], (cur, [], 0))).
  { unfold ml_ideal. destruct (ml_feed_all _ _ _) as [gs st]. cbn in *. by subst. }
  split_and!; [by rewrite Hpart|done|by rewrite Hpart|done|done| |].
  - destruct (ml_ideal_split ml part []) as (c0 & Hc0 & Hid0); [by rewrite Hpp|done|done|].
    cbn in Hc0. injection Hc0 as <-. rewrite Hid0, Hpp. cbn. by rewrite Hpart.
  - assert (Hb := ml_ideal_bytes ml a). rewrite Hia in Hb. unfold state_bytes, closed_span in Hb. cbn [fst snd foldr] in Hb. lia.
Qed.

(** * The mode *)

Definition record_entries opts (es : list LogEntry) (seg : bytes) : Prop :=
  exists gs, cut seg gs /\ es = closed_entries opts ml gs.

(** The offset is at the end of a block, and the aggregator holds what follows. *)
Definition record_at opts (c : bytes) (start : N) (dn : bytes) (es : list LogEntry) t : Prop :=
  exists infl rest, drop (N.to_nat start) c = dn ++ infl ++ rest /\ start <= len c /\ pos t = start + len dn /\
    pending dn = [] /\ record_entries opts es dn /\ fits infl /\
    (agg t = None -> infl = [] /\ partial t = []) /\
    (is_Some (agg t) -> exists st, ml_ideal ml infl = ([], st) /\ represents ml t st).

(** During a stop the buffered line may have been folded into the record. *)
Definition record_at_stop opts (c : bytes) (start : N) (dn : bytes) (es : list LogEntry) t : Prop :=
  exists infl rest, drop (N.to_nat start) c = dn ++ infl ++ rest /\ start <= len c /\ pos t = start + len dn /\
    record_entries opts es dn /\
    (agg t = None -> partial t = []) /\
    (is_Some (agg t) -> exists cur part pb, represents ml t (cur, part, pb) /\ (part <> [] /\ 0 < pb \/ part = [] /\ pb = 0) /\
       span_sum (folded cur part pb) = len infl /\ (infl <> [] -> block infl (folded cur part pb))).

Lemma record_entries_blocks opts es dn bs gs :
  record_entries opts es dn -> Forall2 whole_block bs gs ->
  record_entries opts (es ++ closed_entries opts ml gs) (dn ++ concat bs).
Proof.
  intros (gs0 & Hc & ->) Hb. exists (gs0 ++ gs). split; [by apply cut_app|]. by rewrite closed_entries_app.
Qed.

Lemma len_blocks bs gs : Forall2 whole_block bs gs -> len (concat bs) = closed_span gs.
Proof.
  induction 1 as [|b g bs gs (_ & _ & Hi) _ IH]; [done|]. cbn [concat closed_span foldr]. rewrite len_app, IH.
  assert (Hb := ml_ideal_bytes ml b). rewrite Hi in Hb. unfold state_bytes, closed_span in *. cbn [fst snd foldr] in Hb. lia.
Qed.

Lemma record_poll os opts c start dn es t sink now res t' sink' :
  record_at opts c start dn es t -> serves os t c -> fits (drop (N.to_nat start) c) ->
  check_and_read os t sink opts (Some ml) now = (res, t', sink') ->
  exists more new, shipped sink' = shipped sink ++ new /\ record_at opts c start (dn ++ more) (es ++ new) t' /\
    (res = Idle \/ exists n, res = RBytes n).
Proof.
  intros (infl & rest & Hd & Hst & Hp & Hpend & Hrec & Hfit & Hnone & Hsome) (f & m & Ho & Hm & Hid & Hlen & Hseek) Hfull.
  assert (Hlc : len c = start + len dn + len infl + len rest).
  { apply (f_equal len) in Hd. rewrite !len_app in Hd. revert Hd Hst. len_lia. }
  assert (Hfull' : fits (infl ++ rest)) by (rewrite Hd in Hfull; unfold fits in *; by rewrite pending_app_nil in Hfull).
  unfold check_and_read. rewrite Ho, Hm, Hid, bool_decide_eq_true_2 by done. cbn [negb].
  destruct (N.ltb_spec (md_len m) (pos t)); [lia|]. destruct (N.leb_spec (md_len m) (pos t)).
  { intros [= <- <- <-]. exists [], []. rewrite !app_nil_r. split_and!; [done| |by left]. by exists infl, rest. }
  unfold read_live.
  assert (Hrep : exists st, ml_ideal ml infl = ([], st) /\ represents ml (ensure_agg t) st /\ pos (ensure_agg t) = pos t).
  { unfold ensure_agg. destruct (agg t) as [a|] eqn:Ea.
    - destruct (Hsome ltac:(by eexists)) as (st & ? & ?). by exists st.
    - destruct (Hnone eq_refl) as [-> Hpt]. exists ([], [], 0). split_and!; [done| |done].
      assert (He := ensure_agg_represents ml t Ea Hpt). unfold ensure_agg in He. by rewrite Ea in He. }
  destruct Hrep as (st & Hst0 & Hrep & Hpe). assert (Hrf := represents_read_from _ _ _ Hrep).
  assert (Hb := ml_ideal_bytes ml infl). rewrite Hst0 in Hb. cbn [fst snd closed_span foldr] in Hb.
  destruct (Hseek (read_from (ensure_agg t)) ltac:(lia)) as (r & Hr & Hq & Hstr). rewrite Hr.
  assert (Hrest : stream r = rest).
  { rewrite Hstr, Hrf, Hpe, Hp. replace (_ + _ + _) with (start + len (dn ++ infl)) by (rewrite len_app; lia).
    rewrite N2Nat.inj_add, <- drop_drop, Hd, app_assoc. apply drop_len_app. }
  destruct (read_loop _ _ _ _ _ _) as [[[reason n] t1] s1] eqn:Hrun.
  apply (read_loop_refines _ _ _ _ _ _ _ _ _ _ _ Hrep) in Hrun as (ls & r' & Hls & -> & Hrep' & Hp' & Hsh').
  assert (Hfit' : fits (infl ++ concat ls)) by (eapply fits_prefix; [done..|by rewrite Hrest]).
  assert (Hstep := ml_ideal_step ml infl r ls r' Hfit Hq Hls Hfit'). rewrite Hst0 in Hstep. cbn [fst snd app] in Hstep.
  destruct (ml_blocks _ Hfit') as (bs & infl' & Hcat & Hbs & Hi' & Hf'). rewrite Hstep in Hbs, Hi'. cbn [fst snd] in Hbs, Hi'.
  intros [= <- <- <-]. exists (concat bs), (closed_entries opts ml (ml_feed_all ml st ls).1). split_and!; [done| |].
  - exists infl', (stream r'). split_and!; [|done| | | |done| |].
    + rewrite Hd, <- Hrest, (proj2 (reads_chunks _ _ _ Hls)), <- app_assoc. f_equal. by rewrite !app_assoc, Hcat.
    + rewrite Hp', Hpe, Hp, len_app, (len_blocks _ _ Hbs). lia.
    + rewrite pending_app_nil by done. by eapply pending_blocks.
    + by apply record_entries_blocks.
    + destruct (ml_feed_all ml st ls).2 as [[? ?] ?]. destruct Hrep' as (a & -> & _). done.
    + intros _. by eexists.
  - case_if; [right; by eexists|by left].
Qed.

Lemma record_expire opts c start dn es t sink now1 now2 left t' sink' :
  record_at opts c start dn es t -> flush_if_expired t sink opts ml now1 now2 = (left, t', sink') ->
  exists more new, shipped sink' = shipped sink ++ new /\ record_at opts c start (dn ++ more) (es ++ new) t'.
Proof.
  intros Hat. assert (Hsame : forall s, shipped s = shipped sink -> exists more new,
    shipped s = shipped sink ++ new /\ record_at opts c start (dn ++ more) (es ++ new) t).
  { intros s Hs. exists [], []. by rewrite !app_nil_r. }
  unfold flush_if_expired. destruct (agg t) as [a|] eqn:Ea; [|intros [= <- <- <-]; by apply Hsame].
  destruct (has_record a) eqn:Eh; [|intros [= <- <- <-]; by apply Hsame].
  match goal with |- (let '(_, _) := ?x in _) = _ -> _ => destruct x as [t1 s1] eqn:Ex end.
  assert (Hres : exists more new, shipped s1 = shipped sink ++ new /\ record_at opts c start (dn ++ more) (es ++ new) t1).
  2: { destruct (agg t1) as [a1|]; [destruct (has_record a1)|]; by intros [= <- <- <-]. }
  clear left t' sink'. revert Ex. case_if; intros Ex; [|injection Ex as <- <-; by apply Hsame].
  destruct (ship t sink opts) as [[ok t2] s2] eqn:Es. injection Ex as <- <-.
  destruct Hat as (infl & rest & Hd & Hst & Hp & Hpend & Hrec & Hfit & Hnone & Hsome).
  destruct (Hsome ltac:(by eexists)) as ([[cur part] pb] & Hi & Hrep).
  apply (ship_spec _ _ _ ml cur part pb) in Es; [|done]. destruct ok; [|destruct Es as [-> ->]; by apply Hsame].
  destruct Es as (Hrep2 & Hp2 & Hs2 & _). assert (Hcur := represents_has_record ml t cur part pb a Hrep Ea).
  destruct (in_flight_split infl cur part pb Hfit Hi) as (a0 & -> & Hpa & -> & Hfp & Hia & Hip & Hla).
  destruct cur as [|l cur]; [by rewrite Eh in Hcur|]. set (g := l :: cur) in *.
  assert (Hwb : Forall2 whole_block [a0] [g]).
  { constructor; [|constructor]. split_and!; [|done|done]. intros ->. discriminate. }
  exists a0, (group_entries opts ml g). split; [done|]. exists part, rest.
  assert (Hre := record_entries_blocks opts es dn _ _ Hrec Hwb). cbn [concat] in Hre. rewrite app_nil_r in Hre.
  unfold closed_entries in Hre. cbn [map concat] in Hre. rewrite app_nil_r in Hre.
  split_and!; [by rewrite Hd, <- !app_assoc|done|rewrite Hp2, Hp, len_app; lia|by rewrite pending_app_nil|done|done| |].
  - destruct Hrep2 as (a2 & -> & _). done.
  - intros _. by eexists.
Qed.

Lemma record_stop opts c start dn es t : record_at opts c start dn es t -> record_at_stop opts c start dn es t.
Proof.
  intros (infl & rest & Hd & Hst & Hp & _ & Hrec & Hfit & Hnone & Hsome). exists infl, rest. split_and!; [done..|naive_solver|].
  intros Ha. destruct (Hsome Ha) as ([[cur part] pb] & Hi & Hrep). exists cur, part, pb. split; [done|].
  destruct (in_flight_split infl cur part pb Hfit Hi) as (a & -> & _ & -> & _ & _ & _ & Hla). split_and!.
  - destruct part as [|x part]; [by right|left]. rewrite len_cons. split; [done|lia].
  - unfold folded. rewrite span_sum_app, len_app, Hla. f_equal.
    destruct part as [|x part]; [done|]. unfold span_sum. cbn [is_empty foldr snd]. lia.
  - intros Hne. split; [done|]. by eexists _, _, _.
Qed.

Lemma fold_partial_folded t cur part pb :
  represents ml t (cur, part, pb) -> part <> [] /\ 0 < pb \/ part = [] /\ pb = 0 -> represents ml (fold_partial t ml) (folded cur part pb, [], 0).
Proof.
  intros Hrep Hpb. assert (Hf := fold_partial_represents ml t cur part pb Hrep ltac:(naive_solver)). unfold folded.
  destruct part as [|x part]; cbn [is_empty] in *; [|done]. destruct Hpb as [[? _]|[_ ->]]; [done|by rewrite app_nil_r].
Qed.

Lemma record_flush opts c start dn es t sink t' sink' :
  record_at_stop opts c start dn es t -> flush_final t sink opts ml = (t', sink') ->
  exists more new, shipped sink' = shipped sink ++ new /\ record_at_stop opts c start (dn ++ more) (es ++ new) t'.
Proof.
  intros (infl & rest & Hd & Hst & Hp & Hrec & Hnone & Hsome). unfold flush_final.
  destruct (ship (fold_partial t ml) sink opts) as [[ok t1] s1] eqn:Es. intros [= <- <-].
  destruct (agg t) as [a|] eqn:Ea.
  - destruct (Hsome ltac:(by eexists)) as (cur & part & pb & Hrep & Hpb & Hspan & Hblock). clear Hsome Hnone.
    assert (Hfold := fold_partial_folded t cur part pb Hrep Hpb). set (g := folded cur part pb) in *.
    assert (Hpf : pos (fold_partial t ml) = pos t).
    { unfold fold_partial. case_if; [done|]. cbn. by rewrite Ea. }
    apply (ship_spec _ _ _ ml g [] 0) in Es; [|done]. destruct ok.
    + destruct Es as (Hrep1 & Hp1 & Hs1 & _).
      assert (Hend : record_entries opts (es ++ match g with [] => [] | _ => group_entries opts ml g end) (dn ++ infl)).
      { destruct Hrec as (gs & Hc & ->). destruct g as [|l g'] eqn:Eg.
        - assert (infl = []) as -> by (apply len_0_nil; by rewrite <- Hspan). rewrite !app_nil_r. by exists gs.
        - exists (gs ++ [l :: g']). split.
          + constructor; [done|]. apply Hblock. intros ->. rewrite len_nil in Hspan.
            destruct Hfold as (a' & _ & _ & _ & _ & _ & _ & Hpos). apply Forall_inv in Hpos. cbn in Hspan. lia.
          + rewrite closed_entries_app. unfold closed_entries at 3. cbn [map concat]. by rewrite app_nil_r. }
      exists infl, (match g with [] => [] | _ => group_entries opts ml g end). split; [done|].
      exists [], rest. split_and!; [by rewrite Hd, <- app_assoc|done|rewrite Hp1, Hpf, Hp, len_app, Hspan; lia|done| |].
      * by destruct Hrep1 as (a1 & -> & _).
      * intros _. exists [], [], 0. split_and!; [done|by right|done|done].
    + destruct Es as [-> Hs1]. exists [], []. rewrite !app_nil_r. split; [done|]. exists infl, rest.
      split_and!; [done|done|by rewrite Hpf|done| |].
      * by destruct Hfold as (a1 & -> & _).
      * intros _. exists g, [], 0. assert (Hg : folded g [] 0 = g) by (unfold folded; cbn; by rewrite app_nil_r).
        rewrite Hg. split_and!; [done|by right|done|done].
  - assert (Ht : fold_partial t ml = t) by (unfold fold_partial; by rewrite Hnone).
    rewrite Ht in Es. unfold ship in Es. rewrite Ea in Es. injection Es as <- <- <-.
    exists [], []. rewrite !app_nil_r. split; [done|]. exists infl, rest. rewrite Ea. by split_and!.
Qed.

#[global] Program Instance record_mode opts : FileMode opts (Some ml) := {|
  fm_at := record_at opts;
  fm_done := record_at_stop opts;
  fm_ships := record_entries opts;
|}.
Next Obligation.
  intros opts c start p fid Hs. exists [], (drop (N.to_nat start) c).
  split_and!; [done|done|cbn; rewrite len_nil; lia|done|by exists []; split; [constructor|]|by split|done|by intros []].
Qed.
Next Obligation.
  intros opts c d start dn es t (infl & rest & Hd & Hst & Hrest). exists infl, (rest ++ d).
  split_and!; [|len_lia|apply Hrest..]. rewrite drop_app_le by len_lia. by rewrite Hd, <- !app_assoc.
Qed.
Next Obligation. intros opts os c start dn es t sink now res t' sink'. apply record_poll. Qed.
Next Obligation. intros opts m c start dn es t sink now1 now2 left t' sink' [= <-]. apply record_expire. Qed.
Next Obligation. intros opts c start dn es t. apply record_stop. Qed.
Next Obligation. intros opts c start dn es t sink t' sink'. apply record_flush. Qed.
Next Obligation.
  intros opts c start dn es t (infl & rest & Hd & Hst & Hp & Hrec & _). split_and!; [by eexists|done..].
Qed.

(** * The final drain *)

Lemma ship_room k t sink opts ok t' sink' :
  has_room (k + 1) sink -> ship t sink opts = (ok, t', sink') ->
  ok = true /\ has_room k sink' /\ read_ahead <$> agg t' = read_ahead <$> agg t.
Proof.
  intros Hr. assert (Hrk : has_room k sink) by (eapply has_room_le; [done|lia]).
  unfold ship. destruct (agg t) as [a|] eqn:Ea; [|intros [= <- <- <-]; by rewrite Ea].
  destruct (negb _); [intros [= <- <- <-]; by rewrite Ea|]. destruct (is_empty _); [by intros [= <- <- <-]|].
  destruct (has_room_try k sink (classified_entry (classify_line (record a) opts)) Hr) as [Ha Hr'].
  destruct (try_log_with_service _ _) as [s ok']. cbn [fst snd] in *. subst ok'. by intros [= <- <- <-].
Qed.

Lemma commit_line_room k t line n sink opts now cm t' sink' a :
  has_room (k + 1) sink -> agg t = Some a -> commit_line t line n sink opts ml now = (cm, t', sink') ->
  cm = CommitOk /\ has_room k sink' /\ exists a', agg t' = Some a' /\ read_ahead a' = read_ahead a + n.
Proof.
  intros Hr Ha. unfold commit_line.
  destruct (if _ && _ then ship t sink opts else (true, t, sink)) as [[ok t1] s1] eqn:Ex.
  assert (Hs : ok = true /\ has_room k s1 /\ read_ahead <$> agg t1 = Some (read_ahead a)).
  { revert Ex. case_if; [|intros [= <- <- <-]; rewrite Ha; split_and!; [done|eapply has_room_le; [done|lia]|done]].
    intros Es. apply (ship_room k) in Es as (-> & ? & ->); [|done]. by rewrite Ha. }
  destruct Hs as (-> & Hr1 & Hra). cbn [negb]. destruct (agg t1) as [a1|]; [|done]. cbn in Hra. injection Hra as Hra.
  intros [= <- <- <-]. split_and!; [done|done|]. eexists. split; [done|]. cbn. by rewrite Hra.
Qed.

Lemma ml_loop_room k fuel r t sink opts now c n reason c' t' sink' a :
  has_room (k + newlines (stream r)) sink -> agg t = Some a -> ml_loop fuel r t sink opts ml now c n = Some (reason, c', t', sink') ->
  has_room k sink' /\ exists a', agg t' = Some a' /\
    (quiet r -> n + newlines (stream r) < MAX_LINES_PER_POLL -> read_ahead a' = read_ahead a + len (stream r)).
Proof.
  revert r t sink c n a. induction fuel as [|fuel IH]; intros r t sink c n a Hr Ha; cbn [ml_loop]; [done|].
  assert (Hrk : has_room k sink) by (eapply has_room_le; [exact Hr|lia]).
  destruct (read_line r []) as [[[m|] buf] r'] eqn:Er.
  2: { intros [= <- <- <- <-]. split; [done|]. exists a. split; [done|]. intros Hq.
       destruct (read_line_quiet r Hq) as (? & Hrl & _). congruence. }
  assert (Hst : m = len buf /\ stream r = buf ++ stream r') by (by apply read_line_ok in Er as (_ & -> & ? & _)).
  destruct Hst as [-> Hst]. destruct (N.eqb_spec (len buf) 0) as [Hz|Hz].
  { intros [= <- <- <- <-]. split; [done|]. exists a. split; [done|]. intros Hq.
    destruct (read_line_quiet r Hq) as (r2 & Hrl & _). rewrite Er in Hrl. injection Hrl as _ Hb _. apply len_0_nil in Hz.
    rewrite Hz in Hb. symmetry in Hb. apply first_line_nil in Hb. intros _. rewrite Hb. change (len []) with 0. lia. }
  assert (Hquiet : quiet r -> quiet r').
  { intros Hq. destruct (read_line_quiet r Hq) as (r2 & Hrl & Hq2 & _). congruence. }
  rewrite Hst, newlines_app in *. rewrite len_app. destruct (ends_with_nl buf) eqn:Enl.
  - apply newlines_line in Enl. destruct (commit_line _ _ _ _ _ _ _) as [[cm t1] s1] eqn:Ec.
    destruct (commit_line_room (k + newlines (stream r')) _ _ _ _ _ _ _ _ _ _ ltac:(eapply has_room_le; [exact Hr|lia]) Ha Ec) as (-> & Hr1 & a1 & Ha1 & Hra1).
    case_if; norm_bool.
    + intros [= <- <- <- <-]. split; [eapply has_room_le; [exact Hr1|lia]|]. exists a1. split; [done|]. lia.
    + intros E. destruct (IH _ _ _ _ _ a1 Hr1 Ha1 E) as (Hr2 & a2 & Ha2 & Hend). split; [done|]. exists a2. split; [done|].
      intros Hq Hlt. rewrite Hend by (by auto || lia). lia.
  - rewrite Ha. intros E. assert (Hr' : has_room (k + newlines (stream r')) sink) by (eapply has_room_le; [exact Hr|lia]).
    destruct (IH _ _ _ _ _ _ Hr' (eq_refl : agg (set_partial _ (set_agg (Some _) t)) = Some _) E) as (Hr2 & a2 & Ha2 & Hend). split; [done|]. exists a2. split; [done|].
    intros Hq Hlt. rewrite Hend by (by auto || lia). cbn. lia.
Qed.

Lemma record_poll_room k os opts c start dn es t sink now res t' sink' :
  record_at opts c start dn es t -> serves os t c -> has_room (k + newlines (drop (N.to_nat (read_from t)) c)) sink ->
  check_and_read os t sink opts (Some ml) now = (res, t', sink') ->
  has_room k sink' /\ (newlines (drop (N.to_nat (read_from t)) c) < MAX_LINES_PER_POLL -> read_from t' = len c).
Proof.
  intros (infl & rest & Hd & Hst & Hp & _ & _ & _ & Hnone & Hsome) (f & m & Ho & Hm & Hid & Hlen & Hseek) Hr.
  assert (Hlc : len c = start + len dn + len infl + len rest).
  { apply (f_equal len) in Hd. rewrite !len_app in Hd. revert Hd Hst. len_lia. }
  assert (Hrf : read_from t = pos t + len infl).
  { destruct (agg t) as [a|] eqn:Ea.
    - destruct (Hsome ltac:(by eexists)) as (st & Hi & Hrep). rewrite (represents_read_from _ _ _ Hrep).
      assert (Hb := ml_ideal_bytes ml infl). rewrite Hi in Hb. cbn [fst snd closed_span foldr] in Hb. lia.
    - destruct (Hnone eq_refl) as [-> _]. unfold read_from. rewrite Ea, len_nil. lia. }
  unfold check_and_read. rewrite Ho, Hm, Hid, bool_decide_eq_true_2 by done. cbn [negb].
  destruct (N.ltb_spec (md_len m) (pos t)); [lia|]. destruct (N.leb_spec (md_len m) (pos t)).
  { intros [= <- <- <-]. split; [eapply has_room_le; [done|lia]|]. intros _. lia. }
  unfold read_live.
  assert (He : read_from (ensure_agg t) = read_from t /\ exists a, agg (ensure_agg t) = Some a /\ read_ahead a = read_from t).
  { unfold ensure_agg, read_from. destruct (agg t) eqn:Ea; cbn; rewrite ?Ea; split; try done; by eexists. }
  destruct He as (-> & a & Ha & Hra).
  destruct (Hseek (read_from t) ltac:(lia)) as (r & Hrd & Hq & Hstr). rewrite Hrd. unfold read_loop.
  destruct (ml_loop_total (Datatypes.S (reader_size r)) r (ensure_agg t) sink opts ml now 0 0 ltac:(lia)) as [[[[st m0] t1] s1] E].
  rewrite E. rewrite <- Hstr in Hr. destruct (ml_loop_room _ _ _ _ _ _ _ _ _ _ _ _ _ _ Hr Ha E) as (Hr1 & a1 & Ha1 & Hend).
  intros [= <- <- <-]. split; [done|]. rewrite <- Hstr. intros Hn. unfold read_from at 1. rewrite Ha1, (Hend Hq) by lia.
  rewrite Hra, Hstr. revert Hlc Hrf Hp. len_lia.
Qed.

Lemma record_flush_room k opts c start dn es t sink t' sink' :
  record_at_stop opts c start dn es t -> has_room (k + 1) sink -> flush_final t sink opts ml = (t', sink') ->
  has_room k sink' /\ pos t' = read_from t /\ read_from t' = pos t'.
Proof.
  intros (infl & rest & _ & _ & _ & _ & Hnone & Hsome) Hr. unfold flush_final.
  destruct (ship (fold_partial t ml) sink opts) as [[ok t1] s1] eqn:Es. intros [= <- <-].
  assert (Hsr := ship_room k _ _ _ _ _ _ Hr Es). destruct Hsr as (-> & Hr1 & _). split; [done|].
  destruct (agg t) as [a|] eqn:Ea.
  - destruct (Hsome ltac:(by eexists)) as (cur & part & pb & Hrep & Hpb & Hspan & _).
    assert (Hfold := fold_partial_folded t cur part pb Hrep Hpb). assert (Hrf := represents_read_from _ _ _ Hrep).
    assert (Hpf : pos (fold_partial t ml) = pos t) by (unfold fold_partial; case_if; [done|]; cbn; by rewrite Ea).
    apply (ship_spec _ _ _ ml (folded cur part pb) [] 0) in Es as (Hrep1 & Hp1 & _); [|done].
    rewrite (represents_read_from _ _ _ Hrep1), Hp1, Hpf, Hrf. unfold folded. rewrite span_sum_app. unfold state_bytes. cbn [fst snd].
    destruct part as [|x part]; cbn [is_empty]; unfold span_sum; cbn [foldr snd]; [|split; lia].
    destruct Hpb as [[? _]|[_ ->]]; [done|]. split; lia.
  - assert (Ht : fold_partial t ml = t) by (unfold fold_partial; by rewrite Hnone).
    rewrite Ht in Es. unfold ship in Es. rewrite Ea in Es. injection Es as <- <-. unfold read_from. by rewrite Ea.
Qed.

#[global] Instance record_drain opts : DrainMode opts (Some ml) (record_mode opts).
Proof.
  split.
  - intros k os c start dn es t sink now res t' sink' Hat Hs _ Hr Hrun. exact (record_poll_room k os opts c start dn es t sink now res t' sink' Hat Hs Hr Hrun).
  - intros k c start dn es t sink t' sink' Hat Hr Hf. exact (record_flush_room k opts c start dn es t sink t' sink' Hat Hr Hf).
Qed.
End blocks.
End mode.
