(* ===== verification/Source.v ===== *)
(** [src/src/logs/source.rs]: the checkpoint write and the restart backoff the
    log sources share. *)
From S2P Require Import Prelude Str.

(** How the system calls of one checkpoint write went: whether the temporary
    file could be created, how many bytes reached it, whether [write_all],
    [sync_all] and [rename] succeeded. *)
Record CheckpointIo := mkCheckpointIo {
  ck_create : bool;
  ck_written : nat;
  ck_write : bool;
  ck_sync : bool;
  ck_rename : bool;
}.

(** The state directory: the checkpoint and its temporary sibling. *)
Record StateDir := mkStateDir { ck_file : option bytes; ck_tmp : option bytes }.

(** [write_all] succeeds only when every byte reached the file. *)
Definition written_bytes (io : CheckpointIo) (data : bytes) : bytes :=
  if ck_write io then data else take (ck_written io) data.

Definition write_checkpoint (io : CheckpointIo) (data : bytes) (d : StateDir) : StateDir :=
  if negb (ck_create io) then d
  else
    let tmp := written_bytes io data in
    if ck_write io && ck_sync io then
      if ck_rename io then mkStateDir (Some tmp) None else mkStateDir (ck_file d) (Some tmp)
    else mkStateDir (ck_file d) (Some tmp).

(** Durations in nanoseconds; [Duration * 2] does not overflow below [max]. *)
Definition next_backoff (current max : N) : N := N.min (current * 2) max.

Definition secs (n : N) : N := n * 1000000000.

(** * Properties *)

Definition all_ok (io : CheckpointIo) : bool :=
  ck_create io && ck_write io && ck_sync io && ck_rename io.

(** The checkpoint is the old one or the whole new one, never a prefix. *)
Lemma write_checkpoint_atomic io data d :
  ck_file (write_checkpoint io data d) = if all_ok io then Some data else ck_file d.
Proof.
  unfold write_checkpoint, all_ok, written_bytes.
  by destruct (ck_create io), (ck_write io), (ck_sync io), (ck_rename io).
Qed.

(** The [k]-th delay of a restart loop. *)
Fixpoint backoff_after (k : nat) (current max : N) : N :=
  match k with O => current | S k' => backoff_after k' (next_backoff current max) max end.

Lemma backoff_after_spec k current max :
  current <= max -> backoff_after k current max = N.min (current * 2 ^ N.of_nat k) max.
Proof.
  revert current. induction k as [|k IH]; intros current Hc; cbn [backoff_after].
  - cbn. lia.
  - unfold next_backoff. rewrite IH by lia. rewrite Nat2N.inj_succ, N.pow_succ_r'.
    destruct (N.le_gt_cases (current * 2) max) as [Hle|Hgt].
    + rewrite (N.min_l (current * 2) max) by done. f_equal. lia.
    + assert (1 <= 2 ^ N.of_nat k) by (apply N.lt_pred_le, N.neq_0_lt_0, N.pow_nonzero; done).
      rewrite (N.min_r (current * 2) max) by lia. rewrite !N.min_r; nia.
Qed.
