(* ===== verification/Journal.v ===== *)
(** [src/src/logs/journal.rs]: the journald source. Each line of
    [journalctl --output=json --follow] is one entry; the cursor of the last
    entry handled is checkpointed so that a restart resumes after it.

    A run of the subprocess is a sequence of events: what the [select!] of the
    read loop woke up for. While the channel is full the loop sleeps and tries
    the same line again; [waits] lists what the SDK's worker does to the sink
    during each sleep, and when it is exhausted the cancellation has come. *)
From S2P Require Import Prelude Str StrFacts External Text Structured Sink Source.
From Stdlib Require Import Strings.Byte.

Definition MAX_LINE_LEN : N := 256 * 1024.
Definition CURSOR_SAVE_INTERVAL : N := 100.
Definition MAX_BACKOFF : N := secs 30.
Definition SELF_IDENTIFIER : bytes := b#"witness".

Record ServiceFilter := mkServiceFilter { sf_include : list bytes; sf_exclude : list bytes }.

Definition excludes (f : ServiceFilter) (program : bytes) : bool :=
  if existsb (fun s => bool_decide (s = program)) (sf_exclude f) then true
  else negb (is_empty (sf_include f))
       && negb (existsb (fun s => bool_decide (s = program)) (sf_include f)).

(** * The entry *)

Record JournalEntry := mkJournalEntry {
  j_message : option bytes;
  j_syslog_identifier : option bytes;
  j_comm : option bytes;
  j_priority : option bytes;
  j_cursor : option bytes;
  j_extras : gmap bytes Value;
}.

Definition named_fields : list bytes :=
  [b#"MESSAGE"; b#"SYSLOG_IDENTIFIER"; b#"_COMM"; b#"PRIORITY"; b#"__CURSOR"].

(** A defaulted [Option<String>] field: absent or null is [None], a second
    occurrence or another type is an error. *)
Definition string_field (k : bytes) (members : list (bytes * Value)) : option (option bytes) :=
  match List.filter (fun kv : bytes * Value => bool_decide (kv.1 = k)) members with
  | [] => Some None
  | [(_, VNull)] => Some None
  | [(_, VString s)] => Some (Some s)
  | _ => None
  end.

(** The flattened rest; a later duplicate replaces an earlier one. *)
Definition flatten_extras (members : list (bytes * Value)) : gmap bytes Value :=
  fold_left (fun m kv =>
    if existsb (fun n => bool_decide (n = kv.1)) named_fields then m else <[kv.1 := kv.2]> m)
    members ∅.

Definition entry_of_members (members : list (bytes * Value)) : option JournalEntry :=
  match string_field b#"MESSAGE" members, string_field b#"SYSLOG_IDENTIFIER" members,
        string_field b#"_COMM" members, string_field b#"PRIORITY" members,
        string_field b#"__CURSOR" members with
  | Some m, Some s, Some c, Some p, Some u => Some (mkJournalEntry m s c p u (flatten_extras members))
  | _, _, _, _, _ => None
  end.

(** * Payload *)

Definition SYSTEMD_META_DENYLIST : list bytes :=
  [b#"SYSLOG_FACILITY"; b#"SYSLOG_PID"; b#"SYSLOG_RAW"].

Definition dropped_field (k : bytes) : bool :=
  starts_with b#"_" k || existsb (fun d => bool_decide (d = k)) SYSTEMD_META_DENYLIST.

Definition priority_to_level (priority : bytes) : option LogLevel :=
  if bool_decide (priority = b#"0") then Some Emergency
  else if bool_decide (priority = b#"1") then Some Alert
  else if bool_decide (priority = b#"2") then Some Critical
  else if bool_decide (priority = b#"3") then Some Error
  else if bool_decide (priority = b#"4") then Some Warning
  else if bool_decide (priority = b#"5") then Some Notice
  else if bool_decide (priority = b#"6") then Some Info
  else if bool_decide (priority = b#"7") then Some Debug
  else None.

(** * Cursor persistence *)

Definition load_cursor (d : StateDir) : option bytes :=
  match ck_file d with
  | Some s =>
    if valid_utf8 s then
      let c := trim s in if is_empty c then None else Some c
    else None
  | None => None
  end.

Definition save_cursor (io : CheckpointIo) (cursor : option bytes) (d : StateDir) : StateDir :=
  match cursor with
  | Some c => write_checkpoint io c d
  | None => d
  end.

(** The arguments of the subprocess. *)
Definition journalctl_args (cursor : option bytes) : list bytes :=
  [b#"--output=json"; b#"--follow"; b#"--no-pager"]
  ++ match cursor with
     | Some c => [b#"--after-cursor=" ++ c]
     | None => [b#"--lines=0"]
     end.

Inductive ProcessResult :=
| Handled (cursor : option bytes)
| ChannelFull
| ParseFailed.

Record ReaderState := mkReaderState {
  last_cursor : option bytes;
  entries_since_save : N;
  dropped : N;
}.

Definition reader_state_new (initial_cursor : option bytes) : ReaderState :=
  mkReaderState initial_cursor 0 0.

Section journal.
Context `{SimdUtf8, Memchr, MemchrIter, SerdeJson, SerdeDerive, Lowercase, HashOrder Value}.
Context {S : Type} `{LogSink S}.

(** [extras] in the iteration order of the hash map. *)
Definition app_fields_payload (extras : list (bytes * Value)) : option Value :=
  let obj := fold_left (fun obj kv =>
    if dropped_field kv.1 then obj
    else map_insert (str_to_lowercase kv.1) kv.2 obj) extras [] in
  if is_empty obj then None else Some (VObject obj).

Definition merge_payloads (extras : gmap bytes Value) (parsed : option Value) : option Value :=
  let metadata := app_fields_payload (hash_order extras) in
  match metadata, parsed with
  | None, None => None
  | Some m, None => Some m
  | None, Some p => Some p
  | Some (VObject m), Some (VObject p) =>
    Some (VObject (fold_left (fun m kv => map_insert kv.1 kv.2 m) p m))
  | Some m, Some _ => Some m
  end.

Definition from_str (json_line : bytes) : option JournalEntry :=
  match json_members json_line with
  | Some members => entry_of_members members
  | None => None
  end.

Definition process_entry (json_line : bytes) (filter : ServiceFilter) (sink : S)
    : ProcessResult * S :=
  match from_str (trim json_line) with
  | None => (ParseFailed, sink)
  | Some entry =>
    let cursor := j_cursor entry in
    match j_message entry with
    | None => (Handled cursor, sink)
    | Some message =>
      if is_empty message then (Handled cursor, sink)
      else
        let program :=
          match j_syslog_identifier entry with
          | Some s => s
          | None => match j_comm entry with Some c => c | None => b#"unknown" end
          end in
        if bool_decide (program = SELF_IDENTIFIER) then (Handled cursor, sink)
        else if excludes filter program then (Handled cursor, sink)
        else
          let level :=
            match j_priority entry with
            | Some p => match priority_to_level p with Some l => l | None => Info end
            | None => Info
            end in
          let '(body, parsed_fields) := split_message message in
          let payload := merge_payloads (j_extras entry) parsed_fields in
          let '(sink', ok) :=
            try_log_with_service sink (mkLogEntry level body None (Some program) payload) in
          if ok then (Handled cursor, sink') else (ChannelFull, sink')
    end
  end.

(** The new state, the disk and the sink; [false] when cancelled while waiting. *)
Fixpoint handle_entry (waits : list (S -> S)) (io : CheckpointIo) (st : ReaderState)
    (line : bytes) (filter : ServiceFilter) (sink : S) (d : StateDir)
    : bool * ReaderState * StateDir * S :=
  match process_entry line filter sink with
  | (Handled cursor, sink') =>
    let lc := match cursor with Some c => Some c | None => last_cursor st end in
    let n := entries_since_save st + 1 in
    if CURSOR_SAVE_INTERVAL <=? n
    then (true, mkReaderState lc 0 (dropped st), save_cursor io lc d, sink')
    else (true, mkReaderState lc n (dropped st), d, sink')
  | (ChannelFull, sink') =>
    match waits with
    | [] => (false, st, d, sink')
    | w :: waits' => handle_entry waits' io st line filter (w sink') d
    end
  | (ParseFailed, sink') =>
    (true, mkReaderState (last_cursor st) (entries_since_save st) (wrap64 (dropped st + 1)), d, sink')
  end.

Inductive LoopExit := Cancelled | Failed.

(** A line read, with the waits and the checkpoint write its handling meets;
    the end of the stream; a read error; the cancellation. *)
Inductive JEvent :=
| JLine (line : bytes) (waits : list (S -> S)) (io : CheckpointIo)
| JEof
| JReadError
| JCancel.

(** The read loop of [run_journalctl]. When the events run out the loop is
    still waiting, and there is no exit yet. *)
Fixpoint journal_loop (evs : list JEvent) (filter : ServiceFilter) (final : CheckpointIo)
    (st : ReaderState) (d : StateDir) (sink : S) : option LoopExit * ReaderState * StateDir * S :=
  match evs with
  | [] => (None, st, d, sink)
  | JCancel :: _ => (Some Cancelled, st, save_cursor final (last_cursor st) d, sink)
  | JEof :: _ => (Some Failed, st, save_cursor final (last_cursor st) d, sink)
  | JReadError :: _ => (Some Failed, st, save_cursor final (last_cursor st) d, sink)
  | JLine line waits io :: rest =>
    if MAX_LINE_LEN <? len line then journal_loop rest filter final st d sink
    else
      let '(ok, st', d', sink') := handle_entry waits io st line filter sink d in
      if ok then journal_loop rest filter final st' d' sink'
      else (Some Cancelled, st', save_cursor final (last_cursor st') d', sink')
  end.

(** One run of the subprocess: [spawned] says whether it could be started and
    its output captured. *)
Definition run_journalctl (spawned : bool) (evs : list JEvent) (filter : ServiceFilter)
    (final : CheckpointIo) (d : StateDir) (sink : S) : option LoopExit * StateDir * S :=
  let cursor := load_cursor d in
  if negb spawned then (Some Failed, d, sink)
  else
    let '(exit, _, d', sink') := journal_loop evs filter final (reader_state_new cursor) d sink in
    (exit, d', sink').

(** The restart loop: each run with its events, and whether the cancellation
    came before the next one ([cancel] set, or during the backoff sleep). The
    last component is the backoff of the next restart. *)
Fixpoint tail_journal (runs : list (bool * list JEvent * CheckpointIo * bool))
    (filter : ServiceFilter) (backoff : N) (d : StateDir) (sink : S) : StateDir * S * N :=
  match runs with
  | [] => (d, sink, backoff)
  | (spawned, evs, final, cancelled) :: rest =>
    let '(exit, d', sink') := run_journalctl spawned evs filter final d sink in
    match exit with
    | Some Failed =>
      if (cancelled : bool) then (d', sink', backoff)
      else tail_journal rest filter (next_backoff backoff MAX_BACKOFF) d' sink'
    | _ => (d', sink', backoff)
    end
  end.
End journal.
