(* ===== verification/JournalFacts.v ===== *)
(** Properties of the journald source: the payload does not depend on hash
    order, an entry ships exactly once unless it is filtered, and the cursor on
    disk is never ahead of what was shipped. *)
From S2P Require Import Prelude Str StrFacts External Text Structured Sink SinkFacts Source Journal.
From Stdlib Require Import Strings.Byte.

(** * Maps built by insertion *)

Lemma fold_insert_get (l : list (bytes * Value)) m k :
  NoDup l.*1 ->
  map_get k (fold_left (fun m kv => map_insert kv.1 kv.2 m) l m)
  = match map_get k l with Some v => Some v | None => map_get k m end.
Proof.
  revert m. induction l as [|[k' v] l IH]; intros m Hnd; [done|].
  cbn [fold_left fst snd map_get fmap list_fmap] in *. apply NoDup_cons in Hnd as [Hk Hnd].
  rewrite IH by done. case_bool_decide as Heq.
  - subst k'. rewrite map_get_insert.
    assert (Hnone : map_get k l = None).
    { clear -Hk. induction l as [|[k2 v2] l IH]; [done|]. cbn in *.
      rewrite not_elem_of_cons in Hk. rewrite bool_decide_eq_false_2 by naive_solver. naive_solver. }
    by rewrite Hnone.
  - by rewrite map_get_insert_ne by congruence.
Qed.

Lemma map_get_Some l k v : NoDup l.*1 -> map_get k l = Some v <-> (k, v) ∈ l.
Proof.
  induction l as [|[k' v'] l IH]; intros Hnd; cbn in *; [set_solver|].
  apply NoDup_cons in Hnd as [Hk Hnd]. rewrite elem_of_cons. case_bool_decide as Heq.
  - subst k'. split; [intros [= ->]; by left|]. intros [[= ->]|Hin]; [done|].
    exfalso. apply Hk, list_elem_of_fmap. by exists (k, v).
  - rewrite IH by done. naive_solver.
Qed.

Lemma map_get_perm (l l' : list (bytes * Value)) k :
  NoDup l.*1 -> l ≡ₚ l' -> map_get k l = map_get k l'.
Proof.
  intros Hnd Hp. assert (Hnd' : NoDup l'.*1) by by rewrite <- Hp.
  apply option_eq. intros v. rewrite !map_get_Some by done. by rewrite Hp.
Qed.

Section facts.
Context `{SimdUtf8, Memchr, MemchrIter, SerdeJson, SerdeDerive, Lowercase, HashOrder Value}.
Context `{!HashOrderOk Value}.

(** The application's own fields, renamed. *)
Definition kept_fields (extras : list (bytes * Value)) : list (bytes * Value) :=
  map (fun kv => (str_to_lowercase kv.1, kv.2))
    (List.filter (fun kv : bytes * Value => negb (dropped_field kv.1)) extras).

Lemma payload_fold extras obj :
  fold_left (fun obj kv => if dropped_field kv.1 then obj
                           else map_insert (str_to_lowercase kv.1) kv.2 obj) extras obj
  = fold_left (fun m kv => map_insert kv.1 kv.2 m) (kept_fields extras) obj.
Proof.
  revert obj. induction extras as [|kv extras IH]; intros obj; [done|]. unfold kept_fields in *.
  cbn [fold_left List.filter]. by destruct (dropped_field kv.1); cbn [negb map fold_left].
Qed.

(** [payload_map p]: the object a payload carries. *)
Definition payload_map (p : option Value) : Map :=
  match p with Some (VObject m) => m | _ => [] end.

Lemma app_fields_payload_get extras k :
  NoDup (kept_fields extras).*1 ->
  map_get k (payload_map (app_fields_payload extras)) = map_get k (kept_fields extras).
Proof.
  intros Hnd. unfold app_fields_payload. rewrite payload_fold.
  set (obj := fold_left _ _ _).
  assert (Hobj : map_get k obj = map_get k (kept_fields extras)).
  { unfold obj. rewrite fold_insert_get by done. by destruct (map_get k (kept_fields extras)). }
  destruct (is_empty obj) eqn:E; [|done]. by destruct obj.
Qed.

Lemma kept_fields_perm l l' : l ≡ₚ l' -> kept_fields l ≡ₚ kept_fields l'.
Proof.
  intros Hp. apply Permutation_map. induction Hp; cbn [List.filter].
  - done.
  - case_if; [by constructor|done].
  - repeat case_if; try done. constructor.
  - by etrans.
Qed.

Lemma app_fields_object extras :
  app_fields_payload extras = None \/ exists m, app_fields_payload extras = Some (VObject m).
Proof. unfold app_fields_payload. case_if; [by left|right; by eexists]. Qed.

(** * Entries *)

Context {S : Type} `{LogSink S, !LogSinkOk S}.
Implicit Types (sink : S) (filter : ServiceFilter) (st : ReaderState) (d : StateDir).

#[local] Existing Instance list_sink.

(** What an entry ships, and the cursor it records. *)
Definition expected filter (line : bytes) : list LogEntry :=
  (process_entry line filter ([] : list LogEntry)).2.

Definition line_cursor (line : bytes) : option bytes :=
  match from_str (trim line) with Some e => j_cursor e | None => None end.

Lemma process_entry_spec line filter sink res sink' :
  process_entry line filter sink = (res, sink') ->
  match res with
  | Handled c => c = line_cursor line /\ shipped sink' = shipped sink ++ expected filter line
  | ChannelFull => shipped sink' = shipped sink
  | ParseFailed => sink' = sink /\ expected filter line = [] /\ line_cursor line = None
  end.
Proof.
  unfold process_entry, expected, line_cursor, process_entry.
  destruct (from_str (trim line)) as [e|]; [|by intros [= <- <-]].
  assert (Hnil : shipped sink = shipped sink ++ []) by by rewrite app_nil_r.
  destruct (j_message e) as [m|]; [|by intros [= <- <-]].
  destruct (is_empty m); [by intros [= <- <-]|]. cbv zeta.
  case_bool_decide; [by intros [= <- <-]|]. destruct (excludes _ _); [by intros [= <- <-]|].
  destruct (split_message m) as [body parsed].
  destruct (try_log_with_service sink _) as [s2 []] eqn:E; intros [= <- <-].
  - split; [done|]. cbn. by apply try_log_accepted.
  - by eapply try_log_refused.
Qed.

Definition quiet_waits (waits : list (S -> S)) : Prop :=
  Forall (fun w => forall s, shipped (w s) = shipped s) waits.

Definition next_cursor (c : option bytes) (line : bytes) : option bytes :=
  match line_cursor line with Some c' => Some c' | None => c end.

(** Where the checkpoint on disk can be: unchanged or at [c]. *)
Definition disk_at d d' (c : option bytes) : Prop :=
  ck_file d' = ck_file d \/ (exists x, c = Some x /\ ck_file d' = Some x).

Lemma save_cursor_at io c d : disk_at d (save_cursor io c d) c.
Proof.
  unfold save_cursor, disk_at. destruct c as [c|]; [|by left].
  rewrite write_checkpoint_atomic. case_if; [right; by eexists|by left].
Qed.

Lemma handle_entry_spec waits io st line filter sink d ok st' d' sink' :
  quiet_waits waits ->
  handle_entry waits io st line filter sink d = (ok, st', d', sink') ->
  if ok then last_cursor st' = next_cursor (last_cursor st) line /\
             shipped sink' = shipped sink ++ expected filter line /\
             disk_at d d' (last_cursor st')
  else st' = st /\ d' = d /\ shipped sink' = shipped sink.
Proof.
  intros Hw. revert sink. induction Hw as [|w waits Hw1 Hw IH]; intros sink; cbn [handle_entry];
    destruct (process_entry line filter sink) as [res s1] eqn:E; apply process_entry_spec in E;
    (destruct res as [c| |];
     [destruct E as [-> Hs]; case_if; intros [= <- <- <- <-]; cbn [last_cursor];
        (split_and!; [done|done|]); [apply save_cursor_at|by left]
     | | destruct E as (-> & He & Hc); intros [= <- <- <- <-]; cbn [last_cursor];
        unfold next_cursor; rewrite Hc, He, app_nil_r; split_and!; [done|done|by left]]).
  - by intros [= <- <- <- <-].
  - intros Hrec. apply IH in Hrec. rewrite Hw1, E in Hrec. exact Hrec.
Qed.

(** * A run *)

Definition ev_line (ev : JEvent (S:=S)) : option bytes :=
  match ev with
  | JLine line _ _ => if MAX_LINE_LEN <? len line then None else Some line
  | _ => None
  end.

Definition waits_ok (ev : JEvent (S:=S)) : Prop :=
  match ev with JLine _ waits _ => quiet_waits waits | _ => True end.

(** [after c0 ls]: the cursor once the lines [ls] have been handled. *)
Definition after (c0 : option bytes) (ls : list bytes) : option bytes := fold_left next_cursor ls c0.

(** The checkpoint never runs ahead: it is where it was, or at the cursor of a
    prefix of the lines handled. *)
Definition durable d d' (c0 : option bytes) (ls : list bytes) : Prop :=
  ck_file d' = ck_file d \/
  exists pre x, pre `prefix_of` ls /\ after c0 pre = Some x /\ ck_file d' = Some x.

Lemma durable_cons d d1 d2 c0 l ls :
  disk_at d d1 (next_cursor c0 l) -> durable d1 d2 (next_cursor c0 l) ls -> durable d d2 c0 (l :: ls).
Proof.
  intros Hd1 [Hd2|(pre & x & Hp & Ha & Hf)].
  - unfold disk_at in Hd1. rewrite <- Hd2 in Hd1. destruct Hd1 as [Hd1|(x & Hx & Hd1)]; [left; congruence|].
    right. exists [l], x. split_and!; [|done|congruence]. by exists ls.
  - right. exists (l :: pre), x. split_and!; [by apply prefix_cons|done|done].
Qed.

Lemma journal_loop_spec evs filter final st d sink exit st' d' sink' :
  Forall waits_ok evs ->
  journal_loop evs filter final st d sink = (exit, st', d', sink') ->
  exists handled, handled `prefix_of` omap ev_line evs /\
    shipped sink' = shipped sink ++ concat (map (expected filter) handled) /\
    last_cursor st' = after (last_cursor st) handled /\
    durable d d' (last_cursor st) handled /\
    (is_Some exit -> all_ok final = true -> last_cursor st' = None \/ ck_file d' = last_cursor st') /\
    (exit = None -> handled = omap ev_line evs).
Proof.
  assert (Hstop : forall st d sink e (l : list bytes), exists handled, handled `prefix_of` l /\
    shipped sink = shipped sink ++ concat (map (expected filter) handled) /\
    last_cursor st = after (last_cursor st) handled /\
    durable d (save_cursor final (last_cursor st) d) (last_cursor st) handled /\
    (is_Some (Some e : option LoopExit) -> all_ok final = true ->
     last_cursor st = None \/ ck_file (save_cursor final (last_cursor st) d) = last_cursor st) /\
    (Some e = None -> handled = l)).
  { intros st0 d0 sink0 e l. exists []. cbn. rewrite app_nil_r.
    split_and!; [apply prefix_nil|done|done| | |done].
    - destruct (save_cursor_at final (last_cursor st0) d0) as [Hx|(x & Hx & Hf)]; [by left|].
      right. by exists [], x.
    - intros _ Hok. destruct (last_cursor st0) as [c|]; [right|by left]. cbn.
      by rewrite write_checkpoint_atomic, Hok. }
  intros Hw. revert st d sink. induction Hw as [|ev evs Hev Hw IH]; intros st d sink; cbn [journal_loop].
  { intros [= <- <- <- <-]. exists []. cbn. rewrite app_nil_r.
    split_and!; [done|done|done|by left|by intros [? ?]|done]. }
  destruct ev as [line waits io| | |];
    [|intros [= <- <- <- <-]; apply Hstop..].
  cbn [omap list_omap ev_line waits_ok] in *. destruct (MAX_LINE_LEN <? len line).
  { intros Hrec. by apply IH in Hrec. }
  destruct (handle_entry waits io st line filter sink d) as [[[ok st1] d1] s1] eqn:E.
  apply handle_entry_spec in E; [|done]. destruct ok.
  - destruct E as (Hc & Hs & Hd). intros Hrec. apply IH in Hrec as (hs & Hp & Hs' & Hc' & Hdu & Hex & Hall).
    exists (line :: hs). cbn [map concat].
    split_and!; [by apply prefix_cons| | | |done|by intros Hn; rewrite Hall].
    + by rewrite Hs', Hs, <- app_assoc.
    + unfold after in *. cbn [fold_left]. by rewrite <- Hc.
    + eapply durable_cons; rewrite <- Hc; done.
  - destruct E as (-> & -> & Hs). intros [= <- <- <- <-].
    destruct (Hstop st d s1 Cancelled (line :: omap ev_line evs)) as (hs & Hp & Hsh & Hrest).
    exists hs. split_and!; [done|congruence|apply Hrest..].
Qed.

(** On a channel that accepts, a run that only sees lines handles them all. *)
Lemma journal_loop_accepting evs filter final st d sink :
  (forall (s : S) e, (try_log_with_service s e).2 = true) ->
  Forall (fun ev => exists l ws io, ev = JLine l ws io) evs ->
  (journal_loop evs filter final st d sink).1.1.1 = None.
Proof.
  intros Hacc Hev. revert st d sink.
  induction Hev as [|ev evs (l & ws & io & ->) Hev IH]; intros st d sink; cbn [journal_loop]; [done|].
  case_if; [apply IH|].
  assert (Hne : (process_entry l filter sink).1 <> ChannelFull).
  { unfold process_entry. destruct (from_str _) as [e|]; [|done]. destruct (j_message e) as [m|]; [|done].
    destruct (is_empty m); [done|]. cbv zeta. case_bool_decide; [done|]. destruct (excludes _ _); [done|].
    destruct (split_message m). match goal with |- context [try_log_with_service sink ?e] =>
      assert (Ha := Hacc sink e); destruct (try_log_with_service sink e) as [s2 []] end; done. }
  destruct ws; cbn [handle_entry]; destruct (process_entry l filter sink) as [[c| |] s1]; cbn [fst] in Hne;
    try done; try (case_if; apply IH); apply IH.
Qed.
End facts.
