(* ===== verification/Unified.v ===== *)
(** [src/src/logs/unified_parse.rs] and [src/src/logs/unified.rs]: the macOS
    unified log source. Entries come as NDJSON from [log show] (backfill from
    the checkpoint) and then from [log stream] (live); a long stall of the
    channel in live mode goes back to a backfill.

    A phase is a sequence of events of its [select!]. A line comes with the
    clock at each attempt to ship it and, while the channel is full, what the
    SDK's worker does to the sink during the sleeps. *)
From S2P Require Import Prelude Str StrFacts External Text Sink Source Journal.
From Stdlib Require Import Strings.Byte ZArith.

Module Unified.

Definition SELF_PROCESS : bytes := b#"witness".
Definition SELF_SUBSYSTEM_PREFIX : bytes := b#"rs.tell.witness".

Definition INTERNAL_FIELDS : list bytes :=
  [b#"threadid"; b#"senderimageuuid"; b#"senderimagepath"; b#"processimageuuid";
   b#"backtrace"; b#"traceid"; b#"senderprogramcounter"; b#"machtimestamp";
   b#"activityidentifier"; b#"parentactivityidentifier"; b#"creatoractivityid";
   b#"timezonename"; b#"source"; b#"formatstring"; b#"userid"; b#"bootuuid"].

Definition MAX_LINE_LEN : N := 256 * 1024.
Definition CURSOR_SAVE_INTERVAL : N := 100.
Definition MAX_BACKOFF : N := secs 30.
Definition BACKPRESSURE_RECONCILE : N := secs 5.

Record Checkpoint := mkCheckpoint {
  boot_uuid : bytes;
  mach_timestamp : N;
  wall_timestamp : bytes;
}.

Record Entry := mkEntry {
  u_event_type : option bytes;
  u_message_type : option bytes;
  u_event_message : option bytes;
  u_subsystem : option bytes;
  u_category : option bytes;
  u_process_image_path : option bytes;
  u_process_id : option Z;
  u_mach_timestamp : option N;
  u_boot_uuid : option bytes;
  u_wall_timestamp : option bytes;
  u_extras : gmap bytes Value;
}.

(** * Deserialization *)

Definition entry_fields : list bytes :=
  [b#"eventType"; b#"messageType"; b#"eventMessage"; b#"subsystem"; b#"category";
   b#"processImagePath"; b#"processID"; b#"machTimestamp"; b#"bootUUID"; b#"timestamp"].

Definition i64_max : N := 9223372036854775807.

Definition as_i64 (n : Number) : option Z :=
  match n with
  | PosInt k => if k <=? i64_max then Some (Z.of_N k) else None
  | NegInt z => Some z
  | Float _ => None
  end.

(** A defaulted [Option<i64>] or [Option<u64>] field. *)
Definition number_field {A} (conv : Number -> option A) (k : bytes) (members : list (bytes * Value))
    : option (option A) :=
  match List.filter (fun kv : bytes * Value => bool_decide (kv.1 = k)) members with
  | [] => Some None
  | [(_, VNull)] => Some None
  | [(_, VNumber n)] => match conv n with Some a => Some (Some a) | None => None end
  | _ => None
  end.

Definition entry_extras (members : list (bytes * Value)) : gmap bytes Value :=
  fold_left (fun m kv =>
    if existsb (fun n => bool_decide (n = kv.1)) entry_fields then m else <[kv.1 := kv.2]> m)
    members ∅.

Definition entry_of_members (ms : list (bytes * Value)) : option Entry :=
  match string_field b#"eventType" ms, string_field b#"messageType" ms,
        string_field b#"eventMessage" ms, string_field b#"subsystem" ms,
        string_field b#"category" ms, string_field b#"processImagePath" ms with
  | Some et, Some mt, Some em, Some sub, Some cat, Some img =>
    match number_field as_i64 b#"processID" ms, number_field as_u64 b#"machTimestamp" ms,
          string_field b#"bootUUID" ms, string_field b#"timestamp" ms with
    | Some pid, Some mach, Some boot, Some wall =>
      Some (mkEntry et mt em sub cat img pid mach boot wall (entry_extras ms))
    | _, _, _, _ => None
    end
  | _, _, _, _, _, _ => None
  end.

Definition checkpoint (e : Entry) : option Checkpoint :=
  match u_boot_uuid e, u_mach_timestamp e, u_wall_timestamp e with
  | Some boot, Some mach, Some wall => Some (mkCheckpoint boot mach wall)
  | _, _, _ => None
  end.

(** * One entry *)

(** [path.rsplit('/').next()]: what follows the last slash. *)
Definition basename (path : bytes) : bytes :=
  match rfind_byte x2f path with
  | Some i => drop (Datatypes.S i) path
  | None => path
  end.

Definition is_self (e : Entry) : bool :=
  if match u_subsystem e with Some s => starts_with SELF_SUBSYSTEM_PREFIX s | None => false end
  then true
  else match u_process_image_path e with
       | Some p => bool_decide (basename p = SELF_PROCESS)
       | None => false
       end.

Definition message_type_to_level (message_type : option bytes) : LogLevel :=
  match message_type with
  | Some m =>
    if bool_decide (m = b#"Fault") then Critical
    else if bool_decide (m = b#"Error") then Error
    else if bool_decide (m = b#"Default") then Notice
    else if bool_decide (m = b#"Debug") then Debug
    else Info
  | None => Info
  end.

Definition service_of (e : Entry) : bytes :=
  let from_path :=
    match u_process_image_path e with
    | Some path => let base := basename path in if is_empty base then b#"unknown" else base
    | None => b#"unknown"
    end in
  match u_subsystem e with
  | Some sub => if is_empty sub then from_path else sub
  | None => from_path
  end.

(** [serde_json::Value::from(i64)]. *)
Definition value_of_i64 (z : Z) : Value :=
  VNumber (if (z <? 0)%Z then NegInt z else PosInt (Z.to_N z)).

Definition insert_nonempty (k : bytes) (v : option bytes) (obj : Map) : Map :=
  match v with
  | Some s => if is_empty s then obj else map_insert k (VString s) obj
  | None => obj
  end.

Inductive UnifiedResult :=
| Handled (cp : option Checkpoint)
| ChannelFull
| ParseFailed.

Section unified.
Context `{SerdeDerive, SerdeSerialize, Lowercase, HashOrder Value}.
Context {S : Type} `{LogSink S}.

Definition build_payload (e : Entry) : option Value :=
  let obj := insert_nonempty b#"subsystem" (u_subsystem e) [] in
  let obj := insert_nonempty b#"category" (u_category e) obj in
  let obj := insert_nonempty b#"process" (basename <$> u_process_image_path e) obj in
  let obj := match u_process_id e with
             | Some pid => map_insert b#"pid" (value_of_i64 pid) obj
             | None => obj
             end in
  let obj := fold_left (fun obj kv =>
    let lower := str_to_lowercase kv.1 in
    if existsb (fun f => bool_decide (f = lower)) INTERNAL_FIELDS then obj
    else map_or_insert lower kv.2 obj) (hash_order (u_extras e)) obj in
  if is_empty obj then None else Some (VObject obj).

Definition from_str (line : bytes) : option Entry :=
  match json_members line with
  | Some ms => entry_of_members ms
  | None => None
  end.

(** The inclusive boundary of [log show --start], within the same boot. *)
Definition deduped (dedupe : option Checkpoint) (e : Entry) : bool :=
  match dedupe, u_mach_timestamp e, u_boot_uuid e with
  | Some cp, Some mach, Some boot =>
    bool_decide (boot = boot_uuid cp) && (mach <=? mach_timestamp cp)
  | _, _, _ => false
  end.

Definition process_entry (line : bytes) (sink : S) (dedupe : option Checkpoint)
    : UnifiedResult * S :=
  match from_str (trim line) with
  | None => (ParseFailed, sink)
  | Some entry =>
    let pos := checkpoint entry in
    let event_type := match u_event_type entry with Some t => t | None => [] end in
    if negb (bool_decide (event_type = b#"logEvent")) && negb (bool_decide (event_type = b#"traceEvent"))
    then (Handled pos, sink)
    else if deduped dedupe entry then (Handled None, sink)
    else if is_self entry then (Handled pos, sink)
    else
      match u_event_message entry with
      | None => (Handled pos, sink)
      | Some message =>
        if is_empty message then (Handled pos, sink)
        else
          let level := message_type_to_level (u_message_type entry) in
          let service := service_of entry in
          let payload := build_payload entry in
          let '(sink', ok) :=
            try_log_with_service sink (mkLogEntry level message None (Some service) payload) in
          if ok then (Handled pos, sink') else (ChannelFull, sink')
      end
  end.

(** * Checkpoint persistence *)

Definition checkpoint_members (cp : Checkpoint) : list (bytes * Value) :=
  [(b#"boot_uuid", VString (boot_uuid cp)); (b#"mach_timestamp", VNumber (PosInt (mach_timestamp cp)));
   (b#"wall_timestamp", VString (wall_timestamp cp))].

(** All three fields are required; unknown ones are ignored. *)
Definition checkpoint_of_members (ms : list (bytes * Value)) : option Checkpoint :=
  match List.filter (fun kv : bytes * Value => bool_decide (kv.1 = b#"boot_uuid")) ms,
        List.filter (fun kv : bytes * Value => bool_decide (kv.1 = b#"mach_timestamp")) ms,
        List.filter (fun kv : bytes * Value => bool_decide (kv.1 = b#"wall_timestamp")) ms with
  | [(_, VString b)], [(_, VNumber n)], [(_, VString w)] =>
    match as_u64 n with Some m => Some (mkCheckpoint b m w) | None => None end
  | _, _, _ => None
  end.

Definition load_checkpoint (d : StateDir) : option Checkpoint :=
  match ck_file d with
  | Some data => match json_members data with Some ms => checkpoint_of_members ms | None => None end
  | None => None
  end.

Definition save_checkpoint (io : CheckpointIo) (cp : option Checkpoint) (d : StateDir) : StateDir :=
  match cp with
  | Some cp => write_checkpoint io (json_object_text (checkpoint_members cp)) d
  | None => d
  end.

(** * The read loop *)

Record ReaderState := mkReaderState {
  last_cp : option Checkpoint;
  since_save : N;
  dropped : N;
}.

Definition reader_state_new (initial : option Checkpoint) : ReaderState := mkReaderState initial 0 0.

Inductive RecordOutcome := Advanced | Full.

Definition record (io : CheckpointIo) (st : ReaderState) (d : StateDir) (result : UnifiedResult)
    : RecordOutcome * ReaderState * StateDir :=
  match result with
  | Handled (Some cp) =>
    let n := since_save st + 1 in
    if CURSOR_SAVE_INTERVAL <=? n
    then (Advanced, mkReaderState (Some cp) 0 (dropped st), save_checkpoint io (Some cp) d)
    else (Advanced, mkReaderState (Some cp) n (dropped st), d)
  | Handled None => (Advanced, st, d)
  | ParseFailed => (Advanced, mkReaderState (last_cp st) (since_save st) (wrap64 (dropped st + 1)), d)
  | ChannelFull => (Full, st, d)
  end.

(** [Instant::duration_since] saturates at zero. *)
Definition reconcile_due (full_since : option N) (now threshold : N) : bool :=
  match full_since with
  | Some start => threshold <=? now - start
  | None => false
  end.

Inductive LineOutcome := LineDone | LineCancelled | LineReconcile.

(** [now] is the clock at the first attempt; each retry comes after a sleep,
    with what the worker did to the sink meanwhile and the clock then. When
    there are no more retries the cancellation came during the sleep. *)
Fixpoint ship_line (retries : list ((S -> S) * N)) (now : N) (io : CheckpointIo) (line : bytes)
    (sink : S) (st : ReaderState) (d : StateDir) (dedupe : option Checkpoint) (reconcile : bool)
    (full_since : option N) : LineOutcome * ReaderState * StateDir * S * option N :=
  let '(result, sink') := process_entry line sink dedupe in
  match record io st d result with
  | (Advanced, st', d') => (LineDone, st', d', sink', None)
  | (Full, st', d') =>
    let full_since' :=
      if reconcile then Some (match full_since with Some s => s | None => now end)
      else full_since in
    if reconcile && reconcile_due full_since' now BACKPRESSURE_RECONCILE
    then (LineReconcile, st', d', sink', full_since')
    else
      match retries with
      | (w, now') :: rest => ship_line rest now' io line (w sink') st' d' dedupe reconcile full_since'
      | [] => (LineCancelled, st', d', sink', full_since')
      end
  end.

Inductive PhaseExit := PhaseDone | PhaseCancelled | PhaseFailed | PhaseReconcile.

Inductive UEvent :=
| ULine (line : bytes) (retries : list ((S -> S) * N)) (now : N) (io : CheckpointIo)
| UEof
| UReadError
| UCancel.

Fixpoint read_stream (evs : list UEvent) (final : CheckpointIo) (sink : S) (st : ReaderState)
    (d : StateDir) (dedupe : option Checkpoint) (reconcile : bool) (full_since : option N)
    : option PhaseExit * ReaderState * StateDir * S :=
  match evs with
  | [] => (None, st, d, sink)
  | UCancel :: _ => (Some PhaseCancelled, st, save_checkpoint final (last_cp st) d, sink)
  | UEof :: _ => (Some PhaseDone, st, save_checkpoint final (last_cp st) d, sink)
  | UReadError :: _ => (Some PhaseFailed, st, save_checkpoint final (last_cp st) d, sink)
  | ULine line retries now io :: rest =>
    if MAX_LINE_LEN <? len line then read_stream rest final sink st d dedupe reconcile full_since
    else if negb (starts_with b#"{" (trim_start line))
    then read_stream rest final sink st d dedupe reconcile full_since
    else
      let '(out, st', d', sink', full_since') :=
        ship_line retries now io line sink st d dedupe reconcile full_since in
      match out with
      | LineDone => read_stream rest final sink' st' d' dedupe reconcile full_since'
      | LineCancelled => (Some PhaseCancelled, st', save_checkpoint final (last_cp st') d', sink')
      | LineReconcile => (Some PhaseReconcile, st', save_checkpoint final (last_cp st') d', sink')
      end
  end.

(** * The two phases *)

(** What one pass of [run_cycle] meets: whether [log show] and [log stream]
    start, the events of each phase, and their last checkpoint writes. *)
Record Round := mkRound {
  r_show : bool;
  r_backfill : list UEvent;
  r_show_io : CheckpointIo;
  r_stream : bool;
  r_live : list UEvent;
  r_stream_io : CheckpointIo;
}.

Definition run_backfill (r : Round) (sink : S) (cp : Checkpoint) (st : ReaderState) (d : StateDir)
    : option PhaseExit * ReaderState * StateDir * S :=
  if r_show r then read_stream (r_backfill r) (r_show_io r) sink st d (Some cp) false None
  else (Some PhaseFailed, st, d, sink).

Definition run_live (r : Round) (sink : S) (st : ReaderState) (d : StateDir)
    : option PhaseExit * ReaderState * StateDir * S :=
  if r_stream r then read_stream (r_live r) (r_stream_io r) sink st d None true None
  else (Some PhaseFailed, st, d, sink).

Fixpoint run_cycle (rounds : list Round) (sink : S) (d : StateDir)
    : option LoopExit * StateDir * S :=
  match rounds with
  | [] => (None, d, sink)
  | r :: rest =>
    let initial := load_checkpoint d in
    let st := reader_state_new initial in
    let live st d sink :=
      let '(exit, _, d2, sink2) := run_live r sink st d in
      match exit with
      | Some PhaseCancelled => (Some Cancelled, d2, sink2)
      | Some PhaseFailed => (Some Failed, d2, sink2)
      | Some PhaseDone => (Some Failed, d2, sink2)
      | Some PhaseReconcile => run_cycle rest sink2 d2
      | None => (None, d2, sink2)
      end in
    match initial with
    | Some cp =>
      let '(exit, st1, d1, sink1) := run_backfill r sink cp st d in
      match exit with
      | Some PhaseCancelled => (Some Cancelled, d1, sink1)
      | Some PhaseFailed => (Some Failed, d1, sink1)
      | Some PhaseReconcile | Some PhaseDone => live st1 d1 sink1
      | None => (None, d1, sink1)
      end
    | None => live st d sink
    end
  end.

(** The restart loop, as in [Journal.tail_journal]. *)
Fixpoint tail_unified_log (runs : list (list Round * bool)) (backoff : N) (d : StateDir) (sink : S)
    : StateDir * S * N :=
  match runs with
  | [] => (d, sink, backoff)
  | (rounds, cancelled) :: rest =>
    let '(exit, d', sink') := run_cycle rounds sink d in
    match exit with
    | Some Failed =>
      if (cancelled : bool) then (d', sink', backoff)
      else tail_unified_log rest (next_backoff backoff MAX_BACKOFF) d' sink'
    | _ => (d', sink', backoff)
    end
  end.
End unified.

(** The arguments of the two subprocesses; the predicate is one argument. *)
Definition show_args (predicate start_wall : bytes) : list bytes :=
  [b#"show"; b#"--style"; b#"ndjson"; b#"--start"; start_wall; b#"--predicate"; predicate].

Definition stream_args (predicate : bytes) : list bytes :=
  [b#"stream"; b#"--style"; b#"ndjson"; b#"--predicate"; predicate].

(** A clause [field == "value"] of a predicate. *)
Definition clause (field value : bytes) : bytes := field ++ b#" == " ++ [x22] ++ value ++ [x22].

Definition DEFAULT_PREDICATE : bytes :=
  b#"(" ++ clause b#"messageType" b#"error" ++ b#" OR " ++ clause b#"messageType" b#"fault" ++ b#")"
  ++ b#" OR " ++ clause b#"subsystem" b#"com.apple.TCC"
  ++ b#" OR " ++ clause b#"subsystem" b#"com.apple.syspolicy.exec"
  ++ b#" OR " ++ clause b#"process" b#"sudo"
  ++ b#" OR " ++ clause b#"process" b#"sshd"
  ++ b#" OR " ++ clause b#"process" b#"loginwindow"
  ++ b#" OR " ++ clause b#"process" b#"screensharingd".

Definition effective_predicate (configured : option bytes) : bytes :=
  match configured with Some p => p | None => DEFAULT_PREDICATE end.
End Unified.
