(* ===== verification/UnifiedFacts.v ===== *)
(** Properties of the unified log source: a line ships once or not at all, the
    checkpoint on disk is never ahead of what was shipped, and a backfill from a
    checkpoint ships exactly the entries after it. *)
From S2P Require Import Prelude Str StrFacts External Text Sink SinkFacts Source Journal Unified.
From Stdlib Require Import Strings.Byte ZArith.
Import Unified.

Section facts.
Context `{SerdeDerive, SerdeSerialize, Lowercase, HashOrder Value}.
Context {S : Type} `{LogSink S, !LogSinkOk S}.
Implicit Types (sink : S) (st : ReaderState) (d : StateDir) (dedupe : option Checkpoint).

#[local] Existing Instance list_sink.

(** What a line ships, and the position it records. *)
Definition u_expected dedupe (line : bytes) : list LogEntry :=
  (process_entry line ([] : list LogEntry) dedupe).2.

Definition u_position dedupe (line : bytes) : option Checkpoint :=
  match (process_entry line ([] : list LogEntry) dedupe).1 with Handled cp => cp | _ => None end.

Lemma u_process_entry_spec line sink dedupe res sink' :
  process_entry line sink dedupe = (res, sink') ->
  match res with
  | Handled c => c = u_position dedupe line /\ shipped sink' = shipped sink ++ u_expected dedupe line
  | ChannelFull => shipped sink' = shipped sink
  | ParseFailed => sink' = sink /\ u_expected dedupe line = [] /\ u_position dedupe line = None
  end.
Proof.
  unfold u_expected, u_position, process_entry.
  destruct (from_str (trim line)) as [e|]; [|by intros [= <- <-]].
  assert (Hnil : shipped sink = shipped sink ++ []) by by rewrite app_nil_r.
  cbv zeta. match goal with |- context [if ?c then _ else _] => destruct c end; [by intros [= <- <-]|].
  destruct (deduped dedupe e); [by intros [= <- <-]|]. destruct (is_self e); [by intros [= <- <-]|].
  destruct (u_event_message e) as [m|]; [|by intros [= <- <-]].
  destruct (is_empty m); [by intros [= <- <-]|].
  destruct (try_log_with_service sink _) as [s2 []] eqn:E; intros [= <- <-].
  - split; [done|]. cbn. by apply try_log_accepted.
  - by eapply try_log_refused.
Qed.

Definition quiet_retries (retries : list ((S -> S) * N)) : Prop :=
  Forall (fun w : (S -> S) * N => forall s, shipped (w.1 s) = shipped s) retries.

Definition next_cp dedupe (c : option Checkpoint) (line : bytes) : option Checkpoint :=
  match u_position dedupe line with Some c' => Some c' | None => c end.

Definition cp_text (cp : Checkpoint) : bytes := json_object_text (checkpoint_members cp).

Definition disk_at d d' (c : option Checkpoint) : Prop :=
  ck_file d' = ck_file d \/ (exists x, c = Some x /\ ck_file d' = Some (cp_text x)).

Lemma save_checkpoint_at io c d : disk_at d (save_checkpoint io c d) c.
Proof.
  unfold save_checkpoint, disk_at. destruct c as [c|]; [|by left].
  rewrite write_checkpoint_atomic. case_if; [right; by eexists|by left].
Qed.

Lemma ship_line_spec retries now io line sink st d dedupe rc fs out st' d' sink' fs' :
  quiet_retries retries ->
  ship_line retries now io line sink st d dedupe rc fs = (out, st', d', sink', fs') ->
  match out with
  | LineDone => last_cp st' = next_cp dedupe (last_cp st) line /\
                shipped sink' = shipped sink ++ u_expected dedupe line /\ disk_at d d' (last_cp st')
  | _ => st' = st /\ d' = d /\ shipped sink' = shipped sink
  end.
Proof.
  intros Hw. revert now sink fs. induction Hw as [|[w now'] rs Hw1 Hw IH]; intros now sink fs;
    cbn [ship_line]; destruct (process_entry line sink dedupe) as [res s1] eqn:E;
    apply u_process_entry_spec in E;
    (destruct res as [[c|]| |]; cbn [record];
     [ destruct E as [Hp Hs]; case_if; intros [= <- <- <- <- <-]; unfold next_cp; rewrite <- Hp;
         (split_and!; [done|done|]); [apply (save_checkpoint_at io (Some c))|by left]
     | destruct E as [Hp Hs]; intros [= <- <- <- <- <-]; unfold next_cp; rewrite <- Hp;
         split_and!; [done|done|by left]
     |
     | destruct E as (-> & He & Hp); intros [= <- <- <- <- <-]; cbn [last_cp];
         unfold next_cp; rewrite Hp, He, app_nil_r; split_and!; [done|done|by left] ]);
    case_if; try by intros [= <- <- <- <- <-].
  intros Hrec. apply IH in Hrec. cbn [fst] in Hw1. by rewrite Hw1, E in Hrec.
Qed.

(** * A phase *)

Definition ev_line (ev : UEvent (S:=S)) : option bytes :=
  match ev with
  | ULine line _ _ _ =>
    if MAX_LINE_LEN <? len line then None
    else if negb (starts_with b#"{" (trim_start line)) then None else Some line
  | _ => None
  end.

Definition retries_ok (ev : UEvent (S:=S)) : Prop :=
  match ev with ULine _ rs _ _ => quiet_retries rs | _ => True end.

Definition after dedupe (c0 : option Checkpoint) (ls : list bytes) : option Checkpoint :=
  fold_left (next_cp dedupe) ls c0.

Definition durable dedupe d d' (c0 : option Checkpoint) (ls : list bytes) : Prop :=
  ck_file d' = ck_file d \/
  exists pre x, pre `prefix_of` ls /\ after dedupe c0 pre = Some x /\ ck_file d' = Some (cp_text x).

Lemma u_durable_cons dedupe d d1 d2 c0 l ls :
  disk_at d d1 (next_cp dedupe c0 l) -> durable dedupe d1 d2 (next_cp dedupe c0 l) ls ->
  durable dedupe d d2 c0 (l :: ls).
Proof.
  intros Hd1 [Hd2|(pre & x & Hp & Ha & Hf)].
  - unfold disk_at in Hd1. rewrite <- Hd2 in Hd1. destruct Hd1 as [Hd1|(x & Hx & Hd1)]; [left; congruence|].
    right. exists [l], x. split_and!; [|done|congruence]. by exists ls.
  - right. exists (l :: pre), x. split_and!; [by apply prefix_cons|done|done].
Qed.

Lemma durable_stop dedupe final c d ls :
  durable dedupe d (save_checkpoint final c d) c ls.
Proof.
  destruct (save_checkpoint_at final c d) as [Hx|(x & Hx & Hf)]; [by left|].
  right. exists [], x. split_and!; [apply prefix_nil|done|done].
Qed.

Lemma ship_line_reconcile retries now io line sink st d dedupe rc fs st' d' sink' fs' :
  ship_line retries now io line sink st d dedupe rc fs = (LineReconcile, st', d', sink', fs') -> rc = true.
Proof.
  revert now sink st d fs. induction retries as [|[w n] rs IH]; intros now sink st d fs; cbn [ship_line];
    destruct (process_entry _ _ _) as [r s2]; destruct (record _ _ _ _) as [[[] ?] ?]; try done;
    destruct rc; cbn [andb]; try done.
  apply IH.
Qed.

(** The lines a phase reads before its subprocess ends the stream. *)
Fixpoint before_eof (evs : list (UEvent (S:=S))) : list bytes :=
  match evs with
  | [] | UEof :: _ => []
  | ev :: rest => match ev_line ev with Some l => l :: before_eof rest | None => before_eof rest end
  end.

(** The outcome of a phase that handled the lines [handled]. *)
Definition phase_result evs sink st d dedupe (rc : bool) (exit : option PhaseExit) st' d' sink'
    (handled : list bytes) : Prop :=
  handled `prefix_of` omap ev_line evs /\
  shipped sink' = shipped sink ++ concat (map (u_expected dedupe) handled) /\
  last_cp st' = after dedupe (last_cp st) handled /\
  durable dedupe d d' (last_cp st) handled /\
  (exit = Some PhaseReconcile -> rc = true) /\
  (exit = Some PhaseDone -> handled = before_eof evs).

Lemma phase_stop evs final sink s1 st d dedupe rc e :
  shipped s1 = shipped sink -> (e = PhaseReconcile -> rc = true) -> (e = PhaseDone -> before_eof evs = []) ->
  phase_result evs sink st d dedupe rc (Some e) st (save_checkpoint final (last_cp st) d) s1 [].
Proof.
  intros Hs Hrc He. unfold phase_result. cbn [map concat]. rewrite app_nil_r.
  split_and!; [apply prefix_nil|done|done|apply durable_stop|by intros [= ->]; apply Hrc|].
  intros [= ->]. by rewrite He.
Qed.

(** The lines handled are a prefix of those read, all of them when the phase
    ends by itself. *)
Lemma read_stream_spec evs final sink st d dedupe rc fs exit st' d' sink' :
  Forall retries_ok evs ->
  read_stream evs final sink st d dedupe rc fs = (exit, st', d', sink') ->
  exists handled, phase_result evs sink st d dedupe rc exit st' d' sink' handled.
Proof.
  intros Hw. revert sink st d fs. induction Hw as [|ev evs Hev Hw IH]; intros sink st d fs; cbn [read_stream].
  { intros [= <- <- <- <-]. exists []. unfold phase_result. cbn. rewrite app_nil_r.
    split_and!; try done. by left. }
  destruct ev as [line rs now io| | |];
    try (intros [= <- <- <- <-]; exists []; by apply phase_stop).
  assert (Hskip : ev_line (ULine line rs now io) = None ->
    read_stream evs final sink st d dedupe rc fs = (exit, st', d', sink') ->
    exists handled, phase_result (ULine line rs now io :: evs) sink st d dedupe rc exit st' d' sink' handled).
  { intros Hev' Hr. apply IH in Hr as (hs & Hp & Hrest). exists hs. unfold phase_result.
    cbn [omap list_omap before_eof]. by rewrite Hev'. }
  cbn [ev_line retries_ok] in *.
  destruct (MAX_LINE_LEN <? len line) eqn:Elen; [by apply Hskip|].
  destruct (negb (starts_with b#"{" (trim_start line))) eqn:Ebr; [by apply Hskip|]. clear Hskip.
  assert (Hev' : ev_line (ULine line rs now io) = Some line) by (unfold ev_line; by rewrite Elen, Ebr).
  destruct (ship_line rs now io line sink st d dedupe rc fs) as [[[[out st1] d1] s1] fs1] eqn:E.
  assert (Hrc := E). apply ship_line_spec in E; [|done]. destruct out.
  - destruct E as (Hc & Hs & Hd). intros Hrec. apply IH in Hrec as (hs & Hp & Hs' & Hc' & Hdu & Hex & Hend).
    exists (line :: hs). unfold phase_result. cbn [omap list_omap before_eof map concat]. rewrite Hev'.
    split_and!; [by apply prefix_cons| | | |done|].
    + by rewrite Hs', Hs, <- app_assoc.
    + unfold after in *. cbn [fold_left]. by rewrite <- Hc.
    + eapply u_durable_cons; rewrite <- Hc; done.
    + intros Hx. f_equal. by apply Hend.
  - destruct E as (-> & -> & Hs). intros [= <- <- <- <-]. exists []. by apply phase_stop.
  - destruct E as (-> & -> & Hs). intros [= <- <- <- <-]. exists [].
    apply phase_stop; [done| |done]. intros _. by eapply ship_line_reconcile.
Qed.

(** * Backfill *)

(** A log or trace event of the checkpoint's boot, at or before it. *)
Definition replayed (cp : Checkpoint) (line : bytes) : Prop :=
  exists e, from_str (trim line) = Some e /\
    (u_event_type e = Some b#"logEvent" \/ u_event_type e = Some b#"traceEvent") /\
    deduped (Some cp) e = true.

(** An entry the checkpoint does not cover. *)
Definition fresh (cp : Checkpoint) (line : bytes) : Prop :=
  forall e, from_str (trim line) = Some e -> deduped (Some cp) e = false.

Lemma u_expected_replayed cp line : replayed cp line -> u_expected (Some cp) line = [].
Proof.
  intros (e & He & Ht & Hd). unfold u_expected, process_entry. rewrite He. cbv zeta.
  case_if; [done|]. by rewrite Hd.
Qed.

Lemma u_expected_fresh cp line : fresh cp line -> u_expected (Some cp) line = u_expected None line.
Proof.
  intros Hf. unfold u_expected, process_entry. destruct (from_str (trim line)) as [e|] eqn:He; [|done].
  cbv zeta. case_if; [done|]. by rewrite (Hf e He).
Qed.

Lemma backfill_expected cp overlap rest :
  Forall (replayed cp) overlap -> Forall (fresh cp) rest ->
  concat (map (u_expected (Some cp)) (overlap ++ rest)) = concat (map (u_expected None) rest).
Proof.
  intros Ho Hr. rewrite map_app, concat_app.
  assert (Hov : concat (map (u_expected (Some cp)) overlap) = []).
  { induction Ho as [|l ls Hl Ho IH]; [done|]. cbn [map concat]. by rewrite u_expected_replayed, IH. }
  rewrite Hov. cbn [app]. f_equal. apply map_ext_Forall. eapply Forall_impl; [exact Hr|].
  apply u_expected_fresh.
Qed.
(** * Completion *)

(** On a channel that accepts, a phase that reads lines until the end of the
    stream ends by itself. *)
Lemma read_stream_accepting evs final sink st d dedupe rc fs :
  (forall (s : S) e, (try_log_with_service s e).2 = true) ->
  Forall (fun ev => exists l rs now io, ev = ULine l rs now io) evs ->
  (read_stream (evs ++ [UEof]) final sink st d dedupe rc fs).1.1.1 = Some PhaseDone.
Proof.
  intros Hacc Hev. revert sink st d fs.
  induction Hev as [|ev evs (l & rs & now & io & ->) Hev IH]; intros sink st d fs; cbn [app read_stream]; [done|].
  case_if; [apply IH|]. case_if; [apply IH|].
  assert (Hne : (process_entry l sink dedupe).1 <> ChannelFull).
  { unfold process_entry. destruct (from_str _) as [e|]; [|done]. cbv zeta.
    match goal with |- context [if ?c then _ else _] => destruct c end; [done|].
    destruct (deduped dedupe e); [done|]. destruct (is_self e); [done|].
    destruct (u_event_message e) as [m|]; [|done]. destruct (is_empty m); [done|].
    match goal with |- context [try_log_with_service sink ?e] =>
      assert (Ha := Hacc sink e); destruct (try_log_with_service sink e) as [s2 []] end; done. }
  destruct rs; cbn [ship_line]; destruct (process_entry l sink dedupe) as [[[c|]| |] s1]; cbn [fst] in Hne;
    cbn [record]; try done; try case_if; apply IH.
Qed.
End facts.
