(* ===== verification/EventFilter.v ===== *)
(** [src/src/logs/eventlog_filter.rs]: the agent-side Event Log filters. *)
From S2P Require Import Prelude Str StrFacts Text Sink.
From Stdlib Require Import Strings.Byte.

Module EventFilter.

Definition comma : byte := x2c.
Definition dash : byte := x2d.

Record EventIdFilter := mkEventIdFilter {
  includes : list (N * N);
  excluded : list (N * N);
}.

(** The two messages of a rejected specification, each with its token. *)
Inductive ParseError :=
| InvalidRange (tok : bytes) (lo hi : N)
| InvalidToken (tok : bytes).

Definition parse_id (s tok : bytes) : N + ParseError :=
  match parse_u32 (trim s) with
  | Some n => inl n
  | None => inr (InvalidToken tok)
  end.

Definition parse_range (body tok : bytes) : (N * N) + ParseError :=
  match split_once dash body with
  | Some (a, b) =>
    match parse_id a tok with
    | inr e => inr e
    | inl lo =>
      match parse_id b tok with
      | inr e => inr e
      | inl hi => if hi <? lo then inr (InvalidRange tok lo hi) else inl (lo, hi)
      end
    end
  | None =>
    match parse_id body tok with
    | inr e => inr e
    | inl n => inl (n, n)
    end
  end.

(** The loop of [parse] over the pieces, with the two vectors it pushes to. *)
Fixpoint parse_pieces (pieces : list bytes) (includes excludes : list (N * N))
    : EventIdFilter + ParseError :=
  match pieces with
  | [] => inl (mkEventIdFilter includes excludes)
  | raw :: rest =>
    let tok := trim raw in
    if is_empty tok then parse_pieces rest includes excludes
    else
      match strip_prefix [dash] tok with
      | Some r =>
        match parse_range (trim r) tok with
        | inl x => parse_pieces rest includes (excludes ++ [x])
        | inr e => inr e
        end
      | None =>
        match parse_range tok tok with
        | inl x => parse_pieces rest (includes ++ [x]) excludes
        | inr e => inr e
        end
      end
  end.

Definition parse (spec : bytes) : EventIdFilter + ParseError :=
  parse_pieces (split comma spec) [] [].

Definition in_one (id : N) (r : N * N) : bool := (r.1 <=? id) && (id <=? r.2).

Definition matches (f : EventIdFilter) (id : N) : bool :=
  if existsb (in_one id) (excluded f) then false
  else if is_empty (includes f) then true
  else existsb (in_one id) (includes f).

Record EventFilter := mkEventFilter {
  event_ids : option EventIdFilter;
  exclude_providers : list bytes;
}.

Definition new (event_ids : option bytes) (exclude_providers : list bytes)
    : EventFilter + ParseError :=
  match event_ids with
  | Some s =>
    match parse s with
    | inl f => inl (mkEventFilter (Some f) exclude_providers)
    | inr e => inr e
    end
  | None => inl (mkEventFilter None exclude_providers)
  end.

Definition excludes (f : EventFilter) (provider event_id : bytes) : bool :=
  if existsb (fun p => eq_ignore_ascii_case p provider) (exclude_providers f) then true
  else
    match event_ids f with
    | Some ids =>
      match parse_u32 event_id with
      | Some id => negb (matches ids id)
      | None => false
      end
    | None => false
    end.

(** * Properties *)

(** A token of the specification language, and its text. *)
Inductive Token := Include (lo hi : N) | Exclude (lo hi : N).

Definition render_range (lo hi : N) : bytes :=
  if lo =? hi then show_N lo else show_N lo ++ [dash] ++ show_N hi.

Definition render (t : Token) : bytes :=
  match t with
  | Include lo hi => render_range lo hi
  | Exclude lo hi => [dash] ++ render_range lo hi
  end.

Definition render_spec (ts : list Token) : bytes := join [comma] (map render ts).

Definition token_ok (t : Token) : Prop :=
  match t with Include lo hi | Exclude lo hi => lo <= hi /\ hi <= u32_max end.

Definition covers (id : N) (t : Token) : Prop :=
  match t with Include lo hi | Exclude lo hi => lo <= id <= hi end.

Definition is_exclude (t : Token) : bool := match t with Exclude _ _ => true | _ => false end.

Definition range_of (t : Token) : N * N := match t with Include lo hi | Exclude lo hi => (lo, hi) end.

Lemma render_range_graphic lo hi : Forall (fun c => in_range 33 126 c = true) (render_range lo hi).
Proof.
  unfold render_range. case_if; repeat (apply Forall_app; split); try apply show_N_graphic; by repeat constructor.
Qed.

Lemma render_range_no lo hi c : is_digit c = false -> c <> dash -> c ∉ render_range lo hi.
Proof.
  intros Hd Hc. assert (Hs := fun n => show_N_not_elem n c Hd).
  unfold render_range. case_if; set_solver.
Qed.

Lemma parse_id_show n tok : n <= u32_max -> parse_id (show_N n) tok = inl n.
Proof.
  intros Hn. unfold parse_id, parse_u32. rewrite trim_graphic by apply show_N_graphic.
  by rewrite parse_uint_show.
Qed.

Lemma parse_range_render lo hi tok :
  lo <= hi -> hi <= u32_max -> parse_range (render_range lo hi) tok = inl (lo, hi).
Proof.
  intros Hle Hmax. unfold parse_range, render_range. assert (Hno := fun n => show_N_not_elem n dash eq_refl).
  destruct (N.eqb_spec lo hi) as [->|Hne].
  - unfold split_once. rewrite (proj2 (find_byte_None _ _) (Hno hi)). by rewrite parse_id_show.
  - cbn [app]. rewrite split_once_app by done. rewrite !parse_id_show by lia.
    destruct (N.ltb_spec hi lo); [lia|done].
Qed.

Lemma split_join c (ss : list bytes) :
  ss <> [] -> Forall (fun s => c ∉ s) ss -> split c (join [c] ss) = ss.
Proof.
  intros Hne Hs. induction Hs as [|s ss Hsc Hs IH]; [done|].
  assert (Hone : forall s r, c ∉ s -> split c (s ++ c :: r) = s :: split c r).
  { clear. induction s as [|x s IH]; intros r Hc; cbn.
    - by rewrite bool_decide_eq_true_2.
    - rewrite not_elem_of_cons in Hc. rewrite bool_decide_eq_false_2 by naive_solver. by rewrite IH by naive_solver. }
  destruct ss as [|s2 ss].
  - cbn [join]. clear -Hsc. induction s as [|x s IH]; [done|]. rewrite not_elem_of_cons in Hsc. cbn.
    rewrite bool_decide_eq_false_2 by naive_solver. by rewrite IH by naive_solver.
  - change (join [c] (s :: s2 :: ss)) with (s ++ c :: join [c] (s2 :: ss)).
    rewrite Hone by done. by rewrite IH.
Qed.

Lemma render_graphic t : Forall (fun c => in_range 33 126 c = true) (render t).
Proof. destruct t; cbn; [|constructor; [done|]]; apply render_range_graphic. Qed.

Lemma render_range_digit lo hi : exists c r, render_range lo hi = c :: r /\ is_digit c = true.
Proof.
  assert (Hd := show_N_digits lo). assert (Hn := show_N_nonempty lo). unfold render_range.
  destruct (show_N lo) as [|c r]; [done|]. apply Forall_cons in Hd as [Hc _].
  case_if; by eexists _, _.
Qed.

Lemma parse_pieces_render ts inc exc :
  Forall token_ok ts ->
  parse_pieces (map render ts) inc exc
  = inl (mkEventIdFilter (inc ++ map range_of (List.filter (fun t => negb (is_exclude t)) ts))
           (exc ++ map range_of (List.filter is_exclude ts))).
Proof.
  intros Ht. revert inc exc. induction Ht as [|t ts Ht Hts IH]; intros inc exc.
  { cbn. by rewrite !app_nil_r. }
  cbn [map parse_pieces]. rewrite trim_graphic by apply render_graphic.
  destruct t as [lo hi|lo hi]; destruct Ht as [Hle Hmax]; cbn [render is_exclude negb List.filter map range_of].
  - destruct (render_range_digit lo hi) as (c & r & Hr & Hc).
    assert (Hsp : strip_prefix [dash] (render_range lo hi) = None).
    { destruct (strip_prefix _ _) as [q|] eqn:E; [|done]. apply strip_prefix_Some in E.
      rewrite Hr in E. cbn in E. simplify_eq. }
    replace (is_empty (render_range lo hi)) with false by by rewrite Hr.
    rewrite Hsp, parse_range_render, IH by done. by rewrite <- app_assoc.
  - replace (is_empty ([dash] ++ render_range lo hi)) with false by done.
    rewrite (proj2 (strip_prefix_Some _ _ _) eq_refl), trim_graphic by apply render_range_graphic.
    rewrite parse_range_render, IH by done. by rewrite <- app_assoc.
Qed.

Lemma parse_render_spec ts :
  ts <> [] -> Forall token_ok ts ->
  parse (render_spec ts)
  = inl (mkEventIdFilter (map range_of (List.filter (fun t => negb (is_exclude t)) ts))
           (map range_of (List.filter is_exclude ts))).
Proof.
  intros Hne Ht. unfold parse, render_spec. rewrite split_join.
  - by rewrite parse_pieces_render.
  - by destruct ts.
  - apply Forall_map, Forall_true. intros [lo hi|lo hi]; cbn [render].
    + by apply render_range_no.
    + rewrite elem_of_app. intros [Hin|Hin]; [set_solver|]. by apply render_range_no in Hin.
Qed.

Lemma existsb_ranges id ts :
  existsb (in_one id) (map range_of ts) = true <-> exists t, t ∈ ts /\ covers id t.
Proof.
  rewrite existsb_exists. split.
  - intros (r & Hr & Hi). apply list_elem_of_In, list_elem_of_fmap in Hr as (t & -> & Ht).
    exists t. split; [done|]. unfold in_one in Hi. norm_bool. by destruct t.
  - intros (t & Ht & Hc). exists (range_of t). split; [by apply list_elem_of_In, list_elem_of_fmap_2|].
    unfold in_one. apply andb_true_iff. rewrite !N.leb_le. by destruct t.
Qed.
End EventFilter.
