(* ===== verification/Config.v ===== *)
(** [src/src/config.rs]: the agent's configuration: deserialization with its
    defaults, validation at load time, durations and device filters.

    The TOML parser is third-party: [toml_table] is the table a document
    denotes (keys are unique in a TOML table). What the derived deserializer
    does with the table (types, defaults, required fields) is modelled here. *)
From S2P Require Import Prelude Str StrFacts External EventFilter.
From Stdlib Require Import Strings.Byte.

(** [toml::from_str], up to the table; [None] is a syntax error. *)
Class Toml := toml_table : bytes -> option Map.

(** [OtherOs] is neither of these nor a Unix. *)
Inductive Platform := Linux | MacOs | Windows | OtherOs.

(** * Durations *)

(** Why a duration is rejected. *)
Inductive DurationError := EmptyDuration | InvalidNumber (s : bytes) | UnknownSuffix (s : bytes).

(** Nanoseconds; [v * 60] and [v * 3600] wrap at 64 bits in a release build. *)
Definition parse_duration (s : bytes) : N + DurationError :=
  let s := trim s in
  let number (n : bytes) (unit_ : N -> N) :=
    match parse_u64 n with Some v => inl (unit_ v) | None => inr (InvalidNumber s) end in
  if is_empty s then inr EmptyDuration
  else match strip_suffix b#"ms" s with
  | Some n => number n (fun v => v * 1000000)
  | None =>
    match strip_suffix b#"s" s with
    | Some n => number n (fun v => v * 1000000000)
    | None =>
      match strip_suffix b#"m" s with
      | Some n => number n (fun v => wrap64 (v * 60) * 1000000000)
      | None =>
        match strip_suffix b#"h" s with
        | Some n => number n (fun v => wrap64 (v * 3600) * 1000000000)
        | None => inr (UnknownSuffix s)
        end
      end
    end
  end.

(** * Field readers *)

(** A field with a default: absent takes the default, a value of another type
    is an error. *)
Definition with_default {A} (read : Value -> option A) (default : A) (k : bytes) (t : Map) : option A :=
  match map_get k t with
  | Some v => read v
  | None => Some default
  end.

Definition required {A} (read : Value -> option A) (k : bytes) (t : Map) : option A :=
  match map_get k t with Some v => read v | None => None end.

(** An [Option] field: absent is [None]; TOML has no null. *)
Definition optional {A} (read : Value -> option A) (k : bytes) (t : Map) : option (option A) :=
  match map_get k t with
  | Some v => match read v with Some a => Some (Some a) | None => None end
  | None => Some None
  end.

Definition read_string (v : Value) : option bytes :=
  match v with VString s => Some s | _ => None end.
Definition read_bool (v : Value) : option bool :=
  match v with VBool b => Some b | _ => None end.
Definition read_unsigned (v : Value) : option N :=
  match v with VNumber (PosInt n) => Some n | _ => None end.
Definition read_strings (v : Value) : option (list bytes) :=
  match v with VArray l => mapM read_string l | _ => None end.
Definition read_duration (v : Value) : option N :=
  match v with
  | VString s => match parse_duration s with inl d => Some d | inr _ => None end
  | _ => None
  end.
Definition read_string_map (v : Value) : option (list (bytes * bytes)) :=
  match v with
  | VObject m => mapM (fun kv : bytes * Value =>
      match read_string kv.2 with Some s => Some (kv.1, s) | None => None end) m
  | _ => None
  end.

(** * The configuration *)

Inductive LogSource := Auto | Journald | UnifiedLog | EventLog | Files.

Definition read_log_source (v : Value) : option LogSource :=
  match v with
  | VString s =>
    if bool_decide (s = b#"auto") then Some Auto
    else if bool_decide (s = b#"journald") then Some Journald
    else if bool_decide (s = b#"unifiedlog") || bool_decide (s = b#"unified") then Some UnifiedLog
    else if bool_decide (s = b#"eventlog") || bool_decide (s = b#"event_log") then Some EventLog
    else if bool_decide (s = b#"files") then Some Files
    else None
  | _ => None
  end.

Record FilterConfig := mkFilterConfig { fc_include : list bytes; fc_exclude : list bytes }.

Definition filter_config_default : FilterConfig := mkFilterConfig [] [].

Definition read_filter_config (v : Value) : option FilterConfig :=
  match v with
  | VObject t =>
    i ← with_default read_strings [] b#"include" t;
    e ← with_default read_strings [] b#"exclude" t;
    Some (mkFilterConfig i e)
  | _ => None
  end.

Record SystemConfig := mkSystemConfig {
  sys_cpu : bool; sys_memory : bool; sys_load : bool; sys_disk : bool; sys_network : bool;
  sys_tcp : bool; sys_cgroups : bool; sys_containers : bool; sys_processes : bool;
  sys_process_top : N;
  sys_network_filter : FilterConfig;
  sys_disk_filter : FilterConfig;
  sys_disk_fs_types : list bytes;
}.

Definition default_metrics_enabled (p : Platform) : bool :=
  match p with Linux => true | _ => false end.

Definition default_top_n : N := 10.

(** [impl Default for SystemConfig]. *)
Definition system_config_default (p : Platform) : SystemConfig :=
  let enabled := default_metrics_enabled p in
  mkSystemConfig enabled enabled enabled enabled enabled enabled enabled enabled enabled
    default_top_n filter_config_default filter_config_default [].

(** The derived deserializer, with its field-level defaults. *)
Definition read_system_config (p : Platform) (v : Value) : option SystemConfig :=
  match v with
  | VObject t =>
    let on := default_metrics_enabled p in
    cpu ← with_default read_bool on b#"cpu" t;
    memory ← with_default read_bool on b#"memory" t;
    load ← with_default read_bool on b#"load" t;
    disk ← with_default read_bool on b#"disk" t;
    network ← with_default read_bool on b#"network" t;
    tcp ← with_default read_bool on b#"tcp" t;
    cgroups ← with_default read_bool on b#"cgroups" t;
    containers ← with_default read_bool on b#"containers" t;
    processes ← with_default read_bool on b#"processes" t;
    top ← with_default read_unsigned default_top_n b#"process_top" t;
    nf ← with_default read_filter_config filter_config_default b#"network_filter" t;
    df ← with_default read_filter_config filter_config_default b#"disk_filter" t;
    fs ← with_default read_strings [] b#"disk_fs_types" t;
    Some (mkSystemConfig cpu memory load disk network tcp cgroups containers processes top nf df fs)
  | _ => None
  end.

Record AgentConfig := mkAgentConfig {
  api_key : bytes;
  endpoint : bytes;
  server : option bytes;
  config_poll_interval : N;
  hostname : bytes;
  interval : N;
  cfg_tags : list (bytes * bytes);
  log_source : LogSource;
  unified_log_predicate : option bytes;
  eventlog_channels : list bytes;
  eventlog_query : option bytes;
  eventlog_event_ids : option bytes;
  eventlog_exclude_providers : list bytes;
  journal_include_services : list bytes;
  journal_exclude_services : list bytes;
  parse_syslog : bool;
  parse_structured : bool;
  detect_levels : bool;
  multiline_start_pattern : option bytes;
  multiline_timeout_ms : N;
  multiline_max_bytes : N;
  logs : list bytes;
  batch_size : N;
  buffer_max_bytes : option N;
  system : SystemConfig;
}.

Definition default_endpoint : bytes := b#"localhost:50000".
Definition default_interval : N := 15 * 1000000000.
Definition default_config_poll_interval : N := 300 * 1000000000.
Definition default_eventlog_channels : list bytes := [b#"System"; b#"Application"; b#"Security"].
Definition default_multiline_timeout_ms : N := 1000.
Definition default_multiline_max_bytes : N := 1024 * 1024.
Definition default_batch_size : N := 500.

Definition default_logs (p : Platform) : list bytes :=
  match p with
  | Linux =>
    [b#"/var/log/syslog"; b#"/var/log/auth.log"; b#"/var/log/kern.log"; b#"/var/log/nginx/*.log";
     b#"/var/log/apache2/*.log"; b#"/var/log/postgresql/*.log"; b#"/var/log/mysql/*.log";
     b#"/var/log/mongodb/*.log"; b#"/var/log/redis/*.log"; b#"/var/log/haproxy/*.log";
     b#"/var/log/traefik/*.log"; b#"/var/log/elasticsearch/*.log"; b#"/var/log/rabbitmq/*.log"]
  | MacOs =>
    [b#"/var/log/install.log"; b#"/var/log/system.log"; b#"/opt/homebrew/var/log/*.log";
     b#"/usr/local/var/log/*.log"]
  | _ => []
  end.

Definition read_agent_config (p : Platform) (t : Map) : option AgentConfig :=
  key ← required read_string b#"api_key" t;
  endpoint ← with_default read_string default_endpoint b#"endpoint" t;
  server ← optional read_string b#"server" t;
  cpi ← with_default read_duration default_config_poll_interval b#"config_poll_interval" t;
  host ← with_default read_string [] b#"hostname" t;
  int ← with_default read_duration default_interval b#"interval" t;
  tags ← with_default read_string_map [] b#"tags" t;
  src ← with_default read_log_source Auto b#"log_source" t;
  pred ← optional read_string b#"unified_log_predicate" t;
  chans ← with_default read_strings default_eventlog_channels b#"eventlog_channels" t;
  query ← optional read_string b#"eventlog_query" t;
  ids ← optional read_string b#"eventlog_event_ids" t;
  provs ← with_default read_strings [] b#"eventlog_exclude_providers" t;
  jinc ← with_default read_strings [] b#"journal_include_services" t;
  jexc ← with_default read_strings [] b#"journal_exclude_services" t;
  psys ← with_default read_bool true b#"parse_syslog" t;
  pstr ← with_default read_bool true b#"parse_structured" t;
  dlev ← with_default read_bool true b#"detect_levels" t;
  mlp ← optional read_string b#"multiline_start_pattern" t;
  mlt ← with_default read_unsigned default_multiline_timeout_ms b#"multiline_timeout_ms" t;
  mlm ← with_default read_unsigned default_multiline_max_bytes b#"multiline_max_bytes" t;
  logs ← with_default read_strings (default_logs p) b#"logs" t;
  batch ← with_default read_unsigned default_batch_size b#"batch_size" t;
  buf ← optional read_unsigned b#"buffer_max_bytes" t;
  sys ← with_default (read_system_config p) (system_config_default p) b#"system" t;
  Some (mkAgentConfig key endpoint server cpi host int tags src pred chans query ids provs jinc jexc
          psys pstr dlev mlp mlt mlm logs batch buf sys).

(** * Validation *)

Definition is_hex (b : byte) : bool := in_range 48 57 b || in_range 97 102 b || in_range 65 70 b.

Inductive KeyError := KeyRequired | KeyLength (n : N) | KeyNotHex.

Definition validate_api_key (key : bytes) : option KeyError :=
  if is_empty key then Some KeyRequired
  else if negb (len key =? 32) then Some (KeyLength (len key))
  else if negb (List.forallb is_hex key) then Some KeyNotHex
  else None.

Inductive ConfigError :=
| BadToml
| BadApiKey (e : KeyError)
| BadEventIds (e : EventFilter.ParseError)
| BadPattern.

Section load.
Context `{Toml, Regex}.

Definition parse_config (p : Platform) (contents : bytes) : AgentConfig + ConfigError :=
  match toml_table contents ≫= read_agent_config p with
  | None => inr BadToml
  | Some config =>
    match validate_api_key (api_key config) with
    | Some e => inr (BadApiKey e)
    | None =>
      match match eventlog_event_ids config with
            | Some spec => match EventFilter.parse spec with inl _ => None | inr e => Some e end
            | None => None
            end with
      | Some e => inr (BadEventIds e)
      | None =>
        match multiline_start_pattern config with
        | Some pat => match regex_new pat with Some _ => inl config | None => inr BadPattern end
        | None => inl config
        end
      end
    end
  end.
End load.

(** * Device filter *)

Section filter.
Context `{Glob}.

Record DeviceFilter := mkDeviceFilter { df_include : list pattern; df_exclude : list pattern }.

(** A pattern that does not compile is dropped. *)
Definition device_filter_new (config : FilterConfig) (default_exclude : list bytes) : DeviceFilter :=
  let exclude_patterns := if is_empty (fc_exclude config) then default_exclude else fc_exclude config in
  mkDeviceFilter (omap pattern_new (fc_include config)) (omap pattern_new exclude_patterns).

Definition allows (f : DeviceFilter) (name : bytes) : bool :=
  let included := is_empty (df_include f) || existsb (fun p => pattern_matches p name) (df_include f) in
  let excluded := existsb (fun p => pattern_matches p name) (df_exclude f) in
  included && negb excluded.
End filter.

(** [hostname] when set, else [/etc/hostname], else the system's answer. *)
Definition resolve_hostname (configured : bytes) (etc_hostname : option bytes)
    (gethostname : option bytes) : bytes :=
  if negb (is_empty configured) then configured
  else
    let from_system :=
      match gethostname with
      | Some buf =>
        match position (fun b => bool_decide (b = x00)) buf with
        | Some end_ =>
          let s := take end_ buf in
          if valid_utf8 s && negb (is_empty s) then s else b#"unknown"
        | None => b#"unknown"
        end
      | None => b#"unknown"
      end in
    match etc_hostname with
    | Some h =>
      if valid_utf8 h && negb (is_empty (trim h)) then trim h else from_system
    | None => from_system
    end.

(** * Properties *)

(** "Must agree with the field-level defaults." *)
Lemma system_default_agrees p : read_system_config p (VObject []) = Some (system_config_default p).
Proof. done. Qed.

Lemma validate_api_key_ok key :
  validate_api_key key = None <-> len key = 32 /\ Forall (fun b => is_hex b = true) key.
Proof.
  unfold validate_api_key. destruct (is_empty key) eqn:Ee.
  { destruct key; [|done]. split; [done|]. by intros [? _]. }
  destruct (N.eqb_spec (len key) 32); cbn [negb]; [|split; [done|by intros [? _]]].
  destruct (List.forallb is_hex key) eqn:Eh; cbn [negb].
  - split; [|done]. intros _. split; [done|]. apply Forall_forall. intros x Hx. eapply forallb_forall; [exact Eh|]. by apply list_elem_of_In.
  - split; [done|]. intros [_ Hf]. exfalso.
    assert (Ht : List.forallb is_hex key = true) by (apply forallb_forall, List.Forall_forall; exact Hf).
    congruence.
Qed.
