(* ===== verification/RemoteConfig.v ===== *)
(** [src/src/remote_config.rs] and [src/src/curl.rs]: the remote-configuration
    poller. It fetches the configuration with [curl], validates it with
    [Config.parse_config], and on a changed valid body rewrites the file and
    asks for a reload. *)
From S2P Require Import Prelude Str StrFacts External Text Source EventFilter Config.
From Stdlib Require Import Strings.Byte.

(** A computation that may panic. *)
Inductive exn (A : Type) := Ret (a : A) | Panicked.
Arguments Ret {A} _.
Arguments Panicked {A}.

Definition BACKOFF_CAP : N := secs (30 * 60).

Record PollerConfig := mkPollerConfig {
  pc_server : bytes;
  pc_api_key : bytes;
  pc_endpoint : bytes;
  pc_interval : N;
  pc_applied_hash : bytes;
}.

(** * The digest *)

Definition FNV_OFFSET : N := 14695981039346656037.
Definition FNV_PRIME : N := 1099511628211.

Definition fnv_step (hash : N) (b : byte) : N := wrap64 (N.lxor hash (bN b) * FNV_PRIME).

Definition fnv1a (s : bytes) : N := fold_left fnv_step s FNV_OFFSET.

Definition hex_digit (d : N) : byte := byte_of (if d <? 10 then 48 + d else 87 + d).

(** [{:0kx}] of a value below [16^k]. *)
Fixpoint hex_fixed (k : nat) (n : N) : bytes :=
  match k with
  | O => []
  | S k' => hex_digit ((n / 16 ^ N.of_nat k') mod 16) :: hex_fixed k' n
  end.

Definition config_hash (s : bytes) : bytes := hex_fixed 16 (fnv1a s).

(** * The HTTP response *)

Record HttpResponse := mkHttpResponse {
  status : N;
  etag : option bytes;
  body : bytes;
}.

(** The first index at which [needle] occurs. *)
Fixpoint find_from (needle : bytes) (i : nat) (haystack : bytes) : option nat :=
  if starts_with needle haystack then Some i
  else match haystack with
  | [] => None
  | _ :: r => find_from needle (S i) r
  end.

Definition find_subslice (haystack needle : bytes) : option nat :=
  if is_empty needle || (length haystack <? length needle)%nat then None
  else find_from needle 0 haystack.

Definition parse_status_code (status_line : bytes) : option N :=
  match split_whitespace status_line !! 1%nat with
  | Some w => parse_u16 w
  | None => None
  end.

(** [str::is_char_boundary]; [&l[..5]] panics where it is false. *)
Definition is_char_boundary (l : bytes) (i : nat) : bool :=
  match l !! i with
  | Some b => negb (in_range 128 191 b)
  | None => (i =? length l)%nat
  end.

Definition ETAG : bytes := b#"etag:".

(** [lines.find(..).map(..)]. *)
Fixpoint find_etag (ls : list bytes) : exn (option bytes) :=
  match ls with
  | [] => Ret None
  | l :: rest =>
    if (5 <=? length l)%nat then
      if negb (is_char_boundary l 5) then Panicked
      else if eq_ignore_ascii_case (take 5 l) ETAG then Ret (Some (trim (drop 5 l)))
      else find_etag rest
    else find_etag rest
  end.

Definition crlf2 : bytes := [x0d; x0a; x0d; x0a].
Definition lf2 : bytes := [x0a; x0a].

Definition header_end (raw : bytes) : option (nat * nat) :=
  match find_subslice raw crlf2 with
  | Some i => Some (i, 4%nat)
  | None => match find_subslice raw lf2 with Some i => Some (i, 2%nat) | None => None end
  end.

Definition parse_http_response (raw : bytes) : exn (option HttpResponse) :=
  match header_end raw with
  | None => Ret None
  | Some (hdr_end, sep_len) =>
    let body := drop (hdr_end + sep_len) raw in
    match lines (from_utf8_lossy (take hdr_end raw)) with
    | [] => Ret None
    | first :: rest =>
      match parse_status_code first with
      | None => Ret None
      | Some status =>
        match find_etag rest with
        | Panicked => Panicked
        | Ret etag => Ret (Some (mkHttpResponse status etag body))
        end
      end
    end
  end.

(** * Classification *)

Inductive PollOutcome :=
| NotModified
| Unchanged (etag : option bytes)
| Changed (body hash : bytes) (endpoint_changed api_key_changed server_dropped : bool)
| Invalid (e : ConfigError).

Inductive PollError := CurlMissing | Fetch.

(** [u8::is_ascii_whitespace]. *)
Definition is_ascii_whitespace (b : byte) : bool :=
  bool_decide (b ∈ [x20; x09; x0a; x0c; x0d]).

Section poller.
Context `{Toml, Regex}.

Definition classify_response (p : Platform) (pc : PollerConfig) (applied_hash : bytes)
    (resp : HttpResponse) : PollOutcome + PollError :=
  if status resp =? 304 then inl NotModified
  else if status resp =? 200 then
    if List.forallb is_ascii_whitespace (body resp) then inr Fetch
    else
      let body := from_utf8_lossy (body resp) in
      match parse_config p body with
      | inr e => inl (Invalid e)
      | inl new_cfg =>
        let hash := config_hash body in
        if bool_decide (hash = applied_hash) then inl (Unchanged (etag resp))
        else inl (Changed body hash
                    (negb (bool_decide (endpoint new_cfg = pc_endpoint pc)))
                    (negb (bool_decide (api_key new_cfg = pc_api_key pc)))
                    (match server new_cfg with None => true | Some _ => false end))
      end
  else inr Fetch.

(** [s.trim_end_matches('/')]. *)
Fixpoint drop_slashes (s : bytes) : bytes :=
  match s with
  | x :: r => if bool_decide (x = x2f) then drop_slashes r else s
  | [] => []
  end.

Definition poll_url (server : bytes) : bytes :=
  reverse (drop_slashes (reverse server)) ++ b#"/v1/agent/config".

(** The arguments of [curl]; [version] is the crate's. *)
Definition poll_args (version : bytes) (pc : PollerConfig) (applied_hash : bytes)
    (etag : option bytes) : list bytes :=
  [b#"-sS"; b#"-i"; b#"--max-time"; b#"10"; b#"-H"; b#"User-Agent: witness/" ++ version;
   b#"-H"; b#"X-Witness-Config-Hash: " ++ applied_hash]
  ++ match etag with Some e => [b#"-H"; b#"If-None-Match: " ++ e] | None => [] end
  ++ [b#"--config"; b#"-"; poll_url (pc_server pc)].

Definition quote : byte := x22.

(** What [run_with_bearer] writes to the standard input of [curl]. *)
Definition bearer_config (token : bytes) : bytes :=
  b#"header = " ++ [quote] ++ b#"Authorization: Bearer " ++ token ++ [quote; nl].

(** How the subprocess went. *)
Inductive CurlResult :=
| CurlNotFound
| CurlFailed                       (* spawn error, task failure or exit status *)
| CurlOutput (stdout : bytes).

Definition poll_once (p : Platform) (pc : PollerConfig) (applied_hash : bytes) (curl : CurlResult)
    : exn (PollOutcome + PollError) :=
  match curl with
  | CurlNotFound => Ret (inr CurlMissing)
  | CurlFailed => Ret (inr Fetch)
  | CurlOutput stdout =>
    match parse_http_response stdout with
    | Panicked => Panicked
    | Ret None => Ret (inr Fetch)
    | Ret (Some resp) => Ret (classify_response p pc applied_hash resp)
    end
  end.

(** [write_config_atomic]: every step before the rename must succeed; the
    [chown] is best effort. *)
Record WriteIo := mkWriteIo { wr_create : bool; wr_write : bool; wr_sync : bool; wr_chmod : bool; wr_rename : bool }.

Definition write_config_atomic (io : WriteIo) (data : bytes) (file : option bytes) : bool * option bytes :=
  if wr_create io && wr_write io && wr_sync io && wr_chmod io && wr_rename io
  then (true, Some data) else (false, file).

(** * The loop *)

Inductive PollerExit :=
| ExitCancelled | ExitReload | ExitDisabled | ExitPanicked.

(** What one turn of the loop meets. *)
Inductive PollEvent :=
| PoCancel
| PoPoll (curl : CurlResult) (io : WriteIo).

Record PollerState := mkPollerState { ps_delay : N; ps_etag : option bytes; ps_file : option bytes }.

(** What [log_authority_changes] warns about, in this order. *)
Inductive AuthorityWarning := EndpointChanged (hash : bytes) | ApiKeyChanged (hash : bytes) | ServerDropped.

Definition log_authority_changes (endpoint_changed api_key_changed server_dropped : bool) (hash : bytes)
    : list AuthorityWarning :=
  (if endpoint_changed then [EndpointChanged hash] else [])
  ++ (if api_key_changed then [ApiKeyChanged hash] else [])
  ++ (if server_dropped then [ServerDropped] else []).

Definition poll_step (p : Platform) (pc : PollerConfig) (st : PollerState) (ev : PollEvent)
    : PollerState + (PollerExit * option bytes) :=
  let base := pc_interval pc in
  match ev with
  | PoCancel => inr (ExitCancelled, ps_file st)
  | PoPoll curl io =>
    match poll_once p pc (pc_applied_hash pc) curl with
    | Panicked => inr (ExitPanicked, ps_file st)
    | Ret (inl NotModified) => inl (mkPollerState base (ps_etag st) (ps_file st))
    | Ret (inl (Unchanged new)) =>
      inl (mkPollerState base (match new with Some e => Some e | None => ps_etag st end) (ps_file st))
    | Ret (inl (Invalid _)) => inl (mkPollerState base (ps_etag st) (ps_file st))
    | Ret (inl (Changed body _ _ _ _)) =>
      let '(ok, file) := write_config_atomic io body (ps_file st) in
      if ok then inr (ExitReload, file) else inl (mkPollerState base (ps_etag st) file)
    | Ret (inr CurlMissing) => inr (ExitDisabled, ps_file st)
    | Ret (inr Fetch) =>
      inl (mkPollerState (next_backoff (ps_delay st) BACKOFF_CAP) (ps_etag st) (ps_file st))
    end
  end.

Fixpoint poll_loop (p : Platform) (pc : PollerConfig) (st : PollerState) (evs : list PollEvent)
    : PollerState + (PollerExit * option bytes) :=
  match evs with
  | [] => inl st
  | ev :: rest =>
    match poll_step p pc st ev with
    | inl st' => poll_loop p pc st' rest
    | inr e => inr e
    end
  end.

Definition run_poller (p : Platform) (pc : PollerConfig) (file : option bytes) (evs : list PollEvent)
    : PollerState + (PollerExit * option bytes) :=
  if negb (starts_with b#"https://" (pc_server pc)) then inr (ExitDisabled, file)
  else if pc_interval pc =? 0 then inr (ExitDisabled, file)
  else poll_loop p pc (mkPollerState (pc_interval pc) None file) evs.
End poller.

(** [main.rs]: the hash a poller is started with, from the bytes of the
    configuration file. *)
Definition applied_config_hash (file : option bytes) : bytes :=
  match file with Some b => config_hash b | None => config_hash [] end.

(** * Properties *)

Lemma fnv1a_bound s : fnv1a s < 18446744073709551616.
Proof.
  unfold fnv1a. destruct s as [|b s] using rev_ind; [done|].
  rewrite fold_left_app. cbn [fold_left]. unfold fnv_step, wrap64. by apply N.mod_lt.
Qed.

Lemma hex_digit_inj d e : d < 16 -> e < 16 -> hex_digit d = hex_digit e -> d = e.
Proof.
  intros Hd He Heq. apply (f_equal bN) in Heq. unfold hex_digit in Heq. rewrite !bN_byte_of in Heq.
  rewrite !N.mod_small in Heq by (case_if; lia).
  destruct (N.ltb_spec d 10), (N.ltb_spec e 10); lia.
Qed.

Lemma hex_fixed_inj k n m :
  n < 16 ^ N.of_nat k -> m < 16 ^ N.of_nat k -> hex_fixed k n = hex_fixed k m -> n = m.
Proof.
  assert (Hmain : hex_fixed k n = hex_fixed k m -> n mod 16 ^ N.of_nat k = m mod 16 ^ N.of_nat k).
  { clear. induction k as [|k IH]; cbn [hex_fixed]; [intros _; by rewrite !N.mod_1_r|].
    intros Heq. injection Heq as Hd Hr. apply IH in Hr.
    apply hex_digit_inj in Hd; [|by apply N.mod_lt..].
    rewrite Nat2N.inj_succ, N.pow_succ_r', (N.mul_comm 16).
    rewrite !N.Div0.mod_mul_r. by rewrite Hd, Hr. }
  intros Hn Hm Heq. specialize (Hmain Heq). by rewrite !N.mod_small in Hmain.
Qed.

Lemma config_hash_inj s t : config_hash s = config_hash t <-> fnv1a s = fnv1a t.
Proof.
  split; [|by unfold config_hash; intros ->]. apply hex_fixed_inj; apply fnv1a_bound.
Qed.

Lemma hex_fixed_length k n : length (hex_fixed k n) = k.
Proof. induction k; cbn; congruence. Qed.

(** An ASCII header never panics. *)
Lemma ascii_boundary l i :
  Forall (fun c => bN c < 128) l -> (i <= length l)%nat -> is_char_boundary l i = true.
Proof.
  intros Hl Hi. unfold is_char_boundary. destruct (l !! i) as [b|] eqn:E.
  - eapply Forall_lookup_1 in Hl; [|exact E]. cbn beta in Hl. unfold in_range.
    rewrite (proj2 (N.leb_gt 128 (bN b))) by done. done.
  - apply lookup_ge_None in E. apply Nat.eqb_eq. lia.
Qed.

Lemma find_etag_ascii ls :
  Forall (Forall (fun c => bN c < 128)) ls -> exists e, find_etag ls = Ret e.
Proof.
  induction 1 as [|l ls Hl Hls IH]; cbn [find_etag]; [by eexists|].
  destruct (5 <=? length l)%nat eqn:E; [|done]. apply Nat.leb_le in E.
  rewrite ascii_boundary by done. cbn [negb]. case_if; [by eexists|done].
Qed.
