(* ===== verification/Derived.v ===== *)
(** [src/src/metrics/derived.rs]: ratios shared by the collectors. *)
From S2P Require Import Prelude Str StrFacts Text F64 Sink EventFilter.
From Stdlib Require Import Strings.Byte.

Definition ratio_percent (part whole : f64) : option f64 :=
  if negb (is_finite whole) || f64_le whole f0 || negb (is_finite part) then None
  else Some (clamp (f64_mul (f64_div part whole) f100) f0 f100).

Definition memory_used_percent (total available : f64) : option f64 :=
  ratio_percent (f64_sub total available) total.

Definition swap_used_percent (total used : f64) : option f64 := ratio_percent used total.

Definition cpu_busy_percent (idle_percent : f64) : option f64 :=
  if negb (is_finite idle_percent) then None
  else Some (clamp (f64_sub f100 idle_percent) f0 f100).

Definition load_per_cpu (load : f64) (cpu_count : N) : option f64 :=
  if (cpu_count =? 0) || negb (is_finite load) then None
  else Some (f64_div load (f64_of_N cpu_count)).

(** [usize] is 64 bits wide. *)
Definition checked_add (a b : N) : option N := if a + b <=? u64_max then Some (a + b) else None.
Definition checked_sub (a b : N) : option N := if b <=? a then Some (a - b) else None.

Definition count_cpu_range (part : bytes) : option N :=
  match split_once x2d part with
  | None => match parse_u64 part with Some _ => Some 1 | None => None end
  | Some (lo, hi) =>
    lo ← parse_u64 lo; hi ← parse_u64 hi; d ← checked_sub hi lo; checked_add d 1
  end.

(** [try_fold] over the pieces. *)
Fixpoint sum_ranges (acc : N) (parts : list bytes) : option N :=
  match parts with
  | [] => Some acc
  | part :: rest => n ← count_cpu_range (trim part); acc' ← checked_add acc n; sum_ranges acc' rest
  end.

Definition count_cpu_list (list : bytes) : option N :=
  let list := trim list in
  if is_empty list then None else sum_ranges 0 (split x2c list).

(** * Properties *)

Lemma f64_le_total x : is_nan x = false -> f64_le x f0 = false -> f64_gt x f0 = true.
Proof.
  unfold f64_le, f64_gt, SpecFloat.SFleb, SpecFloat.SFltb, f0.
  destruct x as [s|s| |s m e]; cbn; try done; by destruct s.
Qed.

Lemma ratio_percent_bounds part whole v : ratio_percent part whole = Some v -> is_percent v.
Proof.
  unfold ratio_percent. destruct (is_finite whole) eqn:Ew; [|done]. cbn [negb orb].
  destruct (f64_le whole f0) eqn:Ele; [done|]. destruct (is_finite part) eqn:Ep; [|done].
  intros [= <-]. apply clamp_percent, f64_mul_100_not_nan.
  apply f64_div_not_nan; [done|]. apply f64_le_total; [by destruct whole|done].
Qed.

Lemma f64_sub_not_nan x y : is_finite x = true -> is_finite y = true -> is_nan (f64_sub x y) = false.
Proof.
  destruct x as [sx| | |sx mx ex], y as [sy| | |sy my ey]; try done; intros _ _.
  - by destruct sx, sy.
  - apply binary_normalize_not_nan.
Qed.

Lemma cpu_busy_percent_bounds idle v : cpu_busy_percent idle = Some v -> is_percent v.
Proof.
  unfold cpu_busy_percent. destruct (is_finite idle) eqn:E; [|done]. intros [= <-].
  apply clamp_percent. by apply (f64_sub_not_nan f100 idle).
Qed.

(** A list element: one CPU, or an inclusive range. *)
Inductive CpuRange := OneCpu (n : N) | Span (lo hi : N).

Definition render_cpus (r : CpuRange) : bytes :=
  match r with OneCpu n => show_N n | Span lo hi => show_N lo ++ [x2d] ++ show_N hi end.

Definition range_ok (r : CpuRange) : Prop :=
  match r with OneCpu n => n <= u64_max | Span lo hi => lo <= hi /\ hi < u64_max end.

Definition range_size (r : CpuRange) : N :=
  match r with OneCpu _ => 1 | Span lo hi => hi - lo + 1 end.

Lemma count_cpu_range_render r : range_ok r -> count_cpu_range (render_cpus r) = Some (range_size r).
Proof.
  assert (Hno := fun n => show_N_not_elem n x2d eq_refl). unfold count_cpu_range.
  destruct r as [n|lo hi]; cbn [range_ok render_cpus range_size].
  - intros Hn. unfold split_once. rewrite (proj2 (find_byte_None _ _) (Hno n)).
    unfold parse_u64. by rewrite parse_uint_show.
  - intros [Hle Hm]. cbn [app]. rewrite split_once_app by done. unfold parse_u64.
    rewrite !parse_uint_show by lia. cbn. unfold checked_sub, checked_add.
    rewrite (proj2 (N.leb_le lo hi)) by done. cbn. rewrite (proj2 (N.leb_le _ _)) by lia. done.
Qed.

Definition total_cpus (rs : list CpuRange) : N := foldr (fun r acc => range_size r + acc) 0 rs.

Lemma render_cpus_graphic r : Forall (fun c => in_range 33 126 c = true) (render_cpus r).
Proof.
  destruct r; cbn [render_cpus]; repeat (apply Forall_app; split); try apply show_N_graphic; by repeat constructor.
Qed.

Lemma sum_ranges_render rs acc :
  Forall range_ok rs -> acc + total_cpus rs <= u64_max ->
  sum_ranges acc (map render_cpus rs) = Some (acc + total_cpus rs).
Proof.
  intros Hr. revert acc. induction Hr as [|r rs Hr Hrs IH]; intros acc Hmax; cbn [map sum_ranges].
  { cbn. f_equal. lia. }
  unfold total_cpus in *. cbn [foldr] in *.
  rewrite trim_graphic by apply render_cpus_graphic. rewrite count_cpu_range_render by done. cbn.
  unfold checked_add. rewrite (proj2 (N.leb_le _ _)) by lia. cbn. rewrite IH by lia. f_equal. lia.
Qed.

Lemma count_cpu_list_render rs :
  rs <> [] -> Forall range_ok rs -> total_cpus rs <= u64_max ->
  count_cpu_list (join [x2c] (map render_cpus rs)) = Some (total_cpus rs).
Proof.
  intros Hne Hr Hmax. unfold count_cpu_list.
  assert (Hg : Forall (fun c => in_range 33 126 c = true) (join [x2c] (map render_cpus rs))).
  { clear. induction rs as [|r rs IH]; [constructor|]. cbn [map]. destruct rs as [|r2 rs].
    - cbn. apply render_cpus_graphic.
    - change (join [x2c] (render_cpus r :: map render_cpus (r2 :: rs)))
        with (render_cpus r ++ [x2c] ++ join [x2c] (map render_cpus (r2 :: rs))).
      repeat (apply Forall_app; split); [apply render_cpus_graphic|by repeat constructor|done]. }
  rewrite trim_graphic by done.
  assert (Hsp : split x2c (join [x2c] (map render_cpus rs)) = map render_cpus rs).
  { apply EventFilter.split_join; [by destruct rs|]. apply Forall_map, Forall_true. intros r.
    assert (Hno := fun n => show_N_not_elem n x2c eq_refl). destruct r; cbn [render_cpus]; set_solver. }
  destruct (is_empty (join [x2c] (map render_cpus rs))) eqn:E.
  { destruct (join _ _) as [|c s] eqn:Ej; [|done]. destruct rs as [|r rs]; [done|].
    cbn in Hsp. destruct r; cbn [map render_cpus] in Hsp; injection Hsp as Hs _; symmetry in Hs.
    - by apply show_N_nonempty in Hs.
    - apply app_eq_nil in Hs as [Hs _]. by apply show_N_nonempty in Hs. }
  rewrite Hsp, sum_ranges_render by (done || lia). f_equal.
Qed.
