(* ===== verification/Collectors.v ===== *)
(** [src/src/metrics/linux/]: the load, memory, CPU, TCP, network and disk I/O
    collectors.

    A collector reads procfs text ([None] when the read fails) and calls the
    sink; here it returns the calls it makes, in order, and its next state.
    [Sink.emit] adds the global tags to each call. *)
From S2P Require Import Prelude Str StrFacts Text External F64 Sink EventFilter Config Derived.
From Stdlib Require Import Strings.Byte.

Definition gauge_call (name : bytes) (v : f64) (labels : list label) : Metric :=
  mkMetric KGauge name v labels Delta.
Definition counter_call (name : bytes) (v : f64) (labels : list label) : Metric :=
  mkMetric KCounter name v labels Delta.
Definition checkpoint_call (name : bytes) (v : f64) (labels : list label) : Metric :=
  mkMetric KCheckpoint name v labels Cumulative.

(** The calls of one collection, made on a sink. *)
Definition emit_all `{TellClient} (s : Sink) (calls : list Metric) : Sink :=
  fold_left (fun s m =>
    emit s (fun l => mkMetric (m_kind m) (m_name m) (m_value m) l (m_temporality m)) (m_labels m))
    calls s.

Definition option_call (v : option f64) (name : bytes) : list Metric :=
  match v with Some x => [gauge_call name x []] | None => [] end.

(** * load.rs *)

Definition online_cpus (cpu_online : option bytes) : option N := cpu_online ≫= count_cpu_list.

Definition load_collect (loadavg cpu_online : option bytes) : list Metric :=
  match loadavg with
  | None => []
  | Some buf =>
    let parts := split_whitespace buf in
    let field i := parts !! i ≫= parse_f64 in
    let load1 := field 0%nat in
    option_call load1 b#"system.load.1"
    ++ option_call (field 1%nat) b#"system.load.5"
    ++ option_call (field 2%nat) b#"system.load.15"
    ++ match load1 with
       | None => []
       | Some l => option_call (online_cpus cpu_online ≫= load_per_cpu l) b#"system.load.1_per_cpu"
       end
  end.

(** * memory.rs *)

Definition parse_kb (s : bytes) : option f64 :=
  match split_whitespace s with
  | w :: _ => match parse_f64 w with Some num => Some (f64_mul num (f64_of_N 1024)) | None => None end
  | [] => None
  end.

Record MemInfo := mkMemInfo {
  mi_total : option f64; mi_available : option f64; mi_cached : option f64;
  mi_swap_total : option f64; mi_swap_free : option f64;
}.

Definition mem_line (mi : MemInfo) (line : bytes) : MemInfo :=
  match split_once x3a line with
  | None => mi
  | Some (key, rest) =>
    let kb := parse_kb rest in
    let '(mkMemInfo t a c st sf) := mi in
    if bool_decide (key = b#"MemTotal") then mkMemInfo kb a c st sf
    else if bool_decide (key = b#"MemAvailable") then mkMemInfo t kb c st sf
    else if bool_decide (key = b#"Cached") then mkMemInfo t a kb st sf
    else if bool_decide (key = b#"SwapTotal") then mkMemInfo t a c kb sf
    else if bool_decide (key = b#"SwapFree") then mkMemInfo t a c st kb
    else mi
  end.

Definition memory_collect (meminfo : option bytes) : list Metric :=
  match meminfo with
  | None => []
  | Some buf =>
    let mi := fold_left mem_line (lines buf) (mkMemInfo None None None None None) in
    option_call (mi_total mi) b#"system.memory.total"
    ++ option_call (mi_available mi) b#"system.memory.available"
    ++ match mi_total mi, mi_available mi with
       | Some total, Some avail =>
         gauge_call b#"system.memory.used" (f64_sub total avail) []
         :: option_call (memory_used_percent total avail) b#"system.memory.used_percent"
       | _, _ => []
       end
    ++ option_call (mi_cached mi) b#"system.memory.cached"
    ++ match mi_swap_total mi, mi_swap_free mi with
       | Some st, Some sf =>
         gauge_call b#"system.memory.swap_used" (f64_sub st sf) []
         :: option_call (swap_used_percent st (f64_sub st sf)) b#"system.memory.swap_used_percent"
       | _, _ => []
       end
  end.

(** * tcp.rs *)

Definition STATE_NAMES : list (nat * bytes) :=
  [(1%nat, b#"established"); (2%nat, b#"syn_sent"); (3%nat, b#"syn_recv"); (4%nat, b#"fin_wait1");
   (5%nat, b#"fin_wait2"); (6%nat, b#"time_wait"); (7%nat, b#"close"); (8%nat, b#"close_wait");
   (9%nat, b#"last_ack"); (10%nat, b#"listen"); (11%nat, b#"closing")].

(** The state of a row: the fourth field, in hexadecimal, as a [u8]. *)
Definition row_state (line : bytes) : option N :=
  match split_whitespace line with
  | _ :: _ :: _ :: st :: _ => parse_uint 16 255 st
  | _ => None
  end.

(** [counts] has 12 slots; a larger state is ignored. *)
Definition count_row (counts : list N) (line : bytes) : list N :=
  match row_state line with
  | Some state =>
    if state <? len counts then alter (fun n => wrap32 (n + 1)) (N.to_nat state) counts else counts
  | None => counts
  end.

Definition count_states (buf : bytes) (counts : list N) : list N :=
  fold_left count_row (drop 1 (lines buf)) counts.

Definition tcp_collect (tcp tcp6 : option bytes) : list Metric :=
  let counts := replicate 12 0 in
  let counts := match tcp with Some buf => count_states buf counts | None => counts end in
  let counts := match tcp6 with Some buf => count_states buf counts | None => counts end in
  concat (map (fun p : nat * bytes =>
    let count := default 0 (counts !! p.1) in
    if 0 <? count then [gauge_call b#"system.tcp.connections" (f64_of_N count) [(b#"state", p.2)]] else [])
    STATE_NAMES).

(** * cpu.rs *)

Record CpuTimes := mkCpuTimes {
  user : N; nice : N; system_ : N; idle : N; iowait : N; irq : N; softirq : N; steal : N;
}.

Definition kernel (t : CpuTimes) : N := wrap64 (system_ t + irq t + softirq t).

Definition total (t : CpuTimes) : N :=
  wrap64 (user t + nice t + system_ t + idle t + iowait t + irq t + softirq t + steal t).

Definition cpu_label (cpu_name : bytes) : option bytes :=
  match strip_prefix b#"cpu" cpu_name with
  | None => None
  | Some suffix =>
    if is_empty suffix then Some b#"total"
    else if List.forallb is_digit suffix then Some suffix else None
  end.

Definition parse_cpu_line (parts : list bytes) : CpuTimes :=
  let p i := match parts !! i with Some s => default 0 (parse_u64 s) | None => 0 end in
  mkCpuTimes (p 0%nat) (p 1%nat) (p 2%nat) (p 3%nat) (p 4%nat) (p 5%nat) (p 6%nat) (p 7%nat).

(** [saturating_sub] is the truncated subtraction of [N]. *)
Definition emit_deltas (label_ : bytes) (prev current : CpuTimes) : list Metric :=
  let dt := total current - total prev in
  if dt =? 0 then []
  else
    let d := f64_of_N dt in
    let labels := [(b#"core", label_)] in
    let pct cur old := f64_mul (f64_div (f64_of_N (cur - old)) d) f100 in
    let idle_ := pct (idle current) (idle prev) in
    let user_ := pct (wrap64 (user current + nice current)) (wrap64 (user prev + nice prev)) in
    let system := pct (kernel current) (kernel prev) in
    [gauge_call b#"system.cpu.user" user_ labels; gauge_call b#"system.cpu.system" system labels;
     gauge_call b#"system.cpu.idle" idle_ labels; gauge_call b#"system.cpu.iowait" (pct (iowait current) (iowait prev)) labels;
     gauge_call b#"system.cpu.steal" (pct (steal current) (steal prev)) labels]
    ++ if bool_decide (label_ = b#"total") then
         match cpu_busy_percent idle_ with
         | Some busy => [gauge_call b#"system.cpu.busy_percent" busy labels]
         | None => []
         end
       else [].

(** The state of the loop: the previous samples, the rows counted, whether a
    baseline was met, the calls so far. *)
Record CpuLoop := mkCpuLoop {
  cl_prev : gmap bytes CpuTimes; cl_cores : N; cl_baseline : bool; cl_calls : list Metric;
}.

Definition cpu_row (st : CpuLoop) (line : bytes) : CpuLoop :=
  match split_whitespace line with
  | [] => st
  | cpu_name :: parts =>
    match cpu_label cpu_name with
    | None => st
    | Some label_ =>
      let cores := if bool_decide (label_ = b#"total") then cl_cores st else cl_cores st + 1 in
      let current := parse_cpu_line parts in
      match cl_prev st !! cpu_name with
      | Some prev_val =>
        mkCpuLoop (<[cpu_name := current]> (cl_prev st)) cores true
          (cl_calls st ++ emit_deltas label_ prev_val current)
      | None => mkCpuLoop (<[cpu_name := current]> (cl_prev st)) cores (cl_baseline st) (cl_calls st)
      end
    end
  end.

Definition cpu_collect (prev : gmap bytes CpuTimes) (stat : option bytes)
    : gmap bytes CpuTimes * list Metric :=
  match stat with
  | None => (prev, [])
  | Some buf =>
    let st := fold_left cpu_row (lines buf) (mkCpuLoop prev 0 false []) in
    (cl_prev st,
     cl_calls st ++ if cl_baseline st && (0 <? cl_cores st)
                    then [gauge_call b#"system.cpu.count" (f64_of_N (cl_cores st)) []] else [])
  end.

(** * network.rs *)

Record NetStats := mkNetStats {
  rx_bytes : N; rx_packets : N; rx_errors : N; rx_drops : N;
  tx_bytes : N; tx_packets : N; tx_errors : N; tx_drops : N;
}.

(** The first twelve numbers of the row, if there are as many. *)
Definition net_values (stats : bytes) : option (list N) :=
  let vals := take 12 (omap parse_u64 (split_whitespace stats)) in
  if (length vals <? 12)%nat then None else Some vals.

Definition net_stats (vals : list N) : NetStats :=
  let v i := default 0 (vals !! i) in
  mkNetStats (v 0%nat) (v 1%nat) (v 2%nat) (v 3%nat) (v 8%nat) (v 9%nat) (v 10%nat) (v 11%nat).

Definition net_deltas (iface : bytes) (cur prev : NetStats) : list Metric :=
  let labels := [(b#"interface", iface)] in
  let d a b := f64_of_N (a - b) in
  [counter_call b#"system.net.bytes_recv" (d (rx_bytes cur) (rx_bytes prev)) labels;
   counter_call b#"system.net.bytes_sent" (d (tx_bytes cur) (tx_bytes prev)) labels;
   counter_call b#"system.net.packets_recv" (d (rx_packets cur) (rx_packets prev)) labels;
   counter_call b#"system.net.packets_sent" (d (tx_packets cur) (tx_packets prev)) labels;
   counter_call b#"system.net.errors_recv" (d (rx_errors cur) (rx_errors prev)) labels;
   counter_call b#"system.net.errors_sent" (d (tx_errors cur) (tx_errors prev)) labels;
   counter_call b#"system.net.drops_recv" (d (rx_drops cur) (rx_drops prev)) labels;
   counter_call b#"system.net.drops_sent" (d (tx_drops cur) (tx_drops prev)) labels].

(** [order] is the iteration order of the map. *)
Definition net_checkpoint (order : list (bytes * NetStats)) : list Metric :=
  concat (map (fun p : bytes * NetStats =>
    let labels := [(b#"interface", p.1)] in
    [checkpoint_call b#"system.net.bytes_recv" (f64_of_N (rx_bytes p.2)) labels;
     checkpoint_call b#"system.net.bytes_sent" (f64_of_N (tx_bytes p.2)) labels;
     checkpoint_call b#"system.net.packets_recv" (f64_of_N (rx_packets p.2)) labels;
     checkpoint_call b#"system.net.packets_sent" (f64_of_N (tx_packets p.2)) labels]) order).

(** * disk.rs, I/O *)

Record DiskStats := mkDiskStats {
  reads_completed : N; sectors_read : N; writes_completed : N; sectors_written : N;
}.

Definition SECTOR_SIZE : f64 := Eval vm_compute in f64_of_N 512.

(** Eleven counters after the name; one that does not parse counts as 0. *)
Definition disk_row (line : bytes) : option (bytes * list N) :=
  match drop 2 (split_whitespace line) with
  | [] => None
  | name :: rest => Some (name, map (fun tok => default 0 (parse_u64 tok)) (take 11 rest))
  end.

Definition disk_stats (counters : list N) : DiskStats :=
  let v i := default 0 (counters !! i) in
  mkDiskStats (v 0%nat) (v 2%nat) (v 4%nat) (v 6%nat).

Definition disk_deltas (name : bytes) (cur p : DiskStats) : list Metric :=
  let labels := [(b#"device", name)] in
  let dr := f64_mul (f64_of_N (sectors_read cur - sectors_read p)) SECTOR_SIZE in
  let dw := f64_mul (f64_of_N (sectors_written cur - sectors_written p)) SECTOR_SIZE in
  let dro := f64_of_N (reads_completed cur - reads_completed p) in
  let dwo := f64_of_N (writes_completed cur - writes_completed p) in
  if f64_gt dr f0 || f64_gt dw f0 || f64_gt dro f0 || f64_gt dwo f0 then
    [counter_call b#"system.disk.read_bytes" dr labels; counter_call b#"system.disk.write_bytes" dw labels;
     counter_call b#"system.disk.read_ops" dro labels; counter_call b#"system.disk.write_ops" dwo labels]
  else [].

Definition disk_checkpoint (order : list (bytes * DiskStats)) : list Metric :=
  concat (map (fun p : bytes * DiskStats =>
    let labels := [(b#"device", p.1)] in
    [checkpoint_call b#"system.disk.read_bytes" (f64_mul (f64_of_N (sectors_read p.2)) SECTOR_SIZE) labels;
     checkpoint_call b#"system.disk.write_bytes" (f64_mul (f64_of_N (sectors_written p.2)) SECTOR_SIZE) labels;
     checkpoint_call b#"system.disk.read_ops" (f64_of_N (reads_completed p.2)) labels;
     checkpoint_call b#"system.disk.write_ops" (f64_of_N (writes_completed p.2)) labels]) order).

Section filtered.
Context `{Glob}.

Definition net_row (filter : DeviceFilter) (st : gmap bytes NetStats * list Metric) (line : bytes)
    : gmap bytes NetStats * list Metric :=
  let '(prev, calls) := st in
  match split_once x3a line with
  | None => st
  | Some (name, stats) =>
    let iface := trim name in
    if negb (allows filter iface) then st
    else
      match net_values stats with
      | None => st
      | Some vals =>
        let current := net_stats vals in
        match prev !! iface with
        | Some p => (<[iface := current]> prev, calls ++ net_deltas iface current p)
        | None => (<[iface := current]> prev, calls)
        end
      end
  end.

Definition net_collect (filter : DeviceFilter) (prev : gmap bytes NetStats) (net_dev : option bytes)
    : gmap bytes NetStats * list Metric :=
  match net_dev with
  | None => (prev, [])
  | Some buf => fold_left (net_row filter) (lines buf) (prev, [])
  end.

Definition diskstats_row (filter : DeviceFilter) (st : gmap bytes DiskStats * list Metric) (line : bytes)
    : gmap bytes DiskStats * list Metric :=
  let '(prev, calls) := st in
  match disk_row line with
  | None => st
  | Some (name, counters) =>
    if negb (allows filter name) then st
    else if (length counters <? 11)%nat then st
    else
      let current := disk_stats counters in
      match prev !! name with
      | Some p => (<[name := current]> prev, calls ++ disk_deltas name current p)
      | None => (<[name := current]> prev, calls)
      end
  end.

Definition collect_diskstats (filter : DeviceFilter) (prev : gmap bytes DiskStats) (buf : bytes)
    : gmap bytes DiskStats * list Metric :=
  fold_left (diskstats_row filter) (lines buf) (prev, []).
End filtered.
