(* ===== verification/CollectorsFacts.v ===== *)
(** Properties of the collectors: the TCP counts are the numbers of rows per
    state, and the delta collectors are silent until a row has a baseline. *)
From S2P Require Import Prelude Str StrFacts Text External F64 Sink EventFilter Config Derived Collectors.
From Stdlib Require Import Strings.Byte.

(** * tcp.rs *)

Definition rows_in_state (i : nat) (ls : list bytes) : N :=
  len (List.filter (fun l => bool_decide (row_state l = Some (N.of_nat i))) ls).

Lemma count_row_lookup counts l i n :
  counts !! i = Some n ->
  count_row counts l !! i
  = Some (if bool_decide (row_state l = Some (N.of_nat i)) then wrap32 (n + 1) else n).
Proof.
  intros Hi. unfold count_row. destruct (row_state l) as [st|] eqn:E.
  - destruct (decide (st = N.of_nat i)) as [->|Hne].
    + rewrite bool_decide_eq_true_2 by done. apply lookup_lt_Some in Hi as Hlt.
      rewrite (proj2 (N.ltb_lt _ _)) by (unfold len; lia). rewrite Nat2N.id.
      by rewrite list_lookup_alter_eq, Hi.
    + rewrite bool_decide_eq_false_2 by congruence. case_if; [|done].
      rewrite list_lookup_alter_ne; [done|]. lia.
  - by rewrite bool_decide_eq_false_2.
Qed.

Lemma count_rows_lookup ls counts i n :
  counts !! i = Some n -> n <= u32_max ->
  fold_left count_row ls counts !! i = Some (wrap32 (n + rows_in_state i ls)).
Proof.
  unfold rows_in_state, wrap32. revert counts n. induction ls as [|l ls IH]; intros counts n Hi Hn.
  { cbn. rewrite N.add_0_r, N.mod_small by (unfold u32_max in Hn; lia). done. }
  cbn [fold_left List.filter]. apply (count_row_lookup _ l) in Hi. destruct (bool_decide _) eqn:Eb.
  - rewrite (IH _ _ Hi).
    2: { unfold wrap32, u32_max. assert (Hm := N.mod_lt (n + 1) 4294967296 ltac:(done)). lia. }
    f_equal. unfold wrap32. rewrite N.Div0.add_mod_idemp_l. f_equal. rewrite len_cons. lia.
  - by apply IH.
Qed.

Lemma count_row_length counts l : length (count_row counts l) = length counts.
Proof.
  unfold count_row. destruct (row_state l); [|done]. case_if; [|done]. by rewrite length_alter.
Qed.

(** * Delta collectors *)

Section filtered.
Context `{Glob}.

(** The interfaces a text reports, in order. *)
Definition net_iface (filter : DeviceFilter) (line : bytes) : option bytes :=
  match split_once x3a line with
  | Some (name, stats) =>
    if allows filter (trim name) then
      match net_values stats with Some _ => Some (trim name) | None => None end
    else None
  | None => None
  end.

Lemma net_row_spec filter prev calls line :
  net_row filter (prev, calls) line
  = match net_iface filter line with
    | None => (prev, calls)
    | Some i =>
      let cur := net_stats (default [] (match split_once x3a line with
                                        | Some (_, stats) => net_values stats | None => None end)) in
      (<[i := cur]> prev, calls ++ match prev !! i with Some p => net_deltas i cur p | None => [] end)
    end.
Proof.
  unfold net_row, net_iface. destruct (split_once x3a line) as [[name stats]|]; [|done].
  destruct (allows filter (trim name)); cbn [negb]; [|done].
  destruct (net_values stats); [|done]. cbn [default].
  destruct (prev !! trim name); [done|]. by rewrite app_nil_r.
Qed.

End filtered.
