(* ===== verification/DiskSpace.v ===== *)
(** [src/src/metrics/disk_space.rs] and the mount half of
    [src/src/metrics/linux/disk.rs]: space statistics, the bounded [statvfs]
    reader with its threads, and the parsing of [/proc/mounts]. *)
From S2P Require Import Prelude Str StrFacts Text External F64 Sink EventFilter Config Collectors.
From Stdlib Require Import Strings.Byte.

(** * Space statistics *)

Record SpaceStats := mkSpaceStats {
  sp_total : f64; sp_free : f64; sp_avail : f64; sp_inodes_total : f64; sp_inodes_free : f64;
}.

(** The fields of [struct statvfs] the agent uses. *)
Record Statvfs := mkStatvfs {
  f_frsize : N; f_blocks : N; f_bfree : N; f_bavail : N; f_files : N; f_ffree : N;
}.

(** [call] is the system call's answer; a path with a NUL is never passed. *)
Definition space_stats_read (call : bytes -> option Statvfs) (mount_point : bytes) : option SpaceStats :=
  if existsb (fun b => bool_decide (b = x00)) mount_point then None
  else
    match call mount_point with
    | None => None
    | Some stat =>
      let bs := f64_of_N (f_frsize stat) in
      let scale n := f64_mul (f64_of_N n) bs in
      let s := mkSpaceStats (scale (f_blocks stat)) (scale (f_bfree stat)) (scale (f_bavail stat))
                 (f64_of_N (f_files stat)) (f64_of_N (f_ffree stat)) in
      if f64_gt (sp_total s) f0 then Some s else None
    end.

Definition used (s : SpaceStats) : f64 := f64_max (f64_sub (sp_total s) (sp_free s)) f0.

Definition used_percent (s : SpaceStats) : option f64 :=
  let denom := f64_add (used s) (sp_avail s) in
  if f64_gt denom f0 then Some (clamp (f64_mul (f64_div (used s) denom) f100) f0 f100) else None.

Definition inodes_used (s : SpaceStats) : f64 :=
  f64_max (f64_sub (sp_inodes_total s) (sp_inodes_free s)) f0.

Definition inodes_used_percent (s : SpaceStats) : option f64 :=
  if f64_gt (sp_inodes_total s) f0
  then Some (clamp (f64_mul (f64_div (inodes_used s) (sp_inodes_total s)) f100) f0 f100) else None.

Definition space_emit (s : SpaceStats) (labels : list label) : list Metric :=
  [gauge_call b#"system.disk.total_bytes" (sp_total s) labels;
   gauge_call b#"system.disk.used_bytes" (used s) labels;
   gauge_call b#"system.disk.free_bytes" (sp_free s) labels;
   gauge_call b#"system.disk.available_bytes" (sp_avail s) labels]
  ++ match used_percent s with
     | Some pct => [gauge_call b#"system.disk.used_percent" pct labels]
     | None => []
     end
  ++ (if f64_gt (sp_inodes_total s) f0 then
        [gauge_call b#"system.disk.inodes_total" (sp_inodes_total s) labels;
         gauge_call b#"system.disk.inodes_used" (inodes_used s) labels;
         gauge_call b#"system.disk.inodes_free" (sp_inodes_free s) labels]
        ++ match inodes_used_percent s with
           | Some pct => [gauge_call b#"system.disk.inodes_used_percent" pct labels]
           | None => []
           end
      else []).

Definition fs_type_allowed (fs_type : bytes) (configured defaults : list bytes) : bool :=
  if is_empty configured then existsb (fun t => bool_decide (t = fs_type)) defaults
  else existsb (fun t => bool_decide (t = fs_type)) configured.

(** * The bounded reader *)

(** The flag of a mount is shared with the thread reading it: [flags] is that
    shared store, indexed by the identity of the flag; a thread holds the
    identity of its flag. *)
Record MountState := mkMountState { in_flight : nat; warned : bool }.

Record SpaceReader := mkSpaceReader {
  sr_mounts : gmap bytes MountState;
  sr_flags : gmap nat bool;
  sr_threads : list (bytes * nat);     (* outstanding reads: mount, flag *)
  sr_next : nat;                       (* identity of the next flag *)
}.

Definition space_reader_new : SpaceReader := mkSpaceReader ∅ ∅ [] 0.

Definition flag (r : SpaceReader) (i : nat) : bool := default false (sr_flags r !! i).

(** What [recv_timeout] answers. *)
Inductive Recv := RecvOk (s : option SpaceStats) | RecvTimeout | RecvDisconnected.

(** One call of [read]: [spawned] says whether the thread could be created,
    [recv] what came back in time. A created thread is outstanding until its
    [Finish] step, whatever came back: it may still hold its guard when its
    answer has been received. *)
Definition ensure_mount (mount : bytes) (r : SpaceReader) : SpaceReader :=
  match sr_mounts r !! mount with
  | Some _ => r
  | None =>
    mkSpaceReader (<[mount := mkMountState (sr_next r) false]> (sr_mounts r))
      (<[sr_next r := false]> (sr_flags r)) (sr_threads r) (Datatypes.S (sr_next r))
  end.

Definition spawn_read (mount : bytes) (i : nat) (spawned : bool) (r : SpaceReader) : SpaceReader :=
  if spawned
  then mkSpaceReader (sr_mounts r) (<[i := true]> (sr_flags r)) ((mount, i) :: sr_threads r) (sr_next r)
  else mkSpaceReader (sr_mounts r) (<[i := false]> (sr_flags r)) (sr_threads r) (sr_next r).

Definition set_warned (mount : bytes) (st : MountState) (w : bool) (r : SpaceReader) : SpaceReader :=
  mkSpaceReader (<[mount := mkMountState (in_flight st) w]> (sr_mounts r)) (sr_flags r)
    (sr_threads r) (sr_next r).

Definition space_read (mount : bytes) (spawned : bool) (recv : Recv) (r : SpaceReader)
    : option SpaceStats * SpaceReader :=
  let r := ensure_mount mount r in
  match sr_mounts r !! mount with
  | None => (None, r)
  | Some st =>
    if flag r (in_flight st) then (None, r)
    else
      let r := spawn_read mount (in_flight st) spawned r in
      match (if spawned then recv else RecvDisconnected) with
      | RecvTimeout => (None, if warned st then r else set_warned mount st true r)
      | RecvDisconnected => (None, r)
      | RecvOk stats => (stats, if warned st then set_warned mount st false r else r)
      end
  end.

(** The thread at position [k] exits: its guard clears its flag. *)
Definition finish (k : nat) (r : SpaceReader) : SpaceReader :=
  match sr_threads r !! k with
  | Some (_, i) =>
    mkSpaceReader (sr_mounts r) (<[i := false]> (sr_flags r)) (delete k (sr_threads r)) (sr_next r)
  | None => r
  end.

Definition retain_mounts (current : list bytes) (r : SpaceReader) : SpaceReader :=
  mkSpaceReader
    (filter (fun p : bytes * MountState =>
       existsb (fun m => bool_decide (m = p.1)) current || flag r (in_flight p.2)) (sr_mounts r))
    (sr_flags r) (sr_threads r) (sr_next r).

Inductive SpaceStep := SRead (mount : bytes) (spawned : bool) (recv : Recv) | SFinish (k : nat)
                     | SRetain (current : list bytes).

Definition space_step (r : SpaceReader) (s : SpaceStep) : SpaceReader :=
  match s with
  | SRead m sp rc => (space_read m sp rc r).2
  | SFinish k => finish k r
  | SRetain cur => retain_mounts cur r
  end.

(** * /proc/mounts *)

Record MountInfo := mkMountInfo { mt_device : bytes; mt_mount_point : bytes }.

Definition DEFAULT_FS_TYPES : list bytes :=
  [b#"ext4"; b#"ext3"; b#"ext2"; b#"xfs"; b#"btrfs"; b#"zfs"; b#"vfat"; b#"exfat"; b#"ntfs";
   b#"ntfs3"; b#"f2fs"].

Definition backslash : byte := x5c.

Definition octal_escape (s : bytes) : option (byte * bytes) :=
  match s with
  | b0 :: b1 :: b2 :: b3 :: r =>
    if bool_decide (b0 = backslash) && in_range 48 51 b1 && in_range 48 55 b2 && in_range 48 55 b3
    then Some (byte_of ((bN b1 - 48) * 64 + (bN b2 - 48) * 8 + (bN b3 - 48)), r)
    else None
  | _ => None
  end.

Fixpoint unescape_loop (fuel : nat) (s : bytes) : bytes :=
  match fuel with
  | O => []
  | Datatypes.S fuel' =>
    match s with
    | [] => []
    | b :: r =>
      match octal_escape s with
      | Some (v, r') => v :: unescape_loop fuel' r'
      | None => b :: unescape_loop fuel' r
      end
    end
  end.

Definition unescape_mount_field (field : bytes) : bytes :=
  if negb (existsb (fun b => bool_decide (b = backslash)) field) then field
  else from_utf8_lossy (unescape_loop (length field) field).

Definition mount_line (fs_types : list bytes) (line : bytes) : option MountInfo :=
  match split_whitespace line with
  | device :: mount_point :: fs :: _ =>
    if fs_type_allowed fs fs_types DEFAULT_FS_TYPES
    then Some (mkMountInfo (unescape_mount_field device) (unescape_mount_field mount_point))
    else None
  | _ => None
  end.

(** [sort_by_key(|m| m.mount_point.len())], stable. *)
Fixpoint insert_mount (m : MountInfo) (l : list MountInfo) : list MountInfo :=
  match l with
  | [] => [m]
  | x :: r =>
    if len (mt_mount_point m) <=? len (mt_mount_point x) then m :: l else x :: insert_mount m r
  end.

Definition sort_mounts (l : list MountInfo) : list MountInfo := foldr insert_mount [] l.

(** [retain(|m| seen.insert(m.device.clone()))]. *)
Fixpoint dedup_devices (seen : list bytes) (l : list MountInfo) : list MountInfo :=
  match l with
  | [] => []
  | m :: r =>
    if existsb (fun d => bool_decide (d = mt_device m)) seen then dedup_devices seen r
    else m :: dedup_devices (mt_device m :: seen) r
  end.

Definition parse_mounts (buf : bytes) (fs_types : list bytes) : list MountInfo :=
  dedup_devices [] (sort_mounts (omap (mount_line fs_types) (lines buf))).

(** * The collector *)

Section collector.
Context `{Glob}.

Record DiskCollector := mkDiskCollector {
  dc_prev : gmap bytes DiskStats;
  dc_mounts : list MountInfo;
  dc_filter : DeviceFilter;
  dc_fs_types : list bytes;
  dc_tick_count : N;
  dc_space : SpaceReader;
}.

Definition disk_collector_new (filter : DeviceFilter) (fs_types : list bytes) : DiskCollector :=
  mkDiskCollector ∅ [] filter fs_types 0 space_reader_new.

(** [reads] gives, for each mount in turn, whether its thread could be created
    and what came back. *)
Fixpoint collect_disk_space (reads : bytes -> bool * Recv) (space : SpaceReader) (mounts : list MountInfo)
    : SpaceReader * list Metric :=
  match mounts with
  | [] => (space, [])
  | m :: rest =>
    let '(spawned, recv) := reads (mt_mount_point m) in
    let '(stats, space1) := space_read (mt_mount_point m) spawned recv space in
    let '(space2, calls) := collect_disk_space reads space1 rest in
    (space2,
     match stats with
     | Some s => space_emit s [(b#"mount", mt_mount_point m); (b#"device", mt_device m)] ++ calls
     | None => calls
     end)
  end.

Definition disk_collect (diskstats mounts_text : option bytes) (reads : bytes -> bool * Recv)
    (dc : DiskCollector) : DiskCollector * list Metric :=
  let '(prev, io_calls) :=
    match diskstats with
    | Some buf => collect_diskstats (dc_filter dc) (dc_prev dc) buf
    | None => (dc_prev dc, [])
    end in
  let '(mounts, space) :=
    if dc_tick_count dc mod 30 =? 0 then
      match mounts_text with
      | Some buf =>
        let mounts := parse_mounts buf (dc_fs_types dc) in
        (mounts, retain_mounts (map mt_mount_point mounts) (dc_space dc))
      | None => (dc_mounts dc, dc_space dc)
      end
    else (dc_mounts dc, dc_space dc) in
  let '(space', space_calls) := collect_disk_space reads space mounts in
  (mkDiskCollector prev mounts (dc_filter dc) (dc_fs_types dc) (wrap32 (dc_tick_count dc + 1)) space',
   io_calls ++ space_calls).
End collector.

(** * Properties *)

Lemma insert_mount_elem m l x : x ∈ insert_mount m l <-> x = m \/ x ∈ l.
Proof.
  induction l as [|y l IH]; cbn [insert_mount]; [set_solver|]. case_if; set_solver.
Qed.

Lemma sort_mounts_elem l x : x ∈ sort_mounts l <-> x ∈ l.
Proof.
  unfold sort_mounts. induction l as [|y l IH]; cbn [foldr]; [done|].
  rewrite insert_mount_elem, IH. set_solver.
Qed.

Definition shorter (a b : MountInfo) : Prop := len (mt_mount_point a) <= len (mt_mount_point b).

Lemma insert_mount_sorted m l : StronglySorted shorter l -> StronglySorted shorter (insert_mount m l).
Proof.
  induction 1 as [|y l Hs IH Hy]; cbn [insert_mount]; [by repeat constructor|].
  case_if; norm_bool.
  - constructor; [by constructor|]. constructor; [done|]. eapply Forall_impl; [exact Hy|].
    unfold shorter. intros z Hz. lia.
  - constructor; [done|]. apply Forall_forall. intros x [->|Hx]%insert_mount_elem; [unfold shorter; lia|].
    by eapply Forall_forall in Hy.
Qed.

Lemma sort_mounts_sorted l : StronglySorted shorter (sort_mounts l).
Proof. unfold sort_mounts. induction l; cbn [foldr]; [constructor|by apply insert_mount_sorted]. Qed.

Lemma seen_spec seen (m : MountInfo) :
  existsb (fun d => bool_decide (d = mt_device m)) seen = true <-> mt_device m ∈ seen.
Proof.
  rewrite existsb_exists. split.
  - intros (d & Hd & He). norm_bool. subst d. by apply list_elem_of_In.
  - intros Hin. exists (mt_device m). split; [by apply list_elem_of_In|]. by apply bool_decide_eq_true_2.
Qed.

Lemma dedup_devices_spec seen l :
  StronglySorted shorter l ->
  NoDup (map mt_device (dedup_devices seen l)) /\
  (forall m, m ∈ dedup_devices seen l -> m ∈ l /\ mt_device m ∉ seen) /\
  (forall m, m ∈ l -> mt_device m ∉ seen ->
     exists m', m' ∈ dedup_devices seen l /\ mt_device m' = mt_device m /\ shorter m' m).
Proof.
  intros Hs. revert seen. induction Hs as [|x l Hs IH Hx]; intros seen; cbn [dedup_devices].
  { split_and!; [constructor|set_solver|set_solver]. }
  destruct (existsb _ seen) eqn:E.
  - apply seen_spec in E. destruct (IH seen) as (Hnd & Hsub & Hall). split_and!; [done|set_solver|].
    intros m [->|Hm]%elem_of_cons Hns; [done|]. by apply Hall.
  - assert (Hns : mt_device x ∉ seen) by (rewrite <- seen_spec; congruence).
    destruct (IH (mt_device x :: seen)) as (Hnd & Hsub & Hall). cbn [map]. split_and!.
    + constructor; [|done]. intros (m & Hd & Hm)%list_elem_of_fmap. apply Hsub in Hm as [_ Hm]. set_solver.
    + intros m [->|Hm]%elem_of_cons; [set_solver|]. apply Hsub in Hm. set_solver.
    + intros m [->|Hm]%elem_of_cons Hm'.
      * exists x. unfold shorter. split_and!; [set_solver|done|lia].
      * destruct (decide (mt_device m = mt_device x)) as [He|Hne].
        -- exists x. split_and!; [set_solver|done|]. by eapply Forall_forall in Hx.
        -- destruct (Hall m Hm ltac:(set_solver)) as (m' & ? & ? & ?). exists m'. set_solver.
Qed.
