(* ===== verification/DiskSpaceFacts.v ===== *)
(** Properties of the disk space collector: percentages stay within bounds, at
    most one read thread is outstanding per mount whatever the interleaving,
    and the kernel's escapes in [/proc/mounts] are undone exactly. *)
From S2P Require Import Prelude Str StrFacts Text External F64 Sink EventFilter Config Collectors DiskSpace.
From Stdlib Require Import Strings.Byte.

(** * Percentages *)

Lemma percent_of_bounds x y :
  is_finite x = true -> f64_gt y f0 = true -> is_percent (clamp (f64_mul (f64_div x y) f100) f0 f100).
Proof. intros Hx Hy. by apply clamp_percent, f64_mul_100_not_nan, f64_div_not_nan. Qed.

(** * Threads *)

Record reader_wf (r : SpaceReader) : Prop := mkReaderWf {
  rw_thread : forall m i, (m, i) ∈ sr_threads r ->
    flag r i = true /\ exists st, sr_mounts r !! m = Some st /\ in_flight st = i;
  rw_fresh : forall m st, sr_mounts r !! m = Some st -> (in_flight st < sr_next r)%nat;
  rw_inj : forall m1 m2 st1 st2, sr_mounts r !! m1 = Some st1 -> sr_mounts r !! m2 = Some st2 ->
    in_flight st1 = in_flight st2 -> m1 = m2;
  rw_one : NoDup (sr_threads r).*1;
}.

Lemma reader_wf_new : reader_wf space_reader_new.
Proof.
  split; cbn.
  - set_solver.
  - intros m st. by rewrite lookup_empty.
  - intros m1 m2 st1 st2. by rewrite lookup_empty.
  - constructor.
Qed.

Lemma flag_insert r ms i b th n j :
  flag (mkSpaceReader ms (<[i := b]> (sr_flags r)) th n) j = if decide (i = j) then b else flag r j.
Proof.
  unfold flag. cbn [sr_flags]. case_decide; [subst; by rewrite lookup_insert_eq|by rewrite lookup_insert_ne].
Qed.

Lemma ensure_mount_wf m r : reader_wf r -> reader_wf (ensure_mount m r).
Proof.
  intros [Ht Hf Hi Ho]. unfold ensure_mount. destruct (sr_mounts r !! m) as [st|] eqn:E; [done|].
  split; cbn [sr_mounts sr_threads sr_next].
  - intros m' i Hin. destruct (Ht m' i Hin) as (Hfl & st & Hst & Hfi). subst i. split.
    + rewrite flag_insert. case_decide as He; [|done]. apply Hf in Hst. lia.
    + exists st. split; [|done]. rewrite lookup_insert_ne; [done|]. congruence.
  - intros m' st' [[<- <-]|[_ Hst]]%lookup_insert_Some; cbn; [lia|]. apply Hf in Hst. lia.
  - intros m1 m2 st1 st2 [[<- <-]|[Hn1 H1]]%lookup_insert_Some [[<- <-]|[Hn2 H2]]%lookup_insert_Some He;
      cbn in He; [done| | |by eapply Hi].
    + apply Hf in H2. lia.
    + apply Hf in H1. lia.
  - done.
Qed.

Lemma set_warned_wf m st w r : reader_wf r -> sr_mounts r !! m = Some st -> reader_wf (set_warned m st w r).
Proof.
  intros [Ht Hf Hi Ho] Hst.
  assert (Hlk : forall m' st', <[m := mkMountState (in_flight st) w]> (sr_mounts r) !! m' = Some st' ->
    exists st0, sr_mounts r !! m' = Some st0 /\ in_flight st0 = in_flight st').
  { intros m' st' [[<- <-]|[_ H0]]%lookup_insert_Some; [by exists st|by exists st']. }
  split; cbn [set_warned sr_mounts sr_threads sr_next].
  - intros m' i Hin. destruct (Ht m' i Hin) as (Hfl & st0 & Hst0 & <-). split; [done|].
    destruct (decide (m = m')) as [<-|Hne].
    + eexists. rewrite lookup_insert_eq. split; [done|]. cbn. congruence.
    + exists st0. by rewrite lookup_insert_ne.
  - intros m' st' Hst'. destruct (Hlk _ _ Hst') as (st0 & Hst0 & <-). by eapply Hf.
  - intros m1 m2 st1 st2 H1 H2 He. destruct (Hlk _ _ H1) as (s1 & ? & E1), (Hlk _ _ H2) as (s2 & ? & E2).
    eapply Hi; [done|done|congruence].
  - done.
Qed.

Lemma spawn_read_wf m st spawned r :
  reader_wf r -> sr_mounts r !! m = Some st -> flag r (in_flight st) = false ->
  reader_wf (spawn_read m (in_flight st) spawned r).
Proof.
  intros [Ht Hf Hi Ho] Hst Hfl.
  assert (Hdiff : forall m' i, (m', i) ∈ sr_threads r -> i <> in_flight st).
  { intros m' i Hin ->. apply Ht in Hin as [Htrue _]. congruence. }
  unfold spawn_read. destruct spawned; split; cbn [sr_mounts sr_threads sr_next]; try done.
  - intros m' i [[= -> ->]|Hin]%elem_of_cons.
    + rewrite flag_insert, decide_True by done. split; [done|]. by exists st.
    + rewrite flag_insert, decide_False by (apply not_eq_sym; by eapply Hdiff). by apply Ht.
  - cbn. constructor; [|done]. intros ([m' i] & Hm & Hin)%list_elem_of_fmap. cbn in Hm. subst m'.
    destruct (Ht _ _ Hin) as (_ & st' & Hst' & <-). eapply Hdiff; [done|]. congruence.
  - intros m' i Hin. rewrite flag_insert, decide_False by (apply not_eq_sym; by eapply Hdiff). by apply Ht.
Qed.

Lemma space_read_wf m sp rc r : reader_wf r -> reader_wf (space_read m sp rc r).2.
Proof.
  intros Hwf. unfold space_read. assert (Hwf1 := ensure_mount_wf m r Hwf).
  set (r1 := ensure_mount m r) in *. destruct (sr_mounts r1 !! m) as [st|] eqn:Hst; [|done].
  destruct (flag r1 (in_flight st)) eqn:Hfl; [done|].
  assert (Hwf2 := spawn_read_wf m st sp r1 Hwf1 Hst Hfl).
  assert (Hm2 : sr_mounts (spawn_read m (in_flight st) sp r1) !! m = Some st)
    by (unfold spawn_read; by destruct sp).
  destruct (if sp then rc else RecvDisconnected); cbn [snd]; try case_if; try done;
    by apply set_warned_wf.
Qed.

Lemma finish_wf k r : reader_wf r -> reader_wf (finish k r).
Proof.
  intros [Ht Hf Hi Ho]. unfold finish. destruct (sr_threads r !! k) as [[m i]|] eqn:Hk; [|done].
  assert (Hsplit := delete_take_drop (sr_threads r) k).
  assert (Hperm : sr_threads r ≡ₚ (m, i) :: delete k (sr_threads r)) by by apply delete_Permutation.
  assert (Hnd : NoDup ((m, i) :: delete k (sr_threads r)).*1) by by rewrite <- Hperm.
  cbn in Hnd. apply NoDup_cons in Hnd as [Hnot Hnd].
  split; cbn [sr_mounts sr_threads sr_next]; try done.
  intros m' i' Hin. assert (Hin' : (m', i') ∈ sr_threads r) by (rewrite Hperm; by right).
  destruct (Ht _ _ Hin') as (Hfl & st' & Hst' & Hi'). split; [|by exists st'].
  rewrite flag_insert. case_decide as He; [|done]. subst i'. exfalso.
  assert (Hmi : (m, i) ∈ sr_threads r) by (rewrite Hperm; by left).
  destruct (Ht _ _ Hmi) as (_ & st & Hst & Hsi).
  assert (m = m') as -> by (eapply Hi; [done|done|congruence]).
  apply Hnot, list_elem_of_fmap. by exists (m', in_flight st').
Qed.

Lemma retain_mounts_wf cur r : reader_wf r -> reader_wf (retain_mounts cur r).
Proof.
  intros [Ht Hf Hi Ho]. split; cbn [retain_mounts sr_mounts sr_threads sr_next]; try done.
  - intros m i Hin. destruct (Ht m i Hin) as (Hfl & st & Hst & <-). split; [done|]. exists st.
    split; [|done]. apply map_lookup_filter_Some. split; [done|]. cbn. rewrite Hfl. by rewrite orb_true_r.
  - intros m st [Hst _]%map_lookup_filter_Some. by eapply Hf.
  - intros m1 m2 st1 st2 [H1 _]%map_lookup_filter_Some [H2 _]%map_lookup_filter_Some. by apply Hi.
Qed.

Lemma space_run_wf steps r : reader_wf r -> reader_wf (fold_left space_step steps r).
Proof.
  revert r. induction steps as [|s steps IH]; intros r Hwf; [done|]. apply IH.
  destruct s; [by apply space_read_wf|by apply finish_wf|by apply retain_mounts_wf].
Qed.

Section collector.
Context `{Glob}.

Lemma collect_disk_space_wf reads space mounts :
  reader_wf space -> reader_wf (collect_disk_space reads space mounts).1.
Proof.
  revert space. induction mounts as [|m mounts IH]; intros space Hwf; cbn [collect_disk_space]; [done|].
  destruct (reads (mt_mount_point m)) as [sp rc].
  assert (Hr := space_read_wf (mt_mount_point m) sp rc space Hwf).
  destruct (space_read _ _ _ _) as [stats s1]. cbn [snd] in Hr. specialize (IH s1 Hr).
  by destruct (collect_disk_space reads s1 mounts).
Qed.

Lemma disk_collect_wf ds mt reads dc :
  reader_wf (dc_space dc) -> reader_wf (dc_space (disk_collect ds mt reads dc).1).
Proof.
  intros Hwf. unfold disk_collect.
  destruct (match ds with Some buf => _ | None => _ end) as [prev io].
  match goal with |- context [let '(_, _) := ?x in _] => destruct x as [mounts space] eqn:E end.
  assert (Hsp : reader_wf space).
  { revert E. case_if; [destruct mt|]; intros [= _ <-]; try done. by apply retain_mounts_wf. }
  assert (Hc := collect_disk_space_wf reads space mounts Hsp).
  by destruct (collect_disk_space reads space mounts).
Qed.
End collector.

(** * The kernel's escapes *)

(** [mangle] of [fs/proc_namespace.c]: space, tab, newline, backslash, hash. *)
Definition mangle_byte (b : byte) : bytes :=
  if bool_decide (b ∈ [x20; x09; x0a; x5c; x23]) then
    [backslash; byte_of (48 + bN b / 64); byte_of (48 + bN b / 8 mod 8); byte_of (48 + bN b mod 8)]
  else [b].

Definition mangle (s : bytes) : bytes := concat (map mangle_byte s).

Lemma unescape_mangle_byte b r fuel :
  unescape_loop (S fuel) (mangle_byte b ++ r) = b :: unescape_loop fuel r.
Proof.
  unfold mangle_byte. case_bool_decide as Hb.
  - set_unfold in Hb. destruct_or! Hb; subst b; done.
  - cbn [app unescape_loop]. assert (b <> backslash) by set_solver.
    assert (Hno : octal_escape (b :: r) = None).
    { unfold octal_escape. destruct r as [|b1 [|b2 [|b3 r]]]; try done.
      by rewrite bool_decide_eq_false_2. }
    by rewrite Hno.
Qed.

Lemma unescape_mangle s fuel : (length s <= fuel)%nat -> unescape_loop fuel (mangle s) = s.
Proof.
  revert fuel. induction s as [|b s IH]; intros fuel Hf; [by destruct fuel|].
  destruct fuel as [|fuel]; [cbn in Hf; lia|]. unfold mangle. cbn [map concat].
  rewrite unescape_mangle_byte. f_equal. apply IH. cbn in Hf. lia.
Qed.

Lemma mangle_length s : (length s <= length (mangle s))%nat.
Proof.
  induction s as [|b s IH]; [done|]. unfold mangle in *. cbn [map concat]. rewrite length_app.
  assert (1 <= length (mangle_byte b))%nat by (unfold mangle_byte; case_if; cbn; lia). cbn [length]. lia.
Qed.

Lemma mangle_plain s :
  existsb (fun b => bool_decide (b = backslash)) (mangle s) = false -> mangle s = s.
Proof.
  induction s as [|b s IH]; [done|]. unfold mangle in *. cbn [map concat]. rewrite existsb_app.
  intros [Hb Hs]%orb_false_iff. rewrite IH by done. unfold mangle_byte in *.
  case_bool_decide; [done|done].
Qed.
