(* ===== verification/Examples.v ===== *)
(** Concrete instances for the code the agent does not contain, and small
    systems to run it on: what the witnesses of the properties evaluate. *)
From S2P Require Import Prelude Str StrFacts External Text Structured Sink SinkFacts Tailed Multiline Watcher WatcherFacts SessionFacts.
From S2P Require Import Source Journal Unified Config.
From Stdlib Require Import Strings.Byte.

Module Examples.
Export External.Reference.

(** A JSON reader that knows no document, for code paths without JSON. *)
#[global] Instance no_json : SerdeJson := {| json_from_str _ := None; json_to_string _ := [] |}.

(** Literal patterns: a match is an occurrence. *)
#[global] Instance literal_regex : Regex := {|
  regex := bytes;
  regex_new p := Some p;
  is_match p s := match find_sub p s with Some _ => true | None => false end;
|}.

(** Patterns without wildcards match themselves. *)
#[global] Instance literal_glob : Glob := {|
  pattern := bytes;
  pattern_new p := Some p;
  pattern_matches p s := bool_decide (p = s);
|}.

(** The channel that never refuses. *)
#[global] Instance open_channel : LogSink (list LogEntry) := list_sink.
#[global] Instance open_channel_ok : LogSinkOk (list LogEntry) := list_sink_ok.

Definition plain_opts : FileParseOpts := mkFileParseOpts false false false.

Definition log_path : bytes := b#"/var/log/app.log".
Definition log_id : FileId := mkFileId 8 42.

(** A freshly registered file read from position [p]. *)
Definition fresh_file (p : N) : TailedFile := mkTailedFile log_path p log_id [] 0 None false None.

(** A system with the one file [path], holding [c]. *)
Definition one_file (path : bytes) (fid : FileId) (c : bytes) : Os :=
  let md := mkMetadata fid (len c) (Some 0) in
  mkOs
    (fun p => if bool_decide (p = path) then Some md else None)
    (fun p => if bool_decide (p = path) then Some fid else None)
    (fun f => if bool_decide (f = fid) then Some md else None)
    (fun f p => if bool_decide (f = fid)
                then Some (match drop (N.to_nat p) c with [] => [] | d => [Data d] end) else None)
    (fun _ => take 3 c)
    (fun _ => None)
    (fun _ => Some [path])
    (fun p => bool_decide (p = path))
    0.

Definition app_os (c : bytes) : Os := one_file log_path log_id c.

Lemma app_os_serves c t : path t = log_path -> id t = log_id -> serves (app_os c) t c.
Proof.
  intros Hp Hi. exists log_id, (mkMetadata log_id (len c) (Some 0)). unfold app_os, one_file. cbn.
  rewrite Hp, Hi. rewrite !bool_decide_eq_true_2 by done. split_and!; [done..|].
  intros p _. eexists. split; [done|]. destruct (drop (N.to_nat p) c) as [|x d]; cbn.
  - split; [constructor|done].
  - split; [by repeat constructor|by rewrite app_nil_r].
Qed.

(** A checkpoint directory whose writes always succeed. *)
Definition io_ok : CheckpointIo := mkCheckpointIo true 0 true true true.
Definition save_ok : SaveIo := mkSaveIo true 1000 true.
End Examples.
