(* ===== verification/TailProps.v ===== *)
(** The guarantees of the file tailer: single-line and multiline sessions,
    rotation, registration, persistence, and the places where the code departs
    from what the documentation says. *)
From S2P Require Import Prelude Str StrFacts External Text Structured Sink SinkFacts Tailed TailedFacts.
From S2P Require Import Multiline MultilineFacts Watcher WatcherFacts OffsetFacts SessionFacts MlSessionFacts Examples.
From Stdlib Require Import Strings.Byte.

Section tail.
Context `{SimdUtf8, Memchr, MemchrIter, SerdeJson, Regex, !SimdUtf8Ok, !MemchrOk}.
Context {S : Type} `{LogSink S, !LogSinkOk S}.

(** C5: However a growing file is polled and whatever the channel refuses, what
    has been shipped is exactly the entries of the complete lines before the
    offset, each once and in order, and the buffered partial is the
    unterminated rest; the offset counts exactly the bytes consumed. The
    premise [growing] asks that the system serves the file without hard read
    errors and that its last, unterminated line is valid UTF-8 of at most one
    megabyte whenever it is read. *)
Theorem single_line_exactly_once opts start c0 oss c (t : TailedFile) (sink : S) now :
  pos t = start -> start <= len c0 -> partial t = [] -> growing opts start t c0 oss c ->
  let '(t', sink') := poll_session oss t sink opts now in
  exists done rest, drop (N.to_nat start) c = done ++ rest /\ pos t' = start + len done /\
    partial t' = pending done /\ shipped sink' = shipped sink ++ ideal_entries opts done.
Proof.
  intros Hp Hs Hpart Hg. assert (Hsy := synced_start opts start c0 t sink Hp Hs Hpart).
  apply (poll_session_synced _ _ _ _ oss c _ _ now) in Hsy; [|done].
  destruct (poll_session oss t sink opts now) as [t' sink'].
  destruct Hsy as (dn & rest & Hd & Hp' & _ & Hpa & _ & Hsh). by exists dn, rest.
Qed.

(** C6: On a channel that accepts, polling catches up: each poll reaches the end
    of the file or consumes at least [MAX_LINES_PER_POLL] bytes, so after enough
    polls of a file that stands still the offset is its length and every
    complete line of it has been shipped. *)
Theorem polling_catches_up opts start c oss (t : TailedFile) (sink : S) now :
  accepting -> pos t = start -> start <= len c -> partial t = [] ->
  fits (drop (N.to_nat start) c) -> Forall (fun os => serves os t c) oss ->
  len c < start + MAX_LINES_PER_POLL * len oss ->
  let '(t', sink') := poll_session oss t sink opts now in
  pos t' = len c /\ shipped sink' = shipped sink ++ ideal_entries opts (drop (N.to_nat start) c).
Proof.
  intros Hacc Hp Hs Hpart Hfit Hos Hlen.
  assert (Hsy := synced_start opts start c t sink Hp Hs Hpart).
  assert (Hpr := poll_session_progress opts _ start c oss t sink now Hacc Hsy Hfit Hos).
  apply (poll_session_synced _ _ _ _ oss c _ _ now) in Hsy; [|by apply growing_still].
  destruct (poll_session oss t sink opts now) as [t' sink']. cbn [fst snd] in *.
  assert (Hend : pos t' = len c).
  { destruct Hpr as [|Hgo]; [done|]. apply synced_bound in Hsy. lia. }
  split; [done|]. by apply (synced_end _ _ _ _ _ _ Hsy).
Qed.

(** C7: In multiline mode, between two flushes, however the file is polled and
    whatever is refused: what the polls have shipped is exactly the records closed
    by a later start line, each once and in order; the persisted offset is the
    first byte of the record in flight, and the aggregator holds the lines after
    it, rebuilt from the content alone ([ml_ideal]). The premise [growing] is that
    of single-line tailing: the system serves the file without hard read errors and
    its unterminated last line is valid UTF-8 of at most one megabyte whenever it
    is read. Records that are closed by the timeout, or by the flush of a stop, are
    shipped by other calls than a poll and are not covered here. *)
Theorem multiline_exactly_once opts (ml : MultilineOpts) start c0 oss c (t : TailedFile) (sink : S) now :
  pos t = start -> start <= len c0 -> partial t = [] -> agg t = None ->
  growing opts start t c0 oss c ->
  let '(t', sink') := ml_poll_session oss t sink opts ml now in
  exists done rest, drop (N.to_nat start) c = done ++ rest /\
    shipped sink' = shipped sink ++ closed_entries opts ml (ml_ideal ml done).1 /\
    pos t' = start + closed_span (ml_ideal ml done).1 /\
    (is_Some (agg t') -> represents ml t' (ml_ideal ml done).2 /\ read_from t' = start + len done).
Proof.
  intros Hp Hs Hpart Hagg Hg. assert (Hsy := ml_synced_start opts ml start c0 t sink Hp Hs Hpart Hagg).
  apply (ml_poll_session_synced _ _ _ _ _ oss c _ _ now) in Hsy; [|done].
  destruct (ml_poll_session oss t sink opts ml now) as [t' sink'].
  destruct Hsy as (dn & rest & Hd & _ & _ & _ & Hrep & Hp' & Hsh). cbn [fst snd] in *. exists dn, rest.
  split_and!; [done..|]. intros Ha. split; [by apply Hrep|].
  rewrite (represents_read_from ml t' _ (Hrep Ha)), Hp', <- (ml_ideal_bytes ml dn). lia.
Qed.

(** A crash in multiline mode loses nothing and repeats nothing: if a session
    had read a newline-terminated file to its end, an agent restarted at the
    persisted offset ships no entry while it reads the file again, leaves the
    offset where it is, and once at the end holds exactly the record that was in
    flight. *)
Theorem crash_rebuilds_record opts (ml : MultilineOpts) start c0 oss1 c oss2 (t : TailedFile) (sink : S) now1 now2
    t1 sink1 t2 sink2 :
  pos t = start -> start <= len c0 -> partial t = [] -> agg t = None ->
  growing opts start t c0 oss1 c -> pending (drop (N.to_nat start) c) = [] ->
  ml_poll_session oss1 t sink opts ml now1 = (t1, sink1) -> is_Some (agg t1) -> read_from t1 = len c ->
  Forall (fun os => serves os t c) oss2 ->
  ml_poll_session oss2 (mkTailedFile (path t) (pos t1) (id t) [] 0 None false None) sink1 opts ml now2 = (t2, sink2) ->
  shipped sink2 = shipped sink1 /\ pos t2 = pos t1 /\
  (is_Some (agg t2) -> read_from t2 = len c ->
   record <$> agg t2 = record <$> agg t1 /\ record_bytes <$> agg t2 = record_bytes <$> agg t1).
Proof.
  intros Hp Hs Hpart Hagg Hg Hpend Hrun1 Ha1 Hr1 Hos Hrun2.
  assert (Hsy := ml_synced_start opts ml start c0 t sink Hp Hs Hpart Hagg).
  apply (ml_poll_session_synced _ _ _ _ _ oss1 c _ _ now1) in Hsy; [|done]. rewrite Hrun1 in Hsy.
  destruct (ml_synced_end _ _ _ _ _ _ _ Hsy Ha1 Hr1) as [Hrep1 Hp1].
  assert (Hle : start <= pos t1 <= len c) by (assert (Hf1 := represents_read_from _ _ _ Hrep1); cbn [fst] in *; lia).
  assert (Hfit : fits (drop (N.to_nat (pos t1)) c)).
  { assert (Hz : pending (drop (N.to_nat (pos t1)) c) = []).
    { apply (pending_suffix (take (N.to_nat (pos t1 - start)) (drop (N.to_nat start) c))).
      replace (N.to_nat (pos t1)) with (N.to_nat start + N.to_nat (pos t1 - start))%nat by lia.
      by rewrite <- drop_drop, take_drop. }
    unfold fits. rewrite Hz. split; [done|]. rewrite len_nil. lia. }
  set (t0 := mkTailedFile _ _ _ _ _ _ _ _) in *.
  assert (Hsy2 := ml_synced_start opts ml (pos t1) c t0 sink1 eq_refl ltac:(lia) eq_refl eq_refl).
  apply (ml_poll_session_synced _ _ _ _ _ oss2 c _ _ now2) in Hsy2; [|by apply growing_still].
  rewrite Hrun2 in Hsy2. destruct (ml_synced_in_flight _ _ _ start _ _ _ _ Hpend Hp1 Hsy2) as (Hsh & Hp2 & Hid).
  split_and!; [done|done|]. intros Ha2 Hr2. destruct (ml_synced_end _ _ _ _ _ _ _ Hsy2 Ha2 Hr2) as [Hrep2 _].
  cbn [fst snd] in *. rewrite Hid in Hrep2. cbn [snd] in Hrep2. destruct (ml_ideal ml (drop _ c)).2 as [[cur part] pb].
  destruct Hrep1 as (a1 & -> & Hrec1 & Hrb1 & _), Hrep2 as (a2 & -> & Hrec2 & Hrb2 & _).
  cbn. by rewrite Hrec1, Hrec2, Hrb1, Hrb2.
Qed.

(** C8: A pass over a rotated-out file whose seek succeeds, which reads without hard
    errors and whose unterminated lines are valid UTF-8 of at most one megabyte,
    keeps the descriptor until the end of the file: after the pass it is either
    still retained, with everything shipped up to the offset, or the whole file has
    been shipped and the unterminated tail was offered to the channel once. When
    the seek fails the descriptor is given up at once, and nothing is shipped. *)
Theorem drain_to_end open f opts dn (t : TailedFile) (sink : S) base n t' sink' :
  retained_fd t = Some f -> fits dn ->
  partial t = pending dn -> shipped sink = base ++ ideal_entries opts dn ->
  drain_retained open t sink opts = (n, t', sink') ->
  match open f (pos t) with
  | None => n = 0 /\ t' = set_retained_fd None t /\ sink' = sink
  | Some r =>
    quiet r -> fits (dn ++ stream r) ->
    exists more rest, stream r = more ++ rest /\ pos t' = pos t + len more /\ n = len more /\
      ((retained_fd t' = Some f /\ partial t' = pending (dn ++ more) /\
        shipped sink' = base ++ ideal_entries opts (dn ++ more)) \/
       (retained_fd t' = None /\ rest = [] /\ partial t' = [] /\
        exists tail, shipped sink' = (base ++ ideal_entries opts (dn ++ stream r)) ++ tail /\
          (tail = [] \/ tail = [mkLogEntry Info (trim (pending (dn ++ stream r))) None None None])))
  end.
Proof.
  intros Hfd Hf Hpa Hsh Hdr. destruct (open f (pos t)) as [r|] eqn:Hop.
  - intros Hq Hfull.
    destruct (drain_retained_complete _ _ _ _ _ _ _ _ _ _ _ Hfd Hop Hq Hf Hfull Hpa Hsh Hdr)
      as (more & rest & Hmr & Hp & Hn & Hcase).
    exists more, rest. split_and!; [done..|]. destruct Hcase as [Hc|(Hr & -> & Hpe & Htl)]; [by left|right].
    rewrite app_nil_r in Hmr. by rewrite Hmr.
  - unfold drain_retained in Hdr. rewrite Hfd in Hdr. cbn [pos set_retained_fd] in Hdr. rewrite Hop in Hdr.
    by injection Hdr as <- <- <-.
Qed.

(** C12: Whatever the system answers and in whatever order events come, the file
    table stays coherent: entries sit under their own identity, the path index
    points at live entries under their path, every entry without a retained
    descriptor is indexed, and the poll interval stays within its bounds. The
    answers may be different in every event, but within one event the system gives
    the same answer to the same question. *)
Theorem table_coherent os patterns opts ml (sink : S) disk now evs :
  tailer_wf (tail_files os patterns opts ml sink disk now evs).
Proof. apply tail_run_wf, tail_start_wf. Qed.
End tail.

(** * The session theorems on a concrete file *)

Section witnesses.
Import Examples.

Definition log1 : bytes := b#"one" ++ [nl] ++ b#"tw".
Definition log2 : bytes := log1 ++ b#"o" ++ [nl].

Lemma log_served c p : serves (app_os c) (fresh_file p) c.
Proof. by apply app_os_serves. Qed.

Lemma log_growing : growing plain_opts 0 (fresh_file 0) [] [app_os log1; app_os log2] log2.
Proof.
  apply (growing_cons _ _ _ [] log1); [apply log_served|by split|].
  apply (growing_cons _ _ _ log1 (b#"o" ++ [nl])); [apply log_served|by split|constructor].
Qed.

Lemma single_line_exactly_once_witness :
  let '(t', sink') := poll_session [app_os log1; app_os log2] (fresh_file 0) [] plain_opts 0 in
  exists done rest, log2 = done ++ rest /\ pos t' = 0 + len done /\
    partial t' = pending done /\ shipped sink' = shipped [] ++ ideal_entries plain_opts done.
Proof.
  apply (single_line_exactly_once plain_opts 0 [] [app_os log1; app_os log2] log2 (fresh_file 0) [] 0).
  - reflexivity.
  - vm_compute. discriminate.
  - reflexivity.
  - exact log_growing.
Defined.

Lemma polling_catches_up_witness :
  let '(t', sink') := poll_session [app_os log2] (fresh_file 0) [] plain_opts 0 in
  pos t' = len log2 /\ shipped sink' = shipped [] ++ ideal_entries plain_opts log2.
Proof.
  apply (polling_catches_up plain_opts 0 log2 [app_os log2] (fresh_file 0) [] 0).
  - intros s e. reflexivity.
  - reflexivity.
  - vm_compute. discriminate.
  - reflexivity.
  - by split.
  - apply Forall_singleton, log_served.
  - reflexivity.
Defined.

(** Records start at a line with an [E]. *)
Definition records : MultilineOpts := mkMultilineOpts (b#"E" : regex) 1000 4096.

Lemma multiline_exactly_once_witness :
  let '(t', sink') := ml_poll_session [app_os log1; app_os log2] (fresh_file 0) [] plain_opts records 0 in
  exists done rest, log2 = done ++ rest /\
    shipped sink' = shipped [] ++ closed_entries plain_opts records (ml_ideal records done).1 /\
    pos t' = 0 + closed_span (ml_ideal records done).1 /\
    (is_Some (agg t') -> represents records t' (ml_ideal records done).2 /\ read_from t' = 0 + len done).
Proof.
  apply (multiline_exactly_once plain_opts records 0 [] [app_os log1; app_os log2] log2 (fresh_file 0) [] 0).
  - reflexivity.
  - vm_compute. discriminate.
  - reflexivity.
  - reflexivity.
  - exact log_growing.
Defined.

(** Two records, the second in flight. *)
Definition two_records : bytes := b#"E1" ++ [nl] ++ b#" at a" ++ [nl] ++ b#"E2" ++ [nl] ++ b#" at b" ++ [nl].

Lemma crash_rebuilds_record_witness :
  let '(t1, sink1) := ml_poll_session [app_os two_records] (fresh_file 0) [] plain_opts records 0 in
  let '(t2, sink2) := ml_poll_session [app_os two_records] (fresh_file (pos t1)) sink1 plain_opts records 0 in
  pos t1 = 9 /\ length sink1 = 1%nat /\ sink2 = sink1 /\ pos t2 = pos t1 /\ record <$> agg t2 = record <$> agg t1.
Proof.
  destruct (ml_poll_session [app_os two_records] (fresh_file 0) [] plain_opts records 0) as [t1 sink1] eqn:E1.
  destruct (ml_poll_session [app_os two_records] (fresh_file (pos t1)) sink1 plain_opts records 0) as [t2 sink2] eqn:E2.
  assert (Hg : growing plain_opts 0 (fresh_file 0) [] [app_os two_records] two_records).
  { apply (growing_cons _ _ _ [] two_records); [apply log_served|by split|constructor]. }
  assert (E1' := E1). vm_compute in E1'. injection E1' as Et1 Es1.
  assert (E2' := E2). rewrite <- Et1, <- Es1 in E2'. vm_compute in E2'. injection E2' as Et2 Es2.
  destruct (crash_rebuilds_record plain_opts records 0 [] [app_os two_records] two_records [app_os two_records]
    (fresh_file 0) [] 0 0 t1 sink1 t2 sink2 eq_refl ltac:(lia) eq_refl eq_refl Hg eq_refl E1
    ltac:(rewrite <- Et1; by eexists) ltac:(rewrite <- Et1; reflexivity)
    ltac:(apply Forall_singleton, log_served) E2) as (Hs & Hp & Hrec).
  split_and!; [by rewrite <- Et1|by rewrite <- Es1|exact Hs|exact Hp|].
  apply Hrec; rewrite <- Et2; [by eexists|reflexivity].
Defined.

(** A rotated-out file with an unterminated last line. *)
Definition retained_file : TailedFile := set_retained_fd (Some log_id) (fresh_file 0).

Lemma drain_to_end_witness :
  let '(_, t', sink') := drain_retained (os_seek (app_os log1)) retained_file [] plain_opts in
  exists more rest, log1 ++ [] = more ++ rest /\ pos t' = 0 + len more /\ retained_fd t' = None /\ rest = [] /\
    exists tail, sink' = ideal_entries plain_opts log1 ++ tail /\ length tail = 1%nat.
Proof.
  destruct (drain_retained (os_seek (app_os log1)) retained_file [] plain_opts) as [[n t'] sink'] eqn:E.
  assert (Hd := drain_to_end (os_seek (app_os log1)) log_id plain_opts [] retained_file [] [] n t' sink'
    eq_refl ltac:(by split) eq_refl eq_refl E).
  change (os_seek (app_os log1) log_id (pos retained_file)) with (Some [Data log1]) in Hd. cbv iota in Hd.
  destruct (Hd ltac:(by repeat constructor) ltac:(by split)) as (more & rest & Hmr & Hp & _ & Hcase).
  vm_compute in E. injection E as _ Et Es. exists more, rest. split_and!; [exact Hmr|exact Hp|..].
  all: destruct Hcase as [[Hr _]|(Hr & Hrest & _)]; [rewrite <- Et in Hr; discriminate|].
  - exact Hr.
  - exact Hrest.
  - rewrite <- Es. eexists. split; [by vm_compute|reflexivity].
Defined.

(** A read error in the middle of a rotated-out file gives its descriptor up like
    the end of the file does, and the lines after it are never read. *)
Lemma drain_error_releases :
  let '(_, t', sink') := drain_retained (fun _ _ => Some [Data (b#"one" ++ [nl]); IoErr; Data (b#"two" ++ [nl])])
    retained_file [] plain_opts in
  retained_fd t' = None /\ pos t' = 4 /\ map e_message sink' = [b#"one"].
Proof. by vm_compute. Qed.

Lemma table_coherent_witness :
  tailer_wf (tail_files (app_os log1) [log_path] plain_opts None ([] : list LogEntry) None 0
    [EvPoll (app_os log2) [log_id] [log_id] 0 [log_id] save_ok]).
Proof.
  exact (table_coherent (app_os log1) [log_path] plain_opts None [] None 0
    [EvPoll (app_os log2) [log_id] [log_id] 0 [log_id] save_ok]).
Defined.
End witnesses.

(** Where a registered file starts: at the given position for a file that
    replaces a rotated one, at the saved offset (at most the length) when the
    checkpoint is of the same file, else at the end; the only other outcome is
    that a file without checkpoint and untouched for a day is skipped. *)
Theorem register_position os tl p saved ip m :
  os_metadata os p = Some m -> files tl !! file_id_of p m = None ->
  match files (register_file os tl p saved ip) !! file_id_of p m with
  | Some t =>
    path t = p /\ partial t = [] /\ agg t = None /\ retained_fd t = None /\
    pos t = match ip with
            | Some q => q
            | None => match checkpoint_of saved p (file_id_of p m) with
                      | Some s => N.min (s_pos s) (md_len m)
                      | None => md_len m
                      end
            end
  | None => ip = None /\ checkpoint_of saved p (file_id_of p m) = None /\ too_old os m = true
  end.
Proof.
  intros Hm Hn. unfold register_file. rewrite Hm, Hn. cbv zeta.
  destruct ip as [q|]; cbn [andb files]; [by rewrite lookup_insert_eq|].
  destruct (checkpoint_of saved p (file_id_of p m)) as [s|]; cbn [andb files]; [by rewrite lookup_insert_eq|].
  destruct (too_old os m); cbn [files]; [by rewrite Hn|by rewrite lookup_insert_eq].
Qed.

Lemma register_position_witness :
  pos <$> files (register_file (Examples.app_os [x61]) (mkTail ∅ ∅) Examples.log_path ∅ None)
    !! Examples.log_id = Some 1.
Proof.
  assert (Hr := register_position (Examples.app_os [x61]) (mkTail ∅ ∅) Examples.log_path ∅ None
    (mkMetadata Examples.log_id 1 (Some 0)) eq_refl eq_refl).
  vm_compute in Hr. destruct Hr as (_ & _ & _ & _ & Hr). exact (f_equal Some Hr).
Defined.

Lemma log_storable t :
  path t = Examples.log_path -> pos t <? 100 = true -> dev (id t) = 8 -> ino (id t) <? 100 = true -> storable t.
Proof.
  intros Hp Hq Hd Hi. apply N.ltb_lt in Hq, Hi. unfold storable. rewrite Hp, Hd.
  assert (Hu : 100 <= u64_max) by (vm_compute; discriminate).
  split_and!; [by apply (bool_decide_unpack _); vm_compute..| |  |]; lia.
Qed.

(** C11: Offsets survive a restart: after a complete save of entries with
    distinct paths (without tabs and newlines), loading the state file and
    registering a tracked file that is still the same file and not shorter
    resumes it at exactly the position that was saved. *)
Theorem restart_resumes os tl order io disk (t : TailedFile) m :
  Forall storable order -> NoDup (map (fun t => from_utf8_lossy (path t)) order) -> t ∈ order ->
  create_ok io = true -> rename_ok io = true -> (length (offsets_text order) <= written io)%nat ->
  os_metadata os (path t) = Some m -> md_id m = id t -> pos t <= md_len m -> files tl !! id t = None ->
  pos <$> files (register_file os tl (path t) (load_offsets (save_offsets io order disk)) None) !! id t
  = Some (pos t).
Proof.
  intros Hs Hnd Hin Hc Hr Hw Hm Hid Hle Hn.
  unfold save_offsets. rewrite Hc, Hr. cbn [negb]. rewrite take_ge by done.
  unfold register_file, checkpoint_of, file_id_of. rewrite Hm, Hid, Hn, load_offsets_lookup by done.
  unfold saved_of. cbn [s_dev s_ino s_pos]. rewrite !N.eqb_refl. cbn [andb files]. rewrite lookup_insert_eq.
  cbn. f_equal. lia.
Qed.

Lemma restart_resumes_witness :
  pos <$> files (register_file (Examples.app_os log1) (mkTail ∅ ∅) Examples.log_path
    (load_offsets (save_offsets Examples.save_ok [Examples.fresh_file 4] None)) None) !! Examples.log_id
  = Some 4.
Proof.
  apply (restart_resumes (Examples.app_os log1) (mkTail ∅ ∅) [Examples.fresh_file 4] Examples.save_ok None
    (Examples.fresh_file 4) (mkMetadata Examples.log_id (len log1) (Some 0))).
  - apply Forall_singleton. by apply log_storable.
  - apply NoDup_singleton.
  - by left.
  - reflexivity.
  - reflexivity.
  - vm_compute. lia.
  - reflexivity.
  - reflexivity.
  - vm_compute. discriminate.
  - reflexivity.
Defined.

(** When a rotated-out file is still being drained, its entry and the entry
    of the file that replaced it are saved under the same path; if the old one
    comes last, the new file has no checkpoint after a restart. *)
Theorem rotated_entry_hides_checkpoint a b (new old : TailedFile) :
  Forall storable (a ++ new :: b ++ [old]) -> path old = path new -> id old <> id new ->
  checkpoint_of (load_offsets (Some (offsets_text (a ++ new :: b ++ [old])))) (path new) (id new) = None.
Proof.
  intros Hs Hp Hid. unfold checkpoint_of. rewrite load_offsets_text by done.
  rewrite app_comm_cons, app_assoc, fold_left_app. cbn [fold_left]. rewrite Hp, lookup_insert_eq.
  unfold saved_of. cbn [s_dev s_ino]. destruct (N.eqb_spec (dev (id old)) (dev (id new))); [|done].
  destruct (N.eqb_spec (ino (id old)) (ino (id new))); [|done].
  exfalso. apply Hid. destruct (id old), (id new). cbn in *. congruence.
Qed.

Lemma rotated_entry_hides_checkpoint_witness :
  let old := mkTailedFile Examples.log_path 9 (mkFileId 8 41) [] 0 (Some (mkFileId 8 41)) false None in
  checkpoint_of (load_offsets (Some (offsets_text ([] ++ Examples.fresh_file 4 :: [] ++ [old]))))
    Examples.log_path Examples.log_id = None.
Proof.
  cbv zeta. apply (rotated_entry_hides_checkpoint [] [] (Examples.fresh_file 4)).
  - apply Forall_cons. split; [by apply log_storable|].
    apply Forall_singleton. by apply log_storable.
  - reflexivity.
  - discriminate.
Defined.
