(* ===== verification/RestartProps.v ===== *)
(** The guarantee of a reload for tailed files: the agent is stopped gracefully,
    started again with the state file it left, any number of times, and every
    line is shipped once. *)
From S2P Require Import Prelude Str StrFacts External Text Structured Sink SinkFacts Tailed TailedFacts Multiline.
From S2P Require Import Watcher WatcherFacts OffsetFacts SessionFacts MlSessionFacts RestartFacts DrainFacts EpisodeFacts CrashFacts Examples.
From Stdlib Require Import Strings.Byte.

Section props.
Context `{SimdUtf8, Memchr, MemchrIter, SerdeJson, Regex, !SimdUtf8Ok, !MemchrOk}.
Context {S : Type} `{LogSink S, !LogSinkOk S}.
Context (opts : FileParseOpts) (paths : gmap FileId bytes) (patterns : list bytes).

(** Lifetimes one after the other, while the files grow from [w] to [w']. *)
Inductive orderly : (FileId -> bytes) -> option bytes -> list Lifetime -> (FileId -> bytes) -> Prop :=
| orderly_nil w disk : orderly w disk [] w
| orderly_cons w disk l ls w1 w2 :
    orderly_life opts None paths patterns w l disk w1 ->
    orderly w1 (tl_disk (lifetime opts None patterns l disk)) ls w2 -> orderly w disk (l :: ls) w2.

Context (paths_inj : forall fid fid' p p', paths !! fid = Some p -> paths !! fid' = Some p' ->
  from_utf8_lossy p = from_utf8_lossy p' -> fid = fid').
Context (paths_storable : forall fid p, paths !! fid = Some p ->
  tab ∉ from_utf8_lossy p /\ nl ∉ from_utf8_lossy p /\ dev fid <= u64_max /\ ino fid <= u64_max).

(** What the lifetimes' offsets have passed of the content [c] of a file: for each
    the part from the checkpoint it has found to the offset in its table. *)
Definition spans_of (fid : FileId) (p c : bytes) (lives : list (option bytes * Tailer (S := S))) : list (N * bytes) :=
  (fun x => span_of fid p c x.1 (reach_of x.2 fid)) <$> lives.

Lemma orderly_episodes w disk ls w' :
  orderly w disk ls w' ->
  exists lvs, length lvs = length ls /\
    (fun lv => (lv_found lv, lv_reach lv)) <$> lvs = (fun x => (x.1, reach_of x.2)) <$> lifetimes opts None patterns ls disk /\
    (fun x => shipped (tl_sink x.2)) <$> lifetimes opts None patterns ls disk
    = zip_with (fun l (tr : trace) => shipped (lf_sink l) ++ tr.*2) ls (lv_trace <$> lvs) /\
    episodes (line_entries opts) paths true w disk lvs w'.
Proof.
  induction 1 as [w disk|w disk l ls w1 w2 Hlife Ho (lvs & Hlen & Hfr & Hmap & Hep)]; [exists []; by split_and!; try constructor|].
  destruct (lifetime_episode opts None (line_mode opts) paths patterns paths_inj paths_storable w l disk w1 Hlife) as (tr & Hsh & He).
  exists (mkLife disk tr (reach_of (lifetime opts None patterns l disk)) :: lvs). cbn [lifetimes fmap list_fmap zip_with].
  cbn [fmap list_fmap] in Hfr, Hmap. rewrite Hfr, Hmap. cbn [fst snd lv_found lv_reach lv_trace]. rewrite Hsh. split_and!; [cbn; by rewrite Hlen|done|done|].
  change disk with (lv_found (mkLife disk tr (reach_of (lifetime opts None patterns l disk)))) at 1. by econstructor.
Qed.

Lemma life_spans fid p c lvs (lives : list (option bytes * Tailer (S := S))) :
  (fun lv => (lv_found lv, lv_reach lv)) <$> lvs = (fun x => (x.1, reach_of x.2)) <$> lives ->
  life_span fid p c <$> lvs = spans_of fid p c lives.
Proof.
  intros Hfr. assert (Hm := f_equal (fmap (fun x : option bytes * (FileId -> N) => span_of fid p c x.1 (x.2 fid))) Hfr).
  by rewrite <- !list_fmap_compose in Hm.
Qed.

(** When the last stop could drain the file, its offset is at the end. *)
Lemma orderly_drained w disk ls w' l found st fid p :
  orderly w disk ls w' -> paths !! fid = Some p -> last ls = Some l -> last (lifetimes opts None patterns ls disk) = Some (found, st) ->
  can_drain opts None patterns l found w' fid -> reach_of st fid = len (w' fid).
Proof.
  induction 1 as [w disk|w disk l0 ls w1 w2 Hlife Ho IH]; intros Hp; [done|]. destruct ls as [|l1 ls].
  - cbn. intros [= <-] [= <- <-] Hc. inversion Ho; subst.
    by apply (lifetime_drains _ _ _ (line_drain opts) paths patterns paths_inj paths_storable w l0 disk w2).
  - intros Hl Hll. apply IH; [done|exact Hl|exact Hll].
Qed.

(** C2: A reload loses nothing and repeats nothing. Files with distinct, storable
    paths are tailed line by line and only appended to; any number of lifetimes of
    the tailer, each over any sequence of polls, rescans and saves that find the
    files as they are then, with a last line that is valid UTF-8 of at most one
    megabyte, and each ended by a graceful stop whose save of the state file is
    complete, start from the state file the one before has left. The channel
    refuses whatever it likes. Then everything that is shipped is of a tracked
    file, and what is shipped of a file that has a first checkpoint is the content
    from there on, cut where the offsets of the lifetimes stood: the complete lines
    of each part, once and in order, then at most one entry for the unterminated
    line it ends in. When the stops fall between lines these are exactly the lines
    of the content; and when the last stop finds room in the channel for what is
    left, fewer lines than a poll may read, nothing of the content is left out. *)
Theorem reload_exactly_once w disk ls w' :
  orderly w disk ls w' ->
  let lives := lifetimes opts None patterns ls disk in
  exists traces : list trace, length traces = length ls /\ Forall (of_tracked paths) traces /\
    (fun x => shipped (tl_sink x.2)) <$> lives = zip_with (fun l (tr : trace) => shipped (lf_sink l) ++ tr.*2) ls traces /\
    forall fid p s, paths !! fid = Some p -> checkpoint_of (load_offsets disk) p fid = Some s ->
      s_pos s <= len (w fid) ->
      let segs := (spans_of fid p (w' fid) lives).*2 in
      (exists rest, drop (N.to_nat (s_pos s)) (w' fid) = concat segs ++ rest) /\
      Forall2 (ships (line_entries opts) fid) traces segs /\
      (Forall (fun seg => pending seg = []) segs ->
       concat (map (of_file fid) traces) = ideal_entries opts (concat segs)) /\
      (forall l found st, last ls = Some l -> last lives = Some (found, st) ->
       can_drain opts None patterns l found w' fid -> concat segs = drop (N.to_nat (s_pos s)) (w' fid)).
Proof.
  intros Ho lives. destruct (orderly_episodes w disk ls w' Ho) as (lvs & Hlen & Hfr & Hmap & Hep). exists (lv_trace <$> lvs).
  split_and!; [by rewrite length_fmap|by eapply episodes_tracked|done|]. intros fid p s Hp Hck Hpos segs.
  destruct (episodes_chained _ _ _ _ _ _ _ _ _ _ Hep Hp Hck Hpos) as [Hch Hre]. rewrite (life_spans fid p _ lvs lives Hfr) in Hch.
  destruct (chained_segments _ _ _ _ _ _ Hch) as [Hd Hsh]. split_and!; [done..|by apply ships_whole_lines|].
  intros l found st Hl Hll Hc. assert (Hend := orderly_drained _ _ _ _ _ _ _ _ _ Ho Hp Hl Hll Hc).
  assert (Hg := episodes_grows _ _ _ _ _ _ _ Hep fid).
  apply (chained_whole _ _ _ _ _ _ (span_of fid p (w' fid) found (reach_of st fid)) Hch).
  - destruct Hg as [d ->]. rewrite len_app. lia.
  - unfold spans_of. by rewrite fmap_last, Hll.
  - etrans; [|exact Hend]. assert (Hlast := f_equal last Hfr). rewrite !fmap_last in Hlast. fold lives in Hlast. rewrite Hll in Hlast.
    destruct (last lvs) as [lv|] eqn:El; [|done]. injection Hlast as <- Hr. cbn in Hr. rewrite <- Hr.
    eapply (proj1 (Forall_forall _ _) Hre). by apply last_Some_elem_of.
Qed.
End props.

(** * On a concrete file *)

Section witnesses.
Import Examples.

Definition one_path : gmap FileId bytes := {[ log_id := log_path ]}.

Lemma one_path_lookup fid p : one_path !! fid = Some p -> fid = log_id /\ p = log_path.
Proof. unfold one_path. rewrite lookup_singleton_Some. naive_solver. Qed.

Lemma app_os_discovers c saved w :
  w log_id = c -> is_utf16 (detect_bom (take 3 c)) = false -> discovers one_path [log_path] (app_os c) saved w.
Proof.
  intros Hw Hb. assert (Hr : resolve_globs (app_os c) [log_path] = [log_path]) by done. split.
  - intros p. rewrite Hr, list_elem_of_singleton. split; [intros ->; by exists log_id|].
    by intros [fid [_ ->]%one_path_lookup].
  - intros fid p [-> ->]%one_path_lookup. exists (mkMetadata log_id (len c) (Some 0)). rewrite Hw.
    split_and!; [done..| |done]. unfold file_is_utf16, app_os, one_file. cbn [os_open os_head].
    by rewrite bool_decide_true.
Qed.

Lemma app_os_serves_all c start w :
  w log_id = c -> fits (drop (N.to_nat (start log_id)) c) -> serves_all one_path start (app_os c) w.
Proof. intros Hw Hf t [Hi Hp]%one_path_lookup. rewrite Hi, Hw. split; [by apply app_os_serves|done]. Qed.

(** Two lifetimes: the first is stopped in the middle of the third line. *)
Definition life_log1 : bytes := b#"one" ++ [nl] ++ b#"two" ++ [nl] ++ b#"th".
Definition life_log2 : bytes := life_log1 ++ b#"ree" ++ [nl] ++ b#"four" ++ [nl].

Definition life_on {S} (sink : S) (c : bytes) : Lifetime :=
  mkLifetime (app_os c) 0 sink [EvPoll (app_os c) [log_id] [log_id] 0 [log_id] save_ok; EvGlob (app_os c)]
    (app_os c) [log_id] [log_id] 0 [log_id] save_ok.

Definition life (c : bytes) : Lifetime := life_on ([] : list LogEntry) c.

Definition life_disk0 : option bytes := Some (offsets_text [fresh_file 4]).

Lemma life_on_orderly {S} `{LogSink S} opts ml (sink : S) c disk :
  is_utf16 (detect_bom (take 3 c)) = false -> len c <? 1000 = true ->
  fits (drop (N.to_nat (start_of one_path (load_offsets disk) (fun _ => c) log_id)) c) ->
  (length (offsets_text (values_in [log_id] (files (tl_tail (lifetime opts ml [log_path] (life_on sink c) disk))))) <=? 1000)%nat = true ->
  orderly_life opts ml one_path [log_path] (fun _ => c) (life_on sink c) disk (fun _ => c).
Proof.
  intros Hb Hl Hf Ht. exists (fun _ => c), (fun _ => c). split_and!; try done.
  - by apply app_os_discovers.
  - apply (events_poll _ _ _ _ (fun _ => c)); [done|by apply app_os_serves_all|]. constructor; [|constructor].
    intros p Hp. exists log_id. apply list_elem_of_singleton in Hp as ->. done.
  - by apply app_os_serves_all.
  - unfold saves. split_and!; [done|done|by apply Nat.leb_le|apply NoDup_singleton|].
    intros fid p [-> _]%one_path_lookup. by left.
  - intros _. apply N.ltb_lt in Hl. unfold u64_max. lia.
Qed.

Lemma life_orderly c disk :
  is_utf16 (detect_bom (take 3 c)) = false -> len c <? 1000 = true ->
  fits (drop (N.to_nat (start_of one_path (load_offsets disk) (fun _ => c) log_id)) c) ->
  (length (offsets_text (values_in [log_id] (files (tl_tail (lifetime plain_opts None [log_path] (life c) disk))))) <=? 1000)%nat = true ->
  orderly_life plain_opts None one_path [log_path] (fun _ => c) (life c) disk (fun _ => c).
Proof. apply life_on_orderly. Qed.

(** A channel without bound. *)
Lemma list_has_room k (s : list LogEntry) : has_room k s.
Proof. by intros cs e _. Qed.

(** The second lifetime drains the file, so the two together ship all of it. *)
Lemma reload_exactly_once_witness :
  let lives := lifetimes plain_opts None [log_path] [life life_log1; life life_log2] life_disk0 in
  let segs := (spans_of log_id log_path life_log2 lives).*2 in
  exists traces : list trace, length traces = 2%nat /\ Forall (of_tracked one_path) traces /\
    (fun x => shipped (tl_sink x.2)) <$> lives
    = zip_with (fun l (tr : trace) => shipped (lf_sink l) ++ tr.*2) [life life_log1; life life_log2] traces /\
    Forall2 (ships (line_entries plain_opts) log_id) traces segs /\
    concat segs = drop 4 life_log2 /\ segs = [b#"two" ++ [nl] ++ b#"th"; b#"ree" ++ [nl] ++ b#"four" ++ [nl]].
Proof.
  assert (Ho : orderly plain_opts one_path [log_path] (fun _ => life_log1) life_disk0
    [life life_log1; life life_log2] (fun _ => life_log2)).
  { econstructor; [apply life_orderly; by vm_compute|].
    econstructor; [|constructor].
    destruct (life_orderly life_log2 (tl_disk (lifetime plain_opts None [log_path] (life life_log1) life_disk0)))
      as (w1 & w2 & Hg & Hrest); [by vm_compute..|]. exists w1, w2. split; [|exact Hrest].
    etrans; [|exact Hg]. intros fid. by exists (b#"ree" ++ [nl] ++ b#"four" ++ [nl]). }
  intros lives segs. destruct (reload_exactly_once plain_opts one_path [log_path]
    ltac:(by intros fid fid' p p' [-> _]%one_path_lookup [-> _]%one_path_lookup)
    ltac:(intros fid p [-> ->]%one_path_lookup; split_and!;
          [by apply (bool_decide_unpack _); vm_compute..|vm_compute; discriminate|vm_compute; discriminate])
    (fun _ => life_log1) life_disk0 [life life_log1; life life_log2] (fun _ => life_log2) Ho)
    as (traces & Hlen & Hof & Hmap & Hall).
  exists traces. split_and!; [exact Hlen|exact Hof|exact Hmap|..].
  all: destruct (Hall log_id log_path (mkSavedOffset 4 8 42)) as (_ & Hs & _ & Hend);
    [by vm_compute|by vm_compute|by vm_compute|].
  - exact Hs.
  - eapply Hend; [reflexivity|reflexivity|]. split_and!; [apply list_has_room|apply NoDup_singleton|apply NoDup_singleton|by left|by left|by vm_compute].
  - by vm_compute.
Defined.

(** A channel without room. *)
Definition full_sink : LogSink (list LogEntry) := {|
  try_log_with_service l e := (l, false); sink_log l e := l; shipped l := l |}.

(** The entry of the unterminated line is offered once, without an answer: when
    the channel has no room at the stop it is dropped, while the offset that is
    saved is past it. The next lifetime ships the rest of the line as a line. *)
Lemma stop_drops_partial :
  let disk := Some (offsets_text [fresh_file 0]) in
  let st := @lifetime _ _ _ _ _ (list LogEntry) full_sink plain_opts None [log_path] (life b#"th") disk in
  let st' := lifetime plain_opts None [log_path] (life (b#"three" ++ [nl])) (tl_disk st) in
  tl_sink st = [] /\ tl_disk st = Some (offsets_text [fresh_file 2]) /\ map e_message (tl_sink st') = [b#"ree"].
Proof. by vm_compute. Qed.
End witnesses.
