(* ===== verification/CrashProps.v ===== *)
(** The guarantee of tailed files when the agent is killed: at-least-once
    delivery, with the one exception stated exactly. *)
From S2P Require Import Prelude Str StrFacts External Text Structured Sink SinkFacts Tailed TailedFacts Multiline.
From S2P Require Import Watcher WatcherFacts OffsetFacts SessionFacts MlSessionFacts RestartFacts DrainFacts EpisodeFacts CrashFacts.
From S2P Require Import MultilineFacts MlRestartFacts RestartProps Examples.
From Stdlib Require Import Strings.Byte.

(** How a lifetime of the agent ends: it is told to stop, or it is killed between
    two events of the tailer. *)
Inductive Ending := StoppedGracefully | Killed.

Section lives.
Context `{SimdUtf8, Memchr, MemchrIter, SerdeJson, Regex, !SimdUtf8Ok, !MemchrOk}.
Context {S : Type} `{LogSink S, !LogSinkOk S}.
Context (opts : FileParseOpts) (ml : option MultilineOpts) (paths : gmap FileId bytes) (patterns : list bytes).

Definition ended (x : Ending * Lifetime (S := S)) (disk : option bytes) : Tailer :=
  match x.1 with
  | StoppedGracefully => lifetime opts ml patterns x.2 disk
  | Killed => cut_off opts ml patterns x.2 disk
  end.

(** The state file each lifetime has found, and the tailer as it ends. *)
Fixpoint outcomes (ls : list (Ending * Lifetime (S := S))) (disk : option bytes) : list (option bytes * Tailer) :=
  match ls with
  | [] => []
  | x :: rest => (disk, ended x disk) :: outcomes rest (tl_disk (ended x disk))
  end.

(** Lifetimes one after the other, while the files grow from [w] to [w']. *)
Inductive survives : (FileId -> bytes) -> option bytes -> list (Ending * Lifetime) -> (FileId -> bytes) -> Prop :=
| survives_nil w disk : survives w disk [] w
| survives_stop w disk l ls w1 w2 :
    orderly_life opts ml paths patterns w l disk w1 ->
    survives w1 (tl_disk (lifetime opts ml patterns l disk)) ls w2 -> survives w disk ((StoppedGracefully, l) :: ls) w2
| survives_kill w disk l ls w1 w2 :
    cut_life opts ml paths patterns w l disk w1 ->
    survives w1 (tl_disk (cut_off opts ml patterns l disk)) ls w2 -> survives w disk ((Killed, l) :: ls) w2.

Context (paths_inj : forall fid fid' p p', paths !! fid = Some p -> paths !! fid' = Some p' ->
  from_utf8_lossy p = from_utf8_lossy p' -> fid = fid').
Context (paths_storable : forall fid p, paths !! fid = Some p ->
  tab ∉ from_utf8_lossy p /\ nl ∉ from_utf8_lossy p /\ dev fid <= u64_max /\ ino fid <= u64_max).

Lemma survives_episodes (fm : FileMode opts ml) w disk ls w' :
  survives w disk ls w' ->
  exists lvs, length lvs = length ls /\
    (fun lv => (lv_found lv, lv_reach lv)) <$> lvs = (fun x => (x.1, reach_of x.2)) <$> outcomes ls disk /\
    (fun x => shipped (tl_sink x.2)) <$> outcomes ls disk
    = zip_with (fun x (tr : trace) => shipped (lf_sink x.2) ++ tr.*2) ls (lv_trace <$> lvs) /\
    episodes (fm_ships (FileMode := fm)) paths false w disk lvs w'.
Proof.
  induction 1 as [w disk|w disk l ls w1 w2 Hlife Ho (lvs & Hlen & Hfr & Hmap & Hep)
    |w disk l ls w1 w2 Hlife Ho (lvs & Hlen & Hfr & Hmap & Hep)]; [exists []; by split_and!; try constructor|..].
  - destruct (lifetime_episode opts ml fm paths patterns paths_inj paths_storable w l disk w1 Hlife) as (tr & Hsh & He).
    exists (mkLife disk tr (reach_of (lifetime opts ml patterns l disk)) :: lvs). cbn [outcomes fmap list_fmap zip_with].
    cbn [fmap list_fmap] in Hfr, Hmap. unfold ended in *. cbn [fst snd lv_found lv_reach lv_trace] in *. rewrite Hfr, Hmap, Hsh.
    split_and!; [cbn; by rewrite Hlen|done|done|].
    change disk with (lv_found (mkLife disk tr (reach_of (lifetime opts ml patterns l disk)))) at 1.
    econstructor; [by apply episode_weaken|done].
  - destruct (cut_episode opts ml fm paths patterns paths_inj paths_storable w l disk w1 Hlife) as (tr & Hsh & He).
    exists (mkLife disk tr (reach_of (cut_off opts ml patterns l disk)) :: lvs). cbn [outcomes fmap list_fmap zip_with].
    cbn [fmap list_fmap] in Hfr, Hmap. unfold ended in *. cbn [fst snd lv_found lv_reach lv_trace] in *. rewrite Hfr, Hmap, Hsh.
    split_and!; [cbn; by rewrite Hlen|done|done|].
    change disk with (lv_found (mkLife disk tr (reach_of (cut_off opts ml patterns l disk)))) at 1. by econstructor.
Qed.

(** When the last lifetime is stopped and could drain the file, its offset is at
    the end. *)
Definition drains_at_end (ls : list (Ending * Lifetime (S := S))) (disk : option bytes) (w : FileId -> bytes) (fid : FileId) : Prop :=
  forall l found st, last ls = Some (StoppedGracefully, l) -> last (outcomes ls disk) = Some (found, st) ->
    can_drain opts ml patterns l found w fid -> reach_of st fid = len (w fid).

Lemma survives_drained (fm : FileMode opts ml) (dm : DrainMode opts ml fm) w disk ls w' fid p :
  survives w disk ls w' -> paths !! fid = Some p -> drains_at_end ls disk w' fid.
Proof.
  intros Hs Hp. induction Hs as [w disk|w disk l0 ls w1 w2 Hlife Ho IH|w disk l0 ls w1 w2 Hlife Ho IH]; intros l found st; [done|..];
    (destruct ls as [|x ls]; [|intros Hl Hll; apply IH; [exact Hl|exact Hll]]).
  - cbn. intros [= <-] [= <- <-] Hc. inversion Ho; subst.
    by apply (lifetime_drains _ _ _ dm paths patterns paths_inj paths_storable w l0 disk w2).
  - done.
Qed.
End lives.

Section props.
Context `{SimdUtf8, Memchr, MemchrIter, SerdeJson, Regex, !SimdUtf8Ok, !MemchrOk}.
Context {S : Type} `{LogSink S, !LogSinkOk S}.
Context (opts : FileParseOpts) (paths : gmap FileId bytes) (patterns : list bytes).
Context (paths_inj : forall fid fid' p p', paths !! fid = Some p -> paths !! fid' = Some p' ->
  from_utf8_lossy p = from_utf8_lossy p' -> fid = fid').
Context (paths_storable : forall fid p, paths !! fid = Some p ->
  tab ∉ from_utf8_lossy p /\ nl ∉ from_utf8_lossy p /\ dev fid <= u64_max /\ ino fid <= u64_max).

(** C3: Whatever kills the agent, however often, lines are delivered at least once.
    Files with distinct, storable paths are tailed line by line and only appended
    to; every poll finds them as they are then, with a last line that is valid
    UTF-8 of at most one megabyte; a save of the state file takes effect as a whole
    or not at all. Over any sequence of lifetimes, each stopped or killed between
    two events of the tailer, everything shipped is of a tracked file; every
    lifetime resumes a file at the checkpoint it finds, which is at or before the
    offset of the one before it, and ships the complete lines of what its own
    offset has passed, in order ([chained]). So every line after the first
    checkpoint that the offset of some lifetime has passed is shipped, unless a
    lifetime was resumed inside it, which happens when the state file was saved
    while the line was being written. A last lifetime that is stopped with room in
    the channel for what is left, fewer lines than a poll may read, has passed all. *)
Theorem crash_at_least_once w disk ls w' :
  survives opts None paths patterns w disk ls w' ->
  let lives := outcomes opts None patterns ls disk in
  exists traces : list trace, length traces = length ls /\ Forall (of_tracked paths) traces /\
    (fun x => shipped (tl_sink x.2)) <$> lives = zip_with (fun x (tr : trace) => shipped (lf_sink x.2) ++ tr.*2) ls traces /\
    forall fid p s, paths !! fid = Some p -> checkpoint_of (load_offsets disk) p fid = Some s -> s_pos s <= len (w fid) ->
      let spans := spans_of fid p (w' fid) lives in
      chained (line_entries opts) false fid (w' fid) (s_pos s) traces spans /\
      (forall a l, line_at (w' fid) a l -> s_pos s <= a -> reached a l spans -> unsplit a l spans ->
         Exists (shipped_by opts fid l) traces) /\
      drains_at_end opts None patterns ls disk w' fid.
Proof.
  intros Hs lives. destruct (survives_episodes opts None paths patterns paths_inj paths_storable (line_mode opts) w disk ls w' Hs)
    as (lvs & Hlen & Hfr & Hmap & Hep). exists (lv_trace <$> lvs).
  split_and!; [by rewrite length_fmap|by eapply episodes_tracked|done|]. intros fid p s Hp Hck Hpos spans.
  destruct (episodes_chained _ _ _ _ _ _ _ _ _ _ Hep Hp Hck Hpos) as [Hch _]. rewrite (life_spans fid p _ lvs lives Hfr) in Hch.
  split_and!; [done| |by apply (survives_drained opts None paths patterns paths_inj paths_storable _ (line_drain opts) w disk ls w' fid p)]. intros a l. by eapply chained_line.
Qed.

(** C4: In multiline mode not even that is lost. Under the same conditions, over any
    sequence of lifetimes, each stopped or killed between two events of the tailer,
    everything shipped is of a tracked file, and every byte after the first
    checkpoint that the offset of some lifetime has passed is in a block of the
    content, a line with the lines that continue it, whose record one of the
    lifetimes has shipped; each lifetime ships the records of a cut of what its
    offset has passed into such blocks, once and in order ([chained]), whatever the
    channel refused and whenever records expired. A last lifetime that is stopped
    with room in the channel for what is left, fewer lines than a poll may read, has
    passed all, the record in flight included. *)
Theorem multiline_never_skips (ml : MultilineOpts) w disk ls w' :
  survives opts (Some ml) paths patterns w disk ls w' ->
  let lives := outcomes opts (Some ml) patterns ls disk in
  exists traces : list trace, length traces = length ls /\ Forall (of_tracked paths) traces /\
    (fun x => shipped (tl_sink x.2)) <$> lives = zip_with (fun x (tr : trace) => shipped (lf_sink x.2) ++ tr.*2) ls traces /\
    forall fid p s, paths !! fid = Some p -> checkpoint_of (load_offsets disk) p fid = Some s -> s_pos s <= len (w fid) ->
      let spans := spans_of fid p (w' fid) lives in
      chained (record_entries ml opts) false fid (w' fid) (s_pos s) traces spans /\
      (forall a, s_pos s <= a -> Exists (fun sp => a < sp.1 + len sp.2) spans ->
         Exists (fun tr => exists y b g rest, drop (N.to_nat y) (w' fid) = b ++ rest /\ y <= a /\ a < y + len b /\
           block ml b g /\ exists before after, of_file fid tr = before ++ group_entries opts ml g ++ after) traces) /\
      drains_at_end opts (Some ml) patterns ls disk w' fid.
Proof.
  intros Hs lives.
  destruct (survives_episodes opts (Some ml) paths patterns paths_inj paths_storable (record_mode ml opts) w disk ls w' Hs)
    as (lvs & Hlen & Hfr & Hmap & Hep). exists (lv_trace <$> lvs).
  split_and!; [by rewrite length_fmap|by eapply episodes_tracked|done|]. intros fid p s Hp Hck Hpos spans.
  destruct (episodes_chained _ _ _ _ _ _ _ _ _ _ Hep Hp Hck Hpos) as [Hch _]. rewrite (life_spans fid p _ lvs lives Hfr) in Hch.
  split_and!; [done| |by apply (survives_drained opts (Some ml) paths patterns paths_inj paths_storable _ (record_drain ml opts) w disk ls w' fid p)].
  intros a Ha (sp & Hin & Hsp)%Exists_exists. eapply Exists_impl.
  - apply (chained_within _ _ _ _ _ _ _ a [nl] Hch Ha).
    + exists sp. split; [done|]. rewrite len_cons, len_nil. lia.
    + intros sp' _. rewrite len_cons, len_nil. lia.
  - intros tr (y & dn & rest & Hd & (gs & Hc & Ho) & Hy & Hend). rewrite len_cons, len_nil in Hend.
    destruct (cut_block ml dn gs (a - y) Hc ltac:(lia)) as (pre & b & post & gs1 & g & gs2 & -> & -> & Hb & Hl & Hr).
    exists (y + len pre), b, g, (post ++ rest). split_and!; [|lia|lia|done|].
    + rewrite N2Nat.inj_add, <- drop_drop, Hd, <- !app_assoc. apply drop_len_app.
    + exists (closed_entries opts ml gs1), (closed_entries opts ml gs2). rewrite Ho, closed_entries_app. done.
Qed.
End props.

(** * On a concrete file *)

Section witnesses.
Import Examples.

Lemma life_cut ml c disk :
  is_utf16 (detect_bom (take 3 c)) = false -> len c <? 1000 = true ->
  fits (drop (N.to_nat (start_of one_path (load_offsets disk) (fun _ => c) log_id)) c) ->
  (length (offsets_text (values_in [log_id] (files (tl_tail (tail_step [log_path] plain_opts ml
    (tail_start (app_os c) [log_path] [] disk 0) (EvPoll (app_os c) [log_id] [log_id] 0 [log_id] save_ok)))))) <=? 1000)%nat = true ->
  cut_life plain_opts ml one_path [log_path] (fun _ => c) (life c) disk (fun _ => c).
Proof.
  intros Hb Hl Hf Ht. exists (fun _ => c). split_and!; [done|by apply app_os_discovers| | |].
  - apply (events_poll _ _ _ _ (fun _ => c)); [done|by apply app_os_serves_all|]. constructor; [|constructor].
    intros p Hp. exists log_id. apply list_elem_of_singleton in Hp as ->. done.
  - split; [|split; done]. left. unfold saves. split_and!; [done|done|by apply Nat.leb_le|apply NoDup_singleton|].
    intros fid p [-> _]%one_path_lookup. by left.
  - intros _. apply N.ltb_lt in Hl. unfold u64_max. lia.
Qed.

(** The agent is killed in the middle of the third line and started again; the
    line is shipped all the same. *)
Lemma crash_at_least_once_witness :
  exists traces : list trace, length traces = 2%nat /\ Forall (of_tracked one_path) traces /\
    Exists (shipped_by plain_opts log_id (b#"three" ++ [nl])) traces.
Proof.
  assert (Ho : survives plain_opts None one_path [log_path] (fun _ => life_log1) life_disk0
    [(Killed, life life_log1); (StoppedGracefully, life life_log2)] (fun _ => life_log2)).
  { eapply survives_kill; [apply life_cut; by vm_compute|]. eapply survives_stop; [|constructor].
    destruct (life_orderly life_log2 (tl_disk (cut_off plain_opts None [log_path] (life life_log1) life_disk0)))
      as (w1 & w2 & Hg & Hrest); [by vm_compute..|]. exists w1, w2. split; [|exact Hrest].
    etrans; [|exact Hg]. intros fid. by exists (b#"ree" ++ [nl] ++ b#"four" ++ [nl]). }
  destruct (crash_at_least_once plain_opts one_path [log_path]
    ltac:(by intros fid fid' p p' [-> _]%one_path_lookup [-> _]%one_path_lookup)
    ltac:(intros fid p [-> ->]%one_path_lookup; split_and!;
          [by apply (bool_decide_unpack _); vm_compute..|vm_compute; discriminate|vm_compute; discriminate])
    (fun _ => life_log1) life_disk0 _ (fun _ => life_log2) Ho) as (traces & Hlen & Hof & _ & Hall).
  exists traces. split_and!; [exact Hlen|exact Hof|].
  destruct (Hall log_id log_path (mkSavedOffset 4 8 42)) as (_ & Hline & _); [by vm_compute..|].
  assert (Hspans : spans_of log_id log_path life_log2 (outcomes plain_opts None [log_path]
      [(Killed, life life_log1); (StoppedGracefully, life life_log2)] life_disk0)
    = [(4, b#"two" ++ [nl] ++ b#"th"); (4, b#"two" ++ [nl] ++ b#"three" ++ [nl] ++ b#"four" ++ [nl])]) by (by vm_compute).
  rewrite Hspans in Hline. apply (Hline 8).
  - unfold line_at. split_and!.
    + exists b#"three". split; [done|]. by apply (bool_decide_unpack _); vm_compute.
    + by vm_compute.
    + vm_compute. discriminate.
    + exists (b#"four" ++ [nl]). by vm_compute.
  - vm_compute. discriminate.
  - eexists. split; [right; by left|]. vm_compute. discriminate.
  - unfold unsplit. apply Forall_forall. do 2 (apply Forall_cons; split; [left; vm_compute; discriminate|]). constructor.
Defined.

(** Records start at a line with an [E]; the agent is killed while the second is
    in flight, and stopped while the third is. *)
Definition E_records : MultilineOpts := mkMultilineOpts (b#"E" : regex) 1000 4096.
Definition ml_log1 : bytes := b#"E1" ++ [nl] ++ b#" at a" ++ [nl] ++ b#"E2" ++ [nl].
Definition ml_log2 : bytes := ml_log1 ++ b#" at b" ++ [nl] ++ b#"E3" ++ [nl].
Definition ml_disk0 : option bytes := Some (offsets_text [fresh_file 0]).

(** The record that was in flight is shipped by the second lifetime. *)
Lemma multiline_never_skips_witness :
  exists traces : list trace, length traces = 2%nat /\ Forall (of_tracked one_path) traces /\
    Exists (fun tr => exists y b g rest, drop (N.to_nat y) ml_log2 = b ++ rest /\ y <= 10 /\ 10 < y + len b /\
      block E_records b g /\ exists before after, of_file log_id tr = before ++ group_entries plain_opts E_records g ++ after) traces.
Proof.
  assert (Ho : survives plain_opts (Some E_records) one_path [log_path] (fun _ => ml_log1) ml_disk0
    [(Killed, life ml_log1); (StoppedGracefully, life ml_log2)] (fun _ => ml_log2)).
  { eapply survives_kill; [apply life_cut; by vm_compute|]. eapply survives_stop; [|constructor].
    destruct (life_on_orderly plain_opts (Some E_records) [] ml_log2
      (tl_disk (cut_off plain_opts (Some E_records) [log_path] (life ml_log1) ml_disk0)))
      as (w1 & w2 & Hg & Hrest); [by vm_compute..|]. exists w1, w2. split; [|exact Hrest].
    etrans; [|exact Hg]. intros fid. by exists (b#" at b" ++ [nl] ++ b#"E3" ++ [nl]). }
  destruct (multiline_never_skips plain_opts one_path [log_path]
    ltac:(by intros fid fid' p p' [-> _]%one_path_lookup [-> _]%one_path_lookup)
    ltac:(intros fid p [-> ->]%one_path_lookup; split_and!;
          [by apply (bool_decide_unpack _); vm_compute..|vm_compute; discriminate|vm_compute; discriminate])
    E_records (fun _ => ml_log1) ml_disk0 _ (fun _ => ml_log2) Ho) as (traces & Hlen & Hof & _ & Hall).
  exists traces. split_and!; [exact Hlen|exact Hof|].
  destruct (Hall log_id log_path (mkSavedOffset 0 8 42)) as (_ & Hbyte & _); [by vm_compute..|].
  apply Hbyte; [vm_compute; discriminate|]. apply Exists_cons_tl, Exists_cons_hd. by vm_compute.
Defined.
End witnesses.
