(* ===== verification/RotationProps.v ===== *)
(** Truncation, rotation and memory of the file tailer, and the runs in which
    the code departs from what its documentation promises. *)
From S2P Require Import Prelude Str StrFacts External Text Structured Sink SinkFacts Tailed TailedFacts.
From S2P Require Import Multiline MultilineFacts Watcher WatcherFacts MemoryFacts OffsetFacts SessionFacts Examples.
From Stdlib Require Import Strings.Byte.

Section rotation.
Context `{SimdUtf8, Memchr, MemchrIter, SerdeJson, Regex, !SimdUtf8Ok, !MemchrOk}.
Context {S : Type} `{LogSink S, !LogSinkOk S}.
Implicit Types (t : TailedFile) (sink : S) (opts : FileParseOpts) (os : Os).

(** A poll of a truncated file is a poll of the same file from its start, after
    the partial line was flushed. *)
Lemma check_and_read_truncated os t sink opts now c :
  serves os t c -> len c < pos t ->
  check_and_read os t sink opts None now
  = let '(t1, sink1) := flush_partial (set_pos 0 t) sink in check_and_read os t1 sink1 opts None now.
Proof.
  intros (f & m & Ho & Hm & Hid & Hlen & _) Hlt.
  assert (Hs := flush_partial_same (set_pos 0 t) sink).
  destruct (flush_partial (set_pos 0 t) sink) as [t1 s1] eqn:E.
  assert (Hp1 : pos t1 = 0) by (apply flush_partial_spec in E as [-> _]; done).
  destruct Hs as ((Hpath & Hid1 & _) & _). cbn [fst snd path id set_pos] in *.
  unfold check_and_read. rewrite Hpath, Ho, Hm, Hid1, Hid, bool_decide_eq_true_2, E, Hp1 by done. cbn [negb].
  destruct (N.ltb_spec (md_len m) (pos t)); [|lia]. by destruct (N.ltb_spec (md_len m) 0); [lia|].
Qed.

(** C10: A truncated (copytruncate) file is read again from its first byte: the
    partial line held from before the truncation is flushed at most once, then
    what is shipped is exactly the entries of the new content's complete lines
    before the offset, and the buffered partial is the rest of them. *)
Theorem truncation_rereads os opts c t sink now :
  serves os t c -> len c < pos t -> fits c ->
  let '(_, t', sink') := check_and_read os t sink opts None now in
  exists tail done rest, c = done ++ rest /\ pos t' = len done /\ partial t' = pending done /\
    shipped sink' = (shipped sink ++ tail) ++ ideal_entries opts done /\
    (tail = [] \/ tail = [mkLogEntry Info (trim (partial t)) None None None]).
Proof.
  intros Hsv Hlt Hfit. rewrite (check_and_read_truncated os t sink opts now c) by done.
  destruct (flush_partial (set_pos 0 t) sink) as [t1 s1] eqn:E.
  apply flush_partial_spec in E as (-> & tail & Htail & Hcase).
  destruct (check_and_read _ _ s1 _ _ _) as [[res t'] sink'] eqn:Er.
  assert (Hsy := synced_start opts 0 c (set_partial [] (set_pos 0 t)) s1 eq_refl ltac:(lia) eq_refl).
  eapply check_and_read_synced in Er as ((dn & rest & Hd & Hp & _ & Hpa & _ & Hsh) & _); [|done|done|done].
  exists tail, dn, rest. rewrite Htail in Hsh. by rewrite Hp.
Qed.

(** C9: On rotation the old and the new file are both kept: the entry of the old
    one keeps its offset and holds the descriptor found under its identity, the
    path now leads to a new entry that starts at byte 0, and no other entry
    changes. The premises say that the path leads to another file than the one
    tracked, that the old one is found, and that the new one is not tracked. *)
Theorem rotation_hands_over os tl sink opts now fid t f m old m' :
  files tl !! fid = Some t -> id t = fid -> skip_utf16 t = false -> retained_fd t = None ->
  os_open os (path t) = Some f -> os_fstat os f = Some m -> md_id m <> fid ->
  find_rotated_file os (flush_partial t sink).1 = Some old ->
  os_metadata os (path t) = Some m' -> md_id m' <> fid -> files tl !! md_id m' = None ->
  let tl' := (poll_file os tl sink opts None now fid).1.2 in
  (exists t', files tl' !! fid = Some t' /\ path t' = path t /\ pos t' = pos t /\ retained_fd t' = Some old) /\
  (exists n, files tl' !! md_id m' = Some n /\ path n = path t /\ pos n = 0 /\ partial n = []) /\
  path_index tl' !! path t = Some (md_id m') /\
  (forall fid', fid' <> fid -> fid' <> md_id m' -> files tl' !! fid' = files tl !! fid').
Proof.
  intros Ht Hid Hu Hr Ho Hf Hne Hfound Hm' Hne' Hnew.
  assert (Hs := flush_partial_same t sink). destruct (flush_partial t sink) as [t1 s1] eqn:E.
  assert (Hpos : pos t1 = pos t) by (apply flush_partial_spec in E as [-> _]; done).
  destruct Hs as ((Hp & _ & _) & _). cbn [fst] in *.
  unfold poll_file, check_and_read. rewrite Ht, Hu, Hr, Ho, Hf, Hid, bool_decide_eq_false_2 by done.
  cbn [negb]. rewrite E, Hfound. cbn [fst snd].
  unfold register_file. cbn [path set_open_failures set_retained_fd]. rewrite Hp, Hm'.
  unfold file_id_of. cbn [files]. rewrite lookup_insert_ne, Hnew by done. cbn [andb files path_index].
  split_and!.
  - eexists. rewrite lookup_insert_ne, lookup_insert_eq by done. by split_and!.
  - eexists. rewrite lookup_insert_eq. by split_and!.
  - apply lookup_insert_eq.
  - intros fid' Hn1 Hn2. by rewrite !lookup_insert_ne by done.
Qed.

(** C13: Memory is bounded per file, whatever the files hold, the system answers
    and the order of events: in every run every entry of the table holds a
    partial-line buffer of at most one megabyte of valid UTF-8, and a record in
    flight of at most the configured [max_bytes]. *)
Theorem memory_bounded os patterns opts ml sink disk now evs fid t :
  files (tl_tail (tail_files os patterns opts ml sink disk now evs)) !! fid = Some t ->
  valid_utf8 (partial t) = true /\ len (partial t) <= MAX_PARTIAL_BYTES /\
  forall a, agg t = Some a -> len (record a) <= match ml with Some m => ml_max_bytes m | None => 0 end.
Proof.
  intros Ht. destruct (tail_files_bounded os patterns opts ml sink disk now evs fid t Ht) as [[Hv Hl] Ha].
  by split_and!.
Qed.

(** The state file lags the tailer: a poll that comes within
    a second of the last save writes nothing, even when it shipped lines. *)
Lemma saves_are_rate_limited patterns opts ml (st : Tailer (S:=S)) os ids ids' now order io :
  now < tl_last_save st + 1000000000 ->
  tl_disk (tail_step patterns opts ml st (EvPoll os ids ids' now order io)) = tl_disk st.
Proof.
  intros Hlt. unfold tail_step. case_if; [done|].
  destruct (poll_all _ _ _ _ _ _ _) as [[n tl1] s1].
  destruct (flush_expired_records _ _ _ _ _ _ _) as [[pend fs2] s2].
  destruct (0 <? n); [|done]. rewrite (N.div_small (now - tl_last_save st)) by lia. done.
Qed.
End rotation.

(** * On concrete systems *)

Section witnesses.
Import Examples.

Definition short_log : bytes := b#"new" ++ [nl].

Lemma truncation_rereads_witness :
  let '(_, t', sink') := check_and_read (app_os short_log) (fresh_file 100) [] plain_opts None 0 in
  exists tail done rest, short_log = done ++ rest /\ pos t' = len done /\ partial t' = pending done /\
    shipped sink' = (shipped [] ++ tail) ++ ideal_entries plain_opts done /\
    (tail = [] \/ tail = [mkLogEntry Info (trim []) None None None]).
Proof.
  apply (truncation_rereads (app_os short_log) plain_opts short_log (fresh_file 100) [] 0).
  - by apply app_os_serves.
  - reflexivity.
  - by split.
Defined.

(** After logrotate: [app.log] is a new file, the old one is [app.log.1]. *)
Definition new_id : FileId := mkFileId 8 43.
Definition rotated_os : Os :=
  let new := app_os [] in
  mkOs (fun _ => Some (mkMetadata new_id 0 (Some 0)))
    (fun p => Some (if bool_decide (p = log_path) then new_id else log_id))
    (fun f => Some (mkMetadata f 0 (Some 0)))
    (os_seek new) (os_head new) (os_read_dir new) (os_glob new) (os_is_file new) 0.

Definition one_entry (t : TailedFile) : Tail := mkTail {[ log_id := t ]} {[ log_path := log_id ]}.

Lemma rotation_hands_over_witness :
  let tl' := (poll_file rotated_os (one_entry (fresh_file 7)) [] plain_opts None 0 log_id).1.2 in
  (exists t', files tl' !! log_id = Some t' /\ path t' = log_path /\ pos t' = 7 /\ retained_fd t' = Some log_id) /\
  (exists n, files tl' !! new_id = Some n /\ path n = log_path /\ pos n = 0 /\ partial n = []) /\
  path_index tl' !! log_path = Some new_id /\
  (forall fid', fid' <> log_id -> fid' <> new_id -> files tl' !! fid' = files (one_entry (fresh_file 7)) !! fid').
Proof.
  apply (rotation_hands_over rotated_os (one_entry (fresh_file 7)) [] plain_opts 0 log_id (fresh_file 7)
    new_id (mkMetadata new_id 0 (Some 0)) log_id (mkMetadata new_id 0 (Some 0))); try reflexivity; discriminate.
Defined.

(** A run that leaves a partial line in memory. *)
Definition at_ms (ms : N) : N := ms * 1000000.
Definition poll_at (ms : N) (c : bytes) : Event :=
  EvPoll (app_os c) [log_id] [log_id] (at_ms ms) [log_id] save_ok.
Definition run_from (c : bytes) (disk : option bytes) (evs : list Event) : Tailer :=
  tail_files (app_os c) [log_path] plain_opts None [] disk 0 evs.

Lemma memory_bounded_witness :
  exists t, files (tl_tail (run_from [] None [poll_at 250 (b#"hello")])) !! log_id = Some t /\
    partial t = b#"hello" /\ len (partial t) <= MAX_PARTIAL_BYTES.
Proof.
  eexists. split; [reflexivity|]. split; [reflexivity|].
  exact (proj1 (proj2 (memory_bounded (app_os []) [log_path] plain_opts None [] None 0
    [poll_at 250 (b#"hello")] log_id _ eq_refl))).
Defined.
End witnesses.

(** * Runs that lose or damage lines *)

Section findings.
Import Examples.

(** A crash can skip text: the agent reads the start of a line that is still
    being written, the state file records the offset after it, and the restarted
    agent ships the rest of the line as if it were the whole. *)
Theorem crash_skips_line_start :
  let before := run_from [] None [poll_at 1100 (b#"hello wo")] in
  let after := run_from (b#"hello wo") (tl_disk before) [poll_at 250 (b#"hello world" ++ [nl])] in
  tl_sink before = [] /\ map e_message (tl_sink after) = [b#"rld"].
Proof. vm_compute. split; reflexivity. Qed.

(** A character whose bytes arrive in two polls is damaged: both halves are
    replaced, and the shipped line is not the line of the file. *)
Theorem split_character_damaged :
  let line := b#"caf" ++ [xc3; xa9; nl] in
  let ship oss := map e_message (shipped (poll_session oss (fresh_file 0) [] plain_opts 0).2) in
  ship [app_os line] = [b#"caf" ++ [xc3; xa9]] /\
  ship [app_os (take 4 line); app_os line] = [b#"caf" ++ [xef; xbf; xbd; xef; xbf; xbd]].
Proof. vm_compute. split; reflexivity. Qed.

(** A file that appears between two scans is read from its end: the lines
    written before the scan are never shipped. *)
Lemma new_file_starts_at_end :
  let late := EvGlob (app_os (b#"first" ++ [nl])) in
  let absent := mkOs (fun _ => None) (fun _ => None) (fun _ => None) (fun _ _ => None) (fun _ => [])
    (fun _ => None) (fun _ => None) (fun _ => false) 0 in
  map e_message (tl_sink (tail_files absent [log_path] plain_opts None [] None 0
    [late; poll_at 250 (b#"first" ++ [nl]); poll_at 500 (b#"first" ++ [nl] ++ b#"second" ++ [nl])]))
  = [b#"second"].
Proof. vm_compute. reflexivity. Qed.
End findings.
