(* ===== verification/LogProps.v ===== *)
(** The guarantees of line classification, of the sink and of the Windows event
    filter. *)
From S2P Require Import Prelude Str StrFacts External F64 Text Syslog Structured StructuredFacts Sink SinkFacts Tailed TailedFacts.
From S2P Require Import Multiline Watcher WatcherFacts SessionFacts EventFilter Examples.
From Stdlib Require Import Strings.Byte.

Section classify.
Context `{MemchrIter, SerdeJson, !MemchrIterOk}.

Lemma map_of_list_nonempty kv (l : list (bytes * Value)) : is_empty (map_of_list (kv :: l)) = false.
Proof.
  unfold map_of_list. cbn [fold_left]. assert (Hne := map_insert_nonempty kv.1 kv.2 []).
  revert Hne. generalize (map_insert kv.1 kv.2 []) as m.
  induction l as [|x l IH]; intros m Hm; cbn [fold_left]; [by destruct m|]. apply IH, map_insert_nonempty.
Qed.

(** C38: A syslog line whose message is a phrase followed by quoted logfmt fields
    is taken apart exactly: the program becomes the service (its pid dropped),
    the phrase the body, and every field, with its escapes undone, an entry of
    the payload. *)
Theorem classify_syslog_logfmt header prog pid phrase kv fs :
  find_sub b#": " (header ++ [space]) = None -> is_valid_program prog = true ->
  (pid = [] \/ exists r, pid = x5b :: r) -> space ∉ pid -> x3a ∉ pid ->
  x3d ∉ phrase -> starts_with b#"{" (trim_start (phrase ++ render_fields (kv :: fs))) = false ->
  Forall (fun kv => valid_key kv.1 = true) (kv :: fs) ->
  classify_line (header ++ [space] ++ prog ++ pid ++ b#": " ++ phrase ++ render_fields (kv :: fs))
    (mkFileParseOpts true true false)
  = mkClassified Info phrase (Some prog)
      (Some (VObject (map_of_list (map (fun kv => (kv.1, VString kv.2)) (kv :: fs))))).
Proof.
  intros Hh Hp Hpid Hsp Hco Heq Hbr Hk. unfold classify_line. cbn [opt_syslog opt_structured opt_levels].
  rewrite (syslog_parse_complete header prog pid (phrase ++ render_fields (kv :: fs))) by done.
  cbn [Syslog.body program]. rewrite split_message_plain, split_logfmt_roundtrip by done.
  cbn [andb map]. by rewrite map_of_list_nonempty.
Qed.

(** The single backward scan finds the field a naive forward search would:
    the first space of the line followed by a non-empty key and an equals sign,
    and nothing when there is no such place. *)
Theorem field_start_is_first s :
  match logfmt_field_start s with
  | Some i => (exists e, field_match s i e) /\ forall i' e', (i' < i)%nat -> ~ field_match s i' e'
  | None => forall i e, ~ field_match s i e
  end.
Proof. rewrite logfmt_field_start_eq. apply field_start_ref_spec. Qed.
End classify.

(** * The sink *)

Section sink.
Context `{TellClient}.

(** Configured tags reach every metric in front of its own labels, sorted by
    key, so two agents with the same configuration emit the same series however
    their hash maps are walked; both the stack buffer and the heap path of the
    merge give the same labels. *)
Theorem tags_deterministic t tags tags' table m labels :
  NoDup tags.*1 -> tags ≡ₚ tags' ->
  emit (sink_live t tags table).1 m labels
  = mkSink (Live (tell_metric t (m (sort_by_key tags' ++ labels)))) (sort_by_key tags').
Proof.
  intros Hnd Hp. unfold sink_live. rewrite leak_tags_spec. cbn [fst].
  rewrite (sort_by_key_perm tags tags' Hnd Hp). unfold emit. cbn [inner].
  by rewrite send_metric_merged.
Qed.
End sink.

(** The real sink implements the interface the tailer is proved against: on
    a live sink whatever the channel of the SDK refuses, its queue has received
    exactly the entries of the complete lines before the offset, once and in
    order. *)
Theorem live_queue_exactly_once `{SimdUtf8, Memchr, MemchrIter, SerdeJson, Regex, !SimdUtf8Ok, !MemchrOk}
    `{TellClient, !TellClientOk} opts c0 oss c (t : TailedFile) (sink : LiveSink) now :
  pos t = 0 -> partial t = [] -> growing opts 0 t c0 oss c ->
  let '(t', sink') := poll_session oss t sink opts now in
  exists done rest, c = done ++ rest /\ pos t' = len done /\
    tell_queue (live_tell sink') = tell_queue (live_tell sink) ++ ideal_entries opts done.
Proof.
  intros Hp Hpart Hg. assert (Hsy := synced_start opts 0 c0 t sink Hp ltac:(lia) Hpart).
  apply (poll_session_synced _ _ _ _ oss c _ _ now) in Hsy; [|done].
  destruct (poll_session oss t sink opts now) as [t' sink'].
  destruct Hsy as (dn & rest & Hd & Hp' & _ & _ & _ & Hsh). by exists dn, rest.
Qed.

(** * The event filter *)

Lemma elem_of_filter_bool {A} (f : A -> bool) l x : x ∈ List.filter f l <-> x ∈ l /\ f x = true.
Proof. rewrite !list_elem_of_In. apply filter_In. Qed.

Lemma is_empty_ranges ts :
  is_empty (map EventFilter.range_of (List.filter (fun t => negb (EventFilter.is_exclude t)) ts)) = true
  <-> forall t, t ∈ ts -> EventFilter.is_exclude t = true.
Proof.
  induction ts as [|x ts IH]; cbn; [set_solver|]. setoid_rewrite elem_of_cons.
  destruct (EventFilter.is_exclude x) eqn:E; cbn; [naive_solver|]. split; [done|].
  intros Hall. specialize (Hall x (or_introl eq_refl)). congruence.
Qed.

(** The event-id filter means what its text says: a list of ids and ranges,
    some of them negated, parses, and an id passes exactly when no negated range
    covers it and, if there are plain ranges, one of them does. *)
Theorem event_filter_meaning ts :
  ts <> [] -> Forall EventFilter.token_ok ts ->
  exists f, EventFilter.parse (EventFilter.render_spec ts) = inl f /\
    forall id, EventFilter.matches f id = true <->
      (~ exists t, t ∈ ts /\ EventFilter.is_exclude t = true /\ EventFilter.covers id t) /\
      ((forall t, t ∈ ts -> EventFilter.is_exclude t = true) \/
       exists t, t ∈ ts /\ EventFilter.is_exclude t = false /\ EventFilter.covers id t).
Proof.
  intros Hne Hok. eexists. split; [by apply EventFilter.parse_render_spec|]. intros id.
  unfold EventFilter.matches. cbn [EventFilter.excluded EventFilter.includes].
  assert (Hex : existsb (EventFilter.in_one id) (map EventFilter.range_of (List.filter EventFilter.is_exclude ts)) = true
    <-> exists t, t ∈ ts /\ EventFilter.is_exclude t = true /\ EventFilter.covers id t).
  { rewrite EventFilter.existsb_ranges. setoid_rewrite elem_of_filter_bool. naive_solver. }
  assert (Hin : existsb (EventFilter.in_one id)
      (map EventFilter.range_of (List.filter (fun t => negb (EventFilter.is_exclude t)) ts)) = true
    <-> exists t, t ∈ ts /\ EventFilter.is_exclude t = false /\ EventFilter.covers id t).
  { rewrite EventFilter.existsb_ranges. setoid_rewrite elem_of_filter_bool. setoid_rewrite negb_true_iff. naive_solver. }
  rewrite <- Hex, <- Hin, <- is_empty_ranges. clear.
  destruct (existsb _ (map _ (List.filter EventFilter.is_exclude ts))); [naive_solver|].
  destruct (is_empty _); naive_solver.
Qed.

(** * On concrete inputs *)

Section witnesses.
Import Examples RefTell.

Lemma classify_syslog_logfmt_witness :
  classify_line (b#"Jan 1 host" ++ [space] ++ b#"sshd" ++ b#"[42]" ++ b#": "
      ++ b#"login" ++ render_fields [(b#"user", b#"bob")]) (mkFileParseOpts true true false)
  = mkClassified Info (b#"login") (Some (b#"sshd")) (Some (VObject [(b#"user", VString (b#"bob"))])).
Proof.
  apply (classify_syslog_logfmt (b#"Jan 1 host") (b#"sshd") (b#"[42]") (b#"login") (b#"user", b#"bob") []).
  - reflexivity.
  - reflexivity.
  - right. by eexists.
  - by apply (bool_decide_unpack _); vm_compute.
  - by apply (bool_decide_unpack _); vm_compute.
  - by apply (bool_decide_unpack _); vm_compute.
  - reflexivity.
  - by apply Forall_singleton.
Defined.

Lemma field_start_is_first_witness :
  (exists e, field_match b#"in a=1" 2 e) /\ forall i' e', (i' < 2)%nat -> ~ field_match b#"in a=1" i' e'.
Proof. exact (field_start_is_first b#"in a=1"). Defined.

Definition room (n : nat) : tell (TellClient:=ref_tell) := mkChan n [] [].

Lemma tags_deterministic_witness :
  emit (sink_live (room 1) [(b#"b", b#"2"); (b#"a", b#"1")] ∅).1 (fun ls => mkMetric KGauge (b#"x") f0 ls Delta) []
  = mkSink (Live (tell_metric (room 1) (mkMetric KGauge (b#"x") f0
      (sort_by_key [(b#"a", b#"1"); (b#"b", b#"2")] ++ []) Delta))) (sort_by_key [(b#"a", b#"1"); (b#"b", b#"2")]).
Proof.
  apply (tags_deterministic (room 1) [(b#"b", b#"2"); (b#"a", b#"1")] [(b#"a", b#"1"); (b#"b", b#"2")] ∅).
  - by apply (bool_decide_unpack _); vm_compute.
  - constructor.
Defined.

Lemma live_queue_exactly_once_witness :
  let '(t', sink') :=
    poll_session [app_os (b#"a" ++ [nl] ++ b#"b" ++ [nl])] (fresh_file 0) (mkLiveSink (room 1) []) plain_opts 0 in
  exists done rest, b#"a" ++ [nl] ++ b#"b" ++ [nl] = done ++ rest /\ pos t' = len done /\
    tell_queue (live_tell sink') = [] ++ ideal_entries plain_opts done.
Proof.
  apply (live_queue_exactly_once plain_opts (b#"a" ++ [nl] ++ b#"b" ++ [nl])
    [app_os (b#"a" ++ [nl] ++ b#"b" ++ [nl])] (b#"a" ++ [nl] ++ b#"b" ++ [nl]) (fresh_file 0) (mkLiveSink (room 1) []) 0).
  - reflexivity.
  - reflexivity.
  - apply growing_still; [by split|]. apply Forall_singleton. by apply app_os_serves.
Defined.

Lemma event_filter_meaning_witness :
  exists f, EventFilter.parse (EventFilter.render_spec [EventFilter.Include 4624 4634; EventFilter.Exclude 4627 4627]) = inl f /\
    EventFilter.matches f 4625 = true.
Proof.
  destruct (event_filter_meaning [EventFilter.Include 4624 4634; EventFilter.Exclude 4627 4627]) as (f & Hf & Hm).
  - discriminate.
  - repeat constructor; vm_compute; discriminate.
  - exists f. split; [exact Hf|]. apply Hm. split.
    + intros (t & Ht & He & Hc). rewrite !elem_of_cons in Ht. destruct Ht as [->|[->|Ht]]; [done| |set_solver].
      cbn in Hc. lia.
    + right. exists (EventFilter.Include 4624 4634). split_and!; [by left|done|cbn; lia].
Defined.
End witnesses.
