(* ===== verification/JournalProps.v ===== *)
(** The guarantees of the journald source: delivery across a restart from the
    cursor on disk, and what ends up in the structured payload. *)
From S2P Require Import Prelude Str StrFacts External Text Structured Sink SinkFacts Source Journal JournalFacts Examples.
From Stdlib Require Import Strings.Byte.

Section restart.
Context `{SimdUtf8, Memchr, MemchrIter, SerdeJson, SerdeDerive, Lowercase, HashOrder Value}.
Context {S : Type} `{LogSink S, !LogSinkOk S}.

(** The entry that is to be shipped for a line of the journal: none for a line
    over [MAX_LINE_LEN], for one that is not a journal entry, and for an entry
    without a message, of the agent itself or of an excluded program. *)
Definition deliverable (filter : ServiceFilter) (line : bytes) : list LogEntry :=
  match from_str (trim line) with
  | Some (mkJournalEntry (Some message) identifier comm priority _ extras) =>
    let program := default (default b#"unknown" comm) identifier in
    if (len line <=? MAX_LINE_LEN) && negb (is_empty message) && negb (bool_decide (program = SELF_IDENTIFIER))
       && negb (excludes filter program)
    then
      let '(body, fields) := split_message message in
      [mkLogEntry (default Info (priority ≫= priority_to_level)) body None (Some program) (merge_payloads extras fields)]
    else []
  | _ => []
  end.

Definition line_of (ev : JEvent (S := S)) : option bytes := match ev with JLine line _ _ => Some line | _ => None end.

(** The lines the reader does not skip. *)
Definition within_cap (lines : list bytes) : list bytes := List.filter (fun l => len l <=? MAX_LINE_LEN) lines.

(** [journalctl --after-cursor=c] prints what comes after the entry with that
    cursor, which is the last entry with a cursor among those the reader has seen;
    what it saw after that entry, it sees again. *)
Definition replays_after (journal : list bytes) (replay : bytes -> list bytes) : Prop :=
  forall seen rest c, journal = seen ++ rest -> after None (within_cap seen) = Some c ->
    exists again, again `suffix_of` seen /\ replay c = again ++ rest.

Lemma within_cap_lines evs : omap ev_line evs = within_cap (omap line_of evs).
Proof.
  induction evs as [|ev evs IH]; [done|]. destruct ev as [l ws io| | |]; cbn; try done.
  rewrite N.leb_antisym. by destruct (MAX_LINE_LEN <? len l); cbn; rewrite IH.
Qed.

Lemma within_cap_prefix pre lines :
  pre `prefix_of` within_cap lines -> exists a b, lines = a ++ b /\ within_cap a = pre.
Proof.
  revert pre. induction lines as [|l lines IH]; intros pre Hp.
  { cbn in Hp. apply prefix_nil_inv in Hp as ->. by exists [], []. }
  unfold within_cap in *. cbn [List.filter] in Hp. destruct (len l <=? MAX_LINE_LEN) eqn:E.
  - destruct pre as [|x pre]; [by exists [], (l :: lines)|]. destruct Hp as [k [= <- Hp]].
    destruct (IH pre) as (a & b & -> & Ha); [by exists k|]. exists (l :: a), b. cbn [List.filter]. rewrite E. by rewrite Ha.
  - destruct (IH pre Hp) as (a & b & -> & Ha). exists (l :: a), b. cbn [List.filter]. by rewrite E.
Qed.

Lemma expected_deliverable filter l : len l <=? MAX_LINE_LEN = true -> expected filter l = deliverable filter l.
Proof.
  intros Hl. unfold expected, process_entry, deliverable. destruct (from_str (trim l)) as [[m id comm pr cur ex]|]; [|done].
  cbn [j_message j_syslog_identifier j_comm j_priority j_extras j_cursor]. destruct m as [m|]; [|done]. rewrite Hl.
  destruct (is_empty m); [done|]. cbn [negb andb]. change (match id with Some s => s | None => _ end) with (default (default b#"unknown" comm) id).
  case_bool_decide; [done|]. destruct (excludes filter _); [done|]. cbn. destruct (split_message m) as [body fields].
  destruct pr as [p|]; cbn; [|done]. by destruct (priority_to_level p).
Qed.

Lemma shipped_lines filter lines : concat (map (expected filter) (within_cap lines)) = concat (map (deliverable filter) lines).
Proof.
  unfold within_cap. induction lines as [|l lines IH]; [done|]. cbn [List.filter map concat].
  destruct (len l <=? MAX_LINE_LEN) eqn:E; cbn [map concat]; rewrite IH; [by rewrite expected_deliverable|].
  replace (deliverable filter l) with (@nil LogEntry); [done|]. unfold deliverable. rewrite E. cbn [andb].
  by destruct (from_str _) as [[[m|] ? ? ? ? ?]|].
Qed.

Lemma disk_cursor evs filter final (sink : S) exit d1 sink1 c :
  Forall waits_ok evs ->
  run_journalctl true evs filter final (mkStateDir None None) sink = (exit, d1, sink1) ->
  ck_file d1 = Some c ->
  exists seen more unseen, omap line_of evs = (seen ++ more) ++ unseen /\
    after None (within_cap seen) = Some c /\ shipped sink1 = shipped sink ++ concat (map (deliverable filter) (seen ++ more)).
Proof.
  intros Hw. unfold run_journalctl. cbn [negb].
  destruct (journal_loop _ _ _ _ _ _) as [[[ex st1] d] s1] eqn:E. intros [= <- <- <-] Hc.
  apply journal_loop_spec in E as (h & Hp & Hs & _ & Hd & _ & _); [|done].
  destruct Hd as [Hd|(seen & x & Hseen & Ha & Hf)]; [by rewrite Hd in Hc|].
  rewrite Hf in Hc. injection Hc as <-. rewrite within_cap_lines in Hp.
  apply within_cap_prefix in Hp as (a & unseen & Hlines & <-). apply within_cap_prefix in Hseen as (seen' & more & -> & <-).
  exists seen', more, unseen. split_and!; [done..|]. by rewrite Hs, shipped_lines.
Qed.

(** C14: No entry is lost across a restart of the journald source. After a first
    run, however it ended, that left a cursor on disk which reads back as it was
    written, a second run that reads what [journalctl] replays after that cursor
    and is still running (the channel let it handle every line) has shipped every
    deliverable entry of the journal: those the first run handled, then a last part
    of them again, then all the others, in order. A line that is over
    [MAX_LINE_LEN] or not an entry, and an entry without a message, of the agent
    itself or of an excluded program, is not deliverable. *)
Theorem journal_restart_delivers filter journal replay evs1 final1 (sink : S) exit1 d1 sink1 c evs2 final2 d2 sink2 :
  replays_after journal replay ->
  Forall waits_ok evs1 -> Forall waits_ok evs2 -> omap line_of evs1 `prefix_of` journal ->
  run_journalctl true evs1 filter final1 (mkStateDir None None) sink = (exit1, d1, sink1) ->
  ck_file d1 = Some c -> load_cursor d1 = Some c -> omap line_of evs2 = replay c ->
  run_journalctl true evs2 filter final2 d1 sink1 = (None, d2, sink2) ->
  exists handled again rest, journal = handled ++ rest /\ again `suffix_of` handled /\
    shipped sink2 = shipped sink ++ concat (map (deliverable filter) (handled ++ again ++ rest)).
Proof.
  intros Hre Hw1 Hw2 [tl Hpre] Hrun1 Hc Hld Hlines Hrun2.
  destruct (disk_cursor _ _ _ _ _ _ _ _ Hw1 Hrun1 Hc) as (seen & more & unseen & Hl1 & Ha & Hs1).
  destruct (Hre seen (more ++ unseen ++ tl) c) as (again & [pre Hsuf] & Hag); [by rewrite Hpre, Hl1, <- !app_assoc|done|].
  revert Hrun2. unfold run_journalctl. rewrite Hld. cbn [negb].
  destruct (journal_loop _ _ _ _ _ _) as [[[ex st2] dd] s2] eqn:E. intros [= -> <- <-].
  apply journal_loop_spec in E as (h2 & _ & Hs2 & _ & _ & _ & Hall); [|done].
  rewrite Hall, within_cap_lines, shipped_lines, Hlines, Hag in Hs2 by done.
  exists (seen ++ more), (again ++ more), (unseen ++ tl). split_and!.
  - by rewrite Hpre, Hl1, <- !app_assoc.
  - exists pre. by rewrite Hsuf, app_assoc.
  - by rewrite Hs2, Hs1, <- !app_assoc, <- concat_app, <- map_app, <- !app_assoc.
Qed.

(** On a channel that accepts, reading the journal ships exactly the entries
    of its lines, once and in order, and the reader is still running; lines over
    [MAX_LINE_LEN] are the only ones left out. *)
Theorem journal_accepting_ships_all filter evs final d (sink : S) :
  (forall (s : S) e, (try_log_with_service s e).2 = true) ->
  Forall (fun ev => exists l io, ev = JLine l [] io) evs ->
  let '(exit, d', sink') := run_journalctl true evs filter final d sink in
  exit = None /\ shipped sink' = shipped sink ++ concat (map (expected filter) (omap ev_line evs)).
Proof.
  intros Hacc Hev. unfold run_journalctl. cbn [negb].
  assert (Hnone := journal_loop_accepting evs filter final (reader_state_new (load_cursor d)) d sink Hacc).
  destruct (journal_loop _ _ _ _ _ _) as [[[ex st1] d1] s1] eqn:E. cbn [fst] in Hnone.
  rewrite Hnone in * by (eapply Forall_impl; [exact Hev|]; intros ? (l & io & ->); by eexists _, _, _).
  apply journal_loop_spec in E as (h & _ & Hs & _ & _ & _ & Hall).
  - split; [done|]. by rewrite Hs, Hall.
  - eapply Forall_impl; [exact Hev|]. intros ? (l & io & ->). apply Forall_nil_2.
Qed.
End restart.

(** What the structured payload holds: a key of the message's own fields has
    that value, any other key has the value of the application's journald field
    with that lower-cased name, and nothing else is there; in particular the
    payload does not depend on the order in which the hash map is walked. *)
Theorem payload_precedence `{Lowercase, HashOrder Value, !HashOrderOk Value} extras p k :
  NoDup (kept_fields (map_to_list extras)).*1 -> NoDup p.*1 ->
  map_get k (payload_map (merge_payloads extras (Some (VObject p))))
  = match map_get k p with
    | Some v => Some v
    | None => map_get k (kept_fields (map_to_list extras))
    end.
Proof.
  intros Hnd Hp. unfold merge_payloads.
  assert (Hperm := kept_fields_perm _ _ (hash_order_perm extras)).
  assert (Hnd' : NoDup (kept_fields (hash_order extras)).*1) by by rewrite Hperm.
  assert (Hg := app_fields_payload_get (hash_order extras) k Hnd').
  rewrite (map_get_perm _ _ k Hnd' Hperm) in Hg.
  destruct (app_fields_object (hash_order extras)) as [E|[m E]]; rewrite E in *; cbn [payload_map] in *.
  - rewrite <- Hg. by destruct (map_get k p).
  - rewrite fold_insert_get by done. by rewrite Hg.
Qed.

(** * On a concrete journal *)

Section witnesses.
Import Examples.

(** Three entries: [a] and [b] carry the cursors [x] and [y], [c] has none. *)
Definition entry_a : bytes := b#"a".
Definition entry_b : bytes := b#"b".
#[local] Instance tiny_json : SerdeDerive := fun s =>
  if bool_decide (s = entry_a) then Some [(b#"MESSAGE", VString (b#"one")); (b#"__CURSOR", VString (b#"x"))]
  else if bool_decide (s = entry_b) then Some [(b#"MESSAGE", VString (b#"two")); (b#"__CURSOR", VString (b#"y"))]
  else None.

Definition no_filter : ServiceFilter := mkServiceFilter [] [].
Definition all_io : CheckpointIo := mkCheckpointIo true 0 true true true.
Definition first_run : list (JEvent (S:=list LogEntry)) := [JLine entry_a [] all_io; JEof].
Definition tiny_replay (c : bytes) : list bytes := if bool_decide (c = b#"x") then [entry_b] else [].

Lemma tiny_replays : replays_after [entry_a; entry_b] tiny_replay.
Proof.
  intros seen rest c Hj. destruct seen as [|l1 [|l2 [|l3 s]]]; [done|..]; simplify_eq/=;
    vm_compute; intros [= <-]; exists []; (split; [apply suffix_nil|done]).
Qed.

Lemma journal_restart_delivers_witness :
  exists handled again rest, [entry_a; entry_b] = handled ++ rest /\ again `suffix_of` handled /\
    let '(_, d1, sink1) := run_journalctl true first_run no_filter all_io (mkStateDir None None) [] in
    (run_journalctl true [JLine entry_b [] all_io] no_filter all_io d1 sink1).2
    = [] ++ concat (map (deliverable no_filter) (handled ++ again ++ rest)).
Proof.
  destruct (journal_restart_delivers no_filter [entry_a; entry_b] tiny_replay first_run all_io ([] : list LogEntry)
    (Some Failed) (mkStateDir (Some (b#"x")) None) _ (b#"x") [JLine entry_b [] all_io] all_io
    _ _ tiny_replays ltac:(repeat constructor) ltac:(repeat constructor)
    ltac:(by exists [entry_b]) eq_refl eq_refl eq_refl eq_refl eq_refl)
    as (handled & again & rest & Hj & Hsuf & Hs).
  exists handled, again, rest. split_and!; [exact Hj|exact Hsuf|exact Hs].
Defined.

Lemma journal_accepting_ships_all_witness :
  let '(exit, d', sink') :=
    run_journalctl true [JLine entry_a [] all_io; JLine entry_b [] all_io] no_filter all_io
      (mkStateDir None None) ([] : list LogEntry) in
  exit = None /\ shipped sink' = [] ++ concat (map (expected no_filter) [entry_a; entry_b]).
Proof.
  refine (journal_accepting_ships_all no_filter [JLine entry_a [] all_io; JLine entry_b [] all_io] all_io
    (mkStateDir None None) ([] : list LogEntry) _ _).
  - intros s e. reflexivity.
  - repeat constructor; by eexists _, _.
Defined.

Lemma payload_precedence_witness :
  map_get (b#"unit") (payload_map (merge_payloads {[ b#"UNIT" := VString (b#"nginx") ]} (Some (VObject []))))
  = map_get (b#"unit") (kept_fields (map_to_list {[ b#"UNIT" := VString (b#"nginx") ]})).
Proof.
  apply (payload_precedence {[ b#"UNIT" := VString (b#"nginx") ]} [] (b#"unit")).
  - vm_compute. apply NoDup_singleton.
  - apply NoDup_nil_2.
Defined.
End witnesses.
