(* ===== verification/UnifiedProps.v ===== *)
(** The guarantees of the unified log source: phases, backfill from a
    checkpoint, and the one entry that moves a checkpoint backwards. *)
From S2P Require Import Prelude Str StrFacts External Text Sink SinkFacts Source Journal Unified UnifiedFacts Examples.
From Stdlib Require Import Strings.Byte ZArith.
Import Unified.

Section props.
Context `{SerdeDerive, SerdeSerialize, Lowercase, HashOrder Value}.
Context {S : Type} `{LogSink S, !LogSinkOk S}.

(** C15: The checkpoint on disk is never ahead of what was shipped. Whatever a
    phase meets, it has shipped exactly the entries of a prefix of the lines
    read, in order and once; the checkpoint is the one it found or that of a
    shorter or equal prefix; only the live phase asks to reconcile; and a phase
    that ends by itself has handled every line. *)
Theorem unified_checkpoint_not_ahead evs final (sink : S) st d dedupe rc :
  Forall retries_ok evs ->
  let '(exit, st', d', sink') := read_stream evs final sink st d dedupe rc None in
  exists handled, handled `prefix_of` omap ev_line evs /\
    shipped sink' = shipped sink ++ concat (map (u_expected dedupe) handled) /\
    last_cp st' = after dedupe (last_cp st) handled /\
    durable dedupe d d' (last_cp st) handled /\
    (exit = Some PhaseReconcile -> rc = true) /\
    (exit = Some PhaseDone -> handled = before_eof evs).
Proof.
  intros Hw. destruct (read_stream _ _ _ _ _ _ _ _) as [[[exit st'] d'] sink'] eqn:E.
  by apply read_stream_spec in E as [handled Hh]; [exists handled|].
Qed.

(** On a channel that accepts, a backfill completes and ships exactly the
    entries after the checkpoint: those of its boot at or before it, which
    [log show --start] prints again, are skipped, and every later one is shipped
    as in the live phase. *)
Theorem backfill_ships_rest (r : Round) (sink : S) cp st d evs overlap rest :
  (forall (s : S) e, (try_log_with_service s e).2 = true) ->
  r_show r = true -> r_backfill r = evs ++ [UEof] -> Forall retries_ok (r_backfill r) ->
  Forall (fun ev => exists l rs now io, ev = ULine l rs now io) evs ->
  before_eof (r_backfill r) = overlap ++ rest -> Forall (replayed cp) overlap -> Forall (fresh cp) rest ->
  let '(exit, _, _, sink') := run_backfill r sink cp st d in
  exit = Some PhaseDone /\ shipped sink' = shipped sink ++ concat (map (u_expected None) rest).
Proof.
  intros Hacc Hshow Hev Hw Hlines Hl Ho Hr. unfold run_backfill. rewrite Hshow.
  assert (Hx := read_stream_accepting evs (r_show_io r) sink st d (Some cp) false None Hacc Hlines).
  rewrite <- Hev in Hx. destruct (read_stream _ _ _ _ _ _ _ _) as [[[exit st'] d'] sink'] eqn:E.
  apply read_stream_spec in E as (h & _ & Hs & _ & _ & _ & Hdone); [|done].
  split; [done|]. by rewrite Hs, (Hdone Hx), Hl, (backfill_expected cp).
Qed.

(** During a backfill a structural entry (neither a log nor a trace event)
    older than the checkpoint moves the checkpoint back: its position is
    recorded before the duplicate test, and the file on disk ends behind the
    position already shipped. *)
Theorem structural_entry_regresses line e cp p now io final (sink : S) d :
  from_str (trim line) = Some e ->
  u_event_type e <> Some b#"logEvent" -> u_event_type e <> Some b#"traceEvent" ->
  checkpoint e = Some p -> mach_timestamp p < mach_timestamp cp ->
  len line <= MAX_LINE_LEN -> starts_with b#"{" (trim_start line) = true -> all_ok final = true ->
  let '(exit, st', d', sink') :=
    read_stream [ULine line [] now io; UEof] final sink (reader_state_new (Some cp)) d (Some cp) false None in
  exit = Some PhaseDone /\ last_cp st' = Some p /\ ck_file d' = Some (cp_text p) /\ shipped sink' = shipped sink.
Proof.
  intros He Hl Ht Hp _ Hlen Hbr Hok. cbn [read_stream].
  destruct (N.ltb_spec MAX_LINE_LEN (len line)); [lia|]. rewrite Hbr. cbn [negb ship_line].
  unfold process_entry. rewrite He. cbv zeta.
  rewrite !bool_decide_eq_false_2 by (destruct (u_event_type e); naive_solver). cbn [negb andb].
  rewrite Hp. cbn [record reader_state_new since_save dropped last_cp]. change (CURSOR_SAVE_INTERVAL <=? 0 + 1) with false.
  cbn [last_cp save_checkpoint]. by rewrite write_checkpoint_atomic, Hok.
Qed.
End props.

(** * On a concrete stream *)

Section witnesses.
Import Examples.

(** Log events at positions 1 and 2 of the boot [b], and an activity at 0. *)
Definition ev_at (kind : bytes) (mach : N) : list (bytes * Value) :=
  [(b#"eventType", VString kind); (b#"eventMessage", VString (b#"m")); (b#"bootUUID", VString (b#"b"));
   (b#"machTimestamp", VNumber (PosInt mach)); (b#"timestamp", VString (b#"w"))].
Definition line1 : bytes := b#"{1}".
Definition line2 : bytes := b#"{2}".
Definition line_act : bytes := b#"{0}".
#[local] Instance tiny_events : SerdeDerive := fun s =>
  if bool_decide (s = line1) then Some (ev_at (b#"logEvent") 1)
  else if bool_decide (s = line2) then Some (ev_at (b#"logEvent") 2)
  else if bool_decide (s = line_act) then Some (ev_at (b#"activityCreateEvent") 0)
  else None.
#[local] Instance tiny_text : SerdeSerialize := fun _ => b#"{}".

Definition cp_at (mach : N) : Checkpoint := mkCheckpoint (b#"b") mach (b#"w").
Definition two_lines : list (UEvent (S:=list LogEntry)) :=
  [ULine line1 [] 0 io_ok; ULine line2 [] 0 io_ok; UEof].
Definition the_round : Round := mkRound true two_lines io_ok true [] io_ok.

Lemma unified_checkpoint_not_ahead_witness :
  let '(exit, st', d', sink') :=
    read_stream two_lines io_ok [] (reader_state_new None) (mkStateDir None None) None true None in
  exists handled, handled `prefix_of` [line1; line2] /\
    sink' = [] ++ concat (map (u_expected None) handled) /\
    last_cp st' = after None None handled /\
    durable None (mkStateDir None None) d' None handled /\
    (exit = Some PhaseReconcile -> true = true) /\
    (exit = Some PhaseDone -> handled = [line1; line2]).
Proof.
  refine (unified_checkpoint_not_ahead two_lines io_ok ([] : list LogEntry) (reader_state_new None)
    (mkStateDir None None) None true _).
  repeat constructor.
Defined.

Lemma line1_replayed : replayed (cp_at 1) line1.
Proof. eexists. split; [reflexivity|]. split; [by left|reflexivity]. Qed.

Lemma line2_fresh : fresh (cp_at 1) line2.
Proof. intros e. vm_compute. by intros [= <-]. Qed.

Lemma backfill_ships_rest_witness :
  let '(exit, _, _, sink') :=
    run_backfill the_round [] (cp_at 1) (reader_state_new (Some (cp_at 1))) (mkStateDir None None) in
  exit = Some PhaseDone /\ sink' = [] ++ concat (map (u_expected None) [line2]).
Proof.
  refine (backfill_ships_rest the_round ([] : list LogEntry) (cp_at 1) (reader_state_new (Some (cp_at 1)))
    (mkStateDir None None) [ULine line1 [] 0 io_ok; ULine line2 [] 0 io_ok] [line1] [line2]
    _ eq_refl eq_refl _ _ eq_refl _ _).
  - intros s e. reflexivity.
  - repeat constructor.
  - repeat constructor; by eexists _, _, _, _.
  - apply Forall_singleton, line1_replayed.
  - apply Forall_singleton, line2_fresh.
Defined.

Lemma structural_entry_regresses_witness :
  let '(exit, st', d', sink') :=
    read_stream [ULine line_act [] 0 io_ok; UEof] io_ok ([] : list LogEntry) (reader_state_new (Some (cp_at 2)))
      (mkStateDir None None) (Some (cp_at 2)) false None in
  exit = Some PhaseDone /\ last_cp st' = Some (cp_at 0) /\ ck_file d' = Some (cp_text (cp_at 0)) /\ shipped sink' = [].
Proof.
  refine (structural_entry_regresses line_act _ (cp_at 2) (cp_at 0) 0 io_ok io_ok ([] : list LogEntry)
    (mkStateDir None None) eq_refl _ _ _ _ _ _ _); try reflexivity; discriminate.
Defined.
End witnesses.
