(* ===== verification/AgentProps.v ===== *)
(** The guarantees of configuration loading and of the remote configuration
    poller. *)
From S2P Require Import Prelude Str StrFacts External Text Tailed Multiline EventFilter Source Config RemoteConfig Examples OffsetFacts.
From Stdlib Require Import Strings.Byte.

Section agent.
Context `{Toml, Regex}.

(** C18: What the validation guarantees of an accepted configuration: its API key is 32
    hexadecimal digits, the event filter it asks for can be built, and its
    multiline pattern compiles. *)
Theorem accepted_config_usable p contents cfg :
  parse_config p contents = inl cfg ->
  (len (api_key cfg) = 32 /\ Forall (fun b => is_hex b = true) (api_key cfg)) /\
  (exists f, EventFilter.new (eventlog_event_ids cfg) (eventlog_exclude_providers cfg) = inl f) /\
  (forall pat, multiline_start_pattern cfg = Some pat ->
     is_Some (multiline_opts_new pat (multiline_timeout_ms cfg) (multiline_max_bytes cfg))).
Proof.
  unfold parse_config. destruct (toml_table contents ≫= read_agent_config p) as [c|]; [|done].
  destruct (validate_api_key (api_key c)) eqn:Ek; [done|]. apply validate_api_key_ok in Ek.
  unfold EventFilter.new, multiline_opts_new.
  destruct (eventlog_event_ids c) as [spec|] eqn:Es; [destruct (EventFilter.parse spec) as [f|e] eqn:Ef; [|done]|];
    (destruct (multiline_start_pattern c) as [pat|] eqn:Ep; [destruct (regex_new pat) eqn:Er; [|done]|]);
    intros [= <-]; rewrite ?Es, ?Ep, ?Ef; (split; [done|]); (split; [by eexists|]);
    intros ? [= <-]; rewrite Er; by eexists.
Qed.

(** * The poller *)

Definition file_of (r : PollerState + (PollerExit * option bytes)) : option bytes :=
  match r with inl st => ps_file st | inr (_, f) => f end.

(** A body some poll of [evs] answered with status 200, and that validates. *)
Definition served_valid p (evs : list PollEvent) (b : bytes) : Prop :=
  exists out io resp cfg, PoPoll (CurlOutput out) io ∈ evs /\ parse_http_response out = Ret (Some resp) /\
    status resp = 200 /\ b = from_utf8_lossy (body resp) /\ parse_config p b = inl cfg.

Lemma poll_step_file p pc st ev :
  (file_of (poll_step p pc st ev) = ps_file st /\ forall f, poll_step p pc st ev <> inr (ExitReload, f)) \/
  exists b, file_of (poll_step p pc st ev) = Some b /\ served_valid p [ev] b /\
    poll_step p pc st ev = inr (ExitReload, Some b) /\ config_hash b <> pc_applied_hash pc.
Proof.
  destruct ev as [|curl io]; cbn [poll_step]; [by left|].
  destruct curl as [| |out]; cbn [poll_once]; [by left..|].
  destruct (parse_http_response out) as [[resp|]|] eqn:Er; [|by left..].
  unfold classify_response. destruct (N.eqb_spec (status resp) 304); [by left|].
  destruct (N.eqb_spec (status resp) 200) as [H200|]; [|by left].
  destruct (List.forallb _ _); [by left|]. destruct (parse_config _ _) as [cfg|e] eqn:Ec; [|by left].
  case_bool_decide as Hh; [by left|]. unfold write_config_atomic. case_if; [|by left].
  right. eexists. split_and!; [done| |done|done].
  exists out, io, resp, cfg. split_and!; [by left|done..].
Qed.

(** C16: Whatever the server and the disk do, the configuration file is left as it
    was or holds, complete, a body the server sent with status 200 that passes
    the validation of a configuration. *)
Theorem poller_writes_only_valid p pc file evs :
  file_of (run_poller p pc file evs) = file \/
  exists b, file_of (run_poller p pc file evs) = Some b /\ served_valid p evs b.
Proof.
  unfold run_poller. case_if; [by left|]. case_if; [by left|].
  assert (Hgo : forall st, file_of (poll_loop p pc st evs) = ps_file st \/
    exists b, file_of (poll_loop p pc st evs) = Some b /\ served_valid p evs b).
  { induction evs as [|ev evs IH]; intros st; [by left|]. cbn [poll_loop].
    assert (Hin : forall b, served_valid p [ev] b -> served_valid p (ev :: evs) b).
    { intros b (o & io & r & c & <-%list_elem_of_singleton & Hrest). exists o, io, r, c. split; [by left|done]. }
    assert (Hin' : forall b, served_valid p evs b -> served_valid p (ev :: evs) b).
    { intros b (o & io & r & c & Hm & Hrest). exists o, io, r, c. split; [by right|done]. }
    destruct (poll_step_file p pc st ev) as [[Hs _]|(b & Hb & Hv & Hs & _)].
    - destruct (poll_step p pc st ev) as [st1|[e f]]; [|by left]. cbn [file_of] in Hs. rewrite <- Hs.
      destruct (IH st1) as [?|(b & Hb & Hv)]; [by left|right; by exists b; auto].
    - rewrite Hs. right. exists b. by auto. }
  apply Hgo.
Qed.

(** C17: Applying a configuration does not loop: after a reload, a poller started
    with the hash of the file just written and answered with the same response
    neither reloads nor touches the file. *)
Theorem reload_settles p pc st out io b pc' st' io' :
  poll_step p pc st (PoPoll (CurlOutput out) io) = inr (ExitReload, Some b) ->
  pc_applied_hash pc' = applied_config_hash (Some b) ->
  exists e, poll_step p pc' st' (PoPoll (CurlOutput out) io') = inl (mkPollerState (pc_interval pc') e (ps_file st')).
Proof.
  intros Hstep Hpc. cbn [applied_config_hash] in Hpc. revert Hstep. cbn [poll_step poll_once].
  destruct (parse_http_response out) as [[resp|]|]; [|done..]. unfold classify_response.
  destruct (status resp =? 304); [done|]. destruct (status resp =? 200); [|done].
  destruct (List.forallb _ _); [done|]. destruct (parse_config _ _) as [cfg|e]; [|done].
  case_bool_decide; [done|]. unfold write_config_atomic at 1. case_if; [|done].
  intros [= <-]. rewrite Hpc, bool_decide_eq_true_2 by done. by eexists.
Qed.

(** A remote configuration that moves the data, changes the key or ends remote
    management is warned about, and nothing else is; the warnings carry the hash
    of the configuration, not its values. *)
Theorem authority_changes_warned p pc applied resp b h ec ac sd :
  classify_response p pc applied resp = inl (Changed b h ec ac sd) ->
  exists c, parse_config p b = inl c /\ h = config_hash b /\
    forall w, w ∈ log_authority_changes ec ac sd h <->
      (w = EndpointChanged h /\ endpoint c <> pc_endpoint pc) \/
      (w = ApiKeyChanged h /\ api_key c <> pc_api_key pc) \/ (w = ServerDropped /\ server c = None).
Proof.
  unfold classify_response. destruct (status resp =? 304); [done|]. destruct (status resp =? 200); [|done].
  destruct (List.forallb _ _); [done|]. destruct (parse_config _ _) as [c|e] eqn:Ec; [|done].
  case_bool_decide; [done|]. intros [= <- <- <- <- <-]. exists c. split_and!; [done..|]. intros w.
  unfold log_authority_changes. rewrite !elem_of_app.
  case_bool_decide; case_bool_decide; cbn [negb]; destruct (server c);
    rewrite ?list_elem_of_singleton, ?elem_of_nil; naive_solver.
Qed.

(** After [k > 0] failed polls in a row the delay is the interval doubled [k]
    times, at most [BACKOFF_CAP]; so with an interval above the cap a failing
    server is polled more often than a healthy one. *)
Theorem poller_backoff p pc file k :
  starts_with b#"https://" (pc_server pc) = true -> pc_interval pc <> 0 -> (0 < k)%nat ->
  run_poller p pc file (replicate k (PoPoll CurlFailed (mkWriteIo true true true true true)))
  = inl (mkPollerState (N.min (pc_interval pc * 2 ^ N.of_nat k) BACKOFF_CAP) None file).
Proof.
  intros Hs Hi Hk. unfold run_poller. rewrite Hs. destruct (N.eqb_spec (pc_interval pc) 0); [done|]. cbn [negb].
  assert (Hgo : forall k d, poll_loop p pc (mkPollerState d None file)
      (replicate k (PoPoll CurlFailed (mkWriteIo true true true true true)))
    = inl (mkPollerState (backoff_after k d BACKOFF_CAP) None file)).
  { clear. induction k as [|k IH]; intros d; cbn; [done|]. apply IH. }
  destruct k as [|k]; [lia|]. cbn [replicate poll_loop poll_step poll_once ps_delay ps_etag ps_file].
  rewrite Hgo, backoff_after_spec by (unfold next_backoff; lia). do 2 f_equal.
  unfold next_backoff. rewrite Nat2N.inj_succ, N.pow_succ_r'.
  assert (1 <= 2 ^ N.of_nat k) by (apply N.lt_pred_le, N.neq_0_lt_0, N.pow_nonzero; done).
  destruct (N.le_gt_cases (pc_interval pc * 2) BACKOFF_CAP) as [Hle|Hgt].
  - rewrite (N.min_l (pc_interval pc * 2)) by done. f_equal. lia.
  - rewrite (N.min_r (pc_interval pc * 2)) by lia. rewrite !N.min_r; nia.
Qed.
End agent.

(** * Durations *)

Lemma no_suffix v (a b : byte) (p : bytes) :
  a <> b -> strip_suffix (p ++ [a]) (show_N v ++ [b]) = None.
Proof.
  intros Hab. destruct (strip_suffix _ _) as [r|] eqn:E; [|done].
  apply strip_suffix_Some in E. rewrite app_assoc in E. by apply app_inj_tail in E as [_ ->].
Qed.

(** A duration written as a number and a unit is read back in that unit,
    except that minutes and hours are computed modulo 2^64 seconds: from
    307445734561825861 minutes on, the value read is another, shorter one. *)
Theorem duration_units v :
  v <= u64_max ->
  parse_duration (show_N v ++ b#"ms") = inl (v * 1000000) /\
  parse_duration (show_N v ++ b#"s") = inl (v * 1000000000) /\
  parse_duration (show_N v ++ b#"m") = inl (wrap64 (v * 60) * 1000000000) /\
  parse_duration (show_N v ++ b#"h") = inl (wrap64 (v * 3600) * 1000000000).
Proof.
  intros Hv. assert (Hp : parse_u64 (show_N v) = Some v) by by apply parse_uint_show.
  assert (Hms : strip_suffix b#"ms" (show_N v ++ b#"s") = None).
  { destruct (strip_suffix _ _) as [r|] eqn:E; [|done]. apply strip_suffix_Some in E.
    change b#"ms" with ([x6d] ++ b#"s") in E. rewrite app_assoc in E. apply (inj (.++ b#"s")) in E.
    exfalso. apply (show_N_not_elem v x6d); [done|]. rewrite E. set_solver. }
  assert (Hyes : forall p, strip_suffix p (show_N v ++ p) = Some (show_N v)) by (intros p; by apply strip_suffix_Some).
  assert (Htrim : forall p, Forall (fun c => in_range 33 126 c = true) p ->
    trim (show_N v ++ p) = show_N v ++ p /\ (p <> [] -> is_empty (show_N v ++ p) = false)).
  { intros p Hg. split; [apply trim_graphic, Forall_app; split; [apply show_N_graphic|done]|].
    intros Hne. destruct (show_N v ++ p) as [|c r] eqn:E; [|done]. by apply app_eq_nil in E as [_ ->]. }
  unfold parse_duration. split_and!;
    (edestruct Htrim as [Ht He]; [|rewrite Ht, He by done]; [by repeat constructor|]).
  - by rewrite Hyes, Hp.
  - by rewrite Hms, Hyes, Hp.
  - assert (H1 : strip_suffix b#"ms" (show_N v ++ b#"m") = None) by by apply (no_suffix v x73 x6d [x6d]).
    assert (H2 : strip_suffix b#"s" (show_N v ++ b#"m") = None) by by apply (no_suffix v x73 x6d []).
    by rewrite H1, H2, Hyes, Hp.
  - assert (H1 : strip_suffix b#"ms" (show_N v ++ b#"h") = None) by by apply (no_suffix v x73 x68 [x6d]).
    assert (H2 : strip_suffix b#"s" (show_N v ++ b#"h") = None) by by apply (no_suffix v x73 x68 []).
    assert (H3 : strip_suffix b#"m" (show_N v ++ b#"h") = None) by by apply (no_suffix v x6d x68 []).
    by rewrite H1, H2, H3, Hyes, Hp.
Qed.

(** * Responses *)

Lemma raw_lines_forall (P : byte -> Prop) s : Forall P s -> Forall (fun p : bytes * bool => Forall P p.1) (raw_lines s).
Proof.
  induction 1 as [|x s Hx Hs IH]; cbn [raw_lines]; [constructor|]. case_bool_decide.
  { by constructor. }
  destruct (raw_lines s) as [|[h t] rest]; [by repeat constructor|].
  apply Forall_cons in IH as [Hh Hr]. constructor; [by constructor|done].
Qed.

Lemma lines_forall (P : byte -> Prop) s : Forall P s -> Forall (Forall P) (lines s).
Proof.
  intros Hs. unfold lines. apply Forall_map. eapply Forall_impl; [by apply raw_lines_forall|].
  intros [l t] Hl. cbn [fst snd] in *. destruct t; [|done]. unfold strip_cr.
  destruct (strip_suffix _ l) as [r|] eqn:E; [|done]. apply strip_suffix_Some in E. subst l.
  by apply Forall_app in Hl as [? _].
Qed.

(** A response whose header is ASCII never panics the parser, whatever its
    body. *)
Theorem ascii_header_never_panics raw :
  (forall e n, header_end raw = Some (e, n) -> Forall (fun c => bN c < 128) (take e raw)) ->
  parse_http_response raw <> Panicked.
Proof.
  intros Ha. unfold parse_http_response. destruct (header_end raw) as [[e n]|] eqn:He; [|done].
  specialize (Ha e n eq_refl). rewrite lossy_valid by by apply valid_utf8_ascii.
  apply lines_forall in Ha. destruct (lines (take e raw)) as [|first rest]; [done|].
  apply Forall_cons in Ha as [_ Ha]. destruct (parse_status_code first); [|done].
  by destruct (find_etag_ascii rest Ha) as [t ->].
Qed.

Section witnesses.
Import Examples.

Definition good_key : bytes := b#"0123456789abcdef0123456789abcdef".
#[local] Instance tiny_toml : Toml := fun _ => Some [(b#"api_key", VString good_key)].

Definition tiny_poller (h : bytes) : PollerConfig :=
  mkPollerConfig (b#"https://c") good_key default_endpoint (secs 300) h.
Definition write_ok : WriteIo := mkWriteIo true true true true true.
Definition crlf : bytes := [x0d; nl].
Definition ok_response : bytes := b#"HTTP/1.1 200 OK" ++ crlf ++ b#"etag: 1" ++ crlf ++ crlf ++ b#"x".

Lemma accepted_config_usable_witness :
  exists cfg, parse_config Linux [] = inl cfg /\ len (api_key cfg) = 32.
Proof.
  eexists. split; [reflexivity|].
  exact (proj1 (proj1 (accepted_config_usable Linux [] _ eq_refl))).
Defined.

Lemma reload_settles_witness :
  exists e, poll_step Linux (tiny_poller (applied_config_hash (Some (b#"x")))) (mkPollerState 0 None (Some (b#"x")))
      (PoPoll (CurlOutput ok_response) write_ok)
    = inl (mkPollerState (secs 300) e (Some (b#"x"))).
Proof.
  apply (reload_settles Linux (tiny_poller []) (mkPollerState 0 None None) ok_response write_ok (b#"x")
    (tiny_poller (applied_config_hash (Some (b#"x")))) (mkPollerState 0 None (Some (b#"x"))) write_ok).
  - vm_compute. reflexivity.
  - reflexivity.
Defined.

Lemma poller_backoff_witness :
  run_poller Linux (tiny_poller []) None (replicate 2 (PoPoll CurlFailed (mkWriteIo true true true true true)))
  = inl (mkPollerState (N.min (secs 300 * 2 ^ N.of_nat 2) BACKOFF_CAP) None None).
Proof. apply (poller_backoff Linux (tiny_poller []) None 2); [reflexivity|discriminate|lia]. Defined.

Lemma duration_units_witness :
  parse_duration (show_N 15 ++ b#"ms") = inl (15 * 1000000) /\
  parse_duration (show_N 15 ++ b#"s") = inl (15 * 1000000000) /\
  parse_duration (show_N 15 ++ b#"m") = inl (wrap64 (15 * 60) * 1000000000) /\
  parse_duration (show_N 15 ++ b#"h") = inl (wrap64 (15 * 3600) * 1000000000).
Proof. apply (duration_units 15). vm_compute. discriminate. Defined.

Lemma ascii_header_never_panics_witness : parse_http_response ok_response <> Panicked.
Proof.
  apply (ascii_header_never_panics ok_response). intros e n He. vm_compute in He. injection He as <- <-.
  vm_compute. repeat constructor.
Defined.

(** The agent can be made to panic by a header: this response, in which a
    character crosses the fifth byte of a header line, panics the parser and
    ends the poller. *)
Theorem header_slice_panics :
  let response := b#"HTTP/1.1 200 OK" ++ crlf ++ b#"X" ++ [xe2; x82; xac; xe2; x82; xac] ++ crlf ++ crlf ++ b#"x" in
  parse_http_response response = Panicked /\
  run_poller Linux (tiny_poller []) None [PoPoll (CurlOutput response) write_ok] = inr (ExitPanicked, None).
Proof. vm_compute. split; reflexivity. Qed.
End witnesses.
