(* ===== verification/MetricProps.v ===== *)
(** The guarantees of the metric collectors: percentages, per-state counts,
    deltas against a baseline, mount selection, and the bounded reader. *)
From S2P Require Import Prelude Str StrFacts Text External F64 Sink EventFilter Config Derived.
From S2P Require Import Collectors CollectorsFacts DiskSpace DiskSpaceFacts Examples.
From Stdlib Require Import Strings.Byte.

(** * Percentages *)

(** The gauges that are clamped, and the shares of a CPU, which are not. *)
Definition clamped_percents : list bytes :=
  [b#"system.memory.used_percent"; b#"system.memory.swap_used_percent"; b#"system.cpu.busy_percent";
   b#"system.disk.used_percent"; b#"system.disk.inodes_used_percent"].
Definition cpu_shares : list bytes :=
  [b#"system.cpu.user"; b#"system.cpu.system"; b#"system.cpu.idle"; b#"system.cpu.iowait"; b#"system.cpu.steal"].

(** The counters of a CPU since the sample before: none went back, their sum is a
    [u64], and it grew by less than [2 ^ 53]. *)
Definition ticks (t : CpuTimes) : N :=
  user t + nice t + system_ t + idle t + iowait t + irq t + softirq t + steal t.
Definition grows (old cur : CpuTimes) : Prop :=
  user old <= user cur /\ nice old <= nice cur /\ system_ old <= system_ cur /\ idle old <= idle cur /\
  iowait old <= iowait cur /\ irq old <= irq cur /\ softirq old <= softirq cur /\ steal old <= steal cur /\
  ticks cur <= u64_max /\ ticks cur - ticks old < 2 ^ 53.

(** The CPU of a row and its counters. *)
Definition cpu_reading (line : bytes) : option (bytes * CpuTimes) :=
  match split_whitespace line with
  | name :: parts => match cpu_label name with Some _ => Some (name, parse_cpu_line parts) | None => None end
  | [] => None
  end.

(** Each CPU has one row, and its counters grew. *)
Definition all_grow (prev : gmap bytes CpuTimes) (rows : list (bytes * CpuTimes)) : Prop :=
  NoDup rows.*1 /\ forall name old cur, prev !! name = Some old -> (name, cur) ∈ rows -> grows old cur.
Definition counters_grow (prev : gmap bytes CpuTimes) (stat : option bytes) : Prop :=
  match stat with Some buf => all_grow prev (omap cpu_reading (lines buf)) | None => True end.

(** [grown]: what the shares are bounded for. *)
Definition percent_ok (grown : Prop) (m : Metric) : Prop :=
  m_name m ∈ clamped_percents \/ grown /\ m_name m ∈ cpu_shares -> is_percent (m_value m).

Section percent.
Context (grown : Prop).

Lemma option_call_ok v name :
  (name ∈ clamped_percents ++ cpu_shares -> forall x, v = Some x -> is_percent x) ->
  Forall (percent_ok grown) (option_call v name).
Proof.
  intros Hv. destruct v as [x|]; cbn [option_call]; [|constructor].
  constructor; [|constructor]. intros Hn. apply Hv; [|done]. apply elem_of_app. cbn in Hn. tauto.
Qed.

Lemma other_ok name v labels (k : bytes -> f64 -> list label -> Metric) :
  bool_decide (name ∈ clamped_percents ++ cpu_shares) = false -> m_name (k name v labels) = name ->
  percent_ok grown (k name v labels).
Proof.
  intros Hn Hk Hin. rewrite Hk in Hin. apply bool_decide_eq_false in Hn. exfalso. apply Hn, elem_of_app. tauto.
Qed.
End percent.

Ltac other := by apply (other_ok _ _ _ _ gauge_call).
Ltac quiet_option := apply option_call_ok; intros Hin; exfalso; revert Hin; by apply (bool_decide_unpack _).

(** A gauge that is a share: it is bounded where [grown] holds. *)
Lemma share_ok grown name v labels :
  bool_decide (name ∈ clamped_percents) = false -> (grown -> is_percent v) -> percent_ok grown (gauge_call name v labels).
Proof. intros Hn Hv [Hin|[Hg _]]; [by apply bool_decide_eq_false in Hn|by apply Hv]. Qed.

Lemma memory_percent_ok grown buf : Forall (percent_ok grown) (memory_collect buf).
Proof.
  destruct buf as [buf|]; [|constructor]. cbn [memory_collect].
  destruct (fold_left mem_line _ _) as [t a c st sf]. cbn [mi_total mi_available mi_cached mi_swap_total mi_swap_free].
  repeat (apply Forall_app; split); try quiet_option.
  - destruct t, a; try constructor; [other|]. apply option_call_ok. intros _ x. apply ratio_percent_bounds.
  - destruct st, sf; try constructor; [other|]. apply option_call_ok. intros _ x. apply ratio_percent_bounds.
Qed.

(** The parts of the time that passed. *)
Lemma grows_parts old cur :
  grows old cur ->
  let dt := total cur - total old in
  dt < 2 ^ 53 /\ wrap64 (user cur + nice cur) - wrap64 (user old + nice old) <= dt /\
  kernel cur - kernel old <= dt /\ idle cur - idle old <= dt /\ iowait cur - iowait old <= dt /\ steal cur - steal old <= dt.
Proof.
  intros (? & ? & ? & ? & ? & ? & ? & ? & Hmax & Hd). unfold total, kernel, ticks in *. unfold u64_max in Hmax.
  rewrite !wrap64_small by lia. cbv zeta. lia.
Qed.

Lemma cpu_deltas_ok grown label_ prev cur :
  (grown -> grows prev cur) -> Forall (percent_ok grown) (emit_deltas label_ prev cur).
Proof.
  intros Hg. unfold emit_deltas. destruct (N.eqb_spec (total cur - total prev) 0) as [|Hdt]; [constructor|].
  assert (Hs : grown -> forall a b, a - b <= total cur - total prev ->
    is_percent (f64_mul (f64_div (f64_of_N (a - b)) (f64_of_N (total cur - total prev))) f100)).
  { intros [Hlt _]%Hg%grows_parts a b Hle. apply share_percent; [done|lia|done]. }
  apply Forall_app. split.
  - repeat (apply Forall_cons; split; [apply share_ok; [done|]; intros HG; apply Hs; [done|];
      apply Hg, grows_parts in HG; tauto|]). constructor.
  - case_if; [|constructor]. destruct (cpu_busy_percent _) eqn:E; [|constructor].
    constructor; [|constructor]. intros _. by apply cpu_busy_percent_bounds in E.
Qed.

Lemma all_grow_next prev name cur rows :
  all_grow prev ((name, cur) :: rows) -> all_grow (<[name := cur]> prev) rows.
Proof.
  intros [[Hn Hnd]%NoDup_cons Hg]. split; [done|]. intros n old c Ho Hin.
  destruct (decide (n = name)) as [->|Hne].
  - exfalso. apply Hn, list_elem_of_fmap. by exists (name, c).
  - rewrite lookup_insert_ne in Ho by done. eapply Hg; [done|]. by right.
Qed.

Lemma cpu_rows_ok grown ls st :
  (grown -> all_grow (cl_prev st) (omap cpu_reading ls)) -> Forall (percent_ok grown) (cl_calls st) ->
  Forall (percent_ok grown) (cl_calls (fold_left cpu_row ls st)).
Proof.
  revert st. induction ls as [|l ls IH]; intros st Hg Hst; [done|]. cbn [fold_left omap list_omap] in *.
  unfold cpu_row at 2. unfold cpu_reading at 1 in Hg. destruct (split_whitespace l) as [|name parts]; [by apply IH|].
  destruct (cpu_label name) as [lb|]; [|by apply IH].
  assert (Hn : grown -> all_grow (<[name := parse_cpu_line parts]> (cl_prev st)) (omap cpu_reading ls))
    by (intros HG; by apply all_grow_next, Hg).
  destruct (cl_prev st !! name) as [old|] eqn:Eo; apply IH; cbn [cl_prev cl_calls]; try done.
  apply Forall_app. split; [done|]. apply cpu_deltas_ok. intros HG. apply (proj2 (Hg HG) name); [done|by left].
Qed.

Lemma cpu_percent_ok prev stat : Forall (percent_ok (counters_grow prev stat)) (cpu_collect prev stat).2.
Proof.
  destruct stat as [buf|]; [|constructor]. cbn [cpu_collect snd].
  apply Forall_app. split; [by apply cpu_rows_ok|]. case_if; [|constructor]. constructor; [other|constructor].
Qed.

Lemma space_percent_ok grown s labels :
  is_finite (used s) = true -> is_finite (inodes_used s) = true -> Forall (percent_ok grown) (space_emit s labels).
Proof.
  intros Hu Hi. unfold space_emit. repeat (apply Forall_app; split).
  - repeat (apply Forall_cons; split; [other|]). constructor.
  - unfold used_percent. destruct (f64_gt _ f0) eqn:E; [|constructor].
    constructor; [|constructor]. intros _. by apply percent_of_bounds.
  - case_if; [|constructor]. apply Forall_app. split.
    + repeat (apply Forall_cons; split; [other|]). constructor.
    + unfold inodes_used_percent. rewrite Heqb. constructor; [|constructor]. intros _. by apply percent_of_bounds.
Qed.

(** C40: The percentage gauges lie between 0 and 100 and are numbers: memory and swap
    use and the busy share of the CPU whatever text the kernel files hold, space
    and inode use for file systems whose used counts are finite, and the user,
    system, idle, iowait and steal shares of each CPU, which are not clamped, if
    no counter of the CPUs went back since the sample before, none overflows its
    sum, less than [2 ^ 53] ticks passed and each CPU has one row. *)
Theorem percent_gauges_bounded meminfo prev stat s labels m :
  is_finite (used s) = true -> is_finite (inodes_used s) = true ->
  m ∈ memory_collect meminfo ++ (cpu_collect prev stat).2 ++ space_emit s labels ->
  m_name m ∈ clamped_percents \/ counters_grow prev stat /\ m_name m ∈ cpu_shares -> is_percent (m_value m).
Proof.
  intros Hu Hi Hin.
  assert (Hall : Forall (percent_ok (counters_grow prev stat))
    (memory_collect meminfo ++ (cpu_collect prev stat).2 ++ space_emit s labels)).
  { apply Forall_app. split; [apply memory_percent_ok|].
    apply Forall_app. split; [apply cpu_percent_ok|by apply space_percent_ok]. }
  by eapply Forall_forall in Hall.
Qed.

(** Without that the shares are unbounded: when the idle counter goes back from 95
    to 5 while the user counter grows by 100, the total grows by 10 and the share
    reported for user time is a thousand percent. *)
Theorem cpu_share_unbounded :
  let prev := mkCpuTimes 0 0 0 95 0 0 0 0 in
  let cur := mkCpuTimes 100 0 0 5 0 0 0 0 in
  gauge_call b#"system.cpu.user" (f64_of_N 1000) [(b#"core", b#"0")] ∈ emit_deltas b#"0" prev cur /\
  ~ is_percent (f64_of_N 1000).
Proof. split; [by left|]. by intros [_ H%(f_equal negb)]. Qed.

(** * TCP *)

Lemma count_rows_length ls counts : length (fold_left count_row ls counts) = length counts.
Proof.
  revert counts. induction ls as [|l ls IH]; intros counts; [done|]. cbn. by rewrite IH, count_row_length.
Qed.

(** The TCP gauges count exactly the rows of both kernel tables: there is a
    gauge for a state if and only if some row (header lines apart) is in it, and
    its value is the number of those rows. *)
Theorem tcp_counts_rows tcp tcp6 m :
  len (lines tcp ++ lines tcp6) <= u32_max ->
  m ∈ tcp_collect (Some tcp) (Some tcp6) <->
  exists i name, (i, name) ∈ STATE_NAMES /\
    let n := rows_in_state i (drop 1 (lines tcp) ++ drop 1 (lines tcp6)) in
    0 < n /\ m = gauge_call b#"system.tcp.connections" (f64_of_N n) [(b#"state", name)].
Proof.
  intros Hmax. unfold tcp_collect, count_states. rewrite <- fold_left_app.
  set (rows := drop 1 (lines tcp) ++ drop 1 (lines tcp6)).
  assert (Hlk : forall i name, (i, name) ∈ STATE_NAMES ->
    default 0 (fold_left count_row rows (replicate 12 0) !! i) = rows_in_state i rows).
  { intros i name Hin. assert (Hi : (i < 12)%nat).
    { revert Hin. unfold STATE_NAMES. rewrite !elem_of_cons, elem_of_nil. intros Hin.
      destruct_or! Hin; simplify_eq; lia. }
    rewrite (count_rows_lookup rows _ i 0); [|by apply lookup_replicate|vm_compute; discriminate].
    cbn [default]. rewrite N.add_0_l. apply N.mod_small. unfold rows_in_state.
    assert (Hle : (length (List.filter (fun l => bool_decide (row_state l = Some (N.of_nat i))) rows) <= length rows)%nat)
      by apply filter_length_le.
    assert (Hr : len rows <= len (lines tcp ++ lines tcp6)).
    { unfold rows, len. rewrite !length_app, !length_drop. lia. }
    unfold len, u32_max in *. lia. }
  rewrite list_elem_of_In, in_concat. split.
  - intros (l & Hl & Hm). apply in_map_iff in Hl as ([i name] & <- & Hin). apply list_elem_of_In in Hin.
    cbn [fst snd] in Hm. rewrite (Hlk i name Hin) in Hm. destruct (N.ltb_spec 0 (rows_in_state i rows)); [|done].
    destruct Hm as [<-|[]]. by exists i, name.
  - intros (i & name & Hin & Hn & ->). eexists. split.
    + apply in_map_iff. exists (i, name). split; [reflexivity|by apply list_elem_of_In].
    + cbn [fst snd]. rewrite (Hlk i name Hin), (proj2 (N.ltb_lt _ _) Hn). by left.
Qed.

(** * Network *)

Section network.
Context `{Glob}.

(** The reading of a row: the interface and its counters. *)
Definition net_reading (filter : DeviceFilter) (line : bytes) : option (bytes * NetStats) :=
  match net_iface filter line with
  | Some i =>
    Some (i, net_stats (default [] (match split_once x3a line with
                                    | Some (_, stats) => net_values stats | None => None end)))
  | None => None
  end.

Definition delta_calls (prev : gmap bytes NetStats) (r : bytes * NetStats) : list Metric :=
  match prev !! r.1 with Some p => net_deltas r.1 r.2 p | None => [] end.

Lemma net_reading_iface filter ls : (omap (net_reading filter) ls).*1 = omap (net_iface filter) ls.
Proof.
  induction ls as [|l ls IH]; [done|]. cbn [omap list_omap]. unfold net_reading at 1.
  destruct (net_iface filter l); cbn; [by f_equal|done].
Qed.

Lemma delta_calls_insert prev i c rs :
  i ∉ rs.*1 -> concat (map (delta_calls (<[i := c]> prev)) rs) = concat (map (delta_calls prev) rs).
Proof.
  intros Hi. f_equal. apply map_ext_in. intros [j d] Hj%list_elem_of_In. unfold delta_calls. cbn.
  rewrite lookup_insert_ne; [done|]. intros ->. apply Hi, list_elem_of_fmap. by exists (j, d).
Qed.

Lemma net_fold_spec filter ls prev calls :
  NoDup (omap (net_iface filter) ls) ->
  fold_left (net_row filter) ls (prev, calls)
  = (list_to_map (omap (net_reading filter) ls) ∪ prev,
     calls ++ concat (map (delta_calls prev) (omap (net_reading filter) ls))).
Proof.
  revert prev calls. induction ls as [|l ls IH]; intros prev calls Hnd.
  { cbn. by rewrite app_nil_r, map_empty_union. }
  cbn [fold_left omap list_omap] in *. rewrite net_row_spec.
  destruct (net_reading filter l) as [[j cur]|] eqn:E; revert E; unfold net_reading at 1;
    (destruct (net_iface filter l) as [i|]; [|done || (intros _; by apply IH)]); [|done].
  intros [= <- Hcur]. cbv zeta. rewrite Hcur.
  apply NoDup_cons in Hnd as [Hi Hnd]. rewrite IH by done. rewrite <- net_reading_iface in Hi.
  cbn [map concat]. rewrite list_to_map_cons. f_equal.
  - rewrite <- insert_union_r; [by rewrite insert_union_l|]. by apply not_elem_of_list_to_map_1.
  - rewrite delta_calls_insert by done. unfold delta_calls at 2. cbn [fst snd]. by rewrite <- app_assoc.
Qed.

(** A network sample emits, for each interface the filter lets through and
    in the order of the file, the growth of its counters since the sample that
    set its baseline, and nothing for an interface seen for the first time; each
    interface read becomes the new baseline and the others keep theirs. *)
Theorem net_deltas_against_baseline filter prev buf :
  NoDup (omap (net_iface filter) (lines buf)) ->
  net_collect filter prev (Some buf)
  = (list_to_map (omap (net_reading filter) (lines buf)) ∪ prev,
     concat (map (delta_calls prev) (omap (net_reading filter) (lines buf)))).
Proof. intros Hnd. cbn [net_collect]. by rewrite net_fold_spec. Qed.
End network.

(** * Mounts *)

(** The mounts kept for space metrics have distinct devices, each comes from
    a line of the mount table with an allowed file system type, and for every
    such line its device is kept, under a mount point at most as long. *)
Theorem mounts_one_per_device buf fs_types :
  let kept := parse_mounts buf fs_types in
  let listed := omap (mount_line fs_types) (lines buf) in
  NoDup (map mt_device kept) /\ (forall m, m ∈ kept -> m ∈ listed) /\
  (forall m, m ∈ listed -> exists m', m' ∈ kept /\ mt_device m' = mt_device m /\
     len (mt_mount_point m') <= len (mt_mount_point m)).
Proof.
  cbv zeta. unfold parse_mounts. set (listed := omap _ _).
  destruct (dedup_devices_spec [] (sort_mounts listed) (sort_mounts_sorted listed)) as (Hnd & Hsub & Hall).
  split_and!; [done| |].
  - intros m Hm. apply Hsub in Hm as [Hm _]. by apply sort_mounts_elem.
  - intros m Hm. apply Hall; [by apply sort_mounts_elem|apply not_elem_of_nil].
Qed.

(** Device names and mount points are recovered exactly from the escaped
    form the kernel prints them in. *)
Theorem mount_escapes_roundtrip s : valid_utf8 s = true -> unescape_mount_field (mangle s) = s.
Proof.
  intros Hv. unfold unescape_mount_field. destruct (existsb _ _) eqn:E; cbn [negb].
  - rewrite unescape_mangle by apply mangle_length. by apply lossy_valid.
  - by apply mangle_plain.
Qed.

(** C39: A hung file system costs one thread: whatever the interleaving of reads,
    thread exits and mount-table refreshes, no two outstanding read threads are
    on the same mount, and a mount with an outstanding thread is not read again:
    the call returns nothing and starts no thread. *)
Theorem one_reader_per_mount steps m i spawned recv :
  let r := fold_left space_step steps space_reader_new in
  NoDup (sr_threads r).*1 /\
  ((m, i) ∈ sr_threads r -> space_read m spawned recv r = (None, r)).
Proof.
  cbv zeta. assert (Hwf := space_run_wf steps space_reader_new reader_wf_new).
  split; [apply (rw_one _ Hwf)|]. intros Hin. destruct (rw_thread _ Hwf _ _ Hin) as (Hf & st & Hst & Hi).
  unfold space_read, ensure_mount. rewrite Hst, Hst, Hi, Hf. done.
Qed.

(** * On concrete inputs *)

Section witnesses.
Import Examples.

Definition half_full : SpaceStats := mkSpaceStats f100 f0 f100 f0 f0.

Definition stat_text : bytes := b#"cpu 160 0 0 1040 0 0 0 0" ++ [nl].
Definition stat_before : gmap bytes CpuTimes := {[ b#"cpu" := mkCpuTimes 100 0 0 1000 0 0 0 0 ]}.

(** A full disk, and a CPU that was busy for sixty ticks of a hundred. *)
Lemma percent_gauges_bounded_witness :
  let sent := memory_collect None ++ (cpu_collect stat_before (Some stat_text)).2 ++ space_emit half_full [] in
  (exists m, m ∈ sent /\ m_name m = b#"system.disk.used_percent" /\ is_percent (m_value m)) /\
  exists m, m ∈ sent /\ m_name m = b#"system.cpu.user" /\ is_percent (m_value m).
Proof.
  assert (Hg : counters_grow stat_before (Some stat_text)).
  { unfold counters_grow. assert (Hr : omap cpu_reading (lines stat_text) = [(b#"cpu", mkCpuTimes 160 0 0 1040 0 0 0 0)])
      by (vm_compute; reflexivity).
    rewrite Hr. split; [apply NoDup_singleton|]. intros name old cur Ho Hin. apply list_elem_of_singleton in Hin.
    injection Hin as -> ->. unfold stat_before in Ho. rewrite lookup_singleton_eq in Ho. injection Ho as <-.
    repeat split; by vm_compute. }
  cbv zeta. split.
  - eexists. assert (Hin : (memory_collect None ++ (cpu_collect stat_before (Some stat_text)).2 ++ space_emit half_full [])
      !! 10%nat = Some _) by (vm_compute; reflexivity).
    apply list_elem_of_lookup_2 in Hin. split; [exact Hin|]. split; [reflexivity|].
    apply (percent_gauges_bounded None stat_before (Some stat_text) half_full [] _ eq_refl eq_refl Hin). left.
    by apply (bool_decide_unpack _).
  - eexists. assert (Hin : (memory_collect None ++ (cpu_collect stat_before (Some stat_text)).2 ++ space_emit half_full [])
      !! 0%nat = Some _) by (vm_compute; reflexivity).
    apply list_elem_of_lookup_2 in Hin. split; [exact Hin|]. split; [reflexivity|].
    apply (percent_gauges_bounded None stat_before (Some stat_text) half_full [] _ eq_refl eq_refl Hin). right.
    split; [exact Hg|]. by apply (bool_decide_unpack _).
Defined.

Definition tcp_text : bytes := b#"sl" ++ [nl] ++ b#"0: L R 01" ++ [nl].

Lemma tcp_counts_rows_witness :
  gauge_call b#"system.tcp.connections" (f64_of_N 1) [(b#"state", b#"established")]
    ∈ tcp_collect (Some tcp_text) (Some []).
Proof.
  apply (tcp_counts_rows tcp_text []); [vm_compute; discriminate|].
  exists 1%nat, b#"established". split; [by left|]. vm_compute. done.
Defined.

Definition net_text : bytes := b#"eth0: 1 2 3 4 5 6 7 8 9 10 11 12" ++ [nl].
Definition any_device : DeviceFilter := mkDeviceFilter [] [].

Lemma net_deltas_against_baseline_witness :
  net_collect any_device ∅ (Some net_text)
  = (list_to_map (omap (net_reading any_device) (lines net_text)) ∪ ∅,
     concat (map (delta_calls ∅) (omap (net_reading any_device) (lines net_text)))).
Proof.
  apply (net_deltas_against_baseline any_device ∅ net_text). vm_compute. apply NoDup_singleton.
Defined.

Lemma mount_escapes_roundtrip_witness : unescape_mount_field (mangle b#"/mnt/my disk") = b#"/mnt/my disk".
Proof. apply (mount_escapes_roundtrip b#"/mnt/my disk"). reflexivity. Defined.
End witnesses.
