(* ===== verification/EventXml.v ===== *)
(** [src/src/logs/eventlog_parse.rs]: one rendered Windows event, from its XML
    text to the log entry that is shipped, and the bookmark file of a channel.

    The XML tokenizer ([quick-xml]) is third-party: [QuickXml] is the reader the
    parser pulls from, [QuickXmlOk] that every token consumes text. The parser
    itself, a pull loop over the tokens with its section, element name, pending
    attribute and text, is [xml_loop]. *)
From S2P Require Import Prelude Str StrFacts External Text Sink Source EventFilter.
From Stdlib Require Import Strings.Byte.

(** * quick-xml *)

(** An element start is its qualified name and its attribute lookups:
    [try_get_attribute] followed by [normalized_value], [None] for an error. *)
Record BytesStart := mkBytesStart {
  el_name : bytes;
  el_attr : bytes -> option (option bytes);
}.

(** [quick_xml::events::Event]; [XOther] is a comment, a declaration, a doctype
    or a processing instruction. *)
Inductive XmlEvent :=
| XStart (e : BytesStart)
| XEmpty (e : BytesStart)
| XText (raw : bytes)
| XGeneralRef (raw : bytes)
| XCData (raw : bytes)
| XEnd (name : bytes)
| XEof
| XOther.

Class QuickXml := {
  xml_reader : Type;
  xml_from_str : bytes -> xml_reader;
  read_event : xml_reader -> option (XmlEvent * xml_reader);   (* None: an error *)
  xml_decode : bytes -> option bytes;
  xml_unescape : bytes -> option bytes;
}.

(** The reader goes forward: the text left shrinks with every token but the end
    of the document. *)
Class QuickXmlOk `{QuickXml} := {
  xml_left : xml_reader -> nat;
  xml_left_start : forall s, (xml_left (xml_from_str s) <= length s)%nat;
  xml_left_step : forall r ev r', read_event r = Some (ev, r') -> ev <> XEof ->
    (xml_left r' < xml_left r)%nat;
}.

(** * Constants *)

Definition AUDIT_FAILURE : N := 0x8010000000000000.
Definition AUDIT_SUCCESS : N := 0x8020000000000000.
Definition MAX_XML_LEN : N := 256 * 1024.
Definition SELF_PROVIDER : bytes := b#"witness".
Definition DEFAULT_QUERY : bytes :=
  b#"*[System[(Level=0 or Level=1 or Level=2 or Level=3 or Level=4)]]".

(** * Types *)

Record EventEntry := mkEventEntry {
  provider : bytes;
  event_id : bytes;
  qualifiers : bytes;
  level : option N;
  task : bytes;
  opcode : bytes;
  keywords : bytes;
  version : bytes;
  time_created : bytes;
  computer : bytes;
  channel : bytes;
  record_id : bytes;
  activity_id : bytes;
  related_activity_id : bytes;
  process_id : bytes;
  thread_id : bytes;
  user_sid : bytes;
  data : list (option bytes * bytes);
}.

#[global] Instance EventEntry_eq_dec : EqDecision EventEntry.
Proof. solve_decision. Defined.

Definition entry_default : EventEntry :=
  mkEventEntry [] [] [] None [] [] [] [] [] [] [] [] [] [] [] [] [] [].

Inductive ProcessResult := Handled | ChannelFull | ParseFailed.

Definition default_query : bytes := DEFAULT_QUERY.

Definition effective_query (configured : option bytes) : bytes :=
  match configured with Some q => q | None => DEFAULT_QUERY end.

(** * Severity *)

Definition level_of (level : option N) : LogLevel :=
  match level with
  | Some 1 => Critical
  | Some 2 => Error
  | Some 3 => Warning
  | Some 5 => Debug
  | _ => Info
  end.

Definition parse_keywords_hex (s : bytes) : option N :=
  let hex := trim s in
  match strip_prefix b#"0x" hex with
  | Some h => parse_uint 16 u64_max h
  | None =>
    match strip_prefix b#"0X" hex with
    | Some h => parse_uint 16 u64_max h
    | None => None
    end
  end.

Definition resolve_severity (entry : EventEntry) : LogLevel * option bytes :=
  match parse_keywords_hex (keywords entry) with
  | Some kw =>
    if N.land kw AUDIT_FAILURE =? AUDIT_FAILURE then (Error, Some b#"failure")
    else if N.land kw AUDIT_SUCCESS =? AUDIT_SUCCESS then (Info, Some b#"success")
    else (level_of (level entry), None)
  | None => (level_of (level entry), None)
  end.

Definition mask_event_id (raw : bytes) : bytes :=
  match parse_u32 raw with
  | Some n => if 0xFFFF <? n then show_N (N.land n 0xFFFF) else raw
  | None => raw
  end.

(** * Service, body and payload *)

Definition service_of (entry : EventEntry) : bytes :=
  if is_empty (provider entry) then b#"unknown" else provider entry.

(** The values of the event data that are not blank. *)
Definition body_parts (d : list (option bytes * bytes)) : list bytes :=
  omap (fun nv : option bytes * bytes =>
    let t := trim nv.2 in if is_empty t then None else Some t) d.

Definition synthesized_body (entry : EventEntry) : bytes :=
  match body_parts (data entry) with
  | first :: parts => fold_left (fun body p => body ++ b#", " ++ p) parts first
  | [] =>
    let provider := if is_empty (provider entry) then b#"unknown" else provider entry in
    provider ++ b#" event " ++ event_id entry
  end.

Definition body_of (entry : EventEntry) (formatted_message : option bytes) : bytes :=
  match formatted_message with
  | Some msg =>
    let trimmed := trim msg in
    if is_empty trimmed then synthesized_body entry else trimmed
  | None => synthesized_body entry
  end.

Definition insert_non_empty (key value : bytes) (obj : Map) : Map :=
  if is_empty value then obj else map_insert key (VString value) obj.

(** * Bookmark file *)

Definition sanitize_char (c : byte) : byte :=
  if is_alnum c || bool_decide (c = x2d) || bool_decide (c = x5f) then c else x5f.

(** One [char] at a time: every character outside ASCII becomes one [_]. *)
Definition sanitize_channel (channel : bytes) : bytes :=
  concat (map (fun p : bool * bytes =>
    match p.2 with [c] => [sanitize_char c] | _ => [x5f] end) (pieces channel)).

Definition bookmark_name (channel : bytes) : bytes :=
  b#"eventlog_bookmark_" ++ sanitize_channel channel.

(** [Path::join] on Windows: a path with a root or a drive replaces, another
    one is appended after a separator. *)
Definition is_sep (c : byte) : bool := bool_decide (c = x2f) || bool_decide (c = x5c).

Definition has_prefix_or_root (p : bytes) : bool :=
  match p with
  | c :: d :: _ => is_sep c || (is_alpha c && bool_decide (d = x3a))
  | [c] => is_sep c
  | [] => false
  end.

Definition path_join (dir name : bytes) : bytes :=
  if has_prefix_or_root name then name
  else
    match last dir with
    | None => name
    | Some c => if is_sep c then dir ++ name else dir ++ x5c :: name
    end.

Definition bookmark_path (state_dir channel : bytes) : bytes :=
  path_join state_dir (bookmark_name channel).

Definition load_bookmark (file : option bytes) : option bytes :=
  match file with
  | Some s =>
    if valid_utf8 s then let x := trim s in if is_empty x then None else Some x else None
  | None => None
  end.

Definition save_bookmark (io : CheckpointIo) (xml : bytes) (d : StateDir) : StateDir :=
  write_checkpoint io xml d.

(** * The parser *)

Inductive Section_ := SNone | SSystem | SEventData | SUserData.

#[global] Instance Section_eq_dec : EqDecision Section_.
Proof. solve_decision. Defined.

(** Everything after the first [:]. *)
Definition local_name (name : bytes) : bytes :=
  match position (fun b => bool_decide (b = x3a)) name with
  | Some i => drop (i + 1) name
  | None => name
  end.

Definition enter_section (section : Section_) (local : bytes) : Section_ :=
  if bool_decide (local = b#"System") then SSystem
  else if bool_decide (local = b#"EventData") then SEventData
  else if bool_decide (local = b#"UserData") then SUserData
  else section.

Definition attr (e : BytesStart) (name : bytes) : option (option bytes) := el_attr e name.

(** The new value of the field; [None] is an attribute error. *)
Definition set_from_attr (e : BytesStart) (name field : bytes) : option bytes :=
  match attr e name with
  | Some (Some v) => Some v
  | Some None => Some field
  | None => None
  end.

(** Field updates of the entry, one per field the parser assigns. *)
Definition with_provider v x := mkEventEntry v (event_id x) (qualifiers x) (level x) (task x) (opcode x) (keywords x) (version x) (time_created x) (computer x) (channel x) (record_id x) (activity_id x) (related_activity_id x) (process_id x) (thread_id x) (user_sid x) (data x).
Definition with_event_id v x := mkEventEntry (provider x) v (qualifiers x) (level x) (task x) (opcode x) (keywords x) (version x) (time_created x) (computer x) (channel x) (record_id x) (activity_id x) (related_activity_id x) (process_id x) (thread_id x) (user_sid x) (data x).
Definition with_qualifiers v x := mkEventEntry (provider x) (event_id x) v (level x) (task x) (opcode x) (keywords x) (version x) (time_created x) (computer x) (channel x) (record_id x) (activity_id x) (related_activity_id x) (process_id x) (thread_id x) (user_sid x) (data x).
Definition with_level v x := mkEventEntry (provider x) (event_id x) (qualifiers x) v (task x) (opcode x) (keywords x) (version x) (time_created x) (computer x) (channel x) (record_id x) (activity_id x) (related_activity_id x) (process_id x) (thread_id x) (user_sid x) (data x).
Definition with_task v x := mkEventEntry (provider x) (event_id x) (qualifiers x) (level x) v (opcode x) (keywords x) (version x) (time_created x) (computer x) (channel x) (record_id x) (activity_id x) (related_activity_id x) (process_id x) (thread_id x) (user_sid x) (data x).
Definition with_opcode v x := mkEventEntry (provider x) (event_id x) (qualifiers x) (level x) (task x) v (keywords x) (version x) (time_created x) (computer x) (channel x) (record_id x) (activity_id x) (related_activity_id x) (process_id x) (thread_id x) (user_sid x) (data x).
Definition with_keywords v x := mkEventEntry (provider x) (event_id x) (qualifiers x) (level x) (task x) (opcode x) v (version x) (time_created x) (computer x) (channel x) (record_id x) (activity_id x) (related_activity_id x) (process_id x) (thread_id x) (user_sid x) (data x).
Definition with_version v x := mkEventEntry (provider x) (event_id x) (qualifiers x) (level x) (task x) (opcode x) (keywords x) v (time_created x) (computer x) (channel x) (record_id x) (activity_id x) (related_activity_id x) (process_id x) (thread_id x) (user_sid x) (data x).
Definition with_time_created v x := mkEventEntry (provider x) (event_id x) (qualifiers x) (level x) (task x) (opcode x) (keywords x) (version x) v (computer x) (channel x) (record_id x) (activity_id x) (related_activity_id x) (process_id x) (thread_id x) (user_sid x) (data x).
Definition with_computer v x := mkEventEntry (provider x) (event_id x) (qualifiers x) (level x) (task x) (opcode x) (keywords x) (version x) (time_created x) v (channel x) (record_id x) (activity_id x) (related_activity_id x) (process_id x) (thread_id x) (user_sid x) (data x).
Definition with_channel v x := mkEventEntry (provider x) (event_id x) (qualifiers x) (level x) (task x) (opcode x) (keywords x) (version x) (time_created x) (computer x) v (record_id x) (activity_id x) (related_activity_id x) (process_id x) (thread_id x) (user_sid x) (data x).
Definition with_record_id v x := mkEventEntry (provider x) (event_id x) (qualifiers x) (level x) (task x) (opcode x) (keywords x) (version x) (time_created x) (computer x) (channel x) v (activity_id x) (related_activity_id x) (process_id x) (thread_id x) (user_sid x) (data x).
Definition with_activity_ids a r x := mkEventEntry (provider x) (event_id x) (qualifiers x) (level x) (task x) (opcode x) (keywords x) (version x) (time_created x) (computer x) (channel x) (record_id x) a r (process_id x) (thread_id x) (user_sid x) (data x).
Definition with_execution p t x := mkEventEntry (provider x) (event_id x) (qualifiers x) (level x) (task x) (opcode x) (keywords x) (version x) (time_created x) (computer x) (channel x) (record_id x) (activity_id x) (related_activity_id x) p t (user_sid x) (data x).
Definition with_user_sid v x := mkEventEntry (provider x) (event_id x) (qualifiers x) (level x) (task x) (opcode x) (keywords x) (version x) (time_created x) (computer x) (channel x) (record_id x) (activity_id x) (related_activity_id x) (process_id x) (thread_id x) v (data x).
Definition push_data nv x := mkEventEntry (provider x) (event_id x) (qualifiers x) (level x) (task x) (opcode x) (keywords x) (version x) (time_created x) (computer x) (channel x) (record_id x) (activity_id x) (related_activity_id x) (process_id x) (thread_id x) (user_sid x) (data x ++ [nv]).

(** The entry and the pending [Data] attribute after an element opens; [None]
    is an attribute error. *)
Definition on_open (e : BytesStart) (local : bytes) (section : Section_) (entry : EventEntry)
    (data_attr_name : option (option bytes)) : option (EventEntry * option (option bytes)) :=
  match section with
  | SSystem =>
    if bool_decide (local = b#"Provider") then
      v ← set_from_attr e b#"Name" (provider entry);
      Some (with_provider v entry, data_attr_name)
    else if bool_decide (local = b#"EventID") then
      v ← set_from_attr e b#"Qualifiers" (qualifiers entry);
      Some (with_qualifiers v entry, data_attr_name)
    else if bool_decide (local = b#"TimeCreated") then
      v ← set_from_attr e b#"SystemTime" (time_created entry);
      Some (with_time_created v entry, data_attr_name)
    else if bool_decide (local = b#"Correlation") then
      a ← set_from_attr e b#"ActivityID" (activity_id entry);
      r ← set_from_attr e b#"RelatedActivityID" (related_activity_id entry);
      Some (with_activity_ids a r entry, data_attr_name)
    else if bool_decide (local = b#"Execution") then
      p ← set_from_attr e b#"ProcessID" (process_id entry);
      t ← set_from_attr e b#"ThreadID" (thread_id entry);
      Some (with_execution p t entry, data_attr_name)
    else if bool_decide (local = b#"Security") then
      v ← set_from_attr e b#"UserID" (user_sid entry);
      Some (with_user_sid v entry, data_attr_name)
    else Some (entry, data_attr_name)
  | SEventData =>
    if bool_decide (local = b#"Data") then
      n ← attr e b#"Name";
      Some (entry, Some n)
    else Some (entry, data_attr_name)
  | _ => Some (entry, data_attr_name)
  end.

(** The entry, the pending attribute and the number of unnamed values after an
    element closes with the text [text]. *)
Definition on_close (local : bytes) (section : Section_) (text : bytes) (entry : EventEntry)
    (data_attr_name : option (option bytes)) (unnamed_count : N)
    : EventEntry * option (option bytes) * N :=
  let trimmed := trim text in
  match section with
  | SSystem =>
    let entry' :=
      if bool_decide (local = b#"EventID") then with_event_id (mask_event_id trimmed) entry
      else if bool_decide (local = b#"Level") then with_level (parse_u8 trimmed) entry
      else if bool_decide (local = b#"Task") then with_task trimmed entry
      else if bool_decide (local = b#"Opcode") then with_opcode trimmed entry
      else if bool_decide (local = b#"Keywords") then with_keywords trimmed entry
      else if bool_decide (local = b#"Version") then with_version trimmed entry
      else if bool_decide (local = b#"EventRecordID") then with_record_id trimmed entry
      else if bool_decide (local = b#"Channel") then with_channel trimmed entry
      else if bool_decide (local = b#"Computer") then with_computer trimmed entry
      else entry in
    (entry', data_attr_name, unnamed_count)
  | SEventData =>
    if bool_decide (local = b#"Data") then
      match data_attr_name with
      | Some (Some n) => (push_data (Some n, trimmed) entry, None, unnamed_count)
      | _ =>
        let c := wrap32 (unnamed_count + 1) in
        (push_data (Some (b#"param" ++ show_N c), trimmed) entry, None, c)
      end
    else (entry, data_attr_name, unnamed_count)
  | SUserData =>
    if negb (bool_decide (local = b#"UserData")) && negb (is_empty trimmed) then
      (push_data (Some (from_utf8_lossy local), trimmed) entry, data_attr_name, unnamed_count)
    else (entry, data_attr_name, unnamed_count)
  | SNone => (entry, data_attr_name, unnamed_count)
  end.

(** The local variables of [parse_event_xml]. *)
Record XmlState := mkXmlState {
  x_entry : EventEntry;
  x_section : Section_;
  x_cur_name : bytes;
  x_data_attr : option (option bytes);
  x_unnamed : N;
  x_text : bytes;
}.

Definition xml_state_new : XmlState := mkXmlState entry_default SNone [] None 0 [].

Inductive ParseOutcome := Parsed (entry : EventEntry) | XmlError | OutOfFuel.

Section parser.
Context `{QuickXml, Lowercase}.

(** One turn of the loop on a token that is not the end; [None] is an error. *)
Definition xml_step (ev : XmlEvent) (st : XmlState) : option XmlState :=
  match ev with
  | XStart e =>
    let local := local_name (el_name e) in
    let section := enter_section (x_section st) local in
    '(entry, da) ← on_open e local section (x_entry st) (x_data_attr st);
    Some (mkXmlState entry section local da (x_unnamed st) [])
  | XEmpty e =>
    let local := local_name (el_name e) in
    let section := enter_section (x_section st) local in
    '(entry, da) ← on_open e local section (x_entry st) (x_data_attr st);
    let '(entry, da, n) := on_close local section [] entry da (x_unnamed st) in
    Some (mkXmlState entry section (x_cur_name st) da n [])
  | XText raw =>
    let text := match xml_decode raw with Some t => x_text st ++ t | None => x_text st end in
    Some (mkXmlState (x_entry st) (x_section st) (x_cur_name st) (x_data_attr st) (x_unnamed st) text)
  | XGeneralRef raw =>
    let text :=
      match xml_decode raw with
      | Some name =>
        match xml_unescape (b#"&" ++ name ++ b#";") with
        | Some resolved => x_text st ++ resolved
        | None => x_text st
        end
      | None => x_text st
      end in
    Some (mkXmlState (x_entry st) (x_section st) (x_cur_name st) (x_data_attr st) (x_unnamed st) text)
  | XCData raw =>
    Some (mkXmlState (x_entry st) (x_section st) (x_cur_name st) (x_data_attr st) (x_unnamed st)
            (x_text st ++ from_utf8_lossy raw))
  | XEnd name =>
    let local := local_name name in
    let '(entry, da, n) :=
      if bool_decide (local = x_cur_name st)
      then on_close local (x_section st) (x_text st) (x_entry st) (x_data_attr st) (x_unnamed st)
      else (x_entry st, x_data_attr st, x_unnamed st) in
    Some (mkXmlState entry (x_section st) [] da n [])
  | XEof | XOther => Some st
  end.

Fixpoint xml_loop (fuel : nat) (r : xml_reader) (st : XmlState) : ParseOutcome :=
  match fuel with
  | O => OutOfFuel
  | S fuel' =>
    match read_event r with
    | None => XmlError
    | Some (XEof, _) => Parsed (x_entry st)
    | Some (ev, r') =>
      match xml_step ev st with
      | Some st' => xml_loop fuel' r' st'
      | None => XmlError
      end
    end
  end.

(** The fuel is one more than the tokens the text can hold. *)
Definition parse_event_xml (xml : bytes) : ParseOutcome :=
  xml_loop (S (length xml)) (xml_from_str xml) xml_state_new.

Definition system_fields (entry : EventEntry) : list (bytes * bytes) :=
  [(b#"task", task entry); (b#"opcode", opcode entry); (b#"keywords", keywords entry);
   (b#"version", version entry); (b#"channel", channel entry); (b#"computer", computer entry);
   (b#"record_id", record_id entry); (b#"time_created", time_created entry);
   (b#"activity_id", activity_id entry); (b#"related_activity_id", related_activity_id entry);
   (b#"process_id", process_id entry); (b#"thread_id", thread_id entry);
   (b#"user_sid", user_sid entry)].

Definition build_payload (entry : EventEntry) (outcome : option bytes) : option Value :=
  let obj := insert_non_empty b#"provider" (provider entry) [] in
  let obj := insert_non_empty b#"event_id" (event_id entry) obj in
  let obj := insert_non_empty b#"qualifiers" (qualifiers entry) obj in
  let obj :=
    match level entry with
    | Some l => map_insert b#"level" (VNumber (PosInt l)) obj
    | None => obj
    end in
  let obj := fold_left (fun obj kv => insert_non_empty kv.1 kv.2 obj) (system_fields entry) obj in
  let obj :=
    match outcome with
    | Some o => map_insert b#"outcome" (VString o) obj
    | None => obj
    end in
  let obj := fold_left (fun obj (nv : option bytes * bytes) =>
    match nv.1 with
    | Some n => map_or_insert (str_to_lowercase n) (VString nv.2) obj
    | None => obj
    end) (data entry) obj in
  if is_empty obj then None else Some (VObject obj).

Context {S : Type} `{LogSink S}.

(** The log entry an event becomes. *)
Definition log_entry_of (entry : EventEntry) (formatted_message : option bytes) : LogEntry :=
  let '(level, outcome) := resolve_severity entry in
  mkLogEntry level (body_of entry formatted_message) None (Some (service_of entry))
    (build_payload entry outcome).

Definition process_entry (xml : bytes) (formatted_message : option bytes)
    (filter : EventFilter.EventFilter) (sink : S) : ProcessResult * S :=
  if MAX_XML_LEN <? len xml then (ParseFailed, sink)
  else
    match parse_event_xml xml with
    | Parsed entry =>
      if bool_decide (provider entry = SELF_PROVIDER) then (Handled, sink)
      else if EventFilter.excludes filter (provider entry) (event_id entry) then (Handled, sink)
      else
        let '(sink', ok) := try_log_with_service sink (log_entry_of entry formatted_message) in
        if ok then (Handled, sink') else (ChannelFull, sink')
    | _ => (ParseFailed, sink)
    end.
End parser.
