(* ===== verification/EventXmlFacts.v ===== *)
(** Properties of the event parser: it always returns, documents in the schema's
    shape are read back field by field, the payload and the bookmark file. *)
From S2P Require Import Prelude Str StrFacts External Text Sink SinkFacts Source EventFilter EventXml.
From Stdlib Require Import Strings.Byte.

(** * Runs of the loop *)

Section runs.
Context `{QuickXml}.

(** The loop ends before the fuel does. *)
Lemma xml_loop_total `{!QuickXmlOk} fuel r st :
  (xml_left r < fuel)%nat -> xml_loop fuel r st <> OutOfFuel.
Proof.
  revert r st. induction fuel as [|fuel IH]; intros r st Hf; [lia|]. cbn [xml_loop].
  destruct (read_event r) as [[ev r']|] eqn:E; [|done].
  assert (Hstep : ev <> XEof -> (xml_left r' < fuel)%nat)
    by (intros Hne; assert (Hs := xml_left_step r ev r' E Hne); lia).
  destruct ev; try done; (destruct (xml_step _ st); [apply IH, Hstep; done|done]).
Qed.

(** The tokens a reader gives before the end of the document. *)
Inductive yields : xml_reader -> list XmlEvent -> Prop :=
| yields_eof r r' : read_event r = Some (XEof, r') -> yields r []
| yields_cons r ev r' evs :
    read_event r = Some (ev, r') -> ev <> XEof -> yields r' evs -> yields r (ev :: evs).

Fixpoint xml_steps (evs : list XmlEvent) (st : XmlState) : option XmlState :=
  match evs with
  | [] => Some st
  | ev :: evs => st' ← xml_step ev st; xml_steps evs st'
  end.

Lemma xml_steps_app a b st : xml_steps (a ++ b) st = (st' ← xml_steps a st; xml_steps b st').
Proof.
  revert st. induction a as [|ev a IH]; intros st; cbn; [done|].
  destruct (xml_step ev st); cbn; [apply IH|done].
Qed.

Lemma yields_left `{!QuickXmlOk} r evs : yields r evs -> (length evs <= xml_left r)%nat.
Proof.
  induction 1 as [|r ev r' evs E Hne _ IH]; cbn; [lia|].
  assert (Hs := xml_left_step r ev r' E Hne). lia.
Qed.

Lemma xml_loop_yields fuel r evs st st' :
  yields r evs -> (length evs < fuel)%nat -> xml_steps evs st = Some st' ->
  xml_loop fuel r st = Parsed (x_entry st').
Proof.
  intros Hy. revert fuel st. induction Hy as [r r' E|r ev r' evs E Hne Hy IH]; intros fuel st Hf Hs.
  - destruct fuel; [cbn in Hf; lia|]. cbn in *. rewrite E. congruence.
  - destruct fuel as [|fuel]; [cbn in Hf; lia|]. cbn [xml_loop xml_steps length] in *. rewrite E.
    destruct (xml_step ev st) as [s1|] eqn:Es; cbn in Hs; [|done].
    destruct ev; try done; (apply IH; [lia|done]).
Qed.

Lemma parse_yields `{!QuickXmlOk} xml evs st' :
  yields (xml_from_str xml) evs -> xml_steps evs xml_state_new = Some st' ->
  parse_event_xml xml = Parsed (x_entry st').
Proof.
  intros Hy Hs. eapply xml_loop_yields; [done| |done].
  assert (Hl := yields_left _ _ Hy). assert (Hx := xml_left_start xml). lia.
Qed.

(** * Text *)

(** What a run of character data spells: literal text, references, CDATA. *)
Definition spells (ev : XmlEvent) (t : bytes) : Prop :=
  match ev with
  | XText raw => xml_decode raw = Some t
  | XGeneralRef raw => exists name, xml_decode raw = Some name /\ xml_unescape (b#"&" ++ name ++ b#";") = Some t
  | XCData raw => valid_utf8 raw = true /\ t = raw
  | XOther => t = []
  | _ => False
  end.

Definition spelled (evs : list XmlEvent) (v : bytes) : Prop :=
  exists ts, Forall2 spells evs ts /\ v = concat ts.

Definition with_text st t :=
  mkXmlState (x_entry st) (x_section st) (x_cur_name st) (x_data_attr st) (x_unnamed st) (x_text st ++ t).

Lemma with_text_text st a b : with_text (with_text st a) b = with_text st (a ++ b).
Proof. unfold with_text. cbn. by rewrite app_assoc. Qed.

Lemma spells_step ev t st : spells ev t -> xml_step ev st = Some (with_text st t).
Proof.
  unfold with_text. destruct ev; cbn [spells xml_step]; try done.
  - by intros ->.
  - intros (name & -> & Hu). by rewrite Hu.
  - intros [Hv ->]. by rewrite lossy_valid.
  - intros ->. rewrite app_nil_r. by destruct st.
Qed.

Lemma spelled_steps evs v st : spelled evs v -> xml_steps evs st = Some (with_text st v).
Proof.
  intros (ts & Hf & ->). revert st. induction Hf as [|ev t evs ts Ht Hf IH]; intros st; cbn.
  - unfold with_text. rewrite app_nil_r. by destruct st.
  - rewrite (spells_step _ _ _ Ht). cbn. rewrite IH. by rewrite with_text_text.
Qed.
End runs.

(** * Documents in the event schema *)

Section document.
Context `{QuickXml, !QuickXmlOk}.

(** How names are qualified and how character data is written: with any
    namespace prefix, in any mixture of literal text, references and CDATA. *)
Variable qualified : bytes -> bytes.
Hypothesis qualified_local : forall n, x3a ∉ n -> local_name (qualified n) = n.
Variable chars : bytes -> list XmlEvent.

(** Attributes with an empty value are left out. *)
Fixpoint attrs (l : list (bytes * bytes)) (name : bytes) : option (option bytes) :=
  match l with
  | [] => Some None
  | (k, v) :: l => if bool_decide (k = name) && negb (is_empty v) then Some (Some v) else attrs l name
  end.

Definition open_tag (n : bytes) (l : list (bytes * bytes)) : BytesStart :=
  mkBytesStart (qualified n) (attrs l).

Definition leaf_attr (n : bytes) (a : bytes -> option (option bytes)) (v : bytes) : list XmlEvent :=
  XStart (mkBytesStart (qualified n) a) :: chars v ++ [XEnd (qualified n)].

Definition leaf (n : bytes) (l : list (bytes * bytes)) (v : bytes) : list XmlEvent :=
  leaf_attr n (attrs l) v.

Definition data_elem (nv : option bytes * bytes) : list XmlEvent :=
  leaf b#"Data" match nv.1 with Some n => [(b#"Name", n)] | None => [] end nv.2.

Definition system_elems (x : EventEntry) : list XmlEvent :=
  [XEmpty (open_tag b#"Provider" [(b#"Name", provider x)])]
  ++ leaf b#"EventID" [(b#"Qualifiers", qualifiers x)] (event_id x)
  ++ leaf b#"Version" [] (version x)
  ++ match level x with Some l => leaf b#"Level" [] (show_N l) | None => [] end
  ++ leaf b#"Task" [] (task x)
  ++ leaf b#"Opcode" [] (opcode x)
  ++ leaf b#"Keywords" [] (keywords x)
  ++ [XEmpty (open_tag b#"TimeCreated" [(b#"SystemTime", time_created x)])]
  ++ leaf b#"EventRecordID" [] (record_id x)
  ++ [XEmpty (open_tag b#"Correlation" [(b#"ActivityID", activity_id x); (b#"RelatedActivityID", related_activity_id x)])]
  ++ [XEmpty (open_tag b#"Execution" [(b#"ProcessID", process_id x); (b#"ThreadID", thread_id x)])]
  ++ leaf b#"Channel" [] (channel x)
  ++ leaf b#"Computer" [] (computer x)
  ++ [XEmpty (open_tag b#"Security" [(b#"UserID", user_sid x)])].

Definition document (x : EventEntry) : list XmlEvent :=
  [XStart (open_tag b#"Event" []); XStart (open_tag b#"System" [])]
  ++ system_elems x
  ++ [XEnd (qualified b#"System"); XStart (open_tag b#"EventData" [])]
  ++ concat (map data_elem (data x))
  ++ [XEnd (qualified b#"EventData"); XEnd (qualified b#"Event")].

(** Unnamed values are numbered in order. *)
Fixpoint number_params (n : N) (l : list (option bytes * bytes)) : list (option bytes * bytes) :=
  match l with
  | [] => []
  | (Some name, v) :: l => (Some name, v) :: number_params n l
  | (None, v) :: l => (Some (b#"param" ++ show_N (wrap32 (n + 1))), v) :: number_params (wrap32 (n + 1)) l
  end.

Definition with_data d x := mkEventEntry (provider x) (event_id x) (qualifiers x) (level x) (task x) (opcode x) (keywords x) (version x) (time_created x) (computer x) (channel x) (record_id x) (activity_id x) (related_activity_id x) (process_id x) (thread_id x) (user_sid x) d.

(** Values as they are stored: trimmed, the identifier masked, the level a
    byte. *)
Record entry_wf (x : EventEntry) : Prop := {
  wf_id : mask_event_id (trim (event_id x)) = event_id x;
  wf_level : match level x with Some l => l <= 255 | None => True end;
  wf_texts : Forall (fun v => trim v = v)
    [version x; task x; opcode x; keywords x; record_id x; channel x; computer x];
  wf_data : Forall (fun nv : option bytes * bytes => trim nv.2 = nv.2 /\ nv.1 <> Some []) (data x);
}.

(** The texts of the elements of an entry, and that the character data of the
    document spells them. *)
Definition texts (x : EventEntry) : list bytes :=
  [event_id x; version x; task x; opcode x; keywords x; record_id x; channel x; computer x]
  ++ match level x with Some l => [show_N l] | None => [] end ++ map snd (data x).

Definition spells_texts (l : list bytes) : Prop := Forall (fun v => spelled (chars v) v) l.

Definition plain (n : bytes) : Prop := x3a ∉ n.

Lemma leaf_steps n a v st :
  plain n -> spelled (chars v) v ->
  xml_steps (leaf_attr n a v) st =
    ('(entry, da) ← on_open (mkBytesStart (qualified n) a) n (enter_section (x_section st) n) (x_entry st) (x_data_attr st);
     let '(entry', da', c) := on_close n (enter_section (x_section st) n) v entry da (x_unnamed st) in
     Some (mkXmlState entry' (enter_section (x_section st) n) [] da' c [])).
Proof.
  intros Hn Hsp. unfold leaf_attr. cbn [xml_steps xml_step el_name].
  rewrite qualified_local by done.
  destruct (on_open _ _ _ _ _) as [[entry da]|]; cbn [mbind option_bind]; [|done].
  rewrite xml_steps_app, (spelled_steps _ _ _ Hsp).
  cbn [mbind option_bind xml_steps xml_step with_text x_entry x_section x_cur_name x_data_attr x_unnamed x_text app].
  rewrite qualified_local by done. rewrite bool_decide_eq_true_2 by done.
  by destruct (on_close _ _ _ _ _ _) as [[entry' da'] c].
Qed.

Lemma empty_steps n a st :
  plain n ->
  xml_step (XEmpty (mkBytesStart (qualified n) a)) st =
    ('(entry, da) ← on_open (mkBytesStart (qualified n) a) n (enter_section (x_section st) n) (x_entry st) (x_data_attr st);
     let '(entry', da', c) := on_close n (enter_section (x_section st) n) [] entry da (x_unnamed st) in
     Some (mkXmlState entry' (enter_section (x_section st) n) (x_cur_name st) da' c [])).
Proof. intros Hn. unfold xml_step. cbn [el_name]. by rewrite qualified_local. Qed.

Lemma set_from_attr_one n k v : set_from_attr (mkBytesStart n (attrs [(k, v)])) k [] = Some v.
Proof.
  unfold set_from_attr, attr. cbn [el_attr attrs]. rewrite bool_decide_eq_true_2 by done. by destruct v.
Qed.

Lemma set_from_attr_fst n k v k' v' :
  k' <> k -> set_from_attr (mkBytesStart n (attrs [(k, v); (k', v')])) k [] = Some v.
Proof.
  intros Hk. unfold set_from_attr, attr. cbn [el_attr attrs].
  rewrite bool_decide_eq_true_2, bool_decide_eq_false_2 by done. by destruct v.
Qed.

Lemma set_from_attr_snd n k v k' v' :
  k <> k' -> set_from_attr (mkBytesStart n (attrs [(k, v); (k', v')])) k' [] = Some v'.
Proof.
  intros Hk. unfold set_from_attr, attr. cbn [el_attr attrs].
  rewrite bool_decide_eq_false_2, bool_decide_eq_true_2 by done. by destruct v'.
Qed.

(** Compare the closed names of the goal. *)
Ltac compare_names :=
  repeat match goal with
  | |- context [bool_decide (?a = ?b)] =>
    let r := eval vm_compute in (bool_decide (a = b)) in
    match r with true => idtac | false => idtac end;
    change (bool_decide (a = b)) with r
  end; cbn [mbind option_bind andb orb negb].

Ltac plain_name := unfold plain; vm_compute; set_solver.

(** One element of the section: its tags are compared with the names of the
    parser, its text and attributes are assigned. *)
Ltac element :=
  rewrite ?xml_steps_app;
  first [rewrite leaf_steps by first [eassumption | plain_name] | cbn [xml_steps]; rewrite empty_steps by plain_name];
  unfold enter_section, on_open, on_close; cbn [x_section x_entry x_data_attr x_unnamed x_cur_name];
  compare_names;
  cbn [provider qualifiers time_created activity_id related_activity_id process_id thread_id user_sid
       with_provider with_qualifiers with_event_id with_level with_version with_task with_opcode with_keywords
       with_time_created with_record_id with_activity_ids with_execution with_channel with_computer with_user_sid
       entry_default event_id level task opcode keywords version computer channel record_id data];
  first [rewrite set_from_attr_one | rewrite set_from_attr_fst, set_from_attr_snd by (by vm_compute) | idtac];
  cbn [mbind option_bind x_section x_entry x_data_attr x_unnamed x_cur_name];
  repeat match goal with E : trim _ = _ |- _ => rewrite E end.

Lemma system_steps x cur da c t :
  entry_wf x -> spells_texts (texts x) ->
  xml_steps (system_elems x) (mkXmlState entry_default SSystem cur da c t)
  = Some (mkXmlState (with_data [] x) SSystem [] da c []).
Proof.
  intros [Hid Hlv Ht _] Hsp. repeat (apply Forall_cons in Ht as [?Ht Ht]). clear Ht.
  unfold spells_texts, texts in Hsp. cbn [app] in Hsp. do 8 (apply Forall_cons in Hsp as [?Hs Hsp]).
  apply Forall_app in Hsp as [Hsl _].
  unfold system_elems, leaf, open_tag. element. element. rewrite Hid. element.
  destruct (level x) as [l|] eqn:El.
  - apply Forall_inv in Hsl. element. rewrite trim_graphic by apply show_N_graphic. unfold parse_u8. rewrite parse_uint_show by done.
    do 10 element. cbn [xml_steps]. unfold with_data. by rewrite El.
  - rewrite app_nil_l. do 10 element. cbn [xml_steps]. unfold with_data. by rewrite El.
Qed.

Lemma data_step nv x cur c t :
  trim nv.2 = nv.2 /\ nv.1 <> Some [] -> spelled (chars nv.2) nv.2 ->
  xml_steps (data_elem nv) (mkXmlState x SEventData cur None c t)
  = Some (let c' := match nv.1 with Some _ => c | None => wrap32 (c + 1) end in
          mkXmlState (with_data (data x ++ number_params c [nv]) x) SEventData [] None c' []).
Proof.
  intros [Ht Hn] Hsp. unfold data_elem, leaf. rewrite leaf_steps by first [eassumption | plain_name].
  unfold enter_section, on_open, on_close, attr. cbn [x_section x_entry x_data_attr x_unnamed el_attr].
  compare_names. rewrite Ht. destruct nv as [[[|ch n]|] v]; by cbn [fst attrs].
Qed.

Lemma data_steps d x cur c t :
  Forall (fun nv : option bytes * bytes => trim nv.2 = nv.2 /\ nv.1 <> Some []) d -> spells_texts (map snd d) ->
  exists cur' c' t', xml_steps (concat (map data_elem d)) (mkXmlState x SEventData cur None c t)
    = Some (mkXmlState (with_data (data x ++ number_params c d) x) SEventData cur' None c' t').
Proof.
  intros Hd. revert x cur c t. induction Hd as [|nv d Hnv Hd IH]; intros x cur c t Hsp; cbn [map concat].
  - exists cur, c, t. cbn [xml_steps number_params]. unfold with_data. rewrite app_nil_r. by destruct x.
  - apply Forall_cons in Hsp as [Hs Hsp]. rewrite xml_steps_app, data_step by done. cbn [mbind option_bind].
    destruct (IH (with_data (data x ++ number_params c [nv]) x) []
      match nv.1 with Some _ => c | None => wrap32 (c + 1) end [] Hsp) as (cur' & c' & t' & E).
    exists cur', c', t'. rewrite E. unfold with_data. cbn [data]. rewrite <- app_assoc.
    by destruct nv as [[n|] v].
Qed.

(** The tags of the containers. *)
Lemma open_system_steps :
  xml_steps [XStart (open_tag b#"Event" []); XStart (open_tag b#"System" [])] xml_state_new
  = Some (mkXmlState entry_default SSystem b#"System" None 0 []).
Proof. cbn [xml_steps xml_step el_name open_tag]. by rewrite !qualified_local by plain_name. Qed.

Lemma open_data_steps x :
  xml_steps [XEnd (qualified b#"System"); XStart (open_tag b#"EventData" [])]
    (mkXmlState x SSystem [] None 0 [])
  = Some (mkXmlState x SEventData b#"EventData" None 0 []).
Proof. cbn [xml_steps xml_step el_name open_tag]. by rewrite !qualified_local by plain_name. Qed.

Lemma close_data_steps x cur c t :
  exists st, xml_steps [XEnd (qualified b#"EventData"); XEnd (qualified b#"Event")]
      (mkXmlState x SEventData cur None c t) = Some st /\ x_entry st = x.
Proof.
  cbn [xml_steps xml_step x_section x_entry x_data_attr x_unnamed x_cur_name].
  rewrite !qualified_local by plain_name. unfold on_close. compare_names.
  case_if; by eexists.
Qed.

Lemma document_steps x :
  entry_wf x -> spells_texts (texts x) ->
  exists st, xml_steps (document x) xml_state_new = Some st /\
    x_entry st = with_data (number_params 0 (data x)) x.
Proof.
  intros Hwf Hsp. unfold document. rewrite xml_steps_app, open_system_steps. cbn [mbind option_bind].
  rewrite xml_steps_app, system_steps by done. cbn [mbind option_bind].
  rewrite xml_steps_app, open_data_steps. cbn [mbind option_bind].
  destruct (data_steps (data x) (with_data [] x) b#"EventData" 0 [] (wf_data x Hwf)) as (cur & c & t & E);
    [by apply Forall_app in Hsp as [_ [_ ?]%Forall_app]|].
  rewrite xml_steps_app, E. cbn [mbind option_bind]. apply close_data_steps.
Qed.

Lemma document_parsed xml x :
  entry_wf x -> spells_texts (texts x) -> yields (xml_from_str xml) (document x) ->
  parse_event_xml xml = Parsed (with_data (number_params 0 (data x)) x).
Proof.
  intros Hwf Hsp Hy. destruct (document_steps x Hwf Hsp) as (st & Hs & <-). by eapply parse_yields.
Qed.

(** A document without event data that carries the rendering information of a
    forwarded event. *)
Definition forwarded (x : EventEntry) (level_text : bytes) : list XmlEvent :=
  [XStart (open_tag b#"Event" []); XStart (open_tag b#"System" [])]
  ++ system_elems x
  ++ [XEnd (qualified b#"System"); XStart (open_tag b#"RenderingInfo" [])]
  ++ leaf b#"Level" [] level_text
  ++ [XEnd (qualified b#"RenderingInfo"); XEnd (qualified b#"Event")].

Lemma forwarded_parsed xml x t :
  entry_wf x -> spells_texts (t :: texts x) -> yields (xml_from_str xml) (forwarded x t) ->
  parse_event_xml xml = Parsed (with_level (parse_u8 (trim t)) (with_data [] x)).
Proof.
  intros Hwf [Ht Hsp]%Forall_cons Hy.
  assert (Hs : exists st, xml_steps (forwarded x t) xml_state_new = Some st /\
    x_entry st = with_level (parse_u8 (trim t)) (with_data [] x)); [|destruct Hs as (st & Hs & <-); by eapply parse_yields].
  unfold forwarded. rewrite xml_steps_app, open_system_steps. cbn [mbind option_bind].
  rewrite xml_steps_app, system_steps by done. cbn [mbind option_bind].
  assert (Hopen : forall y, xml_steps [XEnd (qualified b#"System"); XStart (open_tag b#"RenderingInfo" [])]
      (mkXmlState y SSystem [] None 0 []) = Some (mkXmlState y SSystem b#"RenderingInfo" None 0 [])).
  { intros y. cbn [xml_steps xml_step el_name open_tag]. by rewrite !qualified_local by plain_name. }
  rewrite xml_steps_app, Hopen. cbn [mbind option_bind]. unfold leaf. element.
  cbn [xml_steps xml_step x_section x_entry x_data_attr x_unnamed x_cur_name].
  rewrite !qualified_local by plain_name. compare_names. by eexists.
Qed.
End document.

(** * The payload *)

(** The values of a payload. *)
Definition payload_get (k : bytes) (p : option Value) : option Value :=
  match p with Some (VObject m) => map_get k m | _ => None end.

Definition non_empty (v : bytes) : option Value := if is_empty v then None else Some (VString v).

(** The keys of the payload that are the agent's, with their values. *)
Definition reserved (entry : EventEntry) (outcome : option bytes) : list (bytes * option Value) :=
  [(b#"provider", non_empty (provider entry)); (b#"event_id", non_empty (event_id entry));
   (b#"qualifiers", non_empty (qualifiers entry));
   (b#"level", match level entry with Some l => Some (VNumber (PosInt l)) | None => None end)]
  ++ map (fun kv : bytes * bytes => (kv.1, non_empty kv.2)) (system_fields entry)
  ++ [(b#"outcome", match outcome with Some o => Some (VString o) | None => None end)].

Fixpoint reserved_get (k : bytes) (l : list (bytes * option Value)) : option Value :=
  match l with
  | [] => None
  | (k', v) :: l => if bool_decide (k = k') then v else reserved_get k l
  end.

Definition put (obj : Map) (kv : bytes * option Value) : Map :=
  match kv.2 with Some v => map_insert kv.1 v obj | None => obj end.

Lemma fold_put_get l obj k :
  NoDup l.*1 ->
  map_get k (fold_left put l obj)
  = match reserved_get k l with Some v => Some v | None => map_get k obj end.
Proof.
  revert obj. induction l as [|[k' v] l IH]; intros obj Hnd; [done|].
  cbn [fmap list_fmap fst fold_left reserved_get] in *. apply NoDup_cons in Hnd as [Hk Hnd].
  rewrite IH by done. unfold put. cbn [fst snd]. case_bool_decide as Heq.
  - subst k'. assert (Hn : reserved_get k l = None).
    { clear -Hk. induction l as [|[k2 v2] l IH]; [done|]. cbn in *. apply not_elem_of_cons in Hk as [? ?].
      rewrite bool_decide_eq_false_2 by done. auto. }
    rewrite Hn. destruct v; [by rewrite map_get_insert|done].
  - destruct v; [|done]. by rewrite map_get_insert_ne by congruence.
Qed.

Section payload.
Context `{Lowercase}.

(** The first pair of the event data whose name lower-cases to [k]. *)
Fixpoint data_get (k : bytes) (d : list (option bytes * bytes)) : option Value :=
  match d with
  | [] => None
  | (Some n, v) :: d => if bool_decide (str_to_lowercase n = k) then Some (VString v) else data_get k d
  | (None, _) :: d => data_get k d
  end.

Definition add_data (obj : Map) (nv : option bytes * bytes) : Map :=
  match nv.1 with
  | Some n => map_or_insert (str_to_lowercase n) (VString nv.2) obj
  | None => obj
  end.

Lemma fold_data_get d obj k :
  map_get k (fold_left add_data d obj)
  = match map_get k obj with Some v => Some v | None => data_get k d end.
Proof.
  revert obj. induction d as [|[[n|] v] d IH]; intros obj; cbn [fold_left data_get].
  - by destruct (map_get k obj).
  - rewrite IH. unfold add_data, map_or_insert. cbn [fst snd]. case_bool_decide as Hk.
    + subst k. destruct (map_get (str_to_lowercase n) obj) eqn:E; [by rewrite E|]. by rewrite map_get_insert.
    + destruct (map_get (str_to_lowercase n) obj) eqn:E; [done|]. by rewrite map_get_insert_ne.
  - apply IH.
Qed.

Lemma build_payload_fold entry outcome :
  build_payload entry outcome
  = (let obj := fold_left add_data (data entry) (fold_left put (reserved entry outcome) []) in
     if is_empty obj then None else Some (VObject obj)).
Proof.
  assert (Hput : forall k v obj, insert_non_empty k v obj = put obj (k, non_empty v))
    by (intros k v obj; unfold insert_non_empty, put, non_empty; cbn; by destruct v).
  assert (Hl : forall l obj, fold_left (fun obj kv => insert_non_empty kv.1 kv.2 obj) l obj
      = fold_left put (map (fun kv : bytes * bytes => (kv.1, non_empty kv.2)) l) obj)
    by (induction l as [|[k v] l IH]; intros obj; cbn [fold_left map fst snd]; [done|]; by rewrite Hput, IH).
  unfold build_payload, reserved. rewrite !fold_left_app, Hl, !Hput. cbv zeta. unfold put at 4 5. cbn [fold_left].
  unfold put at 8 9 10 11. cbn [fst snd]. by destruct (level entry), outcome.
Qed.
End payload.

(** * Keywords *)

Definition hex_digit (d : N) : byte := byte_of (if d <? 10 then 48 + d else 87 + d).

(** [k] hexadecimal digits, the way Windows renders the mask. *)
Fixpoint hex_digits (k : nat) (n : N) : bytes :=
  match k with
  | O => []
  | S k' => hex_digits k' (n / 16) ++ [hex_digit (n mod 16)]
  end.

Definition render_keywords (kw : N) : bytes := b#"0x" ++ hex_digits 16 kw.

Lemma hex_digit_cases (P : N -> Prop) : (forall d, In d (map N.of_nat (seq 0 16)) -> P d) -> forall d, d < 16 -> P d.
Proof.
  intros HP d Hd. apply HP. apply in_map_iff. exists (N.to_nat d). split; [lia|]. apply in_seq. lia.
Qed.

Lemma hex_digit_val d : d < 16 -> digit_val (hex_digit d) = Some d.
Proof. revert d. apply hex_digit_cases. intros d Hd. cbn in Hd. by repeat destruct Hd as [<-|Hd]. Qed.

Lemma hex_digit_graphic d : d < 16 -> in_range 33 126 (hex_digit d) = true.
Proof. revert d. apply hex_digit_cases. intros d Hd. cbn in Hd. by repeat destruct Hd as [<-|Hd]. Qed.

Lemma hex_digit_not_plus d : d < 16 -> hex_digit d <> x2b.
Proof. revert d. apply hex_digit_cases. intros d Hd. cbn in Hd. by repeat destruct Hd as [<-|Hd]. Qed.

Lemma parse_hex_digits k n max :
  n < 16 ^ N.of_nat k -> n <= max -> parse_digits 16 max 0 (hex_digits k n) = Some n.
Proof.
  revert n. induction k as [|k IH]; intros n Hn Hm; cbn [hex_digits].
  - cbn in *. f_equal. lia.
  - rewrite Nat2N.inj_succ, N.pow_succ_r' in Hn.
    assert (Hq : n / 16 < 16 ^ N.of_nat k) by (apply N.Div0.div_lt_upper_bound; lia).
    assert (Hd : n / 16 <= n) by (apply N.Div0.div_le_upper_bound; lia).
    erewrite parse_digits_app by (apply IH; lia).
    assert (Hmod := N.mod_lt n 16 ltac:(lia)). assert (Heq := N.div_mod n 16 ltac:(lia)).
    cbn [parse_digits]. rewrite hex_digit_val by done.
    replace ((n mod 16 <? 16) && (n / 16 * 16 + n mod 16 <=? max)) with true; [f_equal; lia|].
    symmetry. apply andb_true_iff. split; [apply N.ltb_lt|apply N.leb_le]; lia.
Qed.

Lemma hex_digits_all (P : byte -> Prop) k n :
  (forall d, d < 16 -> P (hex_digit d)) -> Forall P (hex_digits k n).
Proof.
  intros HP. revert n. induction k as [|k IH]; intros n; cbn [hex_digits]; [constructor|].
  apply Forall_app. split; [apply IH|]. apply Forall_singleton, HP, N.mod_lt. lia.
Qed.

Lemma parse_keywords_render kw : kw <= u64_max -> parse_keywords_hex (render_keywords kw) = Some kw.
Proof.
  intros Hkw. unfold parse_keywords_hex, render_keywords.
  rewrite trim_graphic.
  2: { apply Forall_app. split; [by repeat constructor|]. apply hex_digits_all, hex_digit_graphic. }
  rewrite (proj2 (strip_prefix_Some _ _ _) eq_refl). unfold parse_uint.
  destruct (hex_digits 16 kw) as [|c r] eqn:E.
  { apply (f_equal length) in E. cbn [hex_digits] in E. rewrite length_app in E. cbn in E. lia. }
  assert (Hc : Forall (fun c => c <> x2b) (hex_digits 16 kw)) by apply hex_digits_all, hex_digit_not_plus.
  rewrite E in Hc. apply Forall_cons in Hc as [Hc _]. rewrite bool_decide_eq_false_2 by done.
  cbn [is_empty]. rewrite <- E. apply parse_hex_digits; [|done].
  unfold u64_max in Hkw. change (16 ^ N.of_nat 16) with 18446744073709551616. lia.
Qed.

(** A mask of two bits is set when both are. *)
Lemma land_two_bits kw i j :
  i <> j ->
  (N.land kw (2 ^ i + 2 ^ j) =? 2 ^ i + 2 ^ j) = N.testbit kw i && N.testbit kw j.
Proof.
  intros Hij. assert (Hb : forall k, N.testbit (2 ^ i + 2 ^ j) k = (k =? i) || (k =? j)).
  { intros k. rewrite N.add_nocarry_lxor.
    - rewrite N.lxor_spec, !N.pow2_bits_eqb. rewrite (N.eqb_sym i k), (N.eqb_sym j k).
      destruct (N.eqb_spec k i), (N.eqb_spec k j); try done. lia.
    - apply N.bits_inj. intros m. rewrite N.land_spec, !N.pow2_bits_eqb, N.bits_0.
      destruct (N.eqb_spec i m), (N.eqb_spec j m); try done. lia. }
  destruct (N.eqb_spec (N.land kw (2 ^ i + 2 ^ j)) (2 ^ i + 2 ^ j)) as [He|He]; symmetry.
  - apply andb_true_iff.
    assert (Ht : forall k, N.testbit (N.land kw (2 ^ i + 2 ^ j)) k = N.testbit (2 ^ i + 2 ^ j) k) by by rewrite He.
    split; [specialize (Ht i)|specialize (Ht j)]; rewrite N.land_spec, Hb in Ht;
      rewrite N.eqb_refl, ?orb_true_r in Ht; cbn in Ht; by rewrite andb_true_r in Ht.
  - apply not_true_iff_false. intros [Hi Hj]%andb_true_iff. apply He, N.bits_inj. intros k.
    rewrite N.land_spec, Hb.
    destruct (N.eqb_spec k i) as [->|]; [by rewrite Hi|].
    destruct (N.eqb_spec k j) as [->|]; [by rewrite Hj|]. by rewrite andb_false_r.
Qed.

Lemma resolve_severity_bits entry kw :
  parse_keywords_hex (keywords entry) = Some kw ->
  resolve_severity entry =
    if N.testbit kw 63 && N.testbit kw 52 then (Error, Some b#"failure")
    else if N.testbit kw 63 && N.testbit kw 53 then (Info, Some b#"success")
    else (level_of (level entry), None).
Proof.
  intros Hk. unfold resolve_severity. rewrite Hk.
  assert (Hf := land_two_bits kw 63 52 ltac:(done)). assert (Hs := land_two_bits kw 63 53 ltac:(done)).
  change (2 ^ 63 + 2 ^ 52) with AUDIT_FAILURE in Hf. change (2 ^ 63 + 2 ^ 53) with AUDIT_SUCCESS in Hs.
  by rewrite Hf, Hs.
Qed.

(** * The bookmark file *)

Definition safe_byte (c : byte) : bool := is_alnum c || bool_decide (c = x2d) || bool_decide (c = x5f).

Lemma sanitize_char_safe c : safe_byte (sanitize_char c) = true.
Proof. unfold sanitize_char. case_if; [done|done]. Qed.

Lemma sanitize_channel_safe ch : Forall (fun c => safe_byte c = true) (sanitize_channel ch).
Proof.
  unfold sanitize_channel. induction (pieces ch) as [|[ok p] ps IH]; cbn [map concat]; [constructor|].
  apply Forall_app. split; [|done]. destruct p as [|c [|d p]]; cbn [snd]; (constructor; [|constructor]);
    [done|apply sanitize_char_safe|done].
Qed.

Lemma bookmark_name_safe ch : Forall (fun c => safe_byte c = true) (bookmark_name ch).
Proof. apply Forall_app. split; [by repeat constructor|apply sanitize_channel_safe]. Qed.

Lemma safe_not_elem c (s : bytes) : Forall (fun c => safe_byte c = true) s -> safe_byte c = false -> c ∉ s.
Proof. rewrite Forall_forall. intros Hs Hc Hin. apply Hs in Hin. congruence. Qed.
