(* ===== verification/EventLog.v ===== *)
(** [src/src/logs/eventlog.rs]: the Windows Event Log source. One pump per
    channel subscribes after the bookmark on disk (or to future events), pulls
    batches of events, renders and ships each, moves the bookmark and saves it
    every [BOOKMARK_SAVE_INTERVAL] events and whenever the pump stops.

    The [Evt*] functions are Windows: [EvtApi] is what the agent calls,
    [EvtApiOk] what their documentation promises of bookmarks and
    subscriptions. A run is the sequence of answers the calls gave. While the
    channel of the SDK is full the same event is retried; [ev_waits] lists what
    the SDK's worker does to the sink during each sleep, and when it is exhausted
    the cancellation has come. *)
From S2P Require Import Prelude Str StrFacts External Text Sink Source EventFilter EventXml.
From Stdlib Require Import Strings.Byte.

Definition MAX_BACKOFF : N := secs 30.
Definition WAIT_TIMEOUT_MS : N := 1000.
Definition FULL_CHANNEL_RETRY : N := 100 * 1000000.
Definition BOOKMARK_SAVE_INTERVAL : N := 100.
Definition BATCH : nat := 32.

(** * UTF-16 *)

(** [chunks_exact(2)] read as little-endian units; an odd last byte is left. *)
Fixpoint u16_units (bs : bytes) : list N :=
  match bs with
  | a :: b :: r => (bN a + 256 * bN b) :: u16_units r
  | _ => []
  end.

Fixpoint take_while_nonzero (us : list N) : list N :=
  match us with
  | u :: r => if u =? 0 then [] else u :: take_while_nonzero r
  | [] => []
  end.

Definition is_surrogate (u : N) : bool := (0xD800 <=? u) && (u <=? 0xDFFF).
Definition is_low_surrogate (u : N) : bool := (0xDC00 <=? u) && (u <=? 0xDFFF).

Definition REPLACEMENT_CHARACTER : N := 0xFFFD.

(** [char::decode_utf16] with errors replaced: an unpaired surrogate is one
    replacement character. *)
Fixpoint decode_utf16_lossy (us : list N) : list N :=
  match us with
  | [] => []
  | u :: r =>
    if negb (is_surrogate u) then u :: decode_utf16_lossy r
    else if 0xDC00 <=? u then REPLACEMENT_CHARACTER :: decode_utf16_lossy r
    else
      match r with
      | u2 :: r' =>
        if is_low_surrogate u2
        then (0x10000 + ((u - 0xD800) * 1024 + (u2 - 0xDC00))) :: decode_utf16_lossy r'
        else REPLACEMENT_CHARACTER :: decode_utf16_lossy r
      | [] => [REPLACEMENT_CHARACTER]
      end
  end.

(** [char::encode_utf8]. *)
Definition encode_utf8 (c : N) : bytes :=
  if c <? 0x80 then [byte_of c]
  else if c <? 0x800 then [byte_of (0xC0 + c / 64); byte_of (0x80 + c mod 64)]
  else if c <? 0x10000 then
    [byte_of (0xE0 + c / 4096); byte_of (0x80 + c / 64 mod 64); byte_of (0x80 + c mod 64)]
  else
    [byte_of (0xF0 + c / 262144); byte_of (0x80 + c / 4096 mod 64);
     byte_of (0x80 + c / 64 mod 64); byte_of (0x80 + c mod 64)].

Definition from_utf16_lossy (us : list N) : bytes :=
  concat (map encode_utf8 (decode_utf16_lossy us)).

Definition utf16_bytes_to_string (bs : bytes) : bytes :=
  from_utf16_lossy (take_while_nonzero (u16_units bs)).

(** * Win32 status codes *)

Definition ERROR_ACCESS_DENIED : N := 5.
Definition ERROR_NO_MORE_ITEMS : N := 259.
Definition ERROR_TIMEOUT : N := 1460.

(** [HRESULT::from_win32], as its 32 bits. *)
Definition from_win32 (code : N) : N :=
  if (code =? 0) || (0x80000000 <=? code) then code
  else N.lor (N.land code 0xFFFF) 0x80070000.

Definition is_win32 (e code : N) : bool := e =? from_win32 code.

(** * Sleeping *)

Definition STEP : N := 50 * 1000000.

(** [cancelled t] is the flag at the time [t] (nanoseconds); the result and the
    time it is returned at. *)
Fixpoint sleep_loop (fuel : nat) (cancelled : N -> bool) (remaining t : N) : bool * N :=
  match fuel with
  | O => (cancelled t, t)
  | S fuel' =>
    if 0 <? remaining then
      if cancelled t then (true, t)
      else
        let step := N.min remaining STEP in
        sleep_loop fuel' cancelled (remaining - step) (t + step)
    else (cancelled t, t)
  end.

Definition sleep_cancellable (dur : N) (cancelled : N -> bool) (t : N) : bool * N :=
  sleep_loop (S (N.to_nat (dur / STEP))) cancelled dur t.

(** * The event log API *)

Class EvtApi := {
  evt : Type;
  evt_bookmark : Type;
  evt_create_bookmark : option bytes -> option evt_bookmark;
  evt_update_bookmark : evt_bookmark -> evt -> evt_bookmark;
  evt_event_xml : evt -> bytes;               (* UTF-16, as rendered *)
  evt_bookmark_xml : evt_bookmark -> bytes;
  evt_after : evt_bookmark -> list evt -> list evt;
}.

(** A bookmark names the event it was last updated with: a subscription that
    starts after it delivers what follows that event. Rendering a bookmark and
    creating one from the text keeps its place. *)
Class EvtApiOk `{EvtApi} : Prop := {
  after_update : forall b e seen rest, NoDup (seen ++ e :: rest) ->
    evt_after (evt_update_bookmark b e) (seen ++ e :: rest) = rest;
  bookmark_text : forall b, trim (utf16_bytes_to_string (evt_bookmark_xml b)) <> [];
  bookmark_place : forall b, exists b',
    evt_create_bookmark (Some (trim (utf16_bytes_to_string (evt_bookmark_xml b)))) = Some b' /\
    forall log, evt_after b' log = evt_after b log;
}.

(** How the two calls of one [EvtRender] went: whether the probe reported the
    size, and whether the second call succeeded. *)
Record RenderIo := mkRenderIo { r_probe : bool; r_render : bool }.

(** [buffer]: what a complete rendering holds. *)
Definition render_handle (io : RenderIo) (buffer : bytes) : option bytes :=
  let used := if r_probe io then len buffer else 0 in
  if used =? 0 then Some []
  else if r_render io then Some (utf16_bytes_to_string buffer)
  else None.

(** How one save of the bookmark went. *)
Record SaveIo := mkSaveIo { s_render : RenderIo; s_write : CheckpointIo }.

Definition since_save_new : N := 0.

Section pump.
Context `{EvtApi, QuickXml, Lowercase}.
Context {S : Type} `{LogSink S}.

Definition render_xml (io : RenderIo) (e : evt) : option bytes := render_handle io (evt_event_xml e).

Definition bookmark_render (io : RenderIo) (b : evt_bookmark) : option bytes :=
  render_handle io (evt_bookmark_xml b).

Definition format_message (e : evt) : option bytes := None.

(** [SaveState::flush]. *)
Definition flush (io : SaveIo) (b : evt_bookmark) (d : StateDir) : StateDir :=
  match bookmark_render (s_render io) b with
  | Some xml => save_bookmark (s_write io) xml d
  | None => d
  end.

(** [SaveState::on_shipped]: the new count and the disk. *)
Definition on_shipped (io : SaveIo) (since_save : N) (b : evt_bookmark) (d : StateDir)
    : N * StateDir :=
  let n := since_save + 1 in
  if BOOKMARK_SAVE_INTERVAL <=? n then (0, flush io b d) else (n, d).

Inductive FailReason :=
| CreateEventW | EvtCreateBookmark | EvtSubscribe (e : N) | EvtNext (e : N) | EvtUpdateBookmark.

Inductive EventOutcome := EHandled | ECancelled | EFailed (r : FailReason).

(** An event pulled, with how its rendering, its bookmark update and the save
    it may cause went. *)
Record EventIo := mkEventIo {
  ev_event : evt;
  ev_render : RenderIo;
  ev_waits : list (S -> S);
  ev_update : bool;
  ev_save : SaveIo;
}.

(** What the pump owns: the bookmark, the count since the last save, the
    checkpoint file of the channel and the sink. *)
Record PumpState := mkPumpState {
  p_bookmark : evt_bookmark;
  p_since : N;
  p_dir : StateDir;
  p_sink : S;
}.

Definition with_sink (s : S) (st : PumpState) : PumpState :=
  mkPumpState (p_bookmark st) (p_since st) (p_dir st) s.

(** The retry loop of [ship_event] on the rendered text. *)
Fixpoint ship_loop (waits : list (S -> S)) (ev : EventIo) (xml : bytes)
    (filter : EventFilter.EventFilter) (st : PumpState) : EventOutcome * PumpState :=
  match process_entry xml (format_message (ev_event ev)) filter (p_sink st) with
  | (Handled, sink') | (ParseFailed, sink') =>
    if negb (ev_update ev) then (EFailed EvtUpdateBookmark, with_sink sink' st)
    else
      let b := evt_update_bookmark (p_bookmark st) (ev_event ev) in
      let '(n, d) := on_shipped (ev_save ev) (p_since st) b (p_dir st) in
      (EHandled, mkPumpState b n d sink')
  | (ChannelFull, sink') =>
    match waits with
    | [] => (ECancelled, with_sink sink' st)
    | w :: waits' => ship_loop waits' ev xml filter (with_sink (w sink') st)
    end
  end.

Definition ship_event (ev : EventIo) (filter : EventFilter.EventFilter) (st : PumpState)
    : EventOutcome * PumpState :=
  match render_xml (ev_render ev) (ev_event ev) with
  | None => (EHandled, st)
  | Some xml => ship_loop (ev_waits ev) ev xml filter st
  end.

Inductive BatchOutcome := More | BCancelled | BFailed (r : FailReason).

(** What one [EvtNext] answered. *)
Inductive NextAnswer := NextErr (e : N) | NextOk (batch : list EventIo).

Fixpoint ship_batch (batch : list EventIo) (filter : EventFilter.EventFilter) (st : PumpState)
    : EventOutcome * PumpState :=
  match batch with
  | [] => (EHandled, st)
  | ev :: rest =>
    match ship_event ev filter st with
    | (EHandled, st') => ship_batch rest filter st'
    | stop => stop
    end
  end.

(** [None] when the answers run out: the pump is still in [EvtNext]. *)
Fixpoint drain_batch (answers : list NextAnswer) (filter : EventFilter.EventFilter) (st : PumpState)
    : option BatchOutcome * PumpState :=
  match answers with
  | [] => (None, st)
  | NextErr e :: _ =>
    if is_win32 e ERROR_NO_MORE_ITEMS || is_win32 e ERROR_TIMEOUT then (Some More, st)
    else (Some (BFailed (EvtNext e)), st)
  | NextOk batch :: answers' =>
    match ship_batch (take BATCH batch) filter st with
    | (EHandled, st') => drain_batch answers' filter st'
    | (ECancelled, st') => (Some BCancelled, st')
    | (EFailed r, st') => (Some (BFailed r), st')
    end
  end.

Inductive PumpExit := Cancelled | Failed (r : FailReason) | AccessDenied.

(** One turn of the pull loop: whether the cancellation was seen, whether the
    signal was set within the wait, and what the drain met; [ps_flush] is the
    save made if the loop ends here. *)
Record PullStep := mkPullStep {
  ps_cancelled : bool;
  ps_signaled : bool;
  ps_answers : list NextAnswer;
  ps_flush : SaveIo;
}.

Definition flush_state (io : SaveIo) (st : PumpState) : PumpState :=
  mkPumpState (p_bookmark st) (p_since st) (flush io (p_bookmark st) (p_dir st)) (p_sink st).

Fixpoint pull_loop (steps : list PullStep) (filter : EventFilter.EventFilter) (st : PumpState)
    : option PumpExit * PumpState :=
  match steps with
  | [] => (None, st)
  | ps :: steps' =>
    if ps_cancelled ps then (Some Cancelled, flush_state (ps_flush ps) st)
    else if negb (ps_signaled ps) then pull_loop steps' filter st
    else
      match drain_batch (ps_answers ps) filter st with
      | (Some More, st') => pull_loop steps' filter st'
      | (Some BCancelled, st') => (Some Cancelled, flush_state (ps_flush ps) st')
      | (Some (BFailed r), st') => (Some (Failed r), flush_state (ps_flush ps) st')
      | (None, st') => (None, st')
      end
  end.

(** One subscription: whether the signal could be created, the error of
    [EvtSubscribe] if any, and the turns of the loop. *)
Record PumpIo := mkPumpIo { pu_signal : bool; pu_subscribe : option N; pu_steps : list PullStep }.

Definition pump_once (io : PumpIo) (filter : EventFilter.EventFilter) (d : StateDir) (sink : S)
    : option PumpExit * StateDir * S :=
  if negb (pu_signal io) then (Some (Failed CreateEventW), d, sink)
  else
    match evt_create_bookmark (load_bookmark (ck_file d)) with
    | None => (Some (Failed EvtCreateBookmark), d, sink)
    | Some b =>
      match pu_subscribe io with
      | Some e =>
        if is_win32 e ERROR_ACCESS_DENIED then (Some AccessDenied, d, sink)
        else (Some (Failed (EvtSubscribe e)), d, sink)
      | None =>
        let '(exit, st) := pull_loop (pu_steps io) filter (mkPumpState b since_save_new d sink) in
        (exit, p_dir st, p_sink st)
      end
    end.

(** The restart loop: before each subscription the cancellation may have come,
    and after a failure it may come before or during the sleep. *)
Record ChannelRun := mkChannelRun { cr_cancelled : bool; cr_pump : PumpIo; cr_cancelled_after : bool }.

Fixpoint run_channel (runs : list ChannelRun) (filter : EventFilter.EventFilter) (backoff : N)
    (d : StateDir) (sink : S) : option PumpExit * StateDir * S * N :=
  match runs with
  | [] => (None, d, sink, backoff)
  | r :: runs' =>
    if cr_cancelled r then (Some Cancelled, d, sink, backoff)
    else
      match pump_once (cr_pump r) filter d sink with
      | (Some (Failed reason), d', sink') =>
        if cr_cancelled_after r then (Some Cancelled, d', sink', backoff)
        else run_channel runs' filter (next_backoff backoff MAX_BACKOFF) d' sink'
      | (exit, d', sink') => (exit, d', sink', backoff)
      end
  end.
End pump.

Arguments EventIo {_} _.
Arguments NextAnswer {_} _.
Arguments PullStep {_} _.
Arguments PumpIo {_} _.
Arguments ChannelRun {_} _.
Arguments PumpState {_} _.

(** * Starting the source *)

(** [tail_eventlog]: the filter falls back to none when its specification does
    not parse; one pump per channel, all with the same query and filter. *)
Definition tail_filter (event_ids : option bytes) (exclude_providers : list bytes)
    : EventFilter.EventFilter :=
  match EventFilter.new event_ids exclude_providers with
  | inl f => f
  | inr _ => EventFilter.mkEventFilter None []
  end.

Definition tail_pumps (channels : list bytes) (query event_ids : option bytes)
    (exclude_providers : list bytes) : list (bytes * bytes * EventFilter.EventFilter) :=
  map (fun ch => (ch, effective_query query, tail_filter event_ids exclude_providers)) channels.
