(* ===== verification/EventLogFacts.v ===== *)
(** Properties of the Event Log pump: what a run ships, where it leaves the
    bookmark, and the decoding of rendered text. *)
From S2P Require Import Prelude Str StrFacts External Text Sink SinkFacts Source EventFilter EventXml EventXmlFacts EventLog.
From Stdlib Require Import Strings.Byte.

Section facts.
Context `{EvtApi, QuickXml, Lowercase}.
Context {S : Type} `{LogSink S, !LogSinkOk S}.
Implicit Types (sink : S) (filter : EventFilter.EventFilter) (ev : EventIo S) (st : PumpState S) (d : StateDir).

#[local] Existing Instance list_sink.

(** * One event *)

(** What a rendered event ships. *)
Definition expected_xml filter (xml : bytes) : list LogEntry :=
  (process_entry xml None filter ([] : list LogEntry)).2.

Definition rendered ev : option bytes := render_xml (ev_render ev) (ev_event ev).

Definition expected filter ev : list LogEntry :=
  match rendered ev with Some xml => expected_xml filter xml | None => [] end.

Lemma event_entry_spec xml filter sink res sink' :
  process_entry xml None filter sink = (res, sink') ->
  match res with
  | Handled | ParseFailed => shipped sink' = shipped sink ++ expected_xml filter xml
  | ChannelFull => shipped sink' = shipped sink
  end.
Proof.
  assert (Hnil : shipped sink = shipped sink ++ []) by by rewrite app_nil_r.
  unfold expected_xml, process_entry. destruct (MAX_XML_LEN <? len xml); [by intros [= <- <-]|].
  destruct (parse_event_xml xml) as [x| |]; [|by intros [= <- <-]..].
  case_bool_decide; [by intros [= <- <-]|]. destruct (EventFilter.excludes _ _ _); [by intros [= <- <-]|].
  destruct (try_log_with_service sink _) as [s2 []] eqn:E; intros [= <- <-].
  - cbn. by apply try_log_accepted.
  - by eapply try_log_refused.
Qed.

(** The worker adds no entries of its own while the pump sleeps. *)
Definition quiet_waits (waits : list (S -> S)) : Prop :=
  Forall (fun w => forall s, shipped (w s) = shipped s) waits.

(** The size of the bookmark was reported when it was saved (the save may fail in
    any other way). *)
Definition probed (io : SaveIo) : Prop := r_probe (s_render io) = true.

Definition quiet ev : Prop := quiet_waits (ev_waits ev) /\ probed (ev_save ev).

(** The bookmark after an event. *)
Definition moved (b : evt_bookmark) ev : evt_bookmark :=
  match rendered ev with Some _ => evt_update_bookmark b (ev_event ev) | None => b end.

Definition moves ev : bool := match rendered ev with Some _ => true | None => false end.

Definition bookmark_string (b : evt_bookmark) : bytes := utf16_bytes_to_string (evt_bookmark_xml b).

(** The checkpoint is the old one or the text of [b]. *)
Definition disk_is d d' (b : evt_bookmark) : Prop :=
  ck_file d' = ck_file d \/ ck_file d' = Some (bookmark_string b).

Lemma render_handle_probed io buf :
  r_probe io = true ->
  render_handle io buf = Some (utf16_bytes_to_string buf) \/ render_handle io buf = None.
Proof.
  unfold render_handle. intros ->. destruct buf as [|x buf]; [by left|]. rewrite len_cons.
  destruct (N.eqb_spec (1 + len buf) 0); [lia|]. case_if; [by left|by right].
Qed.

Lemma flush_disk io b d : probed io -> disk_is d (flush io b d) b.
Proof.
  intros Hp. unfold flush, disk_is, save_bookmark, bookmark_render.
  destruct (render_handle_probed (s_render io) (evt_bookmark_xml b) Hp) as [->| ->]; [|by left].
  rewrite write_checkpoint_atomic. case_if; [by right|by left].
Qed.

Lemma render_handle_ok io buf :
  r_probe io = true -> r_render io = true -> render_handle io buf = Some (utf16_bytes_to_string buf).
Proof.
  unfold render_handle. intros -> ->. destruct buf; [done|]. rewrite len_cons.
  by destruct (N.eqb_spec (1 + len buf) 0); [lia|].
Qed.

(** A save that cannot fail. *)
Definition save_works (io : SaveIo) : Prop :=
  probed io /\ r_render (s_render io) = true /\ all_ok (s_write io) = true.

Lemma flush_works io b d :
  save_works io -> ck_file (flush io b d) = Some (bookmark_string b).
Proof.
  intros (Hp & Hr & Hw). unfold flush, bookmark_render, save_bookmark.
  rewrite render_handle_ok by done. by rewrite write_checkpoint_atomic, Hw.
Qed.

Lemma ship_loop_spec waits ev xml filter st out st' :
  quiet_waits waits ->
  ship_loop waits ev xml filter st = (out, st') ->
  match out with
  | EHandled =>
    shipped (p_sink st') = shipped (p_sink st) ++ expected_xml filter xml /\
    p_bookmark st' = evt_update_bookmark (p_bookmark st) (ev_event ev) /\
    (p_since st', p_dir st') = on_shipped (ev_save ev) (p_since st) (p_bookmark st') (p_dir st)
  | ECancelled =>
    shipped (p_sink st') = shipped (p_sink st) /\ p_bookmark st' = p_bookmark st /\
    p_since st' = p_since st /\ p_dir st' = p_dir st
  | EFailed r =>
    shipped (p_sink st') = shipped (p_sink st) ++ expected_xml filter xml /\
    p_bookmark st' = p_bookmark st /\ p_since st' = p_since st /\ p_dir st' = p_dir st
  end.
Proof.
  intros Hw. revert st. induction Hw as [|w waits Hw1 Hw IH]; intros st; cbn [ship_loop];
    unfold format_message; destruct (process_entry xml None filter (p_sink st)) as [res s1] eqn:E;
    apply event_entry_spec in E; destruct res;
    try (destruct (ev_update ev); cbn [negb]; cbv zeta;
         [destruct (on_shipped _ _ _ _) as [n d] eqn:Eo|]; intros [= <- <-]; cbn; split_and!; by rewrite ?Eo).
  intros Hs. apply IH in Hs. cbn [with_sink p_sink p_bookmark p_since p_dir] in Hs.
  rewrite Hw1, E in Hs. exact Hs.
Qed.

(** * Sequences of events *)

(** What a run of the pump has done so far: [handled] are the events it is past,
    in order; [extra] is an event that was shipped before the pump failed to
    move the bookmark. *)
Record progress filter (st st' : PumpState S) (handled : list (EventIo S)) : Prop := {
  pr_sink : shipped (p_sink st') = shipped (p_sink st) ++ concat (map (expected filter) handled);
  pr_bookmark : p_bookmark st' = fold_left moved handled (p_bookmark st);
  pr_disk : exists seen, seen `prefix_of` handled /\ disk_is (p_dir st) (p_dir st') (fold_left moved seen (p_bookmark st));
}.

Lemma progress_refl filter st : progress filter st st [].
Proof. split; [by rewrite app_nil_r|done|]. exists []. split; [done|by left]. Qed.

Lemma disk_is_same d1 d2 d3 b : disk_is d1 d2 b -> disk_is d2 d3 b -> disk_is d1 d3 b.
Proof. unfold disk_is. intros H12 [->|H23]; [done|by right]. Qed.

Lemma progress_trans filter st1 st2 st3 h1 h2 :
  progress filter st1 st2 h1 -> progress filter st2 st3 h2 -> progress filter st1 st3 (h1 ++ h2).
Proof.
  intros [S1 B1 (s1 & P1 & D1)] [S2 B2 (s2 & P2 & D2)]. split.
  - by rewrite S2, S1, map_app, concat_app, app_assoc.
  - by rewrite B2, B1, fold_left_app.
  - destruct D2 as [D2|D2].
    + exists s1. split; [by apply prefix_app_r|]. unfold disk_is in *. by rewrite D2.
    + exists (h1 ++ s2). split; [by apply prefix_app|]. rewrite fold_left_app, <- B1. by right.
Qed.

Lemma ship_event_progress ev filter st st' :
  quiet ev -> ship_event ev filter st = (EHandled, st') -> progress filter st st' [ev].
Proof.
  intros [Hq Hpr]. unfold ship_event. destruct (render_xml _ _) as [xml|] eqn:Er.
  - intros Hs. apply ship_loop_spec in Hs as (Hs & Hb & Hd); [|done].
    assert (Hr : rendered ev = Some xml) by done. split.
    + cbn. rewrite app_nil_r. unfold expected. by rewrite Hr.
    + cbn. unfold moved. by rewrite Hr.
    + revert Hd. unfold on_shipped. case_if; intros [= _ ->]; [|exists []; split; [apply prefix_nil|by left]].
      exists [ev]. split; [done|]. cbn. unfold moved. rewrite Hr, <- Hb. by apply flush_disk.
  - intros [= <-]. assert (Hr : rendered ev = None) by done.
    split; [|cbn; unfold moved; by rewrite Hr|exists []; split; [apply prefix_nil|by left]]. cbn. unfold expected. by rewrite Hr, !app_nil_r.
Qed.

Lemma flush_progress io filter st : probed io -> progress filter st (flush_state io st) [].
Proof.
  intros Hp. split; [by rewrite app_nil_r|done|]. exists []. split; [done|]. by apply flush_disk.
Qed.

(** The pump is past [handled]; after a failed update it has shipped one more
    event, [extra]. *)
Definition went filter st st' (handled extra : list (EventIo S)) : Prop :=
  exists st1, progress filter st st1 handled /\
    p_bookmark st' = p_bookmark st1 /\ (length extra <= 1)%nat /\
    shipped (p_sink st') = shipped (p_sink st1) ++ concat (map (expected filter) extra) /\
    disk_is (p_dir st1) (p_dir st') (p_bookmark st1).

Lemma went_progress filter st st' handled : progress filter st st' handled -> went filter st st' handled [].
Proof. intros Hp. exists st'. split_and!; [done..|cbn; lia|by rewrite app_nil_r|by left]. Qed.

Lemma went_after filter st1 st2 st3 h1 h2 x :
  progress filter st1 st2 h1 -> went filter st2 st3 h2 x -> went filter st1 st3 (h1 ++ h2) x.
Proof.
  intros H12 (st & Hp & Hb & Hl & Hs & Hd). exists st. split_and!; [|done..]. by eapply progress_trans.
Qed.

Lemma went_flush io filter st st' h x : probed io -> went filter st st' h x -> went filter st (flush_state io st') h x.
Proof.
  intros Hio (st1 & Hp & Hb & Hl & Hs & Hd). exists st1. split_and!; [done..|].
  eapply disk_is_same; [exact Hd|]. rewrite <- Hb. by apply flush_disk.
Qed.

Lemma ship_event_went ev filter st out st' :
  quiet ev -> ship_event ev filter st = (out, st') ->
  match out with
  | EHandled => progress filter st st' [ev]
  | ECancelled => went filter st st' [] []
  | EFailed _ => went filter st st' [] [ev]
  end.
Proof.
  intros Hq Hs. destruct out; [by apply ship_event_progress| |]; revert Hs; unfold ship_event;
    (destruct (render_xml _ _) as [xml|] eqn:Er; [|done]);
    intros (Hs & Hb & _ & Hd)%ship_loop_spec; try apply Hq;
    exists st; (split_and!; [apply progress_refl|done|cbn; lia|..|left; by rewrite Hd]).
  - by rewrite app_nil_r.
  - cbn. rewrite app_nil_r. unfold expected, rendered. by rewrite Er.
Qed.

(** How a loop over events ends: at their end, stopped by the cancellation, or
    by a failure, which may have shipped an event it is not past. *)
Inductive Ending := Running | Stopped | Broke.

Definition ran (e : Ending) filter st st' (all : list (EventIo S)) : Prop :=
  match e with
  | Running => progress filter st st' all
  | _ => exists h x, h ++ x `prefix_of` all /\ went filter st st' h x /\ (e = Stopped -> x = [])
  end.

Lemma ran_after e filter st1 st2 st3 h all :
  progress filter st1 st2 h -> ran e filter st2 st3 all -> ran e filter st1 st3 (h ++ all).
Proof.
  intros Hp. destruct e; cbn; [by apply progress_trans|..];
    (intros (h2 & x & Hpre & Hw & Hx); exists (h ++ h2), x; rewrite <- app_assoc;
     split_and!; [by apply prefix_app|by eapply went_after|done]).
Qed.

Lemma ran_more e filter st st' all more :
  e <> Running -> ran e filter st st' all -> ran e filter st st' (all ++ more).
Proof.
  destruct e; [done|..]; intros _ (h & x & Hpre & Hw); exists h, x; (split; [by apply prefix_app_r|done]).
Qed.

Lemma ran_flush io e filter st st' all :
  e <> Running -> probed io -> ran e filter st st' all -> ran e filter st (flush_state io st') all.
Proof.
  destruct e; [done|..]; intros _ Hio (h & x & Hpre & Hw & Hx); exists h, x;
    (split_and!; [done|by apply went_flush|done]).
Qed.

Lemma ran_flush_now io e filter st all : e <> Running -> probed io -> ran e filter st (flush_state io st) all.
Proof.
  destruct e; [done|..]; intros _ Hio; exists [], [];
    (split_and!; [apply prefix_nil|by apply went_progress, flush_progress|done]).
Qed.

Definition event_ending (o : EventOutcome) : Ending :=
  match o with EHandled => Running | ECancelled => Stopped | EFailed _ => Broke end.

Lemma ship_batch_ran batch filter st out st' :
  Forall quiet batch -> ship_batch batch filter st = (out, st') -> ran (event_ending out) filter st st' batch.
Proof.
  intros Hq. revert st. induction Hq as [|ev batch Hev Hq IH]; intros st; cbn [ship_batch].
  - intros [= <- <-]. apply progress_refl.
  - destruct (ship_event ev filter st) as [o s1] eqn:E. apply ship_event_went in E; [|done].
    destruct o.
    + intros Hb%IH. by eapply (ran_after _ _ _ _ _ [ev]).
    + intros [= <- <-]. exists [], []. split; [apply prefix_nil|done].
    + intros [= <- <-]. exists [], [ev]. split; [by exists batch|done].
Qed.

(** The events of a drain, and of the turns of the pull loop. *)
Fixpoint answers_events (l : list (NextAnswer S)) : list (EventIo S) :=
  match l with
  | NextOk batch :: l => take BATCH batch ++ answers_events l
  | _ => []
  end.

Definition batch_ending (o : option BatchOutcome) : Ending :=
  match o with None | Some More => Running | Some BCancelled => Stopped | Some (BFailed _) => Broke end.

Lemma drain_ran answers filter st out st' :
  Forall quiet (answers_events answers) -> drain_batch answers filter st = (out, st') ->
  ran (batch_ending out) filter st st' (answers_events answers).
Proof.
  revert st. induction answers as [|[e|batch] answers IH]; intros st Hq; cbn [drain_batch answers_events].
  - intros [= <- <-]. apply progress_refl.
  - case_if; intros [= <- <-]; [apply progress_refl|]. exists [], []. split_and!; [done| |done].
    apply went_progress, progress_refl.
  - cbn [answers_events] in Hq. apply Forall_app in Hq as [Hb Hq].
    destruct (ship_batch _ filter st) as [o s1] eqn:E. apply ship_batch_ran in E; [|done].
    destruct o; cbn [event_ending] in E.
    + intros Hd%IH; [|done]. by eapply ran_after.
    + intros [= <- <-]. by apply ran_more.
    + intros [= <- <-]. by apply ran_more.
Qed.

Fixpoint answers_pending (l : list (NextAnswer S)) : bool :=
  match l with
  | [] => true
  | NextErr _ :: _ => false
  | NextOk _ :: l => answers_pending l
  end.

Fixpoint steps_events (l : list (PullStep S)) : list (EventIo S) :=
  match l with
  | [] => []
  | ps :: l =>
    if ps_cancelled ps then []
    else if negb (ps_signaled ps) then steps_events l
    else answers_events (ps_answers ps) ++ if answers_pending (ps_answers ps) then [] else steps_events l
  end.

Lemma drain_pending answers filter st st' :
  drain_batch answers filter st = (None, st') -> answers_pending answers = true.
Proof.
  revert st. induction answers as [|[e|batch] answers IH]; intros st; cbn [drain_batch answers_pending]; [done|by case_if|].
  destruct (ship_batch _ _ _) as [[] s1]; [apply IH|done..].
Qed.

Lemma drain_more answers filter st st' :
  drain_batch answers filter st = (Some More, st') -> answers_pending answers = false.
Proof.
  revert st. induction answers as [|[e|batch] answers IH]; intros st; cbn [drain_batch answers_pending]; [done|done|].
  destruct (ship_batch _ _ _) as [[] s1]; [apply IH|done..].
Qed.

Definition pump_ending (o : option PumpExit) : Ending :=
  match o with None => Running | Some Cancelled => Stopped | Some _ => Broke end.

Lemma pull_loop_ran steps filter st exit st' :
  Forall quiet (steps_events steps) -> Forall (fun ps => probed (ps_flush ps)) steps ->
  pull_loop steps filter st = (exit, st') ->
  ran (pump_ending exit) filter st st' (steps_events steps).
Proof.
  revert st. induction steps as [|ps steps IH]; intros st Hq Hf; cbn [pull_loop steps_events] in *.
  - intros [= <- <-]. apply progress_refl.
  - apply Forall_cons in Hf as [Hio Hf].
    destruct (ps_cancelled ps). { intros [= <- <-]. by apply ran_flush_now. }
    destruct (ps_signaled ps); cbn [negb] in *; [|by apply IH].
    apply Forall_app in Hq as [Ha Hq].
    destruct (drain_batch _ _ _) as [o s1] eqn:E. assert (Hd := drain_ran _ _ _ _ _ Ha E).
    destruct o as [[]|]; cbn [batch_ending] in Hd.
    + rewrite (drain_more _ _ _ _ E) in *. intros Hp%IH; [|done..]. by eapply ran_after.
    + intros [= <- <-]. by apply ran_flush, ran_more.
    + intros [= <- <-]. by apply ran_flush, ran_more.
    + rewrite (drain_pending _ _ _ _ E). intros [= <- <-]. by rewrite app_nil_r.
Qed.

(** A loop that ends leaves its bookmark on disk. *)
Lemma pull_loop_saved steps filter st exit st' :
  Forall (fun ps => save_works (ps_flush ps)) steps ->
  pull_loop steps filter st = (Some exit, st') ->
  ck_file (p_dir st') = Some (bookmark_string (p_bookmark st')).
Proof.
  intros Hf. revert st. induction Hf as [|ps steps Hio Hf IH]; intros st; cbn [pull_loop]; [done|].
  destruct (ps_cancelled ps). { intros [= <- <-]. by apply flush_works. }
  destruct (ps_signaled ps); cbn [negb]; [|apply IH].
  destruct (drain_batch _ _ _) as [[[]|] s1]; [apply IH|intros [= <- <-]; by apply flush_works..|done].
Qed.
End facts.

(** * UTF-16 *)

Definition scalar (c : N) : Prop := c < 0x110000 /\ is_surrogate c = false.

Lemma in_range_byte_of lo hi n : n < 256 -> in_range lo hi (byte_of n) = (lo <=? n) && (n <=? hi).
Proof. intros Hn. unfold in_range. by rewrite bN_byte_of, N.mod_small. Qed.

Lemma cont_low n : is_cont (byte_of (0x80 + n mod 64)) = true.
Proof.
  assert (Hm := N.mod_lt n 64 ltac:(lia)). revert Hm. generalize (n mod 64). intros m Hm.
  unfold is_cont. rewrite in_range_byte_of by lia.
  apply andb_true_iff. rewrite !N.leb_le. lia.
Qed.

Ltac decide_range :=
  repeat match goal with
  | |- context [in_range _ _ (byte_of ?n)] => rewrite (in_range_byte_of _ _ n) by lia
  | |- context [bN (byte_of ?n)] => rewrite (bN_byte_of n), (N.mod_small n) by lia
  end.

(** Replace every comparison of the goal by its value. *)
Ltac decide_cmp :=
  repeat match goal with
  | |- context [?a <=? ?b] =>
    first [replace (a <=? b) with true by (symmetry; apply N.leb_le; lia)
          |replace (a <=? b) with false by (symmetry; apply N.leb_gt; lia)]
  | |- context [?a <? ?b] =>
    first [replace (a <? b) with true by (symmetry; apply N.ltb_lt; lia)
          |replace (a <? b) with false by (symmetry; apply N.ltb_ge; lia)]
  | |- context [?a =? ?b] =>
    first [replace (a =? b) with true by (symmetry; apply N.eqb_eq; lia)
          |replace (a =? b) with false by (symmetry; apply N.eqb_neq; lia)]
  end; cbn [andb orb negb].

(** The digits of a scalar in base 64. *)
Lemma digits_64 c : exists q l, c / 64 = q /\ c mod 64 = l /\ l < 64 /\ c = q * 64 + l.
Proof.
  exists (c / 64), (c mod 64). split_and!; [done|done|apply N.mod_lt; lia|].
  rewrite (N.div_mod c 64) at 1 by lia. lia.
Qed.

Lemma digits_4096 c : exists q m l, c / 4096 = q /\ c / 64 mod 64 = m /\ m < 64 /\ l < 64 /\ c = (q * 64 + m) * 64 + l.
Proof.
  destruct (digits_64 c) as (p & l & Hp & _ & Hl & ->), (digits_64 p) as (q & m & Hq & Hm & Hm64 & ->).
  exists q, m, l. rewrite Hp, Hm. split_and!; [|done..].
  replace 4096 with (64 * 64) by done. by rewrite <- N.Div0.div_div, Hp.
Qed.

Lemma digits_262144 c : exists q k m, c / 262144 = q /\ c / 4096 mod 64 = k /\ k < 64 /\ m < 4096 /\ c = (q * 64 + k) * 4096 + m.
Proof.
  destruct (digits_4096 c) as (p & m & l & Hp & _ & Hm & Hl & Hc), (digits_64 p) as (q & k & Hq & Hk & Hk64 & ->).
  exists q, k, (m * 64 + l). rewrite Hp, Hk. split_and!; [|done|done|lia|lia].
  replace 262144 with (4096 * 64) by done. by rewrite <- N.Div0.div_div, Hp.
Qed.

Lemma encode_utf8_one c r :
  scalar c -> decode_one (encode_utf8 c ++ r) = (true, length (encode_utf8 c)).
Proof.
  intros [Hc Hs]. unfold is_surrogate in Hs. apply andb_false_iff in Hs. rewrite !N.leb_gt in Hs.
  unfold encode_utf8.
  destruct (N.ltb_spec c 0x80) as [H1|H1]; [|destruct (N.ltb_spec c 0x800) as [H2|H2];
    [|destruct (N.ltb_spec c 0x10000) as [H3|H3]]]; cbn [app decode_one length]; rewrite ?cont_low.
  - decide_range. by decide_cmp.
  - destruct (digits_64 c) as (q & l & -> & _ & Hl & ->). decide_range. by decide_cmp.
  - destruct (digits_4096 c) as (q & m & l & -> & -> & Hm & Hl & Hq). unfold lead3_ok. decide_range.
    destruct (N.eq_dec q 0), (N.eq_dec q 13), (N.eq_dec q 14), (N.eq_dec q 15); try lia;
      destruct Hs; try lia; by decide_cmp.
  - destruct (digits_262144 c) as (q & k & m & -> & -> & Hk & Hm & Hq). unfold lead4_ok. decide_range.
    destruct (N.eq_dec q 0), (N.eq_dec q 4); try lia; by decide_cmp.
Qed.

Lemma encode_utf8_valid cs : Forall scalar cs -> valid_utf8 (concat (map encode_utf8 cs)) = true.
Proof.
  induction 1 as [|c cs Hc Hcs IH]; cbn [map concat]; [done|].
  rewrite valid_utf8_unfold, encode_utf8_one by (done || by unfold encode_utf8; repeat case_if).
  cbn [fst snd]. by rewrite drop_app_length.
Qed.

(** Units fit 16 bits. *)
Lemma u16_units_bound bs : Forall (fun u => u < 0x10000) (u16_units bs).
Proof.
  assert (Hn : forall n bs, (length bs <= n)%nat -> Forall (fun u => u < 0x10000) (u16_units bs)).
  { induction n as [|n IH]; intros [|a [|b r]] Hl; cbn in *; try constructor; try lia.
    - assert (Ha := bN_lt_256 a). assert (Hb := bN_lt_256 b). lia.
    - apply IH. lia. }
  by eapply Hn.
Qed.

Lemma take_while_nonzero_all (P : N -> Prop) us : Forall P us -> Forall P (take_while_nonzero us).
Proof. induction 1 as [|u us Hu Hus IH]; cbn; [constructor|]. case_if; by constructor. Qed.

Lemma decode_utf16_scalar us : Forall (fun u => u < 0x10000) us -> Forall scalar (decode_utf16_lossy us).
Proof.
  assert (Hr : scalar REPLACEMENT_CHARACTER) by by split.
  assert (Hn : forall n us, (length us <= n)%nat -> Forall (fun u => u < 0x10000) us ->
                Forall scalar (decode_utf16_lossy us)).
  { induction n as [|n IH]; intros [|u r] Hl Hus; cbn [length decode_utf16_lossy] in *; try constructor; try lia.
    apply Forall_cons in Hus as [Hu Hus].
    destruct (is_surrogate u) eqn:Es; cbn [negb].
    - case_if; [constructor; [done|apply IH; [lia|done]]|].
      destruct r as [|u2 r]; [by repeat constructor|].
      destruct (is_low_surrogate u2) eqn:El; [|constructor; [done|apply IH; [lia|done]]].
      unfold is_surrogate, is_low_surrogate in *. norm_bool. constructor.
      + split; [lia|]. apply andb_false_iff. right. apply N.leb_gt. lia.
      + apply Forall_cons in Hus as [_ Hus]. apply IH; [cbn in Hl; lia|done].
    - constructor; [|apply IH; [lia|done]]. split; [lia|done]. }
  by eapply Hn.
Qed.

(** Whatever was rendered, the string is valid UTF-8. *)
Lemma utf16_string_valid bs : valid_utf8 (utf16_bytes_to_string bs) = true.
Proof. apply encode_utf8_valid, decode_utf16_scalar, take_while_nonzero_all, u16_units_bound. Qed.

(** [str::encode_utf16], as little-endian bytes. *)
Definition encode_utf16 (c : N) : list N :=
  if c <? 0x10000 then [c] else [0xD800 + (c - 0x10000) / 1024; 0xDC00 + (c - 0x10000) mod 1024].

Definition utf16_bytes (cs : list N) : bytes :=
  concat (map (fun u => [byte_of u; byte_of (u / 256)]) (concat (map encode_utf16 cs))).

Lemma u16_units_bytes us r :
  Forall (fun u => u < 0x10000) us ->
  u16_units (concat (map (fun u => [byte_of u; byte_of (u / 256)]) us) ++ r) = us ++ u16_units r.
Proof.
  induction 1 as [|u us Hu Hus IH]; cbn; [done|]. rewrite IH. f_equal. rewrite !bN_byte_of.
  rewrite (N.mod_small (u / 256)) by (apply N.Div0.div_lt_upper_bound; lia).
  rewrite (N.div_mod u 256) at 3 by lia. lia.
Qed.

Lemma decode_encode_one c us :
  scalar c -> decode_utf16_lossy (encode_utf16 c ++ us) = c :: decode_utf16_lossy us.
Proof.
  intros [Hc Hs]. unfold encode_utf16. case_if; norm_bool; cbn [app decode_utf16_lossy]; [by rewrite Hs|].
  assert (Hq : (c - 65536) / 1024 < 1024) by (apply N.Div0.div_lt_upper_bound; lia).
  assert (Hm := N.mod_lt (c - 65536) 1024 ltac:(lia)). assert (E := N.div_mod (c - 65536) 1024 ltac:(lia)).
  revert Hq Hm E. generalize ((c - 65536) / 1024), ((c - 65536) mod 1024). intros q m Hq Hm E.
  unfold is_surrogate, is_low_surrogate. decide_cmp. f_equal. lia.
Qed.

Lemma encode_utf16_units c :
  scalar c -> c <> 0 -> Forall (fun u => u < 0x10000 /\ u <> 0) (encode_utf16 c).
Proof.
  intros [Hc _] H0. unfold encode_utf16. case_if; norm_bool; [by repeat constructor|].
  assert (Hq : (c - 65536) / 1024 < 1024) by (apply N.Div0.div_lt_upper_bound; lia).
  assert (Hm := N.mod_lt (c - 65536) 1024 ltac:(lia)).
  revert Hq Hm. generalize ((c - 65536) / 1024), ((c - 65536) mod 1024). intros q m Hq Hm.
  repeat constructor; lia.
Qed.

Lemma take_while_nonzero_app us r :
  Forall (fun u => u < 0x10000 /\ u <> 0) us -> take_while_nonzero (us ++ r) = us ++ take_while_nonzero r.
Proof.
  induction 1 as [|u us [_ Hu] Hus IH]; cbn; [done|]. destruct (N.eqb_spec u 0); [done|]. by rewrite IH.
Qed.

(** Rendered text reads back: characters encoded as UTF-16, terminated by a NUL
    and followed by anything, are decoded to the same characters in UTF-8. *)
Lemma utf16_decodes cs junk :
  Forall (fun c => scalar c /\ c <> 0) cs ->
  utf16_bytes_to_string (utf16_bytes cs ++ [x00; x00] ++ junk) = concat (map encode_utf8 cs).
Proof.
  intros Hcs. unfold utf16_bytes_to_string, utf16_bytes, from_utf16_lossy.
  assert (Hu : Forall (fun u => u < 0x10000 /\ u <> 0) (concat (map encode_utf16 cs))).
  { induction Hcs as [|c cs [Hc H0] Hcs IH]; cbn; [constructor|]. apply Forall_app.
    split; [by apply encode_utf16_units|done]. }
  rewrite u16_units_bytes by (eapply Forall_impl; [exact Hu|]; by intros ? []).
  rewrite take_while_nonzero_app by done. cbn [app u16_units take_while_nonzero]. rewrite app_nil_r.
  do 2 f_equal. clear Hu. induction Hcs as [|c cs [Hc H0] Hcs IH]; cbn; [done|].
  by rewrite decode_encode_one, IH.
Qed.
