(* ===== verification/EventPlaceFacts.v ===== *)
(** Where the bookmark of a channel points: the events a subscription delivers
    after it, through runs that fail, are cancelled or are cut off, and what is
    shipped meanwhile. *)
From S2P Require Import Prelude Str StrFacts External Text Sink SinkFacts Source EventFilter EventXml EventXmlFacts EventLog EventLogFacts.
From Stdlib Require Import Strings.Byte.

Section place.
Context `{EvtApi, !EvtApiOk, QuickXml, Lowercase}.
Context {S : Type} `{LogSink S, !LogSinkOk S}.
Implicit Types (sink : S) (filter : EventFilter.EventFilter) (ev : EventIo S) (d : StateDir).

Variable log : list evt.
Hypothesis log_nodup : NoDup log.

(** The entries an event becomes. *)
Definition event_entries filter (e : evt) : list LogEntry :=
  expected_xml filter (utf16_bytes_to_string (evt_event_xml e)).

(** An event that was rendered ships these; one that could not be rendered ships
    nothing and leaves the bookmark where it is. *)
Lemma rendered_expected filter ev :
  r_probe (ev_render ev) = true -> r_render (ev_render ev) = true -> expected filter ev = event_entries filter (ev_event ev).
Proof. intros Hp Hr. unfold expected, rendered, render_xml. by rewrite render_handle_ok. Qed.

Lemma unrendered_expected filter ev : moves ev = false -> expected filter ev = [].
Proof. unfold moves, expected. by destruct (rendered ev). Qed.

(** [b] points before the position [p] of the log. *)
Definition points (b : evt_bookmark) (p : nat) : Prop := (p <= length log)%nat /\ evt_after b log = drop p log.

(** The bookmark is after the last event that was rendered. *)
Lemma points_moved b p evs :
  points b p -> map ev_event evs `prefix_of` drop p log ->
  exists a c, evs = a ++ c /\ Forall (fun ev => moves ev = false) c /\ points (fold_left moved evs b) (p + length a).
Proof.
  intros Hb. induction evs as [|ev evs IH] using rev_ind; intros Hpre.
  { exists [], []. cbn. by rewrite Nat.add_0_r. }
  rewrite fold_left_app. cbn [fold_left]. destruct (moves ev) eqn:Em.
  - exists (evs ++ [ev]), []. rewrite app_nil_r. split_and!; [done|constructor|]. destruct Hpre as [rest Hrest].
    rewrite map_app, <- app_assoc in Hrest. cbn [map app] in Hrest.
    assert (Hlen : (p + length (evs ++ [ev]) <= length log)%nat).
    { destruct Hb as [Hp _]. apply (f_equal length) in Hrest.
      rewrite length_drop, length_app, length_map in Hrest. rewrite length_app. cbn in *. lia. }
    split; [done|]. unfold moves, moved in *. destruct (rendered ev); [|done].
    assert (Hl : log = (take p log ++ map ev_event evs) ++ ev_event ev :: rest) by (by rewrite <- app_assoc, <- Hrest, take_drop).
    assert (Hd : drop (p + length (evs ++ [ev])) log = rest).
    { rewrite <- drop_drop, Hrest, length_app, Nat.add_comm. cbn [length Nat.add].
      replace (Datatypes.S (length evs)) with (length (map (ev_event (S := S)) evs) + 1)%nat by (rewrite length_map; lia).
      by rewrite <- drop_drop, drop_app_length. }
    rewrite Hd. rewrite Hl at 1. apply after_update. by rewrite <- Hl.
  - destruct IH as (a & c & -> & Hc & Hp); [etrans; [|exact Hpre]; rewrite map_app; by eexists|].
    exists a, (c ++ [ev]). rewrite app_assoc. split_and!; [done|apply Forall_app; split; [done|by repeat constructor]|].
    replace (moved (fold_left moved (a ++ c) b) ev) with (fold_left moved (a ++ c) b); [done|].
    unfold moves in Em. unfold moved. by destruct (rendered ev).
Qed.

(** The checkpoint file holds a bookmark that points at [p]. *)
Definition disk_points d (p : nat) : Prop :=
  exists xml b, load_bookmark (ck_file d) = Some xml /\ evt_create_bookmark (Some xml) = Some b /\ points b p.

Lemma disk_points_saved d b p :
  ck_file d = Some (bookmark_string b) -> points b p -> disk_points d p.
Proof.
  intros Hd [Hp Ha]. destruct (bookmark_place b) as (b' & Hc & Hb').
  assert (Ht := bookmark_text b). unfold disk_points, load_bookmark, bookmark_string in *.
  rewrite Hd, utf16_string_valid.
  destruct (is_empty (trim _)) eqn:E; [by destruct (trim _)|].
  exists (trim (utf16_bytes_to_string (evt_bookmark_xml b))), b'. split_and!; [done|done|].
  split; [done|]. by rewrite Hb'.
Qed.

(** * Runs *)

(** What the agent has done of the log: it was past [evs], in this order, which are
    events of the log and the ones before [n] among them, and has shipped what
    became of them; the bookmark on disk is not past [n]. *)
Definition delivered filter sink0 d sink : Prop :=
  exists (evs : list (EventIo S)) p n, shipped sink = shipped sink0 ++ concat (map (expected filter) evs) /\
    map ev_event evs ⊆ log /\ take n log ⊆ map ev_event evs /\ (p <= n)%nat /\ disk_points d p.

(** The events of a subscription are those after the bookmark it was given;
    nothing else is shipped while it waits, and the size of the bookmark is
    reported when it is saved. *)
Definition follows (io : PumpIo S) d : Prop :=
  (forall b, evt_create_bookmark (load_bookmark (ck_file d)) = Some b ->
     map ev_event (steps_events (pu_steps io)) `prefix_of` evt_after b log) /\
  Forall quiet (steps_events (pu_steps io)) /\
  Forall (fun ps => probed (ps_flush ps)) (pu_steps io).

Lemma disk_points_file d d' p : ck_file d' = ck_file d -> disk_points d p -> disk_points d' p.
Proof. unfold disk_points. by intros ->. Qed.

Lemma disk_is_points d d' b p q :
  disk_is d d' b -> disk_points d p -> points b q -> disk_points d' p \/ disk_points d' q.
Proof.
  intros [Hd|Hd] Hp Hq; [left; by eapply disk_points_file|right; by eapply disk_points_saved].
Qed.

(** The positions of a stretch of the pump. *)
Lemma progress_places filter st st' h p :
  progress filter st st' h -> points (p_bookmark st) p -> disk_points (p_dir st) p ->
  map ev_event h `prefix_of` drop p log ->
  (exists a c, h = a ++ c /\ Forall (fun ev => moves ev = false) c /\ points (p_bookmark st') (p + length a)) /\
  exists r, (p <= r <= p + length h)%nat /\ disk_points (p_dir st') r.
Proof.
  intros [Hs Hb (seen & Hseen & Hd)] Hp Hdp Hpre. split; [rewrite Hb; by apply points_moved|].
  assert (Hls := prefix_length _ _ Hseen). destruct Hseen as [more ->].
  assert (Hpre' : map ev_event seen `prefix_of` drop p log) by (etrans; [|exact Hpre]; rewrite map_app; by eexists).
  destruct (points_moved _ _ _ Hp Hpre') as (a & c & -> & _ & Hpt). rewrite length_app in Hls.
  destruct (disk_is_points _ _ _ _ _ Hd Hdp Hpt) as [Hr|Hr];
    [exists p|exists (p + length a)%nat]; (split; [lia|done]).
Qed.

Lemma prefix_positions (evs : list (EventIo S)) p :
  map ev_event evs `prefix_of` drop p log -> (p <= length log)%nat ->
  map ev_event evs ⊆ log /\ take (length evs) (drop p log) = map ev_event evs /\ (p + length evs <= length log)%nat.
Proof.
  intros [r Hr] Hp. split_and!.
  - intros e He. rewrite <- (take_drop p log), Hr. set_solver.
  - rewrite Hr, <- (length_map ev_event evs). apply take_app_length.
  - apply (f_equal length) in Hr. rewrite length_drop, length_app, length_map in Hr. lia.
Qed.

(** What one subscription does, in terms of positions: it ships the events from
    [p] to [q], after a failure perhaps one more, and leaves the bookmark
    between [p] and [q]. *)
Definition placed (io : PumpIo S) filter sink p (exit : option PumpExit) d' sink' : Prop :=
  exists (evs : list (EventIo S)) q, shipped sink' = shipped sink ++ concat (map (expected filter) evs) /\
    map ev_event evs ⊆ log /\ take (q - p) (drop p log) ⊆ map ev_event evs /\ (p <= q <= length log)%nat /\
    (exists r, (p <= r <= q)%nat /\ disk_points d' r) /\
    (exit = None -> evs = steps_events (pu_steps io)).

Lemma placed_unmoved io filter sink p e d : disk_points d p -> placed io filter sink p (Some e) d sink.
Proof.
  intros Hd. assert (Hp : (p <= length log)%nat) by by destruct Hd as (? & ? & _ & _ & ? & _).
  exists [], p. rewrite Nat.sub_diag, app_nil_r. split_and!; try done; [apply list_subseteq_nil..|].
  exists p. split; [lia|done].
Qed.

Lemma pull_placed io filter b d sink p exit st' :
  disk_points d p -> points b p -> map ev_event (steps_events (pu_steps io)) `prefix_of` drop p log ->
  Forall quiet (steps_events (pu_steps io)) -> Forall (fun ps => probed (ps_flush ps)) (pu_steps io) ->
  pull_loop (pu_steps io) filter (mkPumpState b since_save_new d sink) = (exit, st') ->
  placed io filter sink p exit (p_dir st') (p_sink st').
Proof.
  intros Hdp Hb Hf Hsv Hfl E. apply pull_loop_ran in E; [|done..].
  assert (Hp : (p <= length log)%nat) by apply Hb.
  destruct exit as [exit|].
  - assert (E' : exists h x, h ++ x `prefix_of` steps_events (pu_steps io) /\
      went filter (mkPumpState b since_save_new d sink) st' h x)
      by (destruct exit; destruct E as (h & x & ? & ? & _); by exists h, x).
    destruct E' as (h & x & [more Hmore] & st1 & Hpr & Hbm & Hx & Hs & Hd). clear E.
    assert (Hhx : map ev_event (h ++ x) `prefix_of` drop p log)
      by (etrans; [|exact Hf]; rewrite Hmore, (map_app _ (h ++ x)); by eexists).
    assert (Hh : map ev_event h `prefix_of` drop p log) by (etrans; [|exact Hhx]; rewrite map_app; by eexists).
    destruct (progress_places _ _ _ _ p Hpr ltac:(done) ltac:(done) Hh) as ((a & c & Hac & _ & Hpt) & r & Hr & Hdr).
    destruct (prefix_positions _ _ Hhx Hp) as (Hsub & _ & _), (prefix_positions _ _ Hh Hp) as (_ & Htk & Hlen).
    assert (Hla : (length a <= length h)%nat) by (rewrite Hac, length_app; lia).
    exists (h ++ x), (p + length h)%nat. split_and!; try done; try lia.
    + by rewrite Hs, (pr_sink _ _ _ _ Hpr), !map_app, concat_app, app_assoc.
    + replace (p + length h - p)%nat with (length h) by lia. rewrite Htk, map_app. set_solver.
    + destruct (disk_is_points _ _ _ _ _ Hd Hdr Hpt) as [Hq|Hq]; [by exists r|].
      exists (p + length a)%nat. split; [lia|done].
  - destruct (progress_places _ _ _ _ p E ltac:(done) ltac:(done) Hf) as (_ & r & Hr & Hdr).
    destruct (prefix_positions _ _ Hf Hp) as (Hsub & Htk & Hlen). assert (Hsink := pr_sink _ _ _ _ E).
    eexists _, (p + length (steps_events (pu_steps io)))%nat. split_and!; [exact Hsink|done| |lia|lia|by exists r|done].
    replace (p + _ - p)%nat with (length (steps_events (pu_steps io))) by lia. by rewrite Htk.
Qed.

Lemma pump_once_places io filter d sink p exit d' sink' :
  disk_points d p -> follows io d -> pump_once io filter d sink = (exit, d', sink') ->
  placed io filter sink p exit d' sink'.
Proof.
  intros Hdp (Hf & Hsv & Hfl). destruct (Hdp) as (xml & b & Hl & Hc & Hb). unfold pump_once.
  rewrite Hl, Hc in *. specialize (Hf b eq_refl). rewrite (proj2 Hb) in Hf.
  destruct (pu_signal io); cbn [negb]; [|intros [= <- <- <-]; by apply placed_unmoved].
  destruct (pu_subscribe io) as [e|]; [case_if; intros [= <- <- <-]; by apply placed_unmoved|].
  destruct (pull_loop _ _ _) as [ex st'] eqn:E. intros [= -> <- <-]. by eapply pull_placed.
Qed.

(** A subscription that was stopped on request and saved its bookmark: the bookmark
    is after the last event that was rendered. *)
Lemma pump_once_stopped io filter d sink p d' sink' :
  disk_points d p -> follows io d -> Forall (fun ps => save_works (ps_flush ps)) (pu_steps io) ->
  pump_once io filter d sink = (Some Cancelled, d', sink') ->
  exists a c : list (EventIo S), shipped sink' = shipped sink ++ concat (map (expected filter) (a ++ c)) /\
    a ++ c `prefix_of` steps_events (pu_steps io) /\
    Forall (fun ev => moves ev = false) c /\ map ev_event a = take (length a) (drop p log) /\ disk_points d' (p + length a).
Proof.
  intros Hdp (Hf & Hsv & Hfl) Hw. destruct (Hdp) as (xml & b & Hl & Hc & Hb). unfold pump_once.
  rewrite Hl, Hc in *. specialize (Hf b eq_refl). rewrite (proj2 Hb) in Hf.
  destruct (pu_signal io); cbn [negb]; [|done]. destruct (pu_subscribe io) as [e|]; [by case_if|].
  destruct (pull_loop _ _ _) as [ex st'] eqn:E. intros [= -> <- <-].
  assert (Hsaved := pull_loop_saved _ _ _ _ _ Hw E).
  apply pull_loop_ran in E as (h & x & [more Hm] & (st1 & Hpr & Hbm & _ & Hs & _) & Hx); [|done..].
  rewrite (Hx eq_refl), app_nil_r in *. rewrite Hm in Hf.
  assert (Hh : map ev_event h `prefix_of` drop p log) by (etrans; [|exact Hf]; rewrite map_app; by eexists).
  destruct (progress_places _ _ _ _ p Hpr Hb Hdp Hh) as ((a & c & -> & Hcm & Hpt) & _).
  assert (Ha : map ev_event a `prefix_of` drop p log) by (etrans; [|exact Hh]; rewrite map_app; by eexists).
  destruct (prefix_positions _ _ Ha (proj1 Hb)) as (_ & Htk & _).
  exists a, c. split_and!; [|by exists more|done|done|].
  - cbn in Hs. rewrite ?app_nil_r in Hs. by rewrite Hs, (pr_sink _ _ _ _ Hpr).
  - eapply disk_points_saved; [exact Hsaved|]. by rewrite Hbm.
Qed.

(** * Restarts *)

Lemma take_max_subset (es es' : list evt) p q n :
  (p <= n)%nat -> take n log ⊆ es -> take (q - p) (drop p log) ⊆ es' -> (p <= q)%nat ->
  take (n `max` q) log ⊆ es ++ es'.
Proof.
  intros Hpn Hes Hes' Hpq. destruct (Nat.le_gt_cases q n) as [Hle|Hgt].
  - rewrite Nat.max_l by done. set_solver.
  - rewrite Nat.max_r by lia. replace q with (p + (q - p))%nat by lia. rewrite <- take_take_drop.
    intros e [He|He]%elem_of_app; apply elem_of_app; [left|right; by apply Hes'].
    apply Hes. replace n with (p + (n - p))%nat by lia. rewrite <- take_take_drop. apply elem_of_app. by left.
Qed.

Lemma delivered_pump io filter sink0 d sink exit d' sink' :
  delivered filter sink0 d sink -> follows io d -> pump_once io filter d sink = (exit, d', sink') ->
  delivered filter sink0 d' sink'.
Proof.
  intros (es & p & n & Hs & Hsub & Hcov & Hpn & Hd) Hf Hp.
  destruct (pump_once_places _ _ _ _ _ _ _ _ Hd Hf Hp) as (es' & q & Hs' & Hsub' & Hcov' & Hpq & (r & Hr & Hdr) & _).
  exists (es ++ es'), r, (n `max` q)%nat. rewrite map_app, (map_app ev_event). split_and!; [|set_solver|apply (take_max_subset _ _ p); [lia|done|done|lia]|lia|done].
  by rewrite Hs', Hs, concat_app, app_assoc.
Qed.

(** Every subscription of the restart loop follows the bookmark it finds. *)
Fixpoint subscribed (runs : list (ChannelRun S)) filter d sink : Prop :=
  match runs with
  | [] => True
  | r :: runs' =>
    follows (cr_pump r) d /\
    let '(_, d', sink') := pump_once (cr_pump r) filter d sink in subscribed runs' filter d' sink'
  end.

Lemma delivered_channel runs filter backoff sink0 d sink exit d' sink' backoff' :
  delivered filter sink0 d sink -> subscribed runs filter d sink ->
  run_channel runs filter backoff d sink = (exit, d', sink', backoff') ->
  delivered filter sink0 d' sink'.
Proof.
  revert backoff d sink. induction runs as [|r runs IH]; intros backoff d sink Hdel Hsub; cbn [run_channel].
  { by intros [= <- <- <- <-]. }
  destruct Hsub as [Hf Hsub]. destruct (cr_cancelled r); [by intros [= <- <- <- <-]|].
  destruct (pump_once (cr_pump r) filter d sink) as [[ex d1] s1] eqn:E.
  assert (Hdel1 := delivered_pump _ _ _ _ _ _ _ _ Hdel Hf E).
  destruct ex as [[]|]; try by intros [= <- <- <- <-].
  destruct (cr_cancelled_after r); [by intros [= <- <- <- <-]|]. by apply IH.
Qed.

(** Lifetimes of the agent, one after the other: each runs the channel until it
    is stopped, or is cut off wherever its last subscription was. *)
Fixpoint run_lives (lives : list (list (ChannelRun S))) filter d sink : StateDir * S :=
  match lives with
  | [] => (d, sink)
  | runs :: lives' =>
    let '(_, d', sink', _) := run_channel runs filter (secs 1) d sink in run_lives lives' filter d' sink'
  end.

Fixpoint lives_subscribed (lives : list (list (ChannelRun S))) filter d sink : Prop :=
  match lives with
  | [] => True
  | runs :: lives' =>
    subscribed runs filter d sink /\
    let '(_, d', sink', _) := run_channel runs filter (secs 1) d sink in lives_subscribed lives' filter d' sink'
  end.

Lemma delivered_lives lives filter sink0 d sink d' sink' :
  delivered filter sink0 d sink -> lives_subscribed lives filter d sink ->
  run_lives lives filter d sink = (d', sink') -> delivered filter sink0 d' sink'.
Proof.
  revert d sink. induction lives as [|runs lives IH]; intros d sink Hdel Hsub; cbn [run_lives]; [by intros [= <- <-]|].
  destruct Hsub as [Hs Hsub]. destruct (run_channel _ _ _ _ _) as [[[ex d1] s1] b1] eqn:E.
  apply IH; [by eapply delivered_channel|done].
Qed.

Lemma delivered_start filter d sink : disk_points d 0 -> delivered filter sink d sink.
Proof. intros Hd. exists [], 0%nat, 0%nat. rewrite app_nil_r. split_and!; [done|apply list_subseteq_nil..|done|done]. Qed.
End place.
