(* ===== verification/EventHandles.v ===== *)
(** [src/src/logs/eventlog.rs], the handles: the wrappers that close a handle when
    they are dropped, the event handles that are closed by hand, and the signal of
    a subscription.

    [EventLog] says what a pump does with the events; here the same control flow
    is read for the handles it opens and closes, as a list of operations in order.
    A ledger runs them: closing a handle that is not open is an error. *)
From S2P Require Import Prelude Str StrFacts External Text Sink Source EventFilter EventXml EventLog.
From Stdlib Require Import Strings.Byte.

(** * The signal *)

(** A Win32 event object: [CreateEventW(manual_reset, initial_state)]. *)
Record SignalObject := mkSignalObject { manual_reset : bool; is_set : bool }.

Definition signal_new : SignalObject := mkSignalObject true false.

(** The subscription sets it when events arrive. *)
Definition set_event (s : SignalObject) : SignalObject := mkSignalObject (manual_reset s) true.

(** [WaitForSingleObject]: whether it returns at once; an automatic event is reset
    by a wait that it satisfies. *)
Definition wait_for_single_object (s : SignalObject) : bool * SignalObject :=
  (is_set s, if manual_reset s then s else mkSignalObject (manual_reset s) false).

(** * Subscribing *)

Inductive SubscribeFlags := EvtSubscribeStartAfterBookmark | EvtSubscribeToFutureEvents.

(** The flags and the bookmark [subscribe] passes. *)
Definition subscribe_args {B} (bookmark : B) (resume : bool) : SubscribeFlags * option B :=
  (if resume then EvtSubscribeStartAfterBookmark else EvtSubscribeToFutureEvents,
   if resume then Some bookmark else None).

(** * Handles *)

Section handles.
Context `{EvtApi, !EqDecision evt, QuickXml, Lowercase}.
Context {S : Type} `{LogSink S}.

Inductive Handle := HSignal | HBookmark | HSubscription | HEvent (e : evt).

#[global] Instance Handle_eq_dec : EqDecision Handle.
Proof. solve_decision. Defined.

Inductive HandleOp := Open (h : Handle) | Close (h : Handle).

(** The handles open after the operations. *)
Fixpoint remove_one (h : Handle) (open : list Handle) : option (list Handle) :=
  match open with
  | [] => None
  | x :: r =>
    if bool_decide (x = h) then Some r
    else match remove_one h r with Some r' => Some (x :: r') | None => None end
  end.

Fixpoint ledger (ops : list HandleOp) (open : list Handle) : option (list Handle) :=
  match ops with
  | [] => Some open
  | Open h :: r => ledger r (h :: open)
  | Close h :: r => match remove_one h open with Some open' => ledger r open' | None => None end
  end.

(** The loop over a batch closes each event after it was shipped and returns at
    the first that was not handled. *)
Fixpoint ship_batch_ops (batch : list (EventIo S)) (filter : EventFilter.EventFilter) (st : PumpState S)
    : list HandleOp :=
  match batch with
  | [] => []
  | ev :: rest =>
    Close (HEvent (ev_event ev)) ::
    match ship_event ev filter st with
    | (EHandled, st') => ship_batch_ops rest filter st'
    | _ => []
    end
  end.

(** [EvtNext] opens the handles of a batch. *)
Fixpoint drain_batch_ops (answers : list (NextAnswer S)) (filter : EventFilter.EventFilter) (st : PumpState S)
    : list HandleOp :=
  match answers with
  | [] | NextErr _ :: _ => []
  | NextOk batch :: answers' =>
    let events := take BATCH batch in
    map (fun ev => Open (HEvent (ev_event ev))) events ++ ship_batch_ops events filter st ++
    match ship_batch events filter st with
    | (EHandled, st') => drain_batch_ops answers' filter st'
    | _ => []
    end
  end.

Fixpoint pull_loop_ops (steps : list (PullStep S)) (filter : EventFilter.EventFilter) (st : PumpState S)
    : list HandleOp :=
  match steps with
  | [] => []
  | ps :: steps' =>
    if ps_cancelled ps then []
    else if negb (ps_signaled ps) then pull_loop_ops steps' filter st
    else
      drain_batch_ops (ps_answers ps) filter st ++
      match drain_batch (ps_answers ps) filter st with
      | (Some More, st') => pull_loop_ops steps' filter st'
      | _ => []
      end
  end.

(** [pump_once] with the drops of its wrappers, which run in the reverse order of
    their declaration when it returns. *)
Definition pump_once_ops (io : PumpIo S) (filter : EventFilter.EventFilter) (d : StateDir) (sink : S)
    : list HandleOp :=
  if negb (pu_signal io) then []
  else
    Open HSignal ::
    match evt_create_bookmark (load_bookmark (ck_file d)) with
    | None => [Close HSignal]
    | Some b =>
      Open HBookmark ::
      match pu_subscribe io with
      | Some _ => [Close HBookmark; Close HSignal]
      | None =>
        Open HSubscription :: pull_loop_ops (pu_steps io) filter (mkPumpState b since_save_new d sink)
        ++ [Close HSubscription; Close HBookmark; Close HSignal]
      end
    end.

(** * Facts *)

Lemma remove_one_perm h open : h ∈ open -> exists r, remove_one h open = Some r /\ open ≡ₚ h :: r.
Proof.
  induction open as [|x open IH]; [by intros ?%not_elem_of_nil|]. cbn [remove_one]. case_bool_decide as Hx; [subst; by exists open|].
  intros [?|Hin]%elem_of_cons; [done|]. destruct (IH Hin) as (r & -> & Hp). exists (x :: r). split; [done|].
  rewrite Hp. apply Permutation_swap.
Qed.

(** Running the operations depends on which handles are open, not on an order. *)
Lemma ledger_perm ops o1 o2 r1 :
  o1 ≡ₚ o2 -> ledger ops o1 = Some r1 -> exists r2, ledger ops o2 = Some r2 /\ r1 ≡ₚ r2.
Proof.
  revert o1 o2. induction ops as [|[h|h] ops IH]; intros o1 o2 Hp; cbn [ledger].
  - intros [= <-]. by exists o2.
  - apply IH. by rewrite Hp.
  - destruct (decide (h ∈ o1)) as [Hin|Hin].
    + destruct (remove_one_perm h o1 Hin) as (a & -> & Ha). rewrite Hp in Hin.
      destruct (remove_one_perm h o2 Hin) as (b & -> & Hb). apply IH.
      apply (Permutation_cons_inv (a := h)). by rewrite <- Ha, <- Hb.
    + assert (Hn : remove_one h o1 = None).
      { clear -Hin. induction o1 as [|x o1 IH]; [done|]. cbn. rewrite bool_decide_false by set_solver.
        by rewrite IH by set_solver. }
      by rewrite Hn.
Qed.

Lemma ledger_app ops1 ops2 o : ledger (ops1 ++ ops2) o = match ledger ops1 o with Some o' => ledger ops2 o' | None => None end.
Proof.
  revert o. induction ops1 as [|[h|h] ops1 IH]; intros o; cbn [app ledger]; [done|apply IH|].
  by destruct (remove_one h o).
Qed.

(** [ops] take the open handles from [o] to [o'], up to order. *)
Definition runs (ops : list HandleOp) (o o' : list Handle) : Prop := exists r, ledger ops o = Some r /\ r ≡ₚ o'.

Lemma runs_nil o : runs [] o o.
Proof. by exists o. Qed.

Lemma runs_app ops1 ops2 o1 o2 o3 : runs ops1 o1 o2 -> runs ops2 o2 o3 -> runs (ops1 ++ ops2) o1 o3.
Proof.
  intros (r1 & H1' & Hp1) (r2 & H2' & Hp2). destruct (ledger_perm ops2 o2 r1 r2) as (r3 & H3' & Hp3); [done|done|].
  exists r3. rewrite ledger_app, H1'. split; [done|]. by rewrite <- Hp3.
Qed.

Lemma runs_open h o : runs [Open h] o (h :: o).
Proof. by exists (h :: o). Qed.

Lemma runs_close h o o' : o ≡ₚ h :: o' -> runs [Close h] o o'.
Proof.
  intros Hp. destruct (remove_one_perm h o) as (r & Hr & Hpr); [rewrite Hp; by left|].
  exists r. cbn. rewrite Hr. split; [done|]. apply (Permutation_cons_inv (a := h)). by rewrite <- Hpr.
Qed.

Definition event_handles (batch : list (EventIo S)) : list Handle := map (fun ev => HEvent (ev_event ev)) batch.

Lemma event_handles_events batch es : event_handles batch = map HEvent es -> map (fun ev => ev_event ev) batch = es.
Proof.
  revert es. induction batch as [|ev batch IH]; intros [|e es]; cbn; try done. intros [= -> Hr]. f_equal. by apply IH.
Qed.

Lemma runs_open_batch batch o : runs (map (fun ev => Open (HEvent (ev_event ev))) batch) o (event_handles batch ++ o).
Proof.
  revert o. induction batch as [|ev batch IH]; intros o; [apply runs_nil|]. cbn [map event_handles app].
  destruct (IH (HEvent (ev_event ev) :: o)) as (r & Hr & Hp). exists r. split; [done|].
  rewrite Hp. fold (event_handles batch). symmetry. apply Permutation_middle.
Qed.

(** What is left of a batch: the events after the one it stopped at. *)
Lemma ship_batch_handles batch filter (st : PumpState S) o :
  exists leaked, runs (ship_batch_ops batch filter st) (event_handles batch ++ o) (event_handles leaked ++ o) /\
    (leaked = [] \/ (length leaked < length batch)%nat /\ exists out st', ship_batch batch filter st = (out, st') /\ out <> EHandled).
Proof.
  revert st. induction batch as [|ev batch IH]; intros st; cbn [ship_batch_ops ship_batch].
  { exists []. split; [apply runs_nil|by left]. }
  assert (Hc : runs [Close (HEvent (ev_event ev))] (event_handles (ev :: batch) ++ o) (event_handles batch ++ o)).
  { by apply runs_close. }
  destruct (ship_event ev filter st) as [out st'] eqn:E. destruct out.
  - destruct (IH st') as (leaked & Hr & Hcase). exists leaked. split; [by eapply (runs_app [_])|].
    destruct Hcase as [->|[Hl Hex]]; [by left|right]. split; [cbn; lia|done].
  - exists batch. split; [exact Hc|]. right. split; [cbn; lia|]. by eexists _, _.
  - exists batch. split; [exact Hc|]. right. split; [cbn; lia|]. by eexists _, _.
Qed.

Lemma ship_event_outcome ev filter (st : PumpState S) :
  (ship_event ev filter st).1 ∈ [EHandled; ECancelled; EFailed EvtUpdateBookmark].
Proof.
  unfold ship_event. destruct (render_xml _ _) as [xml|]; [|set_solver]. generalize (ev_waits ev). intros waits.
  revert st. induction waits as [|w waits IH]; intros st; cbn [ship_loop];
    destruct (process_entry _ _ _ _) as [[] s']; try (destruct (ev_update ev); cbn [negb];
      [destruct (on_shipped _ _ _ _)|]; set_solver); [set_solver|apply IH].
Qed.

Lemma ship_batch_outcome batch filter (st : PumpState S) :
  (ship_batch batch filter st).1 ∈ [EHandled; ECancelled; EFailed EvtUpdateBookmark].
Proof.
  revert st. induction batch as [|ev batch IH]; intros st; cbn [ship_batch]; [set_solver|].
  assert (He := ship_event_outcome ev filter st). destruct (ship_event ev filter st) as [[] st']; [apply IH|exact He..].
Qed.

(** The ways in which a batch is interrupted. *)
Definition interrupted (e : option PumpExit) : Prop := e = Some Cancelled \/ e = Some (Failed EvtUpdateBookmark).

Definition leak_ok (leaked : list (EventIo S)) (stopped : Prop) : Prop :=
  leaked = [] \/ (length leaked < BATCH)%nat /\ stopped.

Lemma drain_batch_handles answers filter (st : PumpState S) o :
  exists leaked, runs (drain_batch_ops answers filter st) o (event_handles leaked ++ o) /\
    leak_ok leaked (exists b, (drain_batch answers filter st).1 = Some b /\ b ∈ [BCancelled; BFailed EvtUpdateBookmark]).
Proof.
  revert st. induction answers as [|[e|batch] answers IH]; intros st; cbn [drain_batch_ops drain_batch];
    [exists []; split; [apply runs_nil|by left]..|].
  set (events := take BATCH batch). assert (Hlen : (length events <= BATCH)%nat) by (unfold events; rewrite length_take; lia).
  destruct (ship_batch_handles events filter st o) as (leaked & Hr & Hcase).
  assert (Hb := ship_batch_outcome events filter st).
  destruct (ship_batch events filter st) as [out st'] eqn:E. cbn [fst] in Hb.
  assert (Hor := runs_app _ _ _ _ _ (runs_open_batch events o) Hr). rewrite app_assoc.
  destruct out as [| |r].
  - assert (leaked = []) as -> by (destruct Hcase as [?|(_ & out & st'' & [= <- <-] & Hne)]; done).
    destruct (IH st') as (l2 & Hr2 & Hok2). exists l2. split; [by eapply runs_app|exact Hok2].
  - exists leaked. rewrite app_nil_r. split; [done|]. destruct Hcase as [?|[Hl _]]; [by left|right].
    split; [lia|]. exists BCancelled. split; [done|set_solver].
  - exists leaked. rewrite app_nil_r. split; [done|]. destruct Hcase as [?|[Hl _]]; [by left|right].
    split; [lia|]. exists (BFailed r). split; [done|].
    assert (r = EvtUpdateBookmark) as -> by set_solver. set_solver.
Qed.

Lemma pull_loop_handles steps filter (st : PumpState S) o :
  exists leaked, runs (pull_loop_ops steps filter st) o (event_handles leaked ++ o) /\
    leak_ok leaked (interrupted (pull_loop steps filter st).1).
Proof.
  revert st. induction steps as [|ps steps IH]; intros st; cbn [pull_loop_ops pull_loop];
    [exists []; split; [apply runs_nil|by left]|].
  destruct (ps_cancelled ps); [exists []; split; [apply runs_nil|by left]|].
  destruct (negb (ps_signaled ps)); [apply IH|].
  destruct (drain_batch_handles (ps_answers ps) filter st o) as (leaked & Hr & Hok).
  destruct (drain_batch (ps_answers ps) filter st) as [out st']. cbn [fst] in Hok.
  destruct out as [[| |r]|].
  - assert (leaked = []) as -> by (destruct Hok as [?|(_ & b & [= <-] & Hb)]; [done|set_solver]).
    destruct (IH st') as (l2 & Hr2 & Hok2). exists l2. split; [by eapply runs_app|exact Hok2].
  - exists leaked. rewrite app_nil_r. split; [done|]. destruct Hok as [?|[Hl _]]; [by left|right]. split; [done|by left].
  - exists leaked. rewrite app_nil_r. split; [done|]. destruct Hok as [?|(Hl & b & [= <-] & Hb)]; [by left|right].
    split; [done|]. right. cbn. assert (r = EvtUpdateBookmark) as -> by set_solver. done.
  - exists leaked. rewrite app_nil_r. split; [done|]. by destruct Hok as [?|(_ & b & Hb & _)]; [left|].
Qed.

(** C21: No handle is closed that is not open, and when the pump has returned its
    subscription, bookmark and signal are closed and so is every event it pulled,
    except when it stopped in the middle of a batch, cancelled or because the
    bookmark could not be moved: then the handles of the rest of that batch, up
    to 31 of them, are never closed. *)
Theorem pump_handles io filter (d : StateDir) (sink : S) :
  (pump_once io filter d sink).1.1 <> None ->
  exists leaked, runs (pump_once_ops io filter d sink) [] (event_handles leaked) /\
    leak_ok leaked (interrupted (pump_once io filter d sink).1.1).
Proof.
  intros _. unfold pump_once_ops, pump_once. destruct (negb (pu_signal io)); [exists []; split; [apply runs_nil|by left]|].
  destruct (evt_create_bookmark _) as [b|]; [|exists []; split; [by exists []|by left]].
  destruct (pu_subscribe io) as [e|].
  { exists []. split; [|by left]. by exists []. }
  set (st := mkPumpState b since_save_new d sink).
  destruct (pull_loop_handles (pu_steps io) filter st [HSubscription; HBookmark; HSignal]) as (leaked & Hr & Hok).
  exists leaked. destruct (pull_loop (pu_steps io) filter st) as [exit st'] eqn:E. split; [|exact Hok].
  assert (Hclose : runs [Close HSubscription; Close HBookmark; Close HSignal]
    (event_handles leaked ++ [HSubscription; HBookmark; HSignal]) (event_handles leaked)).
  { eapply (runs_app [_] [_; _]); [apply runs_close; symmetry; apply Permutation_middle|].
    eapply (runs_app [_] [_]); [apply runs_close; symmetry; apply Permutation_middle|].
    apply runs_close. symmetry. rewrite Permutation_cons_append. done. }
  destruct (runs_app _ _ _ _ _ Hr Hclose) as (r & Hl & Hp). by exists r.
Qed.
End handles.

(** Once it has been set, the signal of a subscription is never reset: every later
    wait returns at once, whether there are events or not. *)
Theorem signal_never_resets (s : SignalObject) (waits : list bool) :
  manual_reset s = true -> is_set s = true ->
  forall s', s' = fold_left (fun s (ev : bool) => (wait_for_single_object (if ev then set_event s else s)).2) waits s ->
  (wait_for_single_object s').1 = true.
Proof.
  intros Hm Hs s' ->. revert s Hm Hs. induction waits as [|ev waits IH]; intros s Hm Hs; [done|]. cbn [fold_left].
  apply IH; destruct ev; cbn; rewrite ?Hm; done.
Qed.
