(* ===== verification/EventExamples.v ===== *)
(** A small XML reader and a small event log: what the witnesses of the Event Log
    properties evaluate. *)
From S2P Require Import Prelude Str StrFacts External Text Sink SinkFacts Source EventFilter EventXml EventXmlFacts EventLog EventLogFacts EventPlaceFacts Examples.
From Stdlib Require Import Strings.Byte.

Module EventExamples.
Export Examples.

(** * A reader of elements, attributes, text and references *)

Definition lt : byte := x3c.
Definition gt : byte := x3e.
Definition amp : byte := x26.
Definition slash : byte := x2f.

(** [name="value"] without white space in the value. *)
Definition attribute (w : bytes) : bytes * bytes :=
  match split_once x3d w with
  | Some (k, v) => (k, reverse (drop 1 (reverse (drop 1 v))))
  | None => (w, [])
  end.

Definition element (body : bytes) : BytesStart :=
  match split_whitespace body with
  | n :: ws => mkBytesStart n (attrs (map attribute ws))
  | [] => mkBytesStart [] (attrs [])
  end.

Definition tag (body : bytes) : XmlEvent :=
  match body with
  | c :: r =>
    if bool_decide (c = slash) then XEnd r
    else match strip_suffix [slash] body with
      | Some b => XEmpty (element b)
      | None => XStart (element body)
      end
  | [] => XOther
  end.

Definition next_token (s : bytes) : option (XmlEvent * bytes) :=
  match s with
  | [] => Some (XEof, [])
  | c :: r =>
    if bool_decide (c = lt) then
      match find_byte gt r with Some i => Some (tag (take i r), drop (S i) r) | None => None end
    else if bool_decide (c = amp) then
      match find_byte x3b r with Some i => Some (XGeneralRef (take i r), drop (S i) r) | None => None end
    else
      let n := match position (fun b => bool_decide (b = lt) || bool_decide (b = amp)) r with
        Some n => n | None => length r end in
      Some (XText (c :: take n r), drop n r)
  end.

Definition predefined (r : bytes) : option bytes :=
  if bool_decide (r = b#"&lt;") then Some b#"<"
  else if bool_decide (r = b#"&gt;") then Some b#">"
  else if bool_decide (r = b#"&amp;") then Some b#"&"
  else None.

#[global] Instance tiny_xml : QuickXml := {|
  xml_reader := bytes;
  xml_from_str s := s;
  read_event := next_token;
  xml_decode s := if valid_utf8 s then Some s else None;
  xml_unescape := predefined;
|}.

#[global, program] Instance tiny_xml_ok : QuickXmlOk := {| xml_left := fun r : bytes => length r |}.
Next Obligation. done. Qed.
Next Obligation.
  intros [|c r] ev r'; cbn [read_event tiny_xml next_token]; [by intros [= <- <-]|].
  case_bool_decide; [|case_bool_decide];
    [destruct (find_byte gt r)|destruct (find_byte x3b r)|]; intros [= <- <-] _;
    rewrite ?length_drop; cbn; lia.
Qed.

(** The tokens of a text. *)
Fixpoint tokens (fuel : nat) (s : bytes) : option (list XmlEvent) :=
  match fuel with
  | O => None
  | S fuel' =>
    match next_token s with
    | Some (XEof, _) => Some []
    | Some (ev, r) => match tokens fuel' r with Some evs => Some (ev :: evs) | None => None end
    | None => None
    end
  end.

Lemma tokens_yields fuel s evs : tokens fuel s = Some evs -> yields (xml_from_str s) evs.
Proof.
  revert s evs. induction fuel as [|fuel IH]; intros s evs; cbn [tokens]; [done|].
  destruct (next_token s) as [[ev r]|] eqn:E; [|done].
  destruct ev; try (intros [= <-]; by eapply yields_eof);
    (destruct (tokens fuel r) as [l|] eqn:El; [|done]; intros [= <-]; eapply yields_cons; [exact E|done|by apply IH]).
Qed.

(** Names without a prefix, text written literally. *)
Definition chars (v : bytes) : list XmlEvent := if is_empty v then [] else [XText v].

Lemma chars_spelled v : valid_utf8 v = true -> spelled (chars v) v.
Proof.
  unfold chars. destruct v as [|c v]; [by exists []|]. intros Hv. exists [c :: v]. cbn [concat]. rewrite app_nil_r.
  split; [|done]. constructor; [|constructor]. cbn [spells xml_decode tiny_xml]. by rewrite Hv.
Qed.

Lemma id_local n : x3a ∉ n -> local_name n = n.
Proof.
  intros Hn. unfold local_name. fold (find_byte x3a n). by rewrite (proj2 (find_byte_None _ _) Hn).
Qed.

(** * An event log of two events *)

(** ASCII text as a UTF-16 buffer. *)
Definition utf16 (s : bytes) : bytes := utf16_bytes (map bN s).

Definition tiny_event (e : bool) : bytes :=
  if e then b#"<Event><System><Provider Name='B'/></System></Event>"
  else b#"<Event><System><Provider Name='A'/></System></Event>".

Definition tiny_mark (b : option bool) : bytes :=
  match b with None => b#"none" | Some false => b#"first" | Some true => b#"second" end.

Fixpoint after_event (e : bool) (log : list bool) : list bool :=
  match log with
  | [] => []
  | x :: r => if bool_decide (x = e) then r else after_event e r
  end.

#[global] Instance tiny_evt : EvtApi := {|
  evt := bool;
  evt_bookmark := option bool;
  evt_create_bookmark o :=
    match o with
    | None => Some None
    | Some x =>
      if bool_decide (x = b#"none") then Some None
      else if bool_decide (x = b#"first") then Some (Some false)
      else if bool_decide (x = b#"second") then Some (Some true)
      else None
    end;
  evt_update_bookmark _ e := Some e;
  evt_event_xml e := utf16 (tiny_event e);
  evt_bookmark_xml b := utf16 (tiny_mark b);
  evt_after b log := match b with None => log | Some e => after_event e log end;
|}.

#[global] Instance tiny_evt_ok : EvtApiOk.
Proof.
  split.
  - intros b e seen rest Hnd. cbn. induction seen as [|x seen IH]; cbn in *.
    + by rewrite bool_decide_eq_true_2.
    + apply NoDup_cons in Hnd as [Hx Hnd]. rewrite bool_decide_eq_false_2; [by apply IH|].
      intros ->. apply Hx. set_solver.
  - by intros [[]|].
  - intros b. exists b. split; [|done]. by destruct b as [[]|].
Qed.

Definition tiny_log : list (@evt tiny_evt) := [false; true].

Definition render_ok : RenderIo := mkRenderIo true true.
Definition tiny_save : SaveIo := mkSaveIo render_ok io_ok.
Definition pulled (e : bool) : EventIo (list LogEntry) := mkEventIo e render_ok [] true tiny_save.
Definition no_filter : EventFilter.EventFilter := EventFilter.mkEventFilter None [].

(** Before the first event. *)
Definition start_dir : StateDir := mkStateDir (Some b#"none") None.

(** A subscription that is given [es], then stopped when [stop]. *)
Definition sub (es : list bool) (stop : bool) : PumpIo (list LogEntry) :=
  mkPumpIo true None
    (mkPullStep false true [NextOk (map pulled es); NextErr (from_win32 ERROR_NO_MORE_ITEMS)] tiny_save
     :: if stop then [mkPullStep true false [] tiny_save] else []).

Lemma start_points : disk_points tiny_log start_dir 0.
Proof. exists b#"none", None. split_and!; [done|done|]. split; [cbn; lia|done]. Qed.

Lemma sub_quiet es stop : (length es <= BATCH)%nat -> Forall quiet (steps_events (pu_steps (sub es stop))).
Proof.
  intros Hl. cbn. rewrite take_ge by (rewrite length_map; exact Hl).
  assert (Hst : steps_events (if stop then [mkPullStep true false [] tiny_save] else []) = [] :> list (EventIo (list LogEntry)))
    by by destruct stop.
  rewrite Hst, !app_nil_r. apply Forall_map, Forall_true. intros e. by split; [constructor|].
Qed.
End EventExamples.
