(* ===== verification/EventProps.v ===== *)
(** The guarantees of the Windows Event Log source: delivery across failures and
    restarts, the reading of rendered events, severities, payloads and the
    bookmark file. *)
From S2P Require Import Prelude Str StrFacts External Text Sink SinkFacts Source EventFilter EventXml EventXmlFacts EventLog EventLogFacts EventPlaceFacts Examples EventHandles EventExamples.
From Stdlib Require Import Strings.Byte.

(** * Delivery *)

Section delivery.
Context `{EvtApi, !EvtApiOk, QuickXml, Lowercase}.
Context {S : Type} `{LogSink S, !LogSinkOk S}.


Lemma sublist_map_filter (evs : list (EventIo S)) : map ev_event (List.filter moves evs) `sublist_of` map ev_event evs.
Proof. induction evs as [|ev evs IH]; cbn; [done|]. destruct (moves ev); cbn; by constructor. Qed.

Lemma filter_unmoved (evs : list (EventIo S)) : Forall (fun ev => moves ev = false) evs -> List.filter moves evs = [].
Proof. induction 1 as [|ev evs Hev _ IH]; [done|]. cbn. by rewrite Hev. Qed.

(** C20: A stop on request loses and repeats nothing: when the pump was cancelled
    and its last save worked, a later subscription that was given everything after
    the bookmark takes up where the first left off: together they have been past
    every event of the log, and those that could be rendered, which are the only
    ones that ship anything, they have taken once and in order. When all could be,
    the log was shipped once and in order. *)
Theorem channel_stop_exact (log : list evt) filter io1 d (sink : S) d1 sink1 io2 d2 sink2 :
  NoDup log -> disk_points log d 0 -> follows log io1 d ->
  Forall (fun ps => save_works (ps_flush ps)) (pu_steps io1) ->
  pump_once io1 filter d sink = (Some Cancelled, d1, sink1) ->
  follows log io2 d1 ->
  (forall b, evt_create_bookmark (load_bookmark (ck_file d1)) = Some b ->
     map ev_event (steps_events (pu_steps io2)) = evt_after b log) ->
  pump_once io2 filter d1 sink1 = (None, d2, sink2) ->
  exists evs : list (EventIo S), shipped sink2 = shipped sink ++ concat (map (expected filter) evs) /\
    (forall e, e ∈ log -> e ∈ map ev_event evs) /\
    map ev_event (List.filter moves evs) `sublist_of` log /\
    (forall ev, ev ∈ evs -> moves ev = false -> expected filter ev = []) /\
    (Forall (fun ev => r_probe (ev_render ev) = true /\ r_render (ev_render ev) = true)
       (steps_events (pu_steps io1) ++ steps_events (pu_steps io2)) ->
     shipped sink2 = shipped sink ++ concat (map (event_entries filter) log)).
Proof.
  intros Hnd Hd Hf1 Hw Hp1 Hf2 Hall Hp2.
  destruct (pump_once_stopped log Hnd _ _ _ _ _ _ _ Hd Hf1 Hw Hp1) as (a & c & Hs1 & Hpre & Hcm & Ha & Hd1).
  destruct (pump_once_places log Hnd _ _ _ _ _ _ _ _ Hd1 Hf2 Hp2) as (es & _ & Hs2 & _ & _ & _ & _ & Hlast).
  destruct Hd1 as (xml & b & Hl & Hc & Hpt). rewrite Hl in Hall. rewrite Hlast in Hs2 by done.
  specialize (Hall b Hc). rewrite (proj2 Hpt) in Hall. cbn [Nat.add] in Hall, Ha. rewrite drop_0 in Ha.
  set (evs2 := steps_events (pu_steps io2)) in *. exists ((a ++ c) ++ evs2).
  assert (Hsh : shipped sink2 = shipped sink ++ concat (map (expected filter) ((a ++ c) ++ evs2)))
    by (by rewrite Hs2, Hs1, (map_app _ (a ++ c)), (concat_app (map _ (a ++ c))), app_assoc).
  split_and!; [done|..].
  - intros e He. rewrite !map_app, Hall, Ha. rewrite <- (take_drop (length a) log) in He. set_solver.
  - rewrite !List.filter_app, (filter_unmoved c Hcm), app_nil_r, map_app.
    rewrite <- (take_drop (length a) log), <- Ha, <- Hall. apply sublist_app; apply sublist_map_filter.
  - intros ev _. apply unrendered_expected.
  - intros [Hr1 Hr2]%Forall_app. destruct Hpre as [more Hmore]. rewrite Hmore in Hr1. apply Forall_app in Hr1 as [Hr1 _].
    assert (Hrc : forall evs : list (EventIo S), Forall (fun ev => r_probe (ev_render ev) = true /\ r_render (ev_render ev) = true) evs ->
      concat (map (expected filter) evs) = concat (map (event_entries filter) (map ev_event evs))).
    { intros evs. induction 1 as [|ev evs [Hx Hy] _ IH]; [done|]. cbn. by rewrite rendered_expected, IH. }
    assert (c = []) as ->.
    { destruct c as [|ev c]; [done|]. apply Forall_app in Hr1 as [_ [[Hx Hy] _]%Forall_cons]. apply Forall_inv in Hcm.
      unfold moves, rendered, render_xml in Hcm. by rewrite render_handle_ok in Hcm. }
    rewrite app_nil_r in *. rewrite Hsh, Hrc by (by apply Forall_app). by rewrite map_app, Ha, Hall, take_drop.
Qed.
End delivery.

(** * Sleeping *)

Lemma sleep_loop_bounds fuel cancelled remaining t b t' :
  remaining <= N.of_nat fuel * STEP -> sleep_loop fuel cancelled remaining t = (b, t') ->
  t <= t' <= t + remaining /\ b = cancelled t' /\ (b = false -> t' = t + remaining).
Proof.
  revert remaining t. induction fuel as [|fuel IH]; intros remaining t Hf; cbn [sleep_loop].
  - intros [= <- <-]. assert (remaining = 0) by lia. subst. split_and!; [lia|lia|done|lia].
  - destruct (N.ltb_spec 0 remaining) as [Hr|Hr].
    + destruct (cancelled t) eqn:Ec; [intros [= <- <-]; split_and!; [lia|lia|done|done]|].
      intros Hs%IH; [|lia]. destruct Hs as (Ht & Hb & Hfin).
      split_and!; [lia|lia|done|]. intros Hbf. specialize (Hfin Hbf). lia.
    + intros [= <- <-]. assert (remaining = 0) by lia. subst. split_and!; [lia|lia|done|lia].
Qed.

Lemma sleep_loop_prompt fuel cancelled remaining t b t' u :
  (forall x y, x <= y -> cancelled x = true -> cancelled y = true) ->
  remaining <= N.of_nat fuel * STEP -> t <= u <= t + remaining -> cancelled u = true ->
  sleep_loop fuel cancelled remaining t = (b, t') -> b = true /\ t' < u + STEP.
Proof.
  intros Hmono. revert remaining t. induction fuel as [|fuel IH]; intros remaining t Hf Hu Hc; cbn [sleep_loop].
  - intros [= <- <-]. assert (u = t) by lia. subst u. split; [done|]. unfold STEP. lia.
  - destruct (N.ltb_spec 0 remaining) as [Hr|Hr].
    + destruct (cancelled t) eqn:Ec; [intros [= <- <-]; split; [done|unfold STEP; lia]|].
      assert (Hne : t < u) by (destruct (N.eq_dec t u); [congruence|lia]).
      destruct (N.le_gt_cases (t + N.min remaining STEP) u) as [Hle|Hgt]; [apply IH; [lia|lia|done]|].
      assert (Hd : cancelled (t + N.min remaining STEP) = true) by (by apply (Hmono u); [lia|]).
      destruct fuel as [|fuel]; cbn [sleep_loop]; [|rewrite Hd; case_if];
        intros [= <- <-]; (split; [done|unfold STEP in *; lia]).
    + intros [= <- <-]. assert (u = t) by lia. subst u. split; [done|]. unfold STEP. lia.
Qed.

(** A blocking pump answers a shutdown promptly: a sleep never outlasts its
    duration, is complete when it reports no cancellation, and when the flag is
    raised during the sleep it returns [true] within one step of 50 ms. *)
Theorem sleep_prompt dur cancelled t b t' u :
  (forall x y, x <= y -> cancelled x = true -> cancelled y = true) ->
  sleep_cancellable dur cancelled t = (b, t') ->
  t <= t' <= t + dur /\ (b = false -> t' = t + dur) /\
  (t <= u <= t + dur -> cancelled u = true -> b = true /\ t' < u + STEP).
Proof.
  intros Hmono Hs. unfold sleep_cancellable in Hs.
  assert (Hf : dur <= N.of_nat (S (N.to_nat (dur / STEP))) * STEP).
  { assert (E := N.div_mod dur STEP ltac:(done)). assert (M := N.mod_lt dur STEP ltac:(done)).
    rewrite Nat2N.inj_succ, N2Nat.id. lia. }
  destruct (sleep_loop_bounds _ _ _ _ _ _ Hf Hs) as (Ht & Hb & Hfin). split_and!; [lia|lia|done|].
  intros Hu Hc. by eapply sleep_loop_prompt.
Qed.

(** * Reading an event *)

(** C22: The parser always returns: for every text, well formed or not, it ends with
    an entry or an error before the bound on its turns is reached, and so
    [process_entry] drops exactly the texts that are too long or in error. *)
Theorem event_parse_total `{QuickXml, !QuickXmlOk} (xml : bytes) : parse_event_xml xml <> OutOfFuel.
Proof. apply xml_loop_total. assert (Hx := xml_left_start xml). lia. Qed.

(** C23: A rendered event is read back field by field: for every entry whose values
    are trimmed, whose identifier is masked and whose level is a byte, the document
    of the event schema that carries it, with any namespace prefix and its texts
    spelled in any mixture of text, references and CDATA sections, parses to the
    entry, its unnamed values numbered [param1], [param2], ... *)
Theorem event_document_roundtrip `{QuickXml, !QuickXmlOk} qualified chars xml x :
  (forall n, x3a ∉ n -> local_name (qualified n) = n) ->
  spells_texts chars (texts x) ->
  entry_wf x -> yields (xml_from_str xml) (document qualified chars x) ->
  parse_event_xml xml = Parsed (with_data (number_params 0 (data x)) x).
Proof. intros Hq Hc Hwf Hy. by eapply document_parsed. Qed.

(** The severity of a forwarded event is lost. When the document carries a
    rendering section and no event data, the parser is still in the system
    section, the rendered level replaces the numeric one, and an event without
    audit keywords is reported as [Info] whatever its level was. *)
Theorem forwarded_level_lost `{QuickXml, !QuickXmlOk} qualified chars xml x t :
  (forall n, x3a ∉ n -> local_name (qualified n) = n) ->
  spells_texts chars (t :: texts x) ->
  entry_wf x -> yields (xml_from_str xml) (forwarded qualified chars x t) ->
  parse_u8 (trim t) = None -> parse_keywords_hex (keywords x) = None ->
  exists y, parse_event_xml xml = Parsed y /\ provider y = provider x /\ event_id y = event_id x /\
    resolve_severity y = (Info, None).
Proof.
  intros Hq Hc Hwf Hy Ht Hk. eexists. split; [by eapply forwarded_parsed|]. split_and!; [done|done|].
  unfold resolve_severity. cbn [keywords with_level with_data]. by rewrite Hk, Ht.
Qed.

(** Audit keywords decide before the level: for every mask, in the rendering
    of Windows, bits 63 and 52 make a failed audit an [Error], bits 63 and 53 a
    successful one an [Info], each with its outcome, and without them the
    level's own severity stands. *)
Theorem audit_keywords_first (entry : EventEntry) (kw : N) :
  kw <= u64_max -> keywords entry = render_keywords kw ->
  resolve_severity entry =
    if N.testbit kw 63 && N.testbit kw 52 then (Error, Some b#"failure")
    else if N.testbit kw 63 && N.testbit kw 53 then (Info, Some b#"success")
    else (level_of (level entry), None).
Proof. intros Hkw Hk. apply resolve_severity_bits. rewrite Hk. by apply parse_keywords_render. Qed.

(** What the payload of an event holds: the agent's own keys have the entry's
    non-empty fields, the level and the audit outcome; any other key has the
    first event value whose lower-cased name it is; an application cannot
    replace an agent's key that has a value. *)
Theorem event_payload_precedence `{Lowercase} (entry : EventEntry) (outcome : option bytes) (k : bytes) :
  payload_get k (build_payload entry outcome)
  = match reserved_get k (reserved entry outcome) with
    | Some v => Some v
    | None => data_get k (data entry)
    end.
Proof.
  rewrite build_payload_fold. cbv zeta. set (obj := fold_left add_data _ _).
  assert (Hobj : map_get k obj = match reserved_get k (reserved entry outcome) with
    Some v => Some v | None => data_get k (data entry) end).
  { unfold obj. rewrite fold_data_get, fold_put_get; [by destruct (reserved_get k _)|].
    unfold reserved, system_fields. rewrite !fmap_app. cbn. apply (bool_decide_unpack _). by vm_compute. }
  rewrite <- Hobj. unfold payload_get. by destruct obj.
Qed.

(** The bookmark file of any channel name is a file of the state directory:
    the path is the directory and one name without separators, dots or colons,
    so that no channel name can name another place. *)
Theorem bookmark_confined (dir ch : bytes) :
  dir <> [] ->
  exists sep, bookmark_path dir ch = dir ++ sep ++ bookmark_name ch /\
    (sep = [] \/ sep = [x5c]) /\ x2f ∉ bookmark_name ch /\ x5c ∉ bookmark_name ch /\
    x2e ∉ bookmark_name ch /\ x3a ∉ bookmark_name ch.
Proof.
  intros Hdir. assert (Hs := fun c => safe_not_elem c _ (bookmark_name_safe ch)).
  assert (Hj : exists sep, bookmark_path dir ch = dir ++ sep ++ bookmark_name ch /\ (sep = [] \/ sep = [x5c])).
  { unfold bookmark_path, path_join. replace (has_prefix_or_root (bookmark_name ch)) with false by done.
    destruct (last dir) as [c|] eqn:E; [|by apply last_None in E].
    case_if; [exists []|exists [x5c]]; (split; [done|]); auto. }
  destruct Hj as (sep & Hp & Hsep). exists sep. split_and!; [done|done|by apply Hs..].
Qed.

(** Text rendered by the system reads back: characters in UTF-16, closed by a
    NUL and followed by whatever the buffer still holds, are decoded to the same
    characters, in UTF-8. *)
Theorem rendered_text_decodes (cs : list N) (junk : bytes) :
  Forall (fun c => scalar c /\ c <> 0) cs ->
  utf16_bytes_to_string (utf16_bytes cs ++ [x00; x00] ++ junk) = concat (map encode_utf8 cs).
Proof. apply utf16_decodes. Qed.

(** A failed size probe erases the checkpoint: the rendering of the bookmark is
    then the empty string, not an error, which is saved over the good bookmark,
    and the next start finds none and skips to future events. *)
Theorem probe_failure_erases `{EvtApi} (b : evt_bookmark) (d : StateDir) (render : bool) :
  let io := mkSaveIo (mkRenderIo false render) Examples.io_ok in
  load_bookmark (ck_file (flush io b d)) = None.
Proof. by destruct d. Qed.

(** * On concrete events *)

Import EventExamples.

Lemma follows_sub es stop d :
  (length es <= BATCH)%nat ->
  (forall b, evt_create_bookmark (load_bookmark (ck_file d)) = Some b ->
     map ev_event (steps_events (pu_steps (sub es stop))) `prefix_of` evt_after b tiny_log) ->
  follows tiny_log (sub es stop) d.
Proof. intros Hl Hp. split_and!; [done|by apply sub_quiet|]. by destruct stop; repeat constructor. Qed.



Definition first_dir : StateDir := mkStateDir (Some b#"first") None.


(** What the first subscription has shipped when it is stopped. *)
Definition shipped_first : list LogEntry := event_entries (H := tiny_evt) no_filter false.

Lemma channel_stop_exact_witness :
  shipped (pump_once (sub [true] false) no_filter first_dir shipped_first).2
  = shipped ([] : list LogEntry) ++ concat (map (event_entries no_filter) tiny_log).
Proof.
  destruct (channel_stop_exact tiny_log no_filter (sub [false] true) start_dir ([] : list LogEntry)
    first_dir shipped_first (sub [true] false)
    (pump_once (sub [true] false) no_filter first_dir shipped_first).1.2
    (pump_once (sub [true] false) no_filter first_dir shipped_first).2
    ltac:(by apply (bool_decide_unpack _)) start_points) as (evs & _ & _ & _ & _ & Hexact).
  - apply follows_sub; [by apply Nat.leb_le|]. vm_compute. intros b [= <-]. by exists [true].
  - by repeat constructor.
  - vm_compute. reflexivity.
  - apply follows_sub; [by apply Nat.leb_le|]. vm_compute. intros b [= <-]. by exists [].
  - vm_compute. by intros b [= <-].
  - vm_compute. reflexivity.
  - apply Hexact. by repeat constructor.
Defined.

(** The bookmark cannot be moved past the first of two events. *)
Definition stuck_sub : PumpIo (list LogEntry) :=
  mkPumpIo true None
    [mkPullStep false true [NextOk [mkEventIo false render_ok [] false tiny_save; pulled true]] tiny_save].

Lemma pump_handles_witness :
  exists leaked : list (EventIo (list LogEntry)),
    runs (pump_once_ops stuck_sub no_filter start_dir ([] : list LogEntry)) [] (event_handles leaked) /\
    map (fun ev => ev_event ev) leaked = [true] /\
    (pump_once stuck_sub no_filter start_dir ([] : list LogEntry)).1.1 = Some (Failed EvtUpdateBookmark).
Proof.
  destruct (pump_handles stuck_sub no_filter start_dir ([] : list LogEntry)) as (leaked & Hr & _); [by vm_compute|].
  exists leaked. split; [exact Hr|]. split; [|by vm_compute].
  assert (Hv : ledger (pump_once_ops stuck_sub no_filter start_dir ([] : list LogEntry)) [] = Some [HEvent true])
    by exact (@eq_refl _ (Some [HEvent true]) <:
              ledger (pump_once_ops stuck_sub no_filter start_dir ([] : list LogEntry)) [] = Some [HEvent true]).
  destruct Hr as (r & Hl & Hp). rewrite Hv in Hl. injection Hl as <-.
  apply (event_handles_events leaked [true]). by apply Permutation_length_1_inv in Hp.
Defined.

Lemma sleep_prompt_witness :
  let '(b, t') := sleep_cancellable FULL_CHANNEL_RETRY (fun t => 60000000 <=? t) 0 in
  b = true /\ t' < 60000000 + STEP.
Proof.
  refine (proj2 (proj2 (sleep_prompt FULL_CHANNEL_RETRY (fun t => 60000000 <=? t) 0 true 100000000 60000000 _ _)) _ _).
  - intros x y Hxy Hx. norm_bool. apply N.leb_le. lia.
  - vm_compute. reflexivity.
  - unfold FULL_CHANNEL_RETRY. lia.
  - reflexivity.
Defined.

(** A failed logon with a named and an unnamed value. *)
Definition logon : EventEntry :=
  mkEventEntry b#"Audit" b#"4625" b#"16" (Some 2) b#"1" [] b#"Failed" b#"2" b#"T1" b#"HOST" b#"Security" b#"77"
    b#"a" [] b#"4" b#"8" b#"S-1" [(Some b#"User", b#"eve"); (None, b#"x")].

Definition system_text : bytes :=
  b#"<Event><System><Provider Name='Audit'/><EventID Qualifiers='16'>4625</EventID><Version>2</Version><Level>2</Level><Task>1</Task><Opcode></Opcode><Keywords>Failed</Keywords><TimeCreated SystemTime='T1'/><EventRecordID>77</EventRecordID><Correlation ActivityID='a' RelatedActivityID=''/><Execution ProcessID='4' ThreadID='8'/><Channel>Security</Channel><Computer>HOST</Computer><Security UserID='S-1'/></System>".

Definition logon_text : bytes :=
  system_text ++ b#"<EventData><Data Name='User'>eve</Data><Data>x</Data></EventData></Event>".

Definition forwarded_text : bytes :=
  system_text ++ b#"<RenderingInfo><Level>Error</Level></RenderingInfo></Event>".

Lemma logon_wf : entry_wf logon.
Proof. split; [by vm_compute|by vm_compute|by repeat constructor|by repeat constructor]. Qed.

Lemma logon_texts : spells_texts chars (b#"Error" :: texts logon).
Proof. repeat (apply Forall_cons; split; [apply chars_spelled; by vm_compute|]). constructor. Qed.

Lemma event_document_roundtrip_witness :
  parse_event_xml logon_text = Parsed (with_data [(Some b#"User", b#"eve"); (Some b#"param1", b#"x")] logon).
Proof.
  refine (event_document_roundtrip (fun n => n) chars logon_text logon id_local (Forall_inv_tail logon_texts) logon_wf _).
  apply (tokens_yields 200).
  exact (@eq_refl _ (Some (document (fun n => n) chars logon)) <: tokens 200 logon_text = Some (document (fun n => n) chars logon)).
Defined.

Lemma forwarded_level_lost_witness :
  exists y, parse_event_xml forwarded_text = Parsed y /\ provider y = b#"Audit" /\ event_id y = b#"4625" /\
    resolve_severity y = (Info, None).
Proof.
  refine (forwarded_level_lost (fun n => n) chars forwarded_text logon b#"Error" id_local logon_texts logon_wf _ _ _).
  - apply (tokens_yields 200).
    exact (@eq_refl _ (Some (forwarded (fun n => n) chars logon b#"Error")) <: tokens 200 forwarded_text = Some (forwarded (fun n => n) chars logon b#"Error")).
  - reflexivity.
  - reflexivity.
Defined.

Lemma event_parse_total_witness : parse_event_xml logon_text <> OutOfFuel.
Proof. exact (event_parse_total logon_text). Defined.

Lemma audit_keywords_first_witness :
  resolve_severity (with_keywords (render_keywords AUDIT_FAILURE) logon) = (Error, Some b#"failure").
Proof.
  exact (audit_keywords_first (with_keywords (render_keywords AUDIT_FAILURE) logon) AUDIT_FAILURE
    ltac:(by vm_compute) eq_refl).
Defined.

Lemma bookmark_confined_witness :
  exists sep, bookmark_path b#"C:\s" b#"..\x/y" = b#"C:\s" ++ sep ++ bookmark_name b#"..\x/y" /\
    (sep = [] \/ sep = [x5c]) /\ x2f ∉ bookmark_name b#"..\x/y" /\ x5c ∉ bookmark_name b#"..\x/y" /\
    x2e ∉ bookmark_name b#"..\x/y" /\ x3a ∉ bookmark_name b#"..\x/y".
Proof. exact (bookmark_confined b#"C:\s" b#"..\x/y" ltac:(discriminate)). Defined.

Lemma rendered_text_decodes_witness :
  utf16_bytes_to_string (utf16_bytes [0x41; 0x20AC; 0x1F600] ++ [x00; x00] ++ [x41])
  = concat (map encode_utf8 [0x41; 0x20AC; 0x1F600]).
Proof. apply (rendered_text_decodes [0x41; 0x20AC; 0x1F600] [x41]). by repeat constructor. Defined.
