(* ===== verification/Cgroups.v ===== *)
(** [src/src/metrics/linux/cgroups.rs] and [src/src/metrics/linux/container.rs]:
    the cgroup collector of the agent's own group and the container collector
    with its discovery of container scopes.

    The cgroup file system is what it answers: the text of a file, the names in
    a directory, whether a path is a directory. As in [Collectors], a collector
    returns the sink calls it makes. *)
From S2P Require Import Prelude Str StrFacts Text External F64 Sink Collectors.
From Stdlib Require Import Strings.Byte.

Record CgroupFs := mkCgroupFs {
  fs_read : bytes -> option bytes;             (* read_to_string; None: an error *)
  fs_list : bytes -> option (list bytes);      (* read_dir, the names it could read *)
  fs_is_dir : bytes -> bool;
  fs_exists : bytes -> bool;
}.

(** [Path::join] with a relative name; [DirEntry::path]. *)
Definition join_path (dir name : bytes) : bytes := dir ++ b#"/" ++ name.

(** [path.to_string_lossy()]. *)
Definition read_procfs (fs : CgroupFs) (path : bytes) : option bytes := fs_read fs (from_utf8_lossy path).

(** The key and the value of a line of a flat keyed file. *)
Definition key_value {A} (parse : bytes -> option A) (line : bytes) : option (bytes * A) :=
  match split_whitespace line with
  | key :: v :: _ => match parse v with Some a => Some (key, a) | None => None end
  | _ => None
  end.

(** * cgroups.rs *)

Record CpuStats := mkCpuStats {
  cs_usage : N; cs_user : N; cs_system : N; cs_throttled : N; cs_nr_throttled : N;
}.

Definition cpu_stat_line (st : CpuStats) (line : bytes) : CpuStats :=
  match key_value parse_u64 line with
  | None => st
  | Some (key, v) =>
    let '(mkCpuStats a b c d e) := st in
    if bool_decide (key = b#"usage_usec") then mkCpuStats v b c d e
    else if bool_decide (key = b#"user_usec") then mkCpuStats a v c d e
    else if bool_decide (key = b#"system_usec") then mkCpuStats a b v d e
    else if bool_decide (key = b#"throttled_usec") then mkCpuStats a b c v e
    else if bool_decide (key = b#"nr_throttled") then mkCpuStats a b c d v
    else st
  end.

Definition cgroup_parse_cpu_stat (buf : bytes) : CpuStats :=
  fold_left cpu_stat_line (lines buf) (mkCpuStats 0 0 0 0 0).

(** [saturating_sub], as a float. *)
Definition delta (c p : N) : f64 := f64_of_N (c - p).

Definition cgroup_deltas (cur prev : CpuStats) : list Metric :=
  [counter_call b#"system.cgroup.cpu.usage_usec" (delta (cs_usage cur) (cs_usage prev)) [];
   counter_call b#"system.cgroup.cpu.user_usec" (delta (cs_user cur) (cs_user prev)) [];
   counter_call b#"system.cgroup.cpu.system_usec" (delta (cs_system cur) (cs_system prev)) [];
   counter_call b#"system.cgroup.cpu.throttled_usec" (delta (cs_throttled cur) (cs_throttled prev)) [];
   counter_call b#"system.cgroup.cpu.nr_throttled" (delta (cs_nr_throttled cur) (cs_nr_throttled prev)) []].

Record CgroupCollector := mkCgroupCollector { cgroup_path : option bytes; prev_cpu : option CpuStats }.

Fixpoint own_cgroup (ls : list bytes) : option bytes :=
  match ls with
  | [] => None
  | line :: rest =>
    match strip_prefix b#"0::" line with
    | Some path =>
      let cgroup := trim path in
      if bool_decide (cgroup = b#"/") then Some b#"/sys/fs/cgroup" else Some (b#"/sys/fs/cgroup" ++ cgroup)
    | None => own_cgroup rest
    end
  end.

Definition detect_cgroup_path (fs : CgroupFs) : option bytes :=
  if negb (fs_exists fs b#"/sys/fs/cgroup/cgroup.controllers") then None
  else content ← fs_read fs b#"/proc/self/cgroup"; own_cgroup (lines content).

Definition cgroup_new (fs : CgroupFs) : CgroupCollector := mkCgroupCollector (detect_cgroup_path fs) None.

(** The memory gauges of a cgroup: [memory.current], [memory.max] unless it is
    unlimited, and the lines of [memory.stat] named in [keys]. *)
Definition memory_current (text : option bytes) (name : bytes) (labels : list label) : list Metric :=
  match text ≫= fun buf => parse_f64 (trim buf) with
  | Some b => [gauge_call name b labels]
  | None => []
  end.

Definition memory_limit (text : option bytes) (name : bytes) (labels : list label) : list Metric :=
  match text with
  | None => []
  | Some buf =>
    let trimmed := trim buf in
    if bool_decide (trimmed = b#"max") then []
    else match parse_f64 trimmed with Some b => [gauge_call name b labels] | None => [] end
  end.

Definition stat_line (keys : list (bytes * bytes)) (labels : list label) (line : bytes) : list Metric :=
  match key_value parse_f64 line with
  | None => []
  | Some (key, v) =>
    match List.find (fun kn : bytes * bytes => bool_decide (key = kn.1)) keys with
    | Some (_, name) => [gauge_call name v labels]
    | None => []
    end
  end.

Definition memory_stat (keys : list (bytes * bytes)) (text : option bytes) (labels : list label) : list Metric :=
  match text with
  | None => []
  | Some buf => concat (map (stat_line keys labels) (lines buf))
  end.

Definition cgroup_collect (fs : CgroupFs) (c : CgroupCollector) : CgroupCollector * list Metric :=
  match cgroup_path c with
  | None => (c, [])
  | Some base =>
    let file name := read_procfs fs (base ++ b#"/" ++ name) in
    let '(prev', cpu_calls) :=
      match file b#"cpu.stat" with
      | None => (prev_cpu c, [])
      | Some buf =>
        let current := cgroup_parse_cpu_stat buf in
        (Some current, match prev_cpu c with Some prev => cgroup_deltas current prev | None => [] end)
      end in
    (mkCgroupCollector (cgroup_path c) prev',
     cpu_calls
     ++ memory_current (file b#"memory.current") b#"system.cgroup.memory.usage" []
     ++ memory_limit (file b#"memory.max") b#"system.cgroup.memory.limit" []
     ++ memory_stat [(b#"anon", b#"system.cgroup.memory.anon"); (b#"file", b#"system.cgroup.memory.file");
                     (b#"kernel", b#"system.cgroup.memory.kernel")] (file b#"memory.stat") [])
  end.

(** * container.rs: discovery *)

Record ContainerInfo := mkContainerInfo { short_id : bytes; runtime : bytes; c_path : bytes }.

(** [str::contains], [str::ends_with]. *)
Definition contains (p s : bytes) : bool := match find_sub p s with Some _ => true | None => false end.
Definition ends_with (p s : bytes) : bool := match strip_suffix p s with Some _ => true | None => false end.

Definition parse_scope_entry (name prefix runtime path : bytes) : option ContainerInfo :=
  rest ← strip_prefix prefix name;
  inner ← strip_suffix b#".scope" rest;
  if (len inner =? 64) && List.forallb is_hexdigit inner
  then Some (mkContainerInfo (take 12 inner) runtime path)
  else None.

(** The names of a directory as the scans see them, with their paths. *)
Definition dir_entries (fs : CgroupFs) (dir : bytes) : list (bytes * bytes) :=
  match fs_list fs dir with
  | None => []
  | Some names => map (fun n => (from_utf8_lossy n, join_path dir n)) names
  end.

Definition scan_scope_dir (fs : CgroupFs) (dir prefix runtime : bytes) : list ContainerInfo :=
  omap (fun e : bytes * bytes => parse_scope_entry e.1 prefix runtime e.2) (dir_entries fs dir).

Definition pod_scope (e : bytes * bytes) : option ContainerInfo :=
  match parse_scope_entry e.1 b#"cri-containerd-" b#"containerd" e.2 with
  | Some info => Some info
  | None => parse_scope_entry e.1 b#"crio-" b#"crio" e.2
  end.

Definition scan_container_scopes_in_dir (fs : CgroupFs) (pod_dir : bytes) : list ContainerInfo :=
  omap pod_scope (dir_entries fs pod_dir).

Definition is_pod_slice (name : bytes) : bool := contains b#"-pod" name && ends_with b#".slice" name.

Definition scan_qos_slice (fs : CgroupFs) (qos_dir : bytes) : list ContainerInfo :=
  concat (map (fun e : bytes * bytes =>
    if negb (fs_is_dir fs e.2) then []
    else if is_pod_slice e.1 then scan_container_scopes_in_dir fs e.2 else [])
    (dir_entries fs qos_dir)).

Definition scan_kubepods (fs : CgroupFs) : list ContainerInfo :=
  let base := b#"/sys/fs/cgroup/kubepods.slice" in
  if negb (fs_is_dir fs base) then []
  else
    concat (map (fun e : bytes * bytes =>
      if negb (fs_is_dir fs e.2) then []
      else if is_pod_slice e.1 then scan_container_scopes_in_dir fs e.2
      else if ends_with b#".slice" e.1 then scan_qos_slice fs e.2 else [])
      (dir_entries fs base)).

Definition MAX_DEPTH : N := 5.

(** The depth is the code's; the recursion is on [fuel], and a depth above
    [MAX_DEPTH] is never entered, so that [scan_podman] has enough. *)
Fixpoint walk_for_libpod (fs : CgroupFs) (fuel : nat) (dir : bytes) (depth : N) : list ContainerInfo :=
  match fuel with
  | O => []
  | S fuel' =>
    if MAX_DEPTH <? depth then []
    else
      concat (map (fun e : bytes * bytes =>
        match parse_scope_entry e.1 b#"libpod-" b#"podman" e.2 with
        | Some info => [info]
        | None =>
          if fs_is_dir fs e.2 && (depth <? MAX_DEPTH) then walk_for_libpod fs fuel' e.2 (depth + 1) else []
        end) (dir_entries fs dir))
  end.

Definition scan_podman (fs : CgroupFs) : list ContainerInfo :=
  let base := b#"/sys/fs/cgroup/user.slice" in
  if negb (fs_is_dir fs base) then [] else walk_for_libpod fs (S (N.to_nat MAX_DEPTH)) base 0.

Definition discover_containers (fs : CgroupFs) : list ContainerInfo :=
  scan_scope_dir fs b#"/sys/fs/cgroup/system.slice" b#"docker-" b#"docker"
  ++ scan_kubepods fs ++ scan_podman fs.

(** * container.rs: collection *)

Record CpuPrev := mkCpuPrev { cp_usage : N; cp_user : N; cp_system : N }.

Definition cpu_prev_line (st : CpuPrev) (line : bytes) : CpuPrev :=
  match key_value parse_u64 line with
  | None => st
  | Some (key, v) =>
    let '(mkCpuPrev a b c) := st in
    if bool_decide (key = b#"usage_usec") then mkCpuPrev v b c
    else if bool_decide (key = b#"user_usec") then mkCpuPrev a v c
    else if bool_decide (key = b#"system_usec") then mkCpuPrev a b v
    else st
  end.

Definition container_parse_cpu_stat (buf : bytes) : CpuPrev :=
  fold_left cpu_prev_line (lines buf) (mkCpuPrev 0 0 0).

Definition DISCOVERY_INTERVAL_TICKS : N := 4.

Record ContainerCollector := mkContainerCollector {
  ct_prev_cpu : gmap bytes CpuPrev;
  ct_containers : list ContainerInfo;
  ct_tick_count : N;
}.

Definition container_new : ContainerCollector := mkContainerCollector ∅ [] 0.

Definition container_labels (c : ContainerInfo) : list label :=
  [(b#"container_id", short_id c); (b#"runtime", runtime c)].

Definition container_deltas (cur prev : CpuPrev) (labels : list label) : list Metric :=
  [counter_call b#"system.container.cpu.usage_usec" (delta (cp_usage cur) (cp_usage prev)) labels;
   counter_call b#"system.container.cpu.user_usec" (delta (cp_user cur) (cp_user prev)) labels;
   counter_call b#"system.container.cpu.system_usec" (delta (cp_system cur) (cp_system prev)) labels].

Definition collect_cpu (fs : CgroupFs) (c : ContainerInfo) (prev_map : gmap bytes CpuPrev)
    : gmap bytes CpuPrev * list Metric :=
  match read_procfs fs (join_path (c_path c) b#"cpu.stat") with
  | None => (prev_map, [])
  | Some buf =>
    let current := container_parse_cpu_stat buf in
    (<[short_id c := current]> prev_map,
     match prev_map !! short_id c with
     | Some prev => container_deltas current prev (container_labels c)
     | None => []
     end)
  end.

Definition collect_memory (fs : CgroupFs) (c : ContainerInfo) : list Metric :=
  let file name := read_procfs fs (join_path (c_path c) name) in
  memory_current (file b#"memory.current") b#"system.container.memory.usage" (container_labels c)
  ++ memory_limit (file b#"memory.max") b#"system.container.memory.limit" (container_labels c)
  ++ memory_stat [(b#"anon", b#"system.container.memory.anon"); (b#"file", b#"system.container.memory.file")]
       (file b#"memory.stat") (container_labels c).

Fixpoint collect_each (fs : CgroupFs) (cs : list ContainerInfo) (prev_map : gmap bytes CpuPrev)
    : gmap bytes CpuPrev * list Metric :=
  match cs with
  | [] => (prev_map, [])
  | c :: rest =>
    let '(m1, cpu_calls) := collect_cpu fs c prev_map in
    let '(m2, calls) := collect_each fs rest m1 in
    (m2, cpu_calls ++ collect_memory fs c ++ calls)
  end.

Definition container_collect (fs : CgroupFs) (st : ContainerCollector) : ContainerCollector * list Metric :=
  let containers :=
    if ct_tick_count st mod DISCOVERY_INTERVAL_TICKS =? 0 then discover_containers fs
    else ct_containers st in
  let '(prev, calls) := collect_each fs containers (ct_prev_cpu st) in
  let seen_ids := map short_id containers in
  (mkContainerCollector (filter (fun kv : bytes * CpuPrev => kv.1 ∈ seen_ids) prev) containers
     (wrap32 (ct_tick_count st + 1)), calls).
