(* ===== verification/Process.v ===== *)
(** [src/src/metrics/linux/process.rs]: the top processes by CPU and by memory.

    [/proc] is a list of names and the text of each [stat] file. The standard
    library's [sort_unstable_by] promises a sorted permutation and nothing about
    equal elements: [SortUnstable] is any such sort. *)
From S2P Require Import Prelude Str StrFacts Text Syslog External F64 Sink Collectors.
From Stdlib Require Import Strings.Byte Sorting.Sorted.

(** [sort_unstable_by(|a, b| key(b).cmp(&key(a)))]. *)
Class SortUnstable := sort_desc : forall {A : Type}, (A -> N) -> list A -> list A.

Class SortUnstableOk `{SortUnstable} : Prop := {
  sort_perm : forall A (key : A -> N) l, sort_desc key l ≡ₚ l;
  sort_sorted : forall A (key : A -> N) l, StronglySorted (fun a b => key b <= key a) (sort_desc key l);
}.

Record ProcTimes := mkProcTimes { utime : N; stime : N }.

Record ProcSnapshot := mkProcSnapshot { ps_pid : N; ps_name : bytes; ps_rss : N; ps_cpu_delta : N }.

Record ProcessCollector := mkProcessCollector {
  top_n : N;
  prev : gmap N ProcTimes;
  page_size : N;
  clk_tck : f64;
  last_collect : option N;    (* nanoseconds *)
}.

Definition process_new (top_n page_size : N) (clk_tck : Z) : ProcessCollector :=
  mkProcessCollector (N.max top_n 1) ∅ page_size
    (if (0 <? clk_tck)%Z then f64_of_Z clk_tck else f100) None.

Record ParsedProc := mkParsedProc {
  pp_pid : N; pp_name : bytes; pp_utime : N; pp_stime : N; pp_rss_bytes : N;
}.

Inductive StatResult := StatPanic | StatNone | StatSome (p : ParsedProc).

(** Slicing at a byte that is not a character boundary panics; the product of the
    pages wraps in a release build. *)
Definition parse_proc_stat (buf : bytes) (pid page_size : N) : StatResult :=
  match find_byte x28 buf, rfind_byte x29 buf with
  | Some open, Some close =>
    if (close <=? open)%nat then StatNone
    else
      let name := take (close - (open + 1)) (drop (open + 1) buf) in
      if (length buf <=? close + 2)%nat then StatNone
      else
        match buf !! (close + 2)%nat with
        | Some c =>
          if negb (is_boundary_byte c) then StatPanic
          else
            let fields := split_whitespace (drop (close + 2) buf) in
            if (length fields <? 22)%nat then StatNone
            else
              match fields !! 11%nat ≫= parse_u64, fields !! 12%nat ≫= parse_u64,
                    fields !! 21%nat ≫= parse_u64 with
              | Some u, Some s, Some rss => StatSome (mkParsedProc pid name u s (wrap64 (rss * page_size)))
              | _, _, _ => StatNone
              end
        | None => StatNone
        end
  | _, _ => StatNone
  end.

(** [Duration::as_secs_f64]. *)
Definition secs_f64 (ns : N) : f64 :=
  f64_add (f64_of_N (ns / 1000000000)) (f64_div (f64_of_N (ns mod 1000000000)) (f64_of_N 1000000000)).

(** The loop over the entries: previous times, the processes seen, the
    snapshots; [None] when a slice panicked. *)
Record ProcLoop := mkProcLoop { pl_prev : gmap N ProcTimes; pl_seen : gset N; pl_snaps : list ProcSnapshot }.

Definition proc_entry (stat : N -> option bytes) (page_size : N) (name : bytes) (st : ProcLoop)
    : option ProcLoop :=
  match parse_u32 (from_utf8_lossy name) with
  | None => Some st
  | Some pid =>
    match stat pid with
    | None => Some st
    | Some buf =>
      match parse_proc_stat buf pid page_size with
      | StatPanic => None
      | StatNone => Some st
      | StatSome p =>
        let cpu_delta :=
          match pl_prev st !! pid with
          | Some t => wrap64 (pp_utime p + pp_stime p) - wrap64 (utime t + stime t)
          | None => 0
          end in
        Some (mkProcLoop (<[pid := mkProcTimes (pp_utime p) (pp_stime p)]> (pl_prev st))
                ({[ pid ]} ∪ pl_seen st)
                (pl_snaps st ++ [mkProcSnapshot (pp_pid p) (pp_name p) (pp_rss_bytes p) cpu_delta]))
      end
    end
  end.

Fixpoint proc_entries (stat : N -> option bytes) (page_size : N) (names : list bytes) (st : ProcLoop)
    : option ProcLoop :=
  match names with
  | [] => Some st
  | n :: rest => st' ← proc_entry stat page_size n st; proc_entries stat page_size rest st'
  end.

Definition proc_labels (p : ProcSnapshot) : list label := [(b#"pid", show_N (ps_pid p)); (b#"name", ps_name p)].

Definition cpu_call (clk elapsed : f64) (p : ProcSnapshot) : Metric :=
  gauge_call b#"system.process.cpu_percent"
    (f64_mul (f64_div (f64_div (f64_of_N (ps_cpu_delta p)) clk) elapsed) f100) (proc_labels p).

Definition rss_call (p : ProcSnapshot) : Metric :=
  gauge_call b#"system.process.memory_rss" (f64_of_N (ps_rss p)) (proc_labels p).

(** The loop over the first [n], left at the first zero. *)
Fixpoint top (key : ProcSnapshot -> N) (n : nat) (l : list ProcSnapshot) : list ProcSnapshot :=
  match n, l with
  | S n', p :: rest => if key p =? 0 then [] else p :: top key n' rest
  | _, _ => []
  end.

Section collect.
Context `{SortUnstable}.

(** The calls of the two rankings. *)
Definition rank (top_n : nat) (clk elapsed : f64) (snaps : list ProcSnapshot) : list Metric :=
  let by_cpu := sort_desc ps_cpu_delta snaps in
  let cpu := if f64_gt elapsed f0 then map (cpu_call clk elapsed) (top ps_cpu_delta top_n by_cpu) else [] in
  let by_rss := sort_desc ps_rss by_cpu in
  cpu ++ map rss_call (top ps_rss top_n by_rss).

(** [now] is read when the time is stored, [later] when the elapsed time is
    taken; [None] when the collector panicked. *)
Definition process_collect (proc : option (list bytes)) (stat : N -> option bytes) (now later : N)
    (c : ProcessCollector) : option (ProcessCollector * list Metric) :=
  match proc with
  | None => Some (c, [])
  | Some names =>
    let elapsed := match last_collect c with Some t => secs_f64 (later - t) | None => f0 end in
    st ← proc_entries stat (page_size c) names (mkProcLoop (prev c) ∅ []);
    let prev' := filter (fun kv : N * ProcTimes => kv.1 ∈ pl_seen st) (pl_prev st) in
    Some (mkProcessCollector (top_n c) prev' (page_size c) (clk_tck c) (Some now),
          rank (N.to_nat (top_n c)) (clk_tck c) elapsed (pl_snaps st))
  end.
End collect.

(** * Properties *)

(** An insertion sort is one. *)
Fixpoint insert_desc {A} (key : A -> N) (x : A) (l : list A) : list A :=
  match l with
  | [] => [x]
  | y :: r => if key y <=? key x then x :: l else y :: insert_desc key x r
  end.

Definition insertion_desc {A} (key : A -> N) (l : list A) : list A := foldr (insert_desc key) [] l.

Lemma insert_desc_perm {A} (key : A -> N) x l : insert_desc key x l ≡ₚ x :: l.
Proof. induction l as [|y l IH]; cbn; [done|]. case_if; [done|]. rewrite IH. apply Permutation_swap. Qed.

Lemma insert_desc_sorted {A} (key : A -> N) x l :
  StronglySorted (fun a b => key b <= key a) l -> StronglySorted (fun a b => key b <= key a) (insert_desc key x l).
Proof.
  induction 1 as [|y l Hs IH Hy]; cbn; [repeat constructor|]. case_if; norm_bool.
  - constructor; [by constructor|]. constructor; [done|]. eapply Forall_impl; [exact Hy|]. cbn. lia.
  - constructor; [done|]. rewrite insert_desc_perm. constructor; [lia|done].
Qed.

#[global] Instance insertion_sort : SortUnstable := fun A => insertion_desc.
#[global] Instance insertion_sort_ok : SortUnstableOk.
Proof.
  split; intros A key l; unfold sort_desc, insertion_sort, insertion_desc.
  - induction l as [|x l IH]; cbn; [done|]. by rewrite insert_desc_perm, IH.
  - induction l as [|x l IH]; cbn; [constructor|]. by apply insert_desc_sorted.
Qed.

(** The processes a ranking reports, and the ones it leaves. *)
Lemma top_split key n l :
  StronglySorted (fun a b => key b <= key a) l ->
  exists rest, l = top key n l ++ rest /\
    length (top key n l) = (n `min` length (List.filter (fun p => negb (key p =? 0)%N) l))%nat /\
    Forall (fun p => key p <> 0) (top key n l) /\
    forall p q, p ∈ top key n l -> q ∈ rest -> key q <= key p.
Proof.
  intros Hs. revert n. induction Hs as [|x l Hs IH Hx]; intros n.
  - exists []. destruct n; cbn; split_and!; try done; set_solver.
  - destruct n as [|n]; cbn [top].
    { exists (x :: l). cbn. split_and!; try done; set_solver. }
    cbn [List.filter]. destruct (N.eqb_spec (key x) 0) as [H0|H0]; cbn [negb].
    + exists (x :: l). cbn. split_and!; [done| |done|set_solver].
      assert (Hz : List.filter (fun p => negb (key p =? 0)) l = []).
      { clear IH Hs. induction Hx as [|y l Hy Hx IH]; [done|]. cbn.
        destruct (N.eqb_spec (key y) 0); [done|lia]. }
      by rewrite Hz.
    + destruct (IH n) as (rest & Hl & Hlen & Hall & Hle). exists rest. cbn [app length].
      split_and!; [by rewrite <- Hl|by rewrite Hlen|by constructor|].
      intros p q [->|Hp]%elem_of_cons Hq; [|by apply Hle].
      rewrite Forall_forall in Hx. apply Hx. rewrite Hl. set_solver.
Qed.

(** * The text of [/proc/<pid>/stat] *)

Definition graphic (s : bytes) : Prop := Forall (fun c => in_range 33 126 c = true) s.

Lemma ws_head_graphic c r : in_range 33 126 c = true -> ws_head (c :: r) = 0%nat.
Proof.
  intros Hc. cbn [ws_head].
  assert (Hws : is_ascii_ws c = false /\ (forall b1, is_ws2 c b1 = false) /\ (forall b1 b2, is_ws3 c b1 b2 = false))
    by by destruct c.
  destruct Hws as (-> & Hw2 & Hw3). destruct r as [|b1 [|b2 r]]; [done|by rewrite Hw2|by rewrite Hw2, Hw3].
Qed.

Lemma words_word w fuel cur s :
  graphic w -> words_fuel (length w + fuel) cur (w ++ s) = words_fuel fuel (reverse w ++ cur) s.
Proof.
  intros Hw. revert cur. induction Hw as [|c w Hc Hw IH]; intros cur; [done|].
  cbn [length Nat.add app words_fuel]. rewrite ws_head_graphic by done. rewrite IH. f_equal.
  by rewrite reverse_cons, <- app_assoc.
Qed.

Lemma words_space fuel w s :
  w <> [] -> words_fuel (S fuel) (reverse w) (space :: s) = w :: words_fuel fuel [] s.
Proof.
  intros Hw. cbn [words_fuel ws_head]. rewrite reverse_involutive.
  destruct (reverse w) as [|x r] eqn:E; [|done].
  apply (f_equal reverse) in E. rewrite reverse_involutive in E. done.
Qed.

(** Words separated by one space are split again. *)
Lemma split_join_words ws :
  Forall (fun w => graphic w /\ w <> []) ws -> split_whitespace (join [space] ws) = ws.
Proof.
  intros Hws. unfold split_whitespace.
  assert (Hl : exists k, length (join [space] ws) = (length (join [space] ws) + k)%nat) by (exists 0%nat; lia).
  cut (forall k, words_fuel (length (join [space] ws) + k) [] (join [space] ws) = ws).
  { intros Hk. specialize (Hk 0%nat). by rewrite Nat.add_0_r in Hk. }
  clear Hl. induction Hws as [|w ws [Hg Hne] Hws IH]; intros k; [by destruct k|].
  assert (Hrw : reverse w <> []).
  { intros E. apply (f_equal reverse) in E. by rewrite reverse_involutive in E. }
  destruct ws as [|w2 ws].
  - cbn [join]. rewrite <- (app_nil_r w) at 2. rewrite words_word, app_nil_r by done.
    destruct k; cbn [words_fuel]; rewrite reverse_involutive; by destruct (reverse w).
  - change (join [space] (w :: w2 :: ws)) with (w ++ space :: join [space] (w2 :: ws)) in *.
    rewrite length_app. cbn [length].
    replace (length w + S (length (join [space] (w2 :: ws))) + k)%nat
      with (length w + S (length (join [space] (w2 :: ws)) + k))%nat by lia.
    rewrite words_word, app_nil_r, words_space by done. f_equal. apply IH.
Qed.

(** The line the kernel prints: the name in parentheses, the state letter, then
    the numbers from the parent's pid on. *)
Definition render_stat (pid : N) (comm : bytes) (state : byte) (nums : list N) : bytes :=
  show_N pid ++ b#" (" ++ comm ++ b#") " ++ join [space] ([state] :: map show_N nums).

Lemma render_stat_parts pid comm state nums :
  render_stat pid comm state nums
  = (show_N pid ++ [space]) ++ x28 :: comm ++ x29 :: space :: join [space] ([state] :: map show_N nums).
Proof. unfold render_stat. by rewrite <- !app_assoc. Qed.

Lemma join_not_elem c (ws : list bytes) :
  c <> space -> Forall (fun w => c ∉ w) ws -> c ∉ join [space] ws.
Proof.
  intros Hc Hws. induction Hws as [|w ws Hw Hws IH]; [apply not_elem_of_nil|].
  destruct ws as [|w2 ws]; [done|]. change (join [space] (w :: w2 :: ws)) with (w ++ space :: join [space] (w2 :: ws)).
  rewrite elem_of_app, elem_of_cons. naive_solver.
Qed.

(** What is read of the words after the name. *)
Definition stat_fields (pid page : N) (comm : bytes) (fields : list bytes) : StatResult :=
  if (length fields <? 22)%nat then StatNone
  else
    match fields !! 11%nat ≫= parse_u64, fields !! 12%nat ≫= parse_u64, fields !! 21%nat ≫= parse_u64 with
    | Some u, Some s, Some rss => StatSome (mkParsedProc pid comm u s (wrap64 (rss * page)))
    | _, _, _ => StatNone
    end.

(** The name is cut out at the first [(] and the last [)], whatever it holds. *)
Lemma parse_stat_cut pre comm c r pid page :
  x28 ∉ pre -> x29 ∉ c :: r -> is_boundary_byte c = true ->
  parse_proc_stat (pre ++ x28 :: comm ++ x29 :: space :: c :: r) pid page
  = stat_fields pid page comm (split_whitespace (c :: r)).
Proof.
  intros Hpre Hr Hc. unfold parse_proc_stat. rewrite find_byte_app by done.
  set (front := pre ++ x28 :: comm).
  assert (Hf : length front = (length pre + S (length comm))%nat) by (unfold front; by rewrite length_app).
  replace (pre ++ x28 :: comm ++ x29 :: space :: c :: r) with (front ++ x29 :: space :: c :: r)
    by (unfold front; by rewrite <- app_assoc).
  rewrite rfind_byte_app by set_solver. rewrite length_app. cbn [length].
  destruct (Nat.leb_spec (length front) (length pre)) as [?|_]; [lia|].
  destruct (Nat.leb_spec (length front + S (S (S (length r)))) (length front + 2)) as [?|_]; [lia|].
  assert (Hdrop : drop (length front + 2) (front ++ x29 :: space :: c :: r) = c :: r).
  { rewrite drop_app_ge by lia. by replace (length front + 2 - length front)%nat with 2%nat by lia. }
  assert (Hlook : (front ++ x29 :: space :: c :: r) !! (length front + 2)%nat = Some c).
  { rewrite <- (Nat.add_0_r (length front + 2)), <- lookup_drop, Hdrop. done. }
  rewrite Hlook, Hdrop, Hc. cbn [negb]. unfold stat_fields.
  replace (take (length front - (length pre + 1)) (drop (length pre + 1) (front ++ x29 :: space :: c :: r))) with comm; [done|].
  unfold front. rewrite <- app_assoc, drop_app_ge by lia. rewrite length_app. cbn [length].
  replace (length pre + 1 - length pre)%nat with 1%nat by lia. cbn [app drop].
  replace (length pre + S (length comm) - (length pre + 1))%nat with (length comm) by lia.
  by rewrite drop_0, take_app_length.
Qed.

Lemma parse_render_stat pid comm state nums page u s rss :
  in_range 33 126 state = true -> state <> x29 ->
  (21 <= length nums)%nat -> nums !! 10%nat = Some u -> nums !! 11%nat = Some s -> nums !! 20%nat = Some rss ->
  u <= u64_max -> s <= u64_max -> rss <= u64_max ->
  parse_proc_stat (render_stat pid comm state nums) pid page
  = StatSome (mkParsedProc pid comm u s (wrap64 (rss * page))).
Proof.
  intros Hst Hne Hlen Hu Hs Hr Bu Bs Br. rewrite render_stat_parts.
  assert (Hw : split_whitespace (join [space] ([state] :: map show_N nums)) = [state] :: map show_N nums).
  { apply split_join_words. constructor; [split; [by constructor|done]|].
    apply Forall_map, Forall_true. intros n. split; [apply show_N_graphic|apply show_N_nonempty]. }
  assert (Hrest : x29 ∉ join [space] ([state] :: map show_N nums)).
  { apply join_not_elem; [done|]. constructor; [set_solver|].
    apply Forall_map, Forall_true. intros n. by apply show_N_not_elem. }
  assert (Hhead : exists r, join [space] ([state] :: map show_N nums) = state :: r)
    by (destruct nums as [|n nums]; [cbn in Hlen; lia|]; by eexists).
  destruct Hhead as [r Er]. rewrite Er in *.
  rewrite parse_stat_cut; [|assert (Hp := show_N_not_elem pid x28 eq_refl); set_solver|done|by (clear -Hst; destruct state)].
  assert (Hf : forall i n, nums !! i = Some n -> ([state] :: map show_N nums) !! S i = Some (show_N n)).
  { intros i n Hi. change ((show_N <$> nums) !! i = Some (show_N n)). by rewrite list_lookup_fmap, Hi. }
  rewrite Hw. unfold stat_fields. rewrite !(Hf _ _ Hu), (Hf _ _ Hs), (Hf _ _ Hr). cbn [length mbind option_bind].
  rewrite length_map. destruct (Nat.ltb_spec (S (length nums)) 22) as [?|_]; [lia|].
  unfold parse_u64. by rewrite !parse_uint_show.
Qed.
