(* ===== verification/HostProps.v ===== *)
(** The guarantees of the Linux container and process collectors: which scopes
    the discovery finds, what is remembered between ticks, how a process line is
    read and which processes are reported. *)
From S2P Require Import Prelude Str StrFacts Text External F64 Sink Collectors Cgroups Process.
From Stdlib Require Import Strings.Byte Sorting.Sorted.

(** * Discovery *)

Lemma elem_of_concat_map {A B} (f : A -> list B) (l : list A) y :
  y ∈ concat (map f l) <-> exists x, x ∈ l /\ y ∈ f x.
Proof.
  induction l as [|x l IH]; cbn [map concat]; [set_solver|].
  rewrite elem_of_app, IH. set_solver.
Qed.

(** * The podman walk *)

Definition container_id (id : bytes) : Prop := length id = 64%nat /\ Forall (fun b => is_hexdigit b = true) id.
Definition libpod_scope (id : bytes) : bytes := b#"libpod-" ++ id ++ b#".scope".
Definition listed (fs : CgroupFs) (dir name : bytes) : Prop := exists names, fs_list fs dir = Some names /\ name ∈ names.

(** Directories one in another below [dir], none of them named like a scope. *)
Fixpoint nested (fs : CgroupFs) (dir : bytes) (ds : list bytes) : Prop :=
  match ds with
  | [] => True
  | d :: ds =>
    listed fs dir d /\ fs_is_dir fs (join_path dir d) = true /\
    (forall id, container_id id -> from_utf8_lossy d <> libpod_scope id) /\ nested fs (join_path dir d) ds
  end.

(** The scope [id] in the directory that the [ds] lead to. *)
Definition scope_at (fs : CgroupFs) (dir : bytes) (ds : list bytes) (info : ContainerInfo) : Prop :=
  nested fs dir ds /\
  exists id name, container_id id /\ listed fs (fold_left join_path ds dir) name /\
    from_utf8_lossy name = libpod_scope id /\
    info = mkContainerInfo (take 12 id) b#"podman" (join_path (fold_left join_path ds dir) name).

Lemma elem_of_dir_entries fs dir shown path :
  (shown, path) ∈ dir_entries fs dir <->
  exists name, listed fs dir name /\ shown = from_utf8_lossy name /\ path = join_path dir name.
Proof.
  unfold dir_entries, listed. destruct (fs_list fs dir) as [names|]; [|set_solver].
  rewrite list_elem_of_fmap. naive_solver.
Qed.

Lemma parse_scope_iff prefix rt name path info :
  parse_scope_entry name prefix rt path = Some info <->
  exists id, container_id id /\ name = prefix ++ id ++ b#".scope" /\ info = mkContainerInfo (take 12 id) rt path.
Proof.
  unfold parse_scope_entry. split.
  - destruct (strip_prefix prefix name) as [r|] eqn:E1; cbn [mbind option_bind]; [|done].
    destruct (strip_suffix _ r) as [inner|] eqn:E2; cbn [mbind option_bind]; [|done].
    apply strip_prefix_Some in E1 as ->. apply strip_suffix_Some in E2 as ->.
    destruct (_ && _) eqn:E; [|done]. intros [= <-]. norm_bool. exists inner. split_and!; [split|done|done].
    + unfold len in *; lia.
    + apply Forall_forall. intros x Hx. rewrite forallb_forall in *. by apply H0, list_elem_of_In.
  - intros (id & [Hl Hx] & -> & ->). rewrite (proj2 (strip_prefix_Some _ _ _) eq_refl). cbn [mbind option_bind].
    rewrite (proj2 (strip_suffix_Some _ _ _) eq_refl). cbn [mbind option_bind].
    replace (len id =? 64) with true by (symmetry; apply N.eqb_eq; unfold len; lia).
    replace (List.forallb is_hexdigit id) with true; [done|]. symmetry. apply forallb_forall.
    intros x Hin. rewrite Forall_forall in Hx. by apply Hx, list_elem_of_In.
Qed.

Lemma not_a_scope name path :
  parse_scope_entry name b#"libpod-" b#"podman" path = None <-> forall id, container_id id -> name <> libpod_scope id.
Proof.
  split.
  - intros E id Hid ->. assert (Hs := proj2 (parse_scope_iff b#"libpod-" b#"podman" (libpod_scope id) path _)
      (ex_intro _ id (conj Hid (conj eq_refl eq_refl)))). congruence.
  - intros Hno. destruct (parse_scope_entry _ _ _ _) as [i|] eqn:E; [|done].
    apply parse_scope_iff in E as (id & Hid & -> & _). by destruct (Hno id Hid).
Qed.

(** A walk that may still go down [k] levels. *)
Lemma walk_exact fs k dir depth info :
  depth + N.of_nat k = MAX_DEPTH ->
  info ∈ walk_for_libpod fs (S k) dir depth <-> exists ds, (length ds <= k)%nat /\ scope_at fs dir ds info.
Proof.
  revert dir depth. induction k as [|k IH]; intros dir depth Hd; cbn [walk_for_libpod];
    (replace (MAX_DEPTH <? depth) with false by (symmetry; apply N.ltb_ge; lia)); rewrite elem_of_concat_map; split.
  - intros ([shown path] & (name & Hl & -> & ->)%elem_of_dir_entries & Hin). cbn [fst snd] in Hin.
    destruct (parse_scope_entry _ _ _ _) as [i|] eqn:E.
    + apply list_elem_of_singleton in Hin as ->. apply parse_scope_iff in E as (id & Hid & Hn & ->).
      exists []. split; [done|]. split; [done|]. exists id, name. by split_and!.
    + replace (depth <? MAX_DEPTH) with false in Hin by (symmetry; apply N.ltb_ge; lia). rewrite andb_false_r in Hin. set_solver.
  - intros (ds & Hlen & _ & id & name & Hid & Hl & Hn & ->). destruct ds; [|cbn in Hlen; lia]. cbn [fold_left] in *.
    exists (from_utf8_lossy name, join_path dir name). split; [apply elem_of_dir_entries; by exists name|]. cbn [fst snd].
    rewrite (proj2 (parse_scope_iff _ _ _ _ _) (ex_intro _ id (conj Hid (conj Hn eq_refl)))). set_solver.
  - intros ([shown path] & (name & Hl & -> & ->)%elem_of_dir_entries & Hin). cbn [fst snd] in Hin.
    destruct (parse_scope_entry _ _ _ _) as [i|] eqn:E.
    + apply list_elem_of_singleton in Hin as ->. apply parse_scope_iff in E as (id & Hid & Hn & ->).
      exists []. split; [cbn; lia|]. split; [done|]. exists id, name. by split_and!.
    + destruct (fs_is_dir fs (join_path dir name)) eqn:Ed; [|cbn in Hin; set_solver].
      replace (depth <? MAX_DEPTH) with true in Hin by (symmetry; apply N.ltb_lt; lia). cbn [andb] in Hin.
      apply IH in Hin as (ds & Hlen & Hnest & Hs); [|lia]. exists (name :: ds). split; [cbn; lia|]. split; [|exact Hs].
      cbn [nested]. split_and!; [done|done| |done]. by apply (not_a_scope _ (join_path dir name)).
  - intros ([|d ds] & Hlen & Hnest & Hs).
    + destruct Hs as (id & name & Hid & Hl & Hn & ->). cbn [fold_left] in *.
      exists (from_utf8_lossy name, join_path dir name). split; [apply elem_of_dir_entries; by exists name|]. cbn [fst snd].
      rewrite (proj2 (parse_scope_iff _ _ _ _ _) (ex_intro _ id (conj Hid (conj Hn eq_refl)))). set_solver.
    + destruct Hnest as (Hl & Hdir & Hno & Hnest).
      exists (from_utf8_lossy d, join_path dir d). split; [apply elem_of_dir_entries; by exists d|]. cbn [fst snd].
      rewrite (proj2 (not_a_scope _ _) Hno), Hdir. replace (depth <? MAX_DEPTH) with true by (symmetry; apply N.ltb_lt; lia).
      cbn [andb]. apply IH; [lia|]. exists ds. cbn in Hlen. split; [lia|by split].
Qed.

Lemma scan_podman_at fs info :
  info ∈ scan_podman fs -> exists ds, scope_at fs b#"/sys/fs/cgroup/user.slice" ds info.
Proof.
  unfold scan_podman. destruct (negb _); [set_solver|].
  intros (ds & _ & Hs)%(walk_exact fs 5 _ 0 info eq_refl). by exists ds.
Qed.

(** C30: The podman scan reports a container exactly when there is, in the slice of
    the users or in a directory at most five levels below it, an entry named
    libpod-, an identifier of 64 hexadecimal digits and .scope, and none of the
    directories on the way is itself named so; it is reported with the first twelve
    digits and the path of the entry. The comment in the source says four levels. *)
Theorem podman_walk_exact fs info :
  info ∈ scan_podman fs <->
  fs_is_dir fs b#"/sys/fs/cgroup/user.slice" = true /\
  exists ds, (length ds <= 5)%nat /\ scope_at fs b#"/sys/fs/cgroup/user.slice" ds info.
Proof.
  unfold scan_podman. destruct (fs_is_dir fs _); cbn [negb]; [|set_solver].
  change (S (N.to_nat MAX_DEPTH)) with 6%nat. rewrite (walk_exact fs 5 _ 0 info eq_refl). naive_solver.
Qed.

(** A tree of one directory below the other, with a scope in the last. *)
Definition deep_id : bytes := replicate 64 x61.
Fixpoint deep_dir (n : nat) : bytes :=
  match n with O => b#"/sys/fs/cgroup/user.slice" | S n => join_path (deep_dir n) b#"d" end.
Definition deep_fs (n : nat) : CgroupFs :=
  mkCgroupFs (fun _ => None)
    (fun dir => if bool_decide (dir = deep_dir n) then Some [libpod_scope deep_id] else Some [b#"d"])
    (fun _ => true) (fun _ => true).

(** A scope five directories down, which the comment of the walk excludes, is
    found; one six directories down is not. *)
Lemma podman_depth :
  map short_id (scan_podman (deep_fs 5)) = [replicate 12 x61] /\ scan_podman (deep_fs 6) = [].
Proof. split; vm_compute; reflexivity. Qed.

(** What a scope's name gives. *)
Definition container_ok (c : ContainerInfo) : Prop :=
  length (short_id c) = 12%nat /\ Forall (fun b => is_hexdigit b = true) (short_id c).

Lemma container_id_ok id rt path : container_id id -> container_ok (mkContainerInfo (take 12 id) rt path).
Proof. intros [Hl Hx]. split; cbn [short_id]; [rewrite length_take; lia|by apply Forall_take]. Qed.

Lemma parse_scope_ok name prefix rt path c : parse_scope_entry name prefix rt path = Some c -> container_ok c.
Proof. intros (id & Hid & _ & ->)%parse_scope_iff. by apply container_id_ok. Qed.

Lemma podman_ok fs c : c ∈ scan_podman fs -> container_ok c.
Proof. intros (ds & _ & id & name & Hid & _ & _ & ->)%scan_podman_at. by apply container_id_ok. Qed.

Lemma pod_dir_ok fs dir c : c ∈ scan_container_scopes_in_dir fs dir -> container_ok c.
Proof.
  intros (e & _ & He)%list_elem_of_omap. unfold pod_scope in He.
  destruct (parse_scope_entry _ _ _ _) as [i|] eqn:E.
  - injection He as ->. by apply parse_scope_ok in E.
  - by apply parse_scope_ok in He.
Qed.

Lemma kubepods_ok fs c : c ∈ scan_kubepods fs -> container_ok c.
Proof.
  unfold scan_kubepods. destruct (negb _); [set_solver|]. rewrite elem_of_concat_map. intros (e & _ & Hc).
  destruct (negb _) in Hc; [set_solver|]. destruct (is_pod_slice e.1); [by apply pod_dir_ok in Hc|].
  destruct (ends_with _ _); [|set_solver]. unfold scan_qos_slice in Hc. rewrite elem_of_concat_map in Hc.
  destruct Hc as (e2 & _ & Hc). destruct (negb _) in Hc; [set_solver|].
  destruct (is_pod_slice e2.1); [by apply pod_dir_ok in Hc|set_solver].
Qed.

(** * What is remembered *)

Lemma collect_each_keys fs cs m k p :
  (collect_each fs cs m).1 !! k = Some p -> m !! k = Some p \/ k ∈ map short_id cs.
Proof.
  revert m. induction cs as [|c cs IH]; intros m; cbn [collect_each]; [by left|].
  destruct (collect_cpu fs c m) as [m1 calls1] eqn:E1. destruct (collect_each fs cs m1) as [m2 calls2] eqn:E2.
  cbn [fst map]. intros Hk. assert (Hm := IH m1). rewrite E2 in Hm. destruct (Hm Hk) as [H1|H1]; [|set_solver].
  unfold collect_cpu in E1. destruct (read_procfs _ _) as [buf|]; injection E1 as <- _; [|by left].
  destruct (decide (short_id c = k)) as [<-|Hne]; [right; set_solver|].
  rewrite lookup_insert_ne in H1 by done. by left.
Qed.

(** The collector after a sequence of ticks. *)
Definition container_run (ticks : list CgroupFs) : ContainerCollector :=
  fold_left (fun st fs => (container_collect fs st).1) ticks container_new.

Lemma size_keys_le {A} (m : gmap bytes A) (l : list bytes) :
  (forall id, is_Some (m !! id) -> id ∈ l) -> (size m <= length l)%nat.
Proof.
  intros Hm. rewrite <- length_map_to_list, <- (length_fmap fst). apply submseteq_length, NoDup_submseteq.
  - apply NoDup_fst_map_to_list.
  - intros id ([k p] & -> & Hin)%list_elem_of_fmap. apply Hm. exists p. by apply elem_of_map_to_list.
Qed.

(** C31: The container collector never remembers more than the containers it last
    discovered: after every tick, of any sequence of ticks, the counters kept are
    for containers of the current list, so state is bounded by the containers
    present and a stopped container's counters are dropped. *)
Theorem container_state_bounded (ticks : list CgroupFs) :
  (forall id, is_Some (ct_prev_cpu (container_run ticks) !! id) ->
     id ∈ map short_id (ct_containers (container_run ticks))) /\
  (size (ct_prev_cpu (container_run ticks)) <= length (ct_containers (container_run ticks)))%nat.
Proof.
  cut (forall id, is_Some (ct_prev_cpu (container_run ticks) !! id) ->
    id ∈ map short_id (ct_containers (container_run ticks))).
  { intros Hk. split; [done|]. assert (Hs := size_keys_le _ _ Hk). by rewrite length_map in Hs. }
  unfold container_run. induction ticks as [|fs ticks _] using rev_ind.
  - intros id [p Hp]. cbn in Hp. by rewrite lookup_empty in Hp.
  - rewrite fold_left_app. cbn [fold_left]. generalize (fold_left (fun st fs => (container_collect fs st).1) ticks container_new).
    intros st id [p Hp]. unfold container_collect in *. destruct (collect_each _ _ _) as [prev calls].
    cbn [fst ct_prev_cpu ct_containers] in *. by apply map_lookup_filter_Some in Hp as [_ Hp].
Qed.

(** C32: Every container reported has a well-formed identity: the collector only
    keeps containers whose short id is twelve hexadecimal digits, in every state
    it can reach. *)
Theorem containers_well_formed (ticks : list CgroupFs) :
  Forall container_ok (ct_containers (container_run ticks)).
Proof.
  unfold container_run. induction ticks as [|fs ticks IH] using rev_ind; [constructor|].
  rewrite fold_left_app. cbn [fold_left]. revert IH.
  generalize (fold_left (fun st fs => (container_collect fs st).1) ticks container_new). intros st IH.
  unfold container_collect. destruct (collect_each _ _ _) as [prev calls]. cbn [fst ct_containers].
  case_if; [|done]. apply Forall_forall. intros c Hc. unfold discover_containers in Hc.
  rewrite !elem_of_app in Hc. destruct Hc as [Hc|[Hc|Hc]].
  - apply list_elem_of_omap in Hc as (e & _ & He). by apply parse_scope_ok in He.
  - by apply kubepods_ok in Hc.
  - by apply podman_ok in Hc.
Qed.

(** * Processes *)

(** A process line is read whatever the process is called: for every name,
    with spaces, parentheses or bytes of any kind, the name, the two CPU times
    and the resident pages are those the kernel wrote. *)
Theorem proc_stat_roundtrip pid comm state nums page u s rss :
  in_range 33 126 state = true -> state <> x29 ->
  (21 <= length nums)%nat -> nums !! 10%nat = Some u -> nums !! 11%nat = Some s -> nums !! 20%nat = Some rss ->
  u <= u64_max -> s <= u64_max -> rss <= u64_max ->
  parse_proc_stat (render_stat pid comm state nums) pid page
  = StatSome (mkParsedProc pid comm u s (wrap64 (rss * page))).
Proof. apply parse_render_stat. Qed.

(** The members of [snaps] a ranking by [key] reports. *)
Definition best (key : ProcSnapshot -> N) (n : nat) (snaps chosen : list ProcSnapshot) : Prop :=
  exists rest, snaps ≡ₚ chosen ++ rest /\
    length chosen = (n `min` length (List.filter (fun p => negb (key p =? 0)%N) snaps))%nat /\
    Forall (fun p => key p <> 0) chosen /\
    forall p q, p ∈ chosen -> q ∈ rest -> key q <= key p.

Lemma filter_length_perm {A} (f : A -> bool) (l l' : list A) :
  l ≡ₚ l' -> length (List.filter f l) = length (List.filter f l').
Proof. induction 1; cbn; repeat case_if; cbn; congruence. Qed.

Lemma top_best `{SortUnstable, !SortUnstableOk} key n snaps l :
  l ≡ₚ snaps -> best key n snaps (top key n (sort_desc key l)).
Proof.
  intros Hl. destruct (top_split key n (sort_desc key l)) as (rest & Hs & Hlen & Hall & Hle); [apply sort_sorted|].
  exists rest. rewrite <- Hs. split_and!; [by rewrite sort_perm| |done|done].
  rewrite Hlen. f_equal. apply filter_length_perm. by rewrite sort_perm.
Qed.

(** The processes reported are the right ones, however the sort breaks ties:
    the CPU gauges are for [top_n] processes (fewer when fewer have used CPU), no
    process left out used more than one reported, and the same holds of the
    memory gauges. *)
Theorem process_rankings `{SortUnstable, !SortUnstableOk} n clk elapsed snaps :
  f64_gt elapsed f0 = true ->
  exists by_cpu by_rss,
    rank n clk elapsed snaps = map (cpu_call clk elapsed) by_cpu ++ map rss_call by_rss /\
    best ps_cpu_delta n snaps by_cpu /\ best ps_rss n snaps by_rss.
Proof.
  intros He. unfold rank. rewrite He. eexists _, _. split; [done|].
  split; apply top_best; [done|apply sort_perm].
Qed.

(** * On concrete inputs *)

Lemma proc_stat_roundtrip_witness :
  parse_proc_stat (render_stat 7 b#"a) (b" x53 (map N.of_nat (seq 1 30))) 7 4096
  = StatSome (mkParsedProc 7 b#"a) (b" 11 12 86016).
Proof.
  exact (proc_stat_roundtrip 7 b#"a) (b" x53 (map N.of_nat (seq 1 30)) 4096 11 12 21 eq_refl ltac:(discriminate)
    ltac:(apply Nat.leb_le; reflexivity) eq_refl eq_refl eq_refl ltac:(by vm_compute) ltac:(by vm_compute) ltac:(by vm_compute)).
Defined.

Definition three_procs : list ProcSnapshot :=
  [mkProcSnapshot 1 b#"a" 10 5; mkProcSnapshot 2 b#"b" 0 9; mkProcSnapshot 3 b#"c" 30 0].

Lemma process_rankings_witness :
  exists by_cpu by_rss,
    rank 2 f100 f100 three_procs = map (cpu_call f100 f100) by_cpu ++ map rss_call by_rss /\
    best ps_cpu_delta 2 three_procs by_cpu /\ best ps_rss 2 three_procs by_rss.
Proof. refine (process_rankings 2 f100 f100 three_procs _). by vm_compute. Defined.
