(* ===== verification/Agent.v ===== *)
(** [src/src/main.rs], [src/src/metrics/linux/mod.rs], [src/src/metrics/mod.rs]
    and the state directory of [src/src/config.rs]: how the parts are put
    together. The commands, the choice of the log source and what is spawned for
    a configuration, the metric ticks with their hourly checkpoints, signals, and
    what a dry run reports. A run and the reload loop are in [Lifecycle]. *)
From S2P Require Import Prelude Str StrFacts External Text Structured F64 Sink Tailed Multiline Watcher.
From S2P Require Import Journal Unified EventFilter EventXml Config RemoteConfig.
From Stdlib Require Import Strings.Byte.

(** * The state directory *)

Definition program_data_state_dir (program_data : option bytes) : bytes :=
  let root := match program_data with Some r => r | None => b#"C:\ProgramData" end in
  from_utf8_lossy (path_join (path_join root b#"witness") b#"state").

(** [Path::join] on Unix with a relative path. *)
Definition unix_join (dir name : bytes) : bytes :=
  match last dir with
  | None => name
  | Some c => if bool_decide (c = x2f) then dir ++ name else dir ++ x2f :: name
  end.

Definition state_dir (p : Platform) (is_root : bool) (home program_data : option bytes) : bytes :=
  match p with
  | Windows => program_data_state_dir program_data
  | MacOs =>
    if is_root then b#"/Library/Application Support/witness"
    else match home with
      | Some h => from_utf8_lossy (unix_join h b#"Library/Application Support/witness")
      | None => b#"/tmp/witness"
      end
  | _ => b#"/var/lib/witness"
  end.

(** [Path::join] of a relative name. *)
Definition join_path (p : Platform) (dir name : bytes) : bytes :=
  match p with Windows => path_join dir name | _ => unix_join dir name end.

(** The state files: [watcher.rs] and [unified.rs]. *)
Definition state_file_path (p : Platform) (state_dir : bytes) : bytes := join_path p state_dir b#"offsets".
Definition checkpoint_path (p : Platform) (state_dir : bytes) : bytes :=
  join_path p state_dir b#"unified_log_checkpoint".

(** * Commands *)

Inductive Command := CmdInstall | CmdUninstall | CmdStatus | CmdSetup.

Inductive Action := DoInstall | DoUninstall | DoStatus | DoSetup | DoDryRun | DoService | DoAgentLoop.

(** [dispatched]: the process was started by the service manager and ran under
    it until it was stopped. *)
Definition main_action (p : Platform) (command : option Command) (dry_run dispatched : bool) : Action :=
  match command with
  | Some CmdInstall => DoInstall
  | Some CmdUninstall => DoUninstall
  | Some CmdStatus => DoStatus
  | Some CmdSetup => DoSetup
  | None =>
    if dry_run then DoDryRun
    else match p with
      | Windows => if dispatched then DoService else DoAgentLoop
      | _ => DoAgentLoop
      end
  end.

(** * The log source *)

Inductive ResolvedLog := RJournald | RUnified | REventLog | RFiles.

#[global] Instance ResolvedLog_eq_dec : EqDecision ResolvedLog.
Proof. solve_decision. Defined.

Inductive SourceError := NoJournalctl | NoUnifiedLog | NotWindows.

(** Whether [journalctl --version] succeeds and [/usr/bin/log] can be run. *)
Record Available := mkAvailable { has_journalctl : bool; has_log_bin : bool }.

(** [journal::is_available]: [status] is the exit of the command, if it could be
    run; [unified::is_available]: [meta] says whether the tool is a regular file,
    and its mode. *)
Definition journal_available (status : option bool) : bool := match status with Some ok => ok | None => false end.
Definition unified_available (p : Platform) (meta : option (bool * N)) : bool :=
  match meta with
  | None => false
  | Some (is_file, mode) =>
    match p with
    | Linux | MacOs => is_file && negb (N.land mode 73 =? 0)   (* 0o111 *)
    | _ => is_file
    end
  end.

Definition probe (p : Platform) (status : option bool) (meta : option (bool * N)) : Available :=
  mkAvailable (journal_available status) (unified_available p meta).

Definition resolve_auto (p : Platform) (a : Available) : ResolvedLog :=
  match p with
  | MacOs => if has_log_bin a then RUnified else RFiles
  | Linux => if has_journalctl a then RJournald else RFiles
  | Windows => REventLog
  | OtherOs => RFiles
  end.

Definition resolve_log_source (p : Platform) (a : Available) (source : LogSource)
    : ResolvedLog + SourceError :=
  match source with
  | Config.Journald => if has_journalctl a then inl RJournald else inr NoJournalctl
  | UnifiedLog => if has_log_bin a then inl RUnified else inr NoUnifiedLog
  | EventLog => match p with Windows => inl REventLog | _ => inr NotWindows end
  | Files => inl RFiles
  | Auto => inl (resolve_auto p a)
  end.

Definition file_parse_opts (cfg : AgentConfig) : FileParseOpts :=
  mkFileParseOpts (parse_syslog cfg) (parse_structured cfg) (detect_levels cfg).

Definition journal_filter (cfg : AgentConfig) : ServiceFilter :=
  mkServiceFilter (journal_include_services cfg) (journal_exclude_services cfg).

(** * Metric ticks *)

(** [interval.as_secs().max(1) as u32] truncates; a zero divisor panics. *)
Definition checkpoint_ticks (interval : N) : option N :=
  let d := wrap32 (N.max (interval / 1000000000) 1) in
  if d =? 0 then None else Some (3600 / d).

(** [u32::is_multiple_of]: only zero is a multiple of zero. *)
Definition is_multiple_of (n m : N) : bool := if m =? 0 then n =? 0 else n mod m =? 0.

Definition is_checkpoint (checkpoint_ticks tick_count : N) : bool :=
  (0 <? tick_count) && is_multiple_of tick_count checkpoint_ticks.

(** A collector of any kind, by what it does. *)
Record Collector (C : Type) := mkCollector {
  collect : C -> C * list Metric;
  checkpoint : C -> list Metric;
}.
Arguments collect {C}.
Arguments checkpoint {C}.

Section ticks.
Context {C : Type} (ops : Collector C).

(** One tick over every collector; the checkpoint follows the collection. *)
Fixpoint collect_tick (is_ck : bool) (cs : list C) : list C * list Metric :=
  match cs with
  | [] => ([], [])
  | c :: rest =>
    let '(c', m) := collect ops c in
    let '(rest', ms) := collect_tick is_ck rest in
    (c' :: rest', m ++ (if is_ck then checkpoint ops c' else []) ++ ms)
  end.

(** What the task wakes up for: a tick whose blocking part returned, a tick in
    which a collector panicked after the calls [ms], the shutdown. *)
Inductive TickEvent := Tick | TickPanicked (ms : list Metric) | TickCancel.

(** The emitted calls, and the collectors and count after the events; [init] are
    the collectors of a fresh start. *)
Fixpoint tick_loop (ck_ticks : N) (init : list C) (evs : list TickEvent) (cs : list C) (count : N)
    : list Metric * list C * N :=
  match evs with
  | [] | TickCancel :: _ => ([], cs, count)
  | TickPanicked ms :: rest =>
    let '(more, cs', count') := tick_loop ck_ticks init rest init (wrap32 (count + 1)) in
    (ms ++ more, cs', count')
  | Tick :: rest =>
    let '(cs', ms) := collect_tick (is_checkpoint ck_ticks count) cs in
    let '(more, cs'', count') := tick_loop ck_ticks init rest cs' (wrap32 (count + 1)) in
    (ms ++ more, cs'', count')
  end.

(** The collection task: nothing to do without collectors; a zero interval makes
    [tokio::time::interval] panic. [None] is a panic of the task. *)
Definition collector_task (interval : N) (init : list C) (evs : list TickEvent) : option (list Metric) :=
  if is_empty init then Some []
  else if interval =? 0 then None
  else match checkpoint_ticks interval with
    | None => None
    | Some k => Some (tick_loop k init evs init 0).1.1
    end.
End ticks.

(** * The collectors of a configuration *)

Section registry.
Context `{Glob}.

Inductive CollectorKind :=
| LoadCollector | MemoryCollector | CpuCollector
| DiskCollector (f : DeviceFilter) (fs_types : list bytes)
| NetworkCollector (f : DeviceFilter)
| TcpCollector | CgroupCollector | ContainerCollector
| ProcessCollector (top_n : N).

Definition collector_name (k : CollectorKind) : bytes :=
  match k with
  | LoadCollector => b#"load" | MemoryCollector => b#"memory" | CpuCollector => b#"cpu"
  | DiskCollector _ _ => b#"disk" | NetworkCollector _ => b#"network" | TcpCollector => b#"tcp"
  | CgroupCollector => b#"cgroups" | ContainerCollector => b#"container" | ProcessCollector _ => b#"process"
  end.

Definition linux_init_collectors (c : SystemConfig) : list CollectorKind :=
  (if sys_load c then [LoadCollector] else [])
  ++ (if sys_memory c then [MemoryCollector] else [])
  ++ (if sys_cpu c then [CpuCollector] else [])
  ++ (if sys_disk c
      then [DiskCollector (device_filter_new (sys_disk_filter c) [b#"ram*"; b#"loop*"; b#"dm-*"]) (sys_disk_fs_types c)]
      else [])
  ++ (if sys_network c
      then [NetworkCollector (device_filter_new (sys_network_filter c) [b#"lo"; b#"docker0"; b#"veth*"; b#"br-*"])]
      else [])
  ++ (if sys_tcp c then [TcpCollector] else [])
  ++ (if sys_cgroups c then [CgroupCollector] else [])
  ++ (if sys_containers c then [ContainerCollector] else [])
  ++ (if sys_processes c then [ProcessCollector (sys_process_top c)] else []).

Definition macos_init_collectors (c : SystemConfig) : list CollectorKind :=
  (if sys_load c then [LoadCollector] else [])
  ++ (if sys_memory c then [MemoryCollector] else [])
  ++ (if sys_cpu c then [CpuCollector] else [])
  ++ (if sys_disk c then [DiskCollector (device_filter_new (sys_disk_filter c) []) (sys_disk_fs_types c)] else [])
  ++ (if sys_network c
      then [NetworkCollector (device_filter_new (sys_network_filter c)
              [b#"lo0"; b#"gif*"; b#"stf*"; b#"anpi*"; b#"awdl*"; b#"llw*"; b#"ap*"; b#"utun*"; b#"bridge*"])]
      else []).

Definition init_collectors (p : Platform) (c : SystemConfig) : list CollectorKind :=
  match p with
  | Linux => linux_init_collectors c
  | MacOs => macos_init_collectors c
  | _ => []
  end.
End registry.

Definition platform_supported (p : Platform) : bool :=
  match p with Linux | MacOs => true | _ => false end.

(** * A run *)

(** What the SDK client is built with. *)
Record TellConfig := mkTellConfig {
  tc_api_key : bytes;
  tc_endpoint : bytes;
  tc_service : bytes;
  tc_source : bytes;
  tc_batch_size : N;
  tc_flush_interval : N;
  tc_buffer_path : bytes;
  tc_buffer_max_bytes : option N;
}.

(** A buffer directory that cannot be created is only warned about. *)
Definition tell_config (p : Platform) (cfg : AgentConfig) (hostname state_dir : bytes) : TellConfig :=
  mkTellConfig (api_key cfg) (endpoint cfg) b#"witness" hostname (batch_size cfg) (interval cfg)
    (join_path p state_dir b#"buffer") (buffer_max_bytes cfg).

(** The poller runs when a server is configured and polling is not disabled. *)
Definition poller_config (cfg : AgentConfig) (applied_hash : bytes) : option PollerConfig :=
  match server cfg with
  | Some server =>
    if config_poll_interval cfg =? 0 then None
    else Some (mkPollerConfig server (api_key cfg) (endpoint cfg) (config_poll_interval cfg) applied_hash)
  | None => None
  end.

Section run.
Context `{Toml, Regex}.

(** A pattern that does not compile disables aggregation. *)
Definition multiline_opts (pattern : option bytes) (timeout_ms max_bytes : N) : option MultilineOpts :=
  match pattern with
  | None => None
  | Some p => multiline_opts_new p timeout_ms max_bytes
  end.

Inductive LogTask :=
| TaskJournald (f : ServiceFilter)
| TaskUnified (predicate : option bytes)
| TaskEventLog (channels : list bytes) (query event_ids : option bytes) (exclude_providers : list bytes)
| TaskFiles (paths : list bytes) (opts : FileParseOpts) (ml : option MultilineOpts)
| TaskNone.

(** The log task of a run; an unavailable source ends the process. *)
Definition log_task (p : Platform) (a : Available) (cfg : AgentConfig) : LogTask + SourceError :=
  match resolve_log_source p a (log_source cfg) with
  | inr e => inr e
  | inl RJournald => inl (TaskJournald (journal_filter cfg))
  | inl RUnified => inl (TaskUnified (unified_log_predicate cfg))
  | inl REventLog =>
    inl (TaskEventLog (eventlog_channels cfg) (eventlog_query cfg) (eventlog_event_ids cfg)
           (eventlog_exclude_providers cfg))
  | inl RFiles =>
    if is_empty (logs cfg) then inl TaskNone
    else inl (TaskFiles (logs cfg) (file_parse_opts cfg)
                (multiline_opts (multiline_start_pattern cfg) (multiline_timeout_ms cfg) (multiline_max_bytes cfg)))
  end.

(** * Signals *)

Inductive Signal := SigShutdown | SigReload.

Inductive SignalEvent := CtrlC | SigTerm | SigHup | ServiceStop | ReloadChanged.

(** The arm of the [select!] an event completes, once the handlers are
    registered; [None] when the platform does
    not listen to it. [under_scm]: a service shutdown receiver exists. *)
Definition wait_for_signal (p : Platform) (under_scm : bool) (ev : SignalEvent) : option Signal :=
  match ev, p with
  | CtrlC, _ => Some SigShutdown
  | ReloadChanged, _ => Some SigReload
  | SigTerm, (Linux | MacOs) => Some SigShutdown
  | SigHup, (Linux | MacOs) => Some SigReload
  | ServiceStop, Windows => if under_scm then Some SigShutdown else None
  | _, _ => None
  end.

(** The first signal of a run: it returns when one comes. *)
Fixpoint await_signal (p : Platform) (under_scm : bool) (evs : list SignalEvent)
    : option (Signal * list SignalEvent) :=
  match evs with
  | [] => None
  | ev :: rest =>
    match wait_for_signal p under_scm ev with
    | Some s => Some (s, rest)
    | None => await_signal p under_scm rest
    end
  end.

(** * Loading *)

(** [file]: the bytes of the configuration file, [None] when it cannot be read. *)
Definition load_config (p : Platform) (file : option bytes) : option AgentConfig :=
  match file with
  | Some b =>
    if valid_utf8 b then match parse_config p b with inl c => Some c | inr _ => None end else None
  | None => None
  end.

(** * Dry run *)

Inductive FileStatus := FsNotFound | FsSkipped (days : N) | FsTailing | FsError.

(** The age of a file, from its metadata: [None] when the file cannot be
    examined. *)
Definition file_status (os : Os) (path : bytes) : FileStatus :=
  match os_metadata os path with
  | None => FsError
  | Some m =>
    match md_modified m with
    | Some t =>
      if t <=? os_now os then
        let age := (os_now os - t) / 1000000000 in
        if 86400 <? age then FsSkipped (age / 86400) else FsTailing
      else FsTailing
    | None => FsTailing
    end
  end.

(** [matches]: what [glob] finds for each configured pattern. *)
Definition dry_files (os : Os) (matches : bytes -> list bytes) (patterns : list bytes)
    : list (bytes * FileStatus) :=
  concat (map (fun pat =>
    match matches pat with
    | [] => [(pat, FsNotFound)]
    | ps => map (fun path => (path, file_status os path)) ps
    end) patterns).

Inductive DryMetrics := DmDisabled | DmNoneOnWindows | DmUnsupported | DmCollectors (names : list bytes).

Definition dry_metrics `{Glob} (p : Platform) (c : SystemConfig) : DryMetrics :=
  let all := init_collectors p c in
  if is_empty all then
    if platform_supported p then DmDisabled
    else match p with Windows => DmNoneOnWindows | _ => DmUnsupported end
  else DmCollectors (map collector_name all).

Inductive DryRemote := DrDisabled | DrEnabled (server : bytes) (interval : N) (insecure : bool).

Definition dry_remote (cfg : AgentConfig) : DryRemote :=
  match server cfg with
  | Some s =>
    if config_poll_interval cfg =? 0 then DrDisabled
    else DrEnabled s (config_poll_interval cfg) (negb (starts_with b#"https://" s))
  | None => DrDisabled
  end.

(** What is reported of the log source before its task runs for two seconds. *)
Inductive DryLogs :=
| DlError (e : SourceError)
| DlEventLog (channels : list bytes) (query : bytes) (event_ids : option bytes) (exclude_providers : list bytes)
| DlJournald (include exclude : list bytes)
| DlUnified (predicate : bytes)
| DlFiles (files : list (bytes * FileStatus)) (ml : option (bytes * N))
| DlNone.

Definition dry_logs (p : Platform) (a : Available) (os : Os) (matches : bytes -> list bytes)
    (cfg : AgentConfig) : DryLogs * LogTask :=
  match resolve_log_source p a (log_source cfg) with
  | inr e => (DlError e, TaskNone)
  | inl REventLog =>
    (DlEventLog (eventlog_channels cfg) (effective_query (eventlog_query cfg)) (eventlog_event_ids cfg)
       (eventlog_exclude_providers cfg),
     TaskEventLog (eventlog_channels cfg) (eventlog_query cfg) (eventlog_event_ids cfg)
       (eventlog_exclude_providers cfg))
  | inl RJournald =>
    (DlJournald (journal_include_services cfg) (journal_exclude_services cfg), TaskJournald (journal_filter cfg))
  | inl RUnified =>
    (DlUnified (Unified.effective_predicate (unified_log_predicate cfg)), TaskUnified (unified_log_predicate cfg))
  | inl RFiles =>
    if is_empty (logs cfg) then (DlNone, TaskNone)
    else
      (DlFiles (dry_files os matches (logs cfg))
         (match multiline_start_pattern cfg with Some pat => Some (pat, multiline_timeout_ms cfg) | None => None end),
       TaskFiles (logs cfg) (file_parse_opts cfg)
         (multiline_opts (multiline_start_pattern cfg) (multiline_timeout_ms cfg) (multiline_max_bytes cfg)))
  end.
End run.
