(* ===== verification/Lifecycle.v ===== *)
(** [src/src/main.rs], [run] and [agent_loop]: the life of the process.

    A run starts the poller, the collectors and the log source, waits for a
    signal, cancels the tasks, waits for those that use the sink, and closes it. The
    loop around it loads the configuration again after a reload. Tasks run
    concurrently: a run is a state and [run_step] says what each event of the
    scheduler does to it, one event at a time in any order, so that the theorems
    cover every interleaving. An event that is not enabled changes nothing. *)
From S2P Require Import Prelude Str StrFacts External Text Structured F64 Sink Tailed Multiline Watcher.
From S2P Require Import Journal Unified EventFilter EventXml Config RemoteConfig Agent.
From Stdlib Require Import Strings.Byte.

(** [TellConfig::builder(..).build()] and [Tell::new] of the SDK. *)
Class TellSdk `{TellClient} := {
  sdk_build : TellConfig -> bool;
  sdk_new : TellConfig -> option tell;
}.

(** Why [run] ends the process. *)
Inductive RunFailure := InvalidSdkConfig | ClientFailed | SourceUnavailable (e : SourceError).

(** How the host is when a run starts. *)
Record RunEnv := mkRunEnv {
  re_avail : Available;
  re_hostname : bytes -> bytes;     (* [resolve_hostname] on this host *)
  re_state_dir : bytes;
}.

(** * Tasks *)

Inductive PollerTask :=
| PollerNone
| PollerRunning (pc : PollerConfig) (st : PollerState)
| PollerEnded (e : PollerExit)
| PollerAborting (pc : PollerConfig) (st : PollerState)  (* told to, and not awaited *)
| PollerAborted.

(** The collectors, the count of ticks, and the ticks of an hour. *)
Inductive CollectorTask (C : Type) :=
| CollectorRunning (ck_ticks : N) (cs : list C) (count : N)
| CollectorEnded.
Arguments CollectorRunning {C}.
Arguments CollectorEnded {C}.

(** * The main task *)

(** What the drain waits for next. *)
Inductive Await := AwCollector | AwTailer | AwClose.

Inductive Phase := Waiting | Draining (sig : Signal) (w : Await) | Finished (sig : Signal).

(** The calls of the sink, in order. *)
Inductive SinkCall := CallMetric (m : Metric) | CallLog (forget : bool) (e : LogEntry) | CallClose.

Inductive RunEvent :=
| EvTick                              (* a tick of the collection task *)
| EvTickPanicked (ms : list Metric)   (* a collector panicked after these calls *)
| EvCollectorCancelled
| EvLog (forget : bool) (e : LogEntry)  (* the log source sends an entry *)
| EvTailerEnded                       (* the log source returns, or panics *)
| EvPoller (ev : PollEvent)
| EvEdit (file : option bytes)        (* someone edits the configuration *)
| EvSignal (ev : SignalEvent)
| EvMain                              (* the main task goes on *)
| EvPollerDropped.                    (* an aborted poller reaches an await *)

Section lifecycle.
Context `{Toml, Regex, Glob, TellClient, !TellLifecycle, !TellSdk}.
Context {C : Type} (ops : Collector C) (new_collector : CollectorKind -> C).
Context (p : Platform) (under_scm : bool).

Inductive TailerTask := TailerNone | TailerRunning (t : LogTask) | TailerEnded.

Record Run := mkRun {
  r_cfg : AgentConfig;
  r_phase : Phase;
  r_shutdown : bool;               (* [shutdown_tx] has sent *)
  r_reload : bool;                 (* the poller has signalled *)
  r_poller : PollerTask;
  r_collector : CollectorTask C;
  r_tailer : TailerTask;
  r_sink : Sink;
  r_calls : list SinkCall;         (* not in the code: the history *)
  r_file : option bytes;           (* the configuration file *)
  r_table : gset bytes;            (* the intern table *)
}.

Definition set_phase (ph : Phase) (r : Run) : Run :=
  mkRun (r_cfg r) ph (r_shutdown r) (r_reload r) (r_poller r) (r_collector r) (r_tailer r) (r_sink r) (r_calls r)
    (r_file r) (r_table r).
Definition set_poller (t : PollerTask) (reload : bool) (file : option bytes) (r : Run) : Run :=
  mkRun (r_cfg r) (r_phase r) (r_shutdown r) reload t (r_collector r) (r_tailer r) (r_sink r) (r_calls r)
    file (r_table r).
Definition set_collector (t : CollectorTask C) (r : Run) : Run :=
  mkRun (r_cfg r) (r_phase r) (r_shutdown r) (r_reload r) (r_poller r) t (r_tailer r) (r_sink r) (r_calls r)
    (r_file r) (r_table r).
Definition set_tailer (t : TailerTask) (r : Run) : Run :=
  mkRun (r_cfg r) (r_phase r) (r_shutdown r) (r_reload r) (r_poller r) (r_collector r) t (r_sink r) (r_calls r)
    (r_file r) (r_table r).
Definition set_file (file : option bytes) (r : Run) : Run :=
  mkRun (r_cfg r) (r_phase r) (r_shutdown r) (r_reload r) (r_poller r) (r_collector r) (r_tailer r) (r_sink r)
    (r_calls r) file (r_table r).
Definition call_sink (s : Sink) (calls : list SinkCall) (r : Run) : Run :=
  mkRun (r_cfg r) (r_phase r) (r_shutdown r) (r_reload r) (r_poller r) (r_collector r) (r_tailer r) s
    (r_calls r ++ calls) (r_file r) (r_table r).

(** A call of a collector: the sink adds the tags. *)
Definition send (s : Sink) (m : Metric) : Sink :=
  emit s (fun l => mkMetric (m_kind m) (m_name m) (m_value m) l (m_temporality m)) (m_labels m).

(** A call of a log source, with or without an answer. *)
Definition send_log (forget : bool) (s : Sink) (e : LogEntry) : Sink :=
  if forget then log s e else (sink_try_log_with_service s e).1.

Definition send_all (ms : list Metric) (r : Run) : Run :=
  call_sink (fold_left send ms (r_sink r)) (map CallMetric ms) r.

(** The collection task before its first tick: it returns without collectors, and
    panics on a zero interval. *)
Definition spawn_collector (cfg : AgentConfig) : CollectorTask C :=
  let cs := map new_collector (init_collectors p (system cfg)) in
  if is_empty cs || (interval cfg =? 0) then CollectorEnded
  else match checkpoint_ticks (interval cfg) with
    | None => CollectorEnded
    | Some k => CollectorRunning k cs 0
    end.

Definition spawn_poller (cfg : AgentConfig) (file : option bytes) : PollerTask :=
  match poller_config cfg (applied_config_hash file) with
  | None => PollerNone
  | Some pc =>
    match run_poller p pc file [] with
    | inl st => PollerRunning pc st
    | inr (e, _) => PollerEnded e
    end
  end.

(** [run] up to the wait. *)
Definition run_start (h : RunEnv) (cfg : AgentConfig) (file : option bytes) (table : gset bytes) : Run + RunFailure :=
  let tc := tell_config p cfg (re_hostname h (hostname cfg)) (re_state_dir h) in
  if negb (sdk_build tc) then inr InvalidSdkConfig
  else
    match sdk_new tc with
    | None => inr ClientFailed
    | Some client =>
      let '(sink, table') := sink_live client (cfg_tags cfg) table in
      let poller := spawn_poller cfg file in
      let collector := spawn_collector cfg in
      match log_task p (re_avail h) cfg with
      | inr e => inr (SourceUnavailable e)
      | inl t =>
        let tailer := match t with TaskNone => TailerNone | _ => TailerRunning t end in
        inl (mkRun cfg Waiting false false poller collector tailer sink [] file table')
      end
    end.

(** A signal: everything is told to stop. *)
Definition start_drain (sig : Signal) (r : Run) : Run :=
  mkRun (r_cfg r) (Draining sig AwCollector) true (r_reload r) (r_poller r) (r_collector r) (r_tailer r)
    (r_sink r) (r_calls r) (r_file r) (r_table r).

Definition collector_done (r : Run) : bool := match r_collector r with CollectorEnded => true | _ => false end.
Definition tailer_done (r : Run) : bool := match r_tailer r with TailerRunning _ => false | _ => true end.

(** [JoinHandle::abort] returns at once: the poller is dropped at its next await,
    and until then finishes what it is at. *)
Definition abort_poller (r : Run) : Run :=
  match r_poller r with
  | PollerRunning pc st => set_poller (PollerAborting pc st) (r_reload r) (r_file r) r
  | _ => r
  end.

Definition close_sink (r : Run) : Run := call_sink (sink_close (r_sink r)).1 [CallClose] r.

Definition main_step (r : Run) : Run :=
  match r_phase r with
  | Waiting =>
    if r_reload r then match wait_for_signal p under_scm ReloadChanged with Some s => start_drain s r | None => r end
    else r
  | Draining sig AwCollector => if collector_done r then set_phase (Draining sig AwTailer) r else r
  | Draining sig AwTailer => if tailer_done r then set_phase (Draining sig AwClose) (abort_poller r) else r
  | Draining sig AwClose => set_phase (Finished sig) (close_sink r)
  | Finished _ => r
  end.

(** A turn of the poller; [next] is its task afterwards, if it goes on. *)
Definition poller_turn (pc : PollerConfig) (st : PollerState) (next : PollerState -> PollerTask) (ev : PollEvent)
    (r : Run) : Run :=
  match poll_step p pc (mkPollerState (ps_delay st) (ps_etag st) (r_file r)) ev with
  | inl st' => set_poller (next st') (r_reload r) (ps_file st') r
  | inr (e, file) =>
    set_poller (PollerEnded e) (match e with ExitReload => true | _ => r_reload r end) file r
  end.

Definition poller_step (ev : PollEvent) (r : Run) : Run :=
  match r_poller r with
  | PollerRunning pc st =>
    let cancel := match ev with PoCancel => true | _ => false end in
    if cancel && negb (r_shutdown r) then r else poller_turn pc st (PollerRunning pc) ev r
  | PollerAborting pc st => poller_turn pc st (fun _ => PollerAborted) ev r
  | _ => r
  end.

Definition drop_poller (r : Run) : Run :=
  match r_poller r with
  | PollerAborting _ _ => set_poller PollerAborted (r_reload r) (r_file r) r
  | _ => r
  end.

(** What an event does to a run that has not ended. *)
Definition live_step (r : Run) (ev : RunEvent) : Run :=
  match ev with
  | EvTick =>
    match r_collector r with
    | CollectorRunning k cs n =>
      let '(cs', ms) := collect_tick ops (is_checkpoint k n) cs in
      set_collector (CollectorRunning k cs' (wrap32 (n + 1))) (send_all ms r)
    | CollectorEnded => r
    end
  | EvTickPanicked ms =>
    match r_collector r with
    | CollectorRunning k _ n =>
      set_collector (CollectorRunning k (map new_collector (init_collectors p (system (r_cfg r)))) (wrap32 (n + 1)))
        (send_all ms r)
    | CollectorEnded => r
    end
  | EvCollectorCancelled => if r_shutdown r then set_collector CollectorEnded r else r
  | EvLog forget e =>
    match r_tailer r with
    | TailerRunning _ =>
      call_sink (send_log forget (r_sink r) e) [CallLog forget e] r
    | _ => r
    end
  | EvTailerEnded => match r_tailer r with TailerRunning _ => set_tailer TailerEnded r | _ => r end
  | EvPoller ev => poller_step ev r
  | EvEdit file => set_file file r
  | EvSignal ev =>
    match r_phase r with
    | Waiting => match wait_for_signal p under_scm ev with Some s => start_drain s r | None => r end
    | _ => r
    end
  | EvMain => main_step r
  | EvPollerDropped => drop_poller r
  end.

(** Once [run] has returned only an aborted poller may still be at work. *)
Definition run_step (r : Run) (ev : RunEvent) : Run :=
  match r_phase r, ev with
  | Finished _, (EvPoller _ | EvPollerDropped) => live_step r ev
  | Finished _, _ => r
  | _, _ => live_step r ev
  end.

Definition run_events (r : Run) (evs : list RunEvent) : Run := fold_left run_step evs r.

(** * The reload loop *)

Inductive AgentExit := BadStartup | RunFailed (f : RunFailure) | Stopped | StillRunning.

Definition reload (cfg : AgentConfig) (file : option bytes) : AgentConfig :=
  match load_config p file with Some c => c | None => cfg end.

(** The configurations runs were started with, the runs, and how it ended. *)
Fixpoint reload_loop (cfg : AgentConfig) (file : option bytes) (table : gset bytes)
    (runs : list (RunEnv * list RunEvent)) : list AgentConfig * list Run * AgentExit :=
  match runs with
  | [] => ([cfg], [], StillRunning)
  | (h, evs) :: rest =>
    match run_start h cfg file table with
    | inr f => ([cfg], [], RunFailed f)
    | inl r0 =>
      let r := run_events r0 evs in
      match r_phase r with
      | Finished SigShutdown => ([cfg], [r], Stopped)
      | Finished SigReload =>
        let '(cfgs, rs, e) := reload_loop (reload cfg (r_file r)) (r_file r) (r_table r) rest in
        (cfg :: cfgs, r :: rs, e)
      | _ => ([cfg], [r], StillRunning)
      end
    end
  end.

Definition agent_loop (file : option bytes) (runs : list (RunEnv * list RunEvent))
    : list AgentConfig * list Run * AgentExit :=
  match load_config p file with
  | None => ([], [], BadStartup)
  | Some cfg => reload_loop cfg file ∅ runs
  end.

(** * A dry run *)

Record DryReport := mkDryReport {
  dr_metrics : DryMetrics;
  dr_remote : DryRemote;
  dr_logs : DryLogs;
  dr_printed : list Printed;
  dr_count : N;
}.

(** [dry_run]: [None] when the configuration cannot be loaded. [entries] are what
    the log source logs in its two seconds. The first tick is discarded. *)
Definition dry_run (a : Available) (os : Os) (matches : bytes -> list bytes) (file : option bytes)
    (table : gset bytes) (entries : list LogEntry) : option DryReport :=
  match load_config p file with
  | None => None
  | Some cfg =>
    let '(sink, _) := sink_dry_run (cfg_tags cfg) table in
    let all := map new_collector (init_collectors p (system cfg)) in
    let '(all1, baseline) := collect_tick ops false all in
    let discarded := fold_left send baseline (sink_discard table).1 in
    let '(_, ms) := collect_tick ops false all1 in
    let sink1 := fold_left send ms sink in
    let '(logs, task) := dry_logs p a os matches cfg in
    let sink2 :=
      match task with
      | TaskNone => sink1
      | _ => fold_left (fun s e => (sink_try_log_with_service s e).1) entries sink1
      end in
    Some (mkDryReport (dry_metrics p (system cfg)) (dry_remote cfg) logs
            (match inner sink2 with DryRun _ out => out | _ => [] end) (dry_run_count sink2))
  end.
End lifecycle.
