(* ===== verification/LifecycleFacts.v ===== *)
(** Lemmas on runs: the invariant of a run under every interleaving of its tasks,
    the history of the sink, the end of a drain, and what a reload loads. *)
From S2P Require Import Prelude Str StrFacts External Text Structured F64 Sink SinkFacts Tailed Multiline Watcher.
From S2P Require Import Journal Unified EventFilter EventXml Config RemoteConfig Agent Lifecycle.
From Stdlib Require Import Strings.Byte.

Section facts.
Context `{Toml, Regex, Glob, TellClient, !TellLifecycle, !TellSdk}.
Context {C : Type} (ops : Collector C) (new_collector : CollectorKind -> C).
Context (p : Platform) (under_scm : bool).
Implicit Types r : Run (C := C).

Notation step := (run_step ops new_collector p under_scm).
Notation run := (run_events ops new_collector p under_scm).

(** * The invariant *)

(** What holds in each phase. *)
Definition phase_ok r : Prop :=
  match r_phase r with
  | Waiting => CallClose ∉ r_calls r
  | Draining _ w =>
    r_shutdown r = true /\ CallClose ∉ r_calls r /\
    match w with
    | AwCollector => True
    | AwTailer => collector_done r = true
    | AwClose => collector_done r = true /\ tailer_done r = true /\ forall pc st, r_poller r <> PollerRunning pc st
    end
  | Finished _ =>
    collector_done r = true /\ tailer_done r = true /\ (forall pc st, r_poller r <> PollerRunning pc st) /\
    exists pre, r_calls r = pre ++ [CallClose] /\ CallClose ∉ pre
  end.

(** The effect of a call on the sink. *)
Definition apply_call (s : Sink) (c : SinkCall) : Sink :=
  match c with
  | CallMetric m => send s m
  | CallLog forget e => send_log forget s e
  | CallClose => (sink_close s).1
  end.

(** The sink is what the calls so far have made of it. *)
Definition history_ok (s0 : Sink) r : Prop := r_sink r = fold_left apply_call (r_calls r) s0.

Definition run_ok (s0 : Sink) r : Prop := phase_ok r /\ history_ok s0 r.

Lemma start_ok h cfg file table r :
  run_start new_collector p h cfg file table = inl r -> run_ok (r_sink r) r.
Proof.
  unfold run_start. destruct (negb _); [done|]. destruct (sdk_new _) as [t|]; [|done].
  destruct (sink_live _ _ _) as [s tab]. destruct (log_task _ _ _) as [lt|]; [|done].
  intros [= <-]. split; [apply not_elem_of_nil|done].
Qed.

Lemma fold_send ms s : fold_left apply_call (map CallMetric ms) s = fold_left send ms s.
Proof. revert s. induction ms as [|m ms IH]; intros s; [done|]. apply IH. Qed.

Lemma not_close_metrics ms : CallClose ∉ map CallMetric ms.
Proof. intros (m & Hm & _)%list_elem_of_fmap. done. Qed.

(** A task that still runs makes calls, none of them the close. *)
Lemma call_ok s0 r s calls :
  run_ok s0 r -> fold_left apply_call calls (r_sink r) = s -> CallClose ∉ calls ->
  (forall sig, r_phase r <> Finished sig) -> run_ok s0 (call_sink s calls r).
Proof.
  intros [Hp Hh] Hs Hc Hf. split.
  - unfold phase_ok in *. cbn. destruct (r_phase r) as [|sig w|sig]; [set_solver| |by destruct (Hf sig)].
    destruct Hp as (? & ? & ?). split_and!; [done|set_solver|done].
  - unfold history_ok in *. cbn. by rewrite fold_left_app, <- Hh.
Qed.

Lemma collector_ok s0 r k cs n t : run_ok s0 r -> r_collector r = CollectorRunning k cs n ->
  run_ok s0 (set_collector t r).
Proof.
  intros [Hp Hh] Hc. split; [|done]. unfold phase_ok, collector_done in *. cbn.
  destruct (r_phase r) as [|sig []|sig]; rewrite ?Hc in Hp; try done; naive_solver.
Qed.

Lemma collector_end_ok s0 r : run_ok s0 r -> run_ok s0 (set_collector CollectorEnded r).
Proof.
  intros [Hp Hh]. split; [|done]. unfold phase_ok, collector_done in *. cbn.
  destruct (r_phase r) as [|sig []|sig]; naive_solver.
Qed.

Lemma tailer_end_ok s0 r : run_ok s0 r -> run_ok s0 (set_tailer TailerEnded r).
Proof.
  intros [Hp Hh]. split; [|done]. unfold phase_ok, tailer_done in *. cbn.
  destruct (r_phase r) as [|sig []|sig]; naive_solver.
Qed.

(** What a turn of the poller, and the end of an aborted one, can change. *)
Definition poller_moved r r' : Prop :=
  r' = r \/ exists t reload file, r' = set_poller t reload file r /\
    ((exists pc st, r_poller r = PollerRunning pc st) \/ forall pc st, t <> PollerRunning pc st).

Lemma poller_step_moved ev r : poller_moved r (poller_step p ev r).
Proof.
  unfold poller_step, poller_turn. destruct (r_poller r) as [|pc st|e|pc st|] eqn:Ep; try by left.
  - cbv zeta. destruct (_ && _); [by left|]. right.
    destruct (poll_step _ _ _ _) as [st'|[e f]]; eexists _, _, _; (split; [done|left; by exists pc, st]).
  - right. destruct (poll_step _ _ _ _) as [st'|[e f]]; eexists _, _, _; (split; [done|by right]).
Qed.

Lemma drop_poller_moved r : poller_moved r (drop_poller r).
Proof.
  unfold drop_poller. destruct (r_poller r) eqn:Ep; try by left. right. eexists _, _, _. split; [done|by right].
Qed.

Lemma poller_moved_ok s0 r r' : run_ok s0 r -> poller_moved r r' -> run_ok s0 r'.
Proof.
  intros [Hp Hh] [->|(t & reload & file & -> & Ht)]; [done|]. split; [|done]. unfold phase_ok in *. cbn.
  destruct (r_phase r) as [|sig []|sig]; naive_solver.
Qed.

(** After the end of a run. *)
Lemma step_finished r ev sig : r_phase r = Finished sig -> poller_moved r (step r ev).
Proof.
  intros Hf. unfold run_step. rewrite Hf. 
  destruct ev; first [by left | apply poller_step_moved | apply drop_poller_moved].
Qed.

Lemma drain_ok s0 r sig : run_ok s0 r -> r_phase r = Waiting -> run_ok s0 (start_drain sig r).
Proof. intros [Hp Hh] Ew. split; [|done]. unfold phase_ok in *. rewrite Ew in Hp. by split_and!. Qed.

Lemma main_step_ok s0 r : run_ok s0 r -> run_ok s0 (main_step p under_scm r).
Proof.
  intros Hr. unfold main_step. destruct (r_phase r) as [|sig []|sig] eqn:Eph; [..|done].
  - destruct (r_reload r); [|done]. destruct (wait_for_signal _ _ _); [by apply drain_ok|done].
  - destruct (collector_done r) eqn:Ec; [|done]. destruct Hr as [Hp Hh]. split; [|done].
    unfold phase_ok in *. cbn. rewrite Eph in Hp. destruct Hp as (? & ? & _). by split_and!.
  - destruct (tailer_done r) eqn:Et; [|done]. destruct Hr as [Hp Hh]. unfold phase_ok, abort_poller in *. rewrite Eph in Hp.
    destruct Hp as (? & ? & ?). destruct (r_poller r) eqn:Ep; split; cbn; try done; rewrite ?Ep; by split_and!.
  - destruct Hr as [Hp Hh]. unfold phase_ok in Hp. rewrite Eph in Hp. destruct Hp as (_ & Hnc & Hd).
    split; [|unfold history_ok in *; cbn; by rewrite fold_left_app, <- Hh].
    destruct Hd as (? & ? & ?). unfold phase_ok. cbn. split_and!; [done..|]. by exists (r_calls r).
Qed.

Lemma live_step_ok s0 r ev :
  run_ok s0 r -> (forall sig, r_phase r <> Finished sig) -> run_ok s0 (live_step ops new_collector p under_scm r ev).
Proof.
  intros Hr Hf. assert (Hsend := fun ms => call_ok s0 r _ _ Hr (fold_send ms _) (not_close_metrics ms) Hf).
  destruct ev as [|ms| |forget e| |ev|file|ev| |]; cbn [live_step].
  - destruct (r_collector r) as [k cs n|] eqn:Ec; [|done]. destruct (collect_tick _ _ _) as [cs' ms].
    eapply collector_ok; [apply Hsend|done].
  - destruct (r_collector r) as [k cs n|] eqn:Ec; [|done]. eapply collector_ok; [apply Hsend|done].
  - destruct (r_shutdown r); [by apply collector_end_ok|done].
  - destruct (r_tailer r); [done| |done]. apply call_ok; [done..|set_solver|done].
  - destruct (r_tailer r); [done| |done]. by apply tailer_end_ok.
  - eapply poller_moved_ok; [done|apply poller_step_moved].
  - done.
  - destruct (r_phase r) eqn:Ep; [|done..]. destruct (wait_for_signal _ _ _); [by apply drain_ok|done].
  - by apply main_step_ok.
  - eapply poller_moved_ok; [done|apply drop_poller_moved].
Qed.

Lemma step_ok s0 r ev : run_ok s0 r -> run_ok s0 (step r ev).
Proof.
  intros Hr. destruct (r_phase r) as [|sig w|sig] eqn:Ep; [..|eapply poller_moved_ok; [done|by eapply step_finished]];
    (unfold run_step; rewrite Ep; apply live_step_ok; [done|by rewrite Ep]).
Qed.

Lemma run_ok_run s0 r evs : run_ok s0 r -> run_ok s0 (run r evs).
Proof. revert r. induction evs as [|ev evs IH]; intros r Hr; [done|]. by apply IH, step_ok. Qed.

(** * The end of a drain *)

(** How many steps of the main task are left once the tasks have ended. *)
Definition steps_left (ph : Phase) : nat :=
  match ph with
  | Waiting => 4
  | Draining _ AwCollector => 3
  | Draining _ AwTailer => 2
  | Draining _ AwClose => 1
  | Finished _ => 0
  end.

Definition signal_of (ph : Phase) : option Signal :=
  match ph with Waiting => None | Draining s _ | Finished s => Some s end.

Fixpoint main_steps (evs : list RunEvent) : nat :=
  match evs with [] => 0 | EvMain :: rest => S (main_steps rest) | _ :: rest => main_steps rest end.

(** The tasks that the drain waits for. *)
Definition idle r : Prop := collector_done r = true /\ tailer_done r = true.

Lemma poller_moved_frame r r' :
  poller_moved r r' ->
  r_phase r' = r_phase r /\ r_collector r' = r_collector r /\ r_tailer r' = r_tailer r /\ r_shutdown r' = r_shutdown r /\
  r_calls r' = r_calls r /\ r_sink r' = r_sink r.
Proof. by intros [->|(t & reload & file & -> & _)]. Qed.

(** While draining, only the main task changes the phase, and a task that has
    ended stays ended. *)
Lemma step_draining sig r ev :
  signal_of (r_phase r) = Some sig -> r_shutdown r = true ->
  signal_of (r_phase (step r ev)) = Some sig /\ r_shutdown (step r ev) = true /\
  (collector_done r = true -> collector_done (step r ev) = true) /\
  (tailer_done r = true -> tailer_done (step r ev) = true) /\
  (ev = EvCollectorCancelled -> r_phase r <> Finished sig -> collector_done (step r ev) = true) /\
  (ev = EvTailerEnded -> r_phase r <> Finished sig -> tailer_done (step r ev) = true).
Proof.
  intros Hs Hsh. destruct (r_phase r) as [|s w|s] eqn:Ep; [done| |].
  2: { injection Hs as ->. destruct (poller_moved_frame _ _ (step_finished r ev sig Ep)) as (E1 & E2 & E3 & E4 & _).
       unfold collector_done, tailer_done. rewrite E1, E2, E3, E4, Ep. by split_and!. }
  injection Hs as ->. unfold run_step. rewrite Ep.
  destruct ev as [|ms| |forget e| |ev|file|ev| |]; cbn [live_step].
  - destruct (r_collector r) eqn:Ec; [destruct (collect_tick _ _ _)|]; unfold collector_done, tailer_done; cbn;
      rewrite ?Ep, ?Ec; by split_and!.
  - destruct (r_collector r) eqn:Ec; unfold collector_done, tailer_done; cbn; rewrite ?Ep, ?Ec; by split_and!.
  - rewrite Hsh. cbn. rewrite Ep. by split_and!.
  - destruct (r_tailer r) eqn:Et; unfold tailer_done; cbn; rewrite ?Ep, ?Et; by split_and!.
  - destruct (r_tailer r) eqn:Et; unfold tailer_done; cbn; rewrite ?Ep, ?Et; by split_and!.
  - destruct (poller_moved_frame _ _ (poller_step_moved ev r)) as (E1 & E2 & E3 & E4 & _). unfold collector_done, tailer_done.
    rewrite E1, E2, E3, E4, Ep. by split_and!.
  - cbn. rewrite Ep. by split_and!.
  - rewrite Ep. cbv iota beta. rewrite Ep. by split_and!.
  - unfold main_step. rewrite Ep. destruct w; [destruct (collector_done r) eqn:Ec|destruct (tailer_done r) eqn:Et|].
    1,2,4: cbn; rewrite ?Ep; by split_and!.
    + unfold abort_poller. destruct (r_poller r); cbn; by split_and!.
    + cbn. by split_and!.
  - destruct (poller_moved_frame _ _ (drop_poller_moved r)) as (E1 & E2 & E3 & E4 & _). unfold collector_done, tailer_done.
    rewrite E1, E2, E3, E4, Ep. by split_and!.
Qed.

Lemma step_phase sig r ev :
  signal_of (r_phase r) = Some sig -> ev <> EvMain -> r_phase (step r ev) = r_phase r.
Proof.
  intros Hs Hev. destruct (r_phase r) as [|s w|s] eqn:Ep; [done| |].
  2: { by destruct (poller_moved_frame _ _ (step_finished r ev s Ep)) as [-> _]. }
  unfold run_step. rewrite Ep.
  destruct ev as [|ms| |forget e| |ev|file|ev| |]; cbn [live_step].
  - by destruct (r_collector r); [destruct (collect_tick _ _ _)|].
  - by destruct (r_collector r).
  - by destruct (r_shutdown r).
  - by destruct (r_tailer r).
  - by destruct (r_tailer r).
  - by destruct (poller_moved_frame _ _ (poller_step_moved ev r)) as [-> _].
  - done.
  - by rewrite Ep.
  - done.
  - by destruct (poller_moved_frame _ _ (drop_poller_moved r)) as [-> _].
Qed.

Lemma main_step_left sig r :
  signal_of (r_phase r) = Some sig -> idle r ->
  steps_left (r_phase (step r EvMain)) = pred (steps_left (r_phase r)).
Proof.
  intros Hs [Hc Ht]. unfold run_step. destruct (r_phase r) as [|s w|s] eqn:Ep; [done| |by rewrite Ep].
  cbn [live_step]. unfold main_step. rewrite Ep. destruct w; rewrite ?Hc, ?Ht; [done| |done].
  unfold abort_poller. by destruct (r_poller r).
Qed.

Lemma drain_finishes sig r evs :
  signal_of (r_phase r) = Some sig -> r_shutdown r = true -> idle r -> (steps_left (r_phase r) <= main_steps evs)%nat ->
  r_phase (run r evs) = Finished sig.
Proof.
  revert r. induction evs as [|ev evs IH]; intros r Hs Hsh Hid Hle.
  { cbn in *. destruct (r_phase r) as [|s []|s]; cbn in *; try lia. congruence. }
  destruct (step_draining sig r ev Hs Hsh) as (Hs' & Hsh' & Hc & Ht & _). cbn.
  apply IH; [done|done|by split; [apply Hc, Hid|apply Ht, Hid]|].
  assert (Hev : ev = EvMain \/ ev <> EvMain) by (destruct ev; auto).
  destruct Hev as [->|Hne].
  - rewrite (main_step_left sig) by done. cbn in Hle. lia.
  - rewrite (step_phase sig) by done. by destruct ev.
Qed.

Lemma run_finished r evs sig : r_phase r = Finished sig -> r_phase (run r evs) = Finished sig.
Proof.
  revert r. induction evs as [|ev evs IH]; intros r Hr; [done|]. apply IH.
  by destruct (poller_moved_frame _ _ (step_finished r ev sig Hr)) as [-> _].
Qed.

Lemma finished_idle s0 r sig : run_ok s0 r -> r_phase r = Finished sig -> idle r.
Proof. intros [Hp _] Ef. unfold phase_ok in Hp. rewrite Ef in Hp. split; apply Hp. Qed.

(** The tasks end when they are told to. *)
Lemma run_draining s0 sig r evs :
  run_ok s0 r -> signal_of (r_phase r) = Some sig -> r_shutdown r = true ->
  signal_of (r_phase (run r evs)) = Some sig /\ r_shutdown (run r evs) = true /\
  (collector_done r = true \/ EvCollectorCancelled ∈ evs -> collector_done (run r evs) = true) /\
  (tailer_done r = true \/ EvTailerEnded ∈ evs -> tailer_done (run r evs) = true).
Proof.
  revert r. induction evs as [|ev evs IH]; intros r Hok Hs Hsh.
  { cbn. split_and!; [done|done|..]; (intros [?|Hn]; [done|by apply not_elem_of_nil in Hn]). }
  destruct (step_draining sig r ev Hs Hsh) as (Hs' & Hsh' & Hc & Ht & Hce & Hte).
  destruct (IH (step r ev) (step_ok s0 r ev Hok) Hs' Hsh') as (H1' & H2' & H3' & H4').
  assert (Hfin : r_phase r <> Finished sig \/ idle r).
  { destruct (r_phase r) as [| |s] eqn:Ep; [by left..|]. right. by eapply finished_idle. }
  split_and!; [done|done|..].
  - intros [Hd|[<-|Hin]%elem_of_cons]; apply H3'; [by auto| |by auto]. left.
    destruct Hfin as [?|[? _]]; by auto.
  - intros [Hd|[<-|Hin]%elem_of_cons]; apply H4'; [by auto| |by auto]. left.
    destruct Hfin as [?|[_ ?]]; by auto.
Qed.

(** * The poller and the file *)

Lemma main_step_poller r :
  r_file (main_step p under_scm r) = r_file r /\ r_reload (main_step p under_scm r) = r_reload r /\
  (r_poller (main_step p under_scm r) = r_poller r \/ exists pc st, r_poller (main_step p under_scm r) = PollerAborting pc st).
Proof.
  unfold main_step. destruct (r_phase r) as [|sig []|sig]; [..|by auto].
  - destruct (r_reload r) eqn:E; [|by auto]. destruct (wait_for_signal _ _ _); cbn; rewrite ?E; by auto.
  - destruct (collector_done r); by auto.
  - destruct (tailer_done r); [|by auto]. unfold abort_poller. destruct (r_poller r) eqn:Eo; cbn; rewrite ?Eo; by eauto 10.
  - by auto.
Qed.

(** Only the poller and an edit write the file; only the poller asks for a
    reload. *)
Lemma step_poller r ev :
  (forall pe, ev <> EvPoller pe) -> (forall f, ev <> EvEdit f) ->
  r_file (step r ev) = r_file r /\ r_reload (step r ev) = r_reload r /\
  (r_poller (step r ev) = r_poller r \/ (exists pc st, r_poller (step r ev) = PollerAborting pc st) \/
   r_poller (step r ev) = PollerAborted).
Proof.
  intros Hp He.
  assert (Hdrop : r_file (drop_poller r) = r_file r /\ r_reload (drop_poller r) = r_reload r /\
    (r_poller (drop_poller r) = r_poller r \/ (exists pc st, r_poller (drop_poller r) = PollerAborting pc st) \/
     r_poller (drop_poller r) = PollerAborted)) by (unfold drop_poller; destruct (r_poller r) eqn:Ep; cbn; rewrite ?Ep; by auto).
  assert (Hmain := main_step_poller r). unfold run_step.
  destruct (r_phase r) as [|sig w|sig] eqn:Ep; [..|destruct ev as [|ms| |forget e| |ev|f|ev| |]; cbn [live_step];
      first [exact Hdrop | by destruct (Hp ev) | by auto]];
    (destruct ev as [|ms| |forget e| |ev|f|ev| |]; cbn [live_step];
     [ destruct (r_collector r); [destruct (collect_tick _ _ _)|]; by auto | destruct (r_collector r); by auto
     | destruct (r_shutdown r); by auto | destruct (r_tailer r); by auto | destruct (r_tailer r); by auto
     | by destruct (Hp ev) | by destruct (He f) | rewrite Ep; try destruct (wait_for_signal _ _ _); by auto
     | naive_solver | exact Hdrop ]).
Qed.

Lemma run_snoc r evs ev : run r (evs ++ [ev]) = step (run r evs) ev.
Proof. unfold run_events. by rewrite fold_left_app. Qed.

(** * The client *)

(** The metric as the client gets it. *)
Definition with_tags (tags : list label) (m : Metric) : Metric :=
  mkMetric (m_kind m) (m_name m) (m_value m) (tags ++ m_labels m) (m_temporality m).

Definition metric_calls (tags : list label) (cs : list SinkCall) : list Metric :=
  omap (fun c => match c with CallMetric m => Some (with_tags tags m) | _ => None end) cs.

Definition log_calls (cs : list SinkCall) : list LogEntry :=
  omap (fun c => match c with CallLog _ e => Some e | _ => None end) cs.

Lemma calls_on_client `{!TellClientOk} cs s t :
  inner s = Live t -> CallClose ∉ cs ->
  exists t', fold_left apply_call cs s = mkSink (Live t') (tags s) /\
    (exists ms, tell_points t' = tell_points t ++ ms /\ ms `sublist_of` metric_calls (tags s) cs) /\
    (exists es, tell_queue t' = tell_queue t ++ es /\ es `sublist_of` log_calls cs).
Proof.
  revert s t. induction cs as [|c cs IH]; intros s t Hs Hc; cbn [fold_left].
  { exists t. split_and!; [destruct s; cbn in *; by subst|exists []|exists []]; by rewrite app_nil_r. }
  apply not_elem_of_cons in Hc as [Hne Hc]. destruct c as [m|forget e|]; [| |done].
  - assert (Hsend : apply_call s (CallMetric m) = mkSink (Live (tell_metric t (with_tags (tags s) m))) (tags s)).
    { cbn. unfold send, emit. rewrite Hs. by rewrite send_metric_merged. }
    rewrite Hsend. destruct (IH (mkSink (Live (tell_metric t (with_tags (tags s) m))) (tags s)) _ eq_refl Hc) as (t' & Hf & (ms & Hms & Hsub) & (es & Hes & Hsl)).
    exists t'. split_and!; [exact Hf| |].
    + destruct (tell_metric_points t (with_tags (tags s) m)) as [E|E]; rewrite E in Hms.
      * eexists (_ :: ms). split; [by rewrite Hms, <- app_assoc|]. cbn. by apply sublist_skip.
      * exists ms. split; [done|]. cbn. by apply sublist_cons.
    + exists es. by rewrite Hes, tell_metric_queue.
  - assert (Hsend : exists u, apply_call s (CallLog forget e) = mkSink (Live u) (tags s) /\
      tell_points u = tell_points t /\ (tell_queue u = tell_queue t ++ [e] \/ tell_queue u = tell_queue t)).
    { cbn. unfold send_log, log, sink_try_log_with_service. rewrite Hs. destruct forget.
      - exists (tell_log t e). split_and!; [done|apply tell_log_points|apply tell_log_queue].
      - assert (Hpt := tell_try_points t e). destruct (tell_try_log t e) as [u ok] eqn:Et. exists u.
        split_and!; [done|exact Hpt|]. destruct ok; [left; by apply tell_try_true|right; by eapply tell_try_false]. }
    destruct Hsend as (u & -> & Hpu & Hqu).
    destruct (IH (mkSink (Live u) (tags s)) u eq_refl Hc) as (t' & Hf & (ms & Hms & Hsub) & (es & Hes & Hsl)).
    exists t'. split_and!; [exact Hf|exists ms; by rewrite Hms, Hpu|].
    destruct Hqu as [E|E]; rewrite E in Hes.
    + exists (e :: es). split; [by rewrite Hes, <- app_assoc|]. cbn. by apply sublist_skip.
    + exists es. split; [done|]. cbn. by apply sublist_cons.
Qed.
End facts.
