(* ===== verification/LifecycleProps.v ===== *)
(** The guarantees of the process as a whole, for every interleaving of its
    tasks: the sink is closed last and once, a shutdown completes, a reload runs
    the last good configuration, a remote configuration is applied, and where the
    documentation promises more than the code does. *)
From S2P Require Import Prelude Str StrFacts External Text Structured F64 Sink SinkFacts Tailed Multiline Watcher.
From S2P Require Import Journal Unified EventFilter EventXml Config RemoteConfig AgentProps Agent Lifecycle LifecycleFacts Examples.
From Stdlib Require Import Strings.Byte.

Section props.
Context `{Toml, Regex, Glob, TellClient, !TellLifecycle, !TellSdk}.
Context {C : Type} (ops : Collector C) (new_collector : CollectorKind -> C).
Context (p : Platform) (under_scm : bool).

Notation run := (run_events ops new_collector p under_scm).
Notation run_start := (run_start new_collector p).
Notation agent_loop := (agent_loop ops new_collector p under_scm).
Notation reload_loop := (reload_loop ops new_collector p under_scm).

(** C24: Whatever the scheduler does, the sink is closed once and nothing is sent to it
    afterwards: until the run has ended it has not been closed; when the run has
    ended the close is the last call, the collection task and the log source have
    returned, and the poller has returned or was told to abort, which is not
    awaited: it may still be finishing a poll, and it has no sink. The state of
    the sink is at all times that of the calls made, in their order. *)
Theorem close_comes_last h cfg file table r0 evs :
  run_start h cfg file table = inl r0 ->
  let r := run r0 evs in
  r_sink r = fold_left apply_call (r_calls r) (r_sink r0) /\
  match r_phase r with
  | Finished _ =>
    (exists pre, r_calls r = pre ++ [CallClose] /\ CallClose ∉ pre) /\
    collector_done r = true /\ tailer_done r = true /\ forall pc st, r_poller r <> PollerRunning pc st
  | _ => CallClose ∉ r_calls r
  end.
Proof.
  intros Hs. destruct (run_ok_run ops new_collector p under_scm (r_sink r0) r0 evs (start_ok _ _ _ _ _ _ _ Hs)) as [Hp Hh].
  split; [exact Hh|]. unfold phase_ok in Hp.
  destruct (r_phase (run r0 evs)); [done|by destruct Hp as (_ & ? & _)|]. destruct Hp as (? & ? & ? & ?). by split_and!.
Qed.

(** C25: A shutdown completes: once a signal has been received, in any schedule in
    which the collection task and the log source answer the cancellation and the
    main task is then scheduled three times, the run ends, with the result of that
    signal; nothing that happens meanwhile, another signal or an answer of the
    configuration server included, prevents it or changes the result. *)
Theorem shutdown_completes h cfg file table r0 evs sig evs1 evs2 :
  run_start h cfg file table = inl r0 -> signal_of (r_phase (run r0 evs)) = Some sig ->
  EvCollectorCancelled ∈ evs1 -> EvTailerEnded ∈ evs1 -> (3 <= main_steps evs2)%nat ->
  r_phase (run (run (run r0 evs) evs1) evs2) = Finished sig.
Proof.
  intros Hs Hsig Hc Ht Hm. set (r := run r0 evs) in *.
  assert (Hok := run_ok_run ops new_collector p under_scm _ r0 evs (start_ok _ _ _ _ _ _ _ Hs)). fold r in Hok.
  assert (Hsh : r_shutdown r = true \/ r_phase r = Finished sig).
  { destruct Hok as [Hp _]. unfold phase_ok in Hp. destruct (r_phase r); [done|left; apply Hp|right; cbn in Hsig; congruence]. }
  destruct Hsh as [Hsh|Hf].
  - destruct (run_draining ops new_collector p under_scm _ sig r evs1 Hok Hsig Hsh) as (Hs1 & Hsh1 & Hc1 & Ht1).
    apply drain_finishes; [done|done|split; by auto|].
    destruct (r_phase (run r evs1)) as [|s []|s]; cbn in *; done || lia.
  - by apply run_finished, run_finished.
Qed.

(** * Reloading *)

(** The last of the files that is a configuration, else [cfg]. *)
Definition last_good (cfg : AgentConfig) (files : list (option bytes)) : AgentConfig := fold_left (reload p) files cfg.

Definition loadable (c : AgentConfig) : Prop := exists b, parse_config p b = inl c.

Lemma load_config_loadable f c : load_config p f = Some c -> loadable c.
Proof.
  unfold load_config. destruct f as [b|]; [|done]. destruct (valid_utf8 b); [|done].
  destruct (parse_config p b) as [c'|] eqn:E; [|done]. intros [= ->]. by exists b.
Qed.

Lemma reload_loadable cfg f : loadable cfg -> loadable (reload p cfg f).
Proof. unfold reload. destruct (load_config p f) eqn:E; [|done]. intros _. by eapply load_config_loadable. Qed.

(** What the loop did: the configuration of each run, and why it ended. *)
Definition loop_spec (cfg : AgentConfig) (cfgs : list AgentConfig) (rs : list (Run (C := C))) (e : AgentExit) : Prop :=
  cfgs = map (fun n => last_good cfg (take n (map r_file rs))) (seq 0 (length cfgs)) /\
  (1 <= length cfgs <= S (length rs))%nat /\ Forall loadable cfgs /\
  match e with
  | BadStartup => False
  | RunFailed f => exists h file table, run_start h (last_good cfg (map r_file rs)) file table = inr f
  | Stopped => exists r, last rs = Some r /\ r_phase r = Finished SigShutdown
  | StillRunning => True
  end.

Lemma loop_spec_one cfg rs e :
  loadable cfg ->
  match e with
  | BadStartup => False
  | RunFailed f => exists h file table, run_start h (last_good cfg (map r_file rs)) file table = inr f
  | Stopped => exists r, last rs = Some r /\ r_phase r = Finished SigShutdown
  | StillRunning => True
  end -> loop_spec cfg [cfg] rs e.
Proof. intros Hl He. split_and!; [done|cbn; lia|cbn; lia|by constructor|done]. Qed.

Lemma reload_loop_spec runs cfg file table :
  loadable cfg -> let '(cfgs, rs, e) := reload_loop cfg file table runs in loop_spec cfg cfgs rs e.
Proof.
  revert cfg file table. induction runs as [|[h evs] runs IH]; intros cfg file table Hl; cbn [Lifecycle.reload_loop].
  { by apply loop_spec_one. }
  destruct (run_start h cfg file table) as [r0|f] eqn:Es; [|apply loop_spec_one; [done|by exists h, file, table]].
  set (r := run r0 evs). destruct (r_phase r) as [|s w|[]] eqn:Ep; [by apply loop_spec_one..| |].
  { apply loop_spec_one; [done|]. by exists r. }
  specialize (IH (reload p cfg (r_file r)) (r_file r) (r_table r) (reload_loadable _ _ Hl)).
  destruct (Lifecycle.reload_loop _ _ _ _ _ _ _ runs) as [[cfgs rs] e]. destruct IH as (Hc & [Hlo Hhi] & Hall & He).
  split_and!; [|cbn; lia|cbn; lia|by constructor|].
  - cbn [length]. rewrite <- cons_seq. cbn [map take]. f_equal. rewrite <- seq_shift, map_map. exact Hc.
  - destruct e as [|f| |]; [done|exact He| |done]. destruct He as (r' & Hlast & Hf). exists r'. split; [|done].
    destruct rs; [done|exact Hlast].
Qed.

(** C26: A bad edit never changes what the agent runs: every run has a configuration
    that passed the validation, and it is that of the last valid file of those the
    reloads found so far. The agent ends by a shutdown, or because a run could not
    be started with such a configuration. *)
Theorem reload_keeps_last_good file runs cfg :
  load_config p file = Some cfg ->
  let '(cfgs, rs, e) := agent_loop file runs in loop_spec cfg cfgs rs e.
Proof.
  intros Hl. unfold Lifecycle.agent_loop. rewrite Hl. apply reload_loop_spec. by eapply load_config_loadable.
Qed.

(** C27: A valid configuration can end the agent: when a reload finds one whose log
    source is not on this host, the process exits instead of keeping the one it
    has. *)
Theorem reload_can_exit cfg file table h evs r0 r h' evs' rest cfg' e :
  run_start h cfg file table = inl r0 -> r = run r0 evs -> r_phase r = Finished SigReload ->
  load_config p (r_file r) = Some cfg' -> resolve_log_source p (re_avail h') (log_source cfg') = inr e ->
  let tc := tell_config p cfg' (re_hostname h' (hostname cfg')) (re_state_dir h') in
  sdk_build tc = true -> is_Some (sdk_new tc) ->
  reload_loop cfg file table ((h, evs) :: (h', evs') :: rest)
  = ([cfg; cfg'], [r], RunFailed (SourceUnavailable e)).
Proof.
  intros Hs -> Hf Hl He tc Hb [t Ht]. cbn [Lifecycle.reload_loop]. rewrite Hs, Hf. unfold reload. rewrite Hl.
  unfold Lifecycle.run_start at 1. fold tc. rewrite Hb, Ht. cbn [negb].
  destruct (sink_live _ _ _). unfold log_task. by rewrite He.
Qed.

(** * The remote configuration *)

(** What the poller of a run met. *)
Definition polls (evs : list RunEvent) : list PollEvent :=
  omap (fun ev => match ev with EvPoller pe => Some pe | _ => None end) evs.

Lemma served_valid_app evs evs' b : served_valid p evs b \/ served_valid p evs' b -> served_valid p (evs ++ evs') b.
Proof.
  intros [(o & io & r & c & Hin & Hr)|(o & io & r & c & Hin & Hr)]; exists o, io, r, c;
    (split; [apply elem_of_app; by auto|done]).
Qed.

(** The poller has asked for a reload, so the file is one the server sent. *)
Definition remote_ok (evs : list RunEvent) (r : Run (C := C)) : Prop :=
  r_poller r = PollerEnded ExitReload -> r_reload r = true /\ exists b, r_file r = Some b /\ served_valid p (polls evs) b.

Lemma poller_step_remote evs pe r :
  remote_ok evs r -> remote_ok (evs ++ [EvPoller pe]) (poller_step p pe r).
Proof.
  intros Hr. assert (Hmono : remote_ok (evs ++ [EvPoller pe]) r).
  { intros He. destruct (Hr He) as (? & b & ? & ?). split; [done|]. exists b. split; [done|].
    unfold polls. rewrite omap_app. apply served_valid_app. by left. }
  assert (Hturn : forall pc st next, (forall st', next st' <> PollerEnded ExitReload) ->
    remote_ok (evs ++ [EvPoller pe]) (poller_turn p pc st next pe r)).
  2: { unfold poller_step. destruct (r_poller r) as [|pc st|e|pc st|] eqn:Ep; try done; [|by apply Hturn].
       cbv zeta. destruct (_ && _); [done|]. by apply Hturn. }
  intros pc st next Hnext. unfold poller_turn.
  destruct (poll_step_file p pc (mkPollerState (ps_delay st) (ps_etag st) (r_file r)) pe) as [[_ Hno]|(b & _ & Hv & -> & _)].
  - destruct (poll_step _ _ _ _) as [st'|[e f]]; [by intros Hend; destruct (Hnext st')|]. intros [= ->]. by destruct (Hno f).
  - intros _. split; [done|]. exists b. split; [done|]. unfold polls. rewrite omap_app. apply served_valid_app. by right.
Qed.

Lemma run_remote_ok r0 evs :
  (forall f, EvEdit f ∉ evs) -> r_poller r0 <> PollerEnded ExitReload -> remote_ok evs (run r0 evs).
Proof.
  intros He Hr0. induction evs as [|ev evs IH] using rev_ind; [done|].
  rewrite run_snoc. specialize (IH ltac:(intros f Hf; apply (He f), elem_of_app; by left)).
  assert (Hne : forall f, ev <> EvEdit f) by (intros f ->; apply (He f), elem_of_app; right; by left).
  assert (Hcase : (exists pe, ev = EvPoller pe) \/ forall pe, ev <> EvPoller pe) by (destruct ev; naive_solver).
  destruct Hcase as [[pe ->]|Hnp].
  - assert (Hp := poller_step_remote evs pe _ IH). unfold run_step. by destruct (r_phase (run r0 evs)).
  - destruct (step_poller ops new_collector p under_scm (run r0 evs) ev Hnp Hne) as (Hf & Hrl & Hpo).
    intros Hend. rewrite Hf, Hrl. destruct Hpo as [Hpo|[(pc & st & Hpo)|Hpo]]; [|congruence..].
    rewrite Hpo in Hend. destruct (IH Hend) as (? & b & ? & ?). split; [done|]. exists b. split; [done|].
    unfold polls. rewrite omap_app. apply served_valid_app. by left.
Qed.

Lemma start_poller h cfg file table r0 :
  run_start h cfg file table = inl r0 -> r_poller r0 <> PollerEnded ExitReload.
Proof.
  unfold Lifecycle.run_start. destruct (negb _); [done|]. destruct (sdk_new _); [|done].
  destruct (sink_live _ _ _). destruct (log_task _ _ _); [|done]. intros [= <-]. cbn. unfold spawn_poller.
  destruct (poller_config _ _) as [pc|]; [|done]. unfold run_poller. destruct (negb _); [done|]. by destruct (_ =? _).
Qed.

(** C28: A remote configuration is applied: when the poller has asked for the reload
    and nobody edits the file meanwhile, what the reload loads is a body the
    server sent with status 200, complete, and it is not refused. *)
Theorem remote_reload_applies h cfg file table r0 evs :
  run_start h cfg file table = inl r0 -> (forall f, EvEdit f ∉ evs) ->
  r_poller (run r0 evs) = PollerEnded ExitReload ->
  exists b c, served_valid p (polls evs) b /\ parse_config p b = inl c /\
    r_file (run r0 evs) = Some b /\ reload p cfg (r_file (run r0 evs)) = c.
Proof.
  intros Hs He Hend. destruct (run_remote_ok r0 evs He (start_poller _ _ _ _ _ Hs) Hend) as (_ & b & Hf & Hv).
  assert (Hv' := Hv). destruct Hv' as (o & io & resp & c & _ & _ & _ & Hb & Hc). exists b, c. split_and!; [done..|].
  unfold reload, load_config. rewrite Hf. replace (valid_utf8 b) with true by (subst b; by rewrite lossy_is_valid).
  by rewrite Hc.
Qed.

(** * What reaches the SDK *)

(** C29: Until it is closed, the client of a run holds nothing but what the tasks have
    sent, each call at most once and in order: the metrics with the tags of the
    configuration, sorted by name, in front of their labels, and the log entries
    as they are. *)
Theorem client_gets_calls `{!TellClientOk} h cfg file table r0 evs :
  run_start h cfg file table = inl r0 -> (forall sig, r_phase (run r0 evs) <> Finished sig) ->
  exists t t', sdk_new (tell_config p cfg (re_hostname h (hostname cfg)) (re_state_dir h)) = Some t /\
    inner (r_sink (run r0 evs)) = Live t' /\
    (exists ms, tell_points t' = tell_points t ++ ms /\
       ms `sublist_of` metric_calls (sort_by_key (cfg_tags cfg)) (r_calls (run r0 evs))) /\
    (exists es, tell_queue t' = tell_queue t ++ es /\ es `sublist_of` log_calls (r_calls (run r0 evs))).
Proof.
  intros Hs Hnf. destruct (run_ok_run ops new_collector p under_scm _ r0 evs (start_ok _ _ _ _ _ _ _ Hs)) as [Hp Hh].
  assert (Hc : CallClose ∉ r_calls (run r0 evs)).
  { unfold phase_ok in Hp. destruct (r_phase (run r0 evs)) as [| |sig]; [done|apply Hp|by destruct (Hnf sig)]. }
  unfold history_ok in Hh. revert Hs Hh. unfold Lifecycle.run_start. destruct (negb _); [done|].
  destruct (sdk_new _) as [t|]; [|done]. unfold sink_live. rewrite leak_tags_spec.
  destruct (log_task _ _ _); [|done]. intros [= <-]. cbn [r_sink]. intros Hh.
  destruct (calls_on_client _ (mkSink (Live t) (sort_by_key (cfg_tags cfg))) t eq_refl Hc) as (t' & Hf & Hms & Hes).
  exists t, t'. rewrite Hh, Hf. by split_and!.
Qed.

(** * Dry runs *)

Lemma dry_fold {A} (f : Sink -> A -> Sink) (pr : list label -> A -> Printed) xs c out tags :
  (forall c out x, f (mkSink (DryRun c out) tags) x = mkSink (DryRun (wrap64 (c + 1)) (out ++ [pr tags x])) tags) ->
  c < 18446744073709551616 ->
  fold_left f xs (mkSink (DryRun c out) tags)
  = mkSink (DryRun (wrap64 (c + len xs)) (out ++ map (pr tags) xs)) tags.
Proof.
  intros Hf. revert c out. induction xs as [|x xs IH]; intros c out Hc; cbn [fold_left map].
  - by rewrite len_nil, N.add_0_r, wrap64_small, app_nil_r.
  - rewrite Hf, IH by (by apply N.mod_lt). rewrite <- app_assoc, len_cons. f_equal. f_equal.
    unfold wrap64. rewrite N.Div0.add_mod_idemp_l. f_equal. lia.
Qed.

(** What a dry run prints is what a run would send: the metrics of the second tick
    with the tags of the configuration in front of their labels, then the entries
    of the log source. The number it reports as "data points per tick" counts
    both. *)
Theorem dry_run_prints_all a os matches file table entries rep :
  dry_run ops new_collector p a os matches file table entries = Some rep ->
  exists cfg ms es, load_config p file = Some cfg /\
    ms = (collect_tick ops false (collect_tick ops false (map new_collector (init_collectors p (system cfg)))).1).2 /\
    es = match (dry_logs p a os matches cfg).2 with TaskNone => [] | _ => entries end /\
    dr_printed rep = map (fun m => PMetric (with_tags (sort_by_key (cfg_tags cfg)) m)) ms
      ++ map (fun e => dry_run_log (e_level e) (default dash (e_service e)) (e_message e) (e_data e)) es /\
    dr_count rep = wrap64 (len ms + len es).
Proof.
  unfold dry_run. destruct (load_config p file) as [cfg|]; [|done]. unfold sink_dry_run. rewrite leak_tags_spec.
  unfold dry_run_new. set (tags := sort_by_key (cfg_tags cfg)).
  destruct (collect_tick ops false (map _ _)) as [all1 base] eqn:E1. destruct (collect_tick ops false all1) as [all2 ms] eqn:E2.
  destruct (dry_logs p a os matches cfg) as [lg task] eqn:El. intros Hrep.
  exists cfg, ms, (match task with TaskNone => [] | _ => entries end). rewrite E1. cbn [fst]. rewrite E2, El. cbn [snd].
  rewrite (dry_fold send (fun tags m => PMetric (with_tags tags m))) in Hrep by done.
  assert (Hlog := fun es c out => dry_fold (fun s e => (sink_try_log_with_service s e).1)
    (fun _ e => dry_run_log (e_level e) (default dash (e_service e)) (e_message e) (e_data e)) es c out tags
    (fun _ _ _ => eq_refl)).
  set (es := match task with TaskNone => [] | _ => entries end).
  assert (Hs2 : match task with
    | TaskNone => mkSink (DryRun (wrap64 (0 + len ms)) ([] ++ map (fun m => PMetric (with_tags tags m)) ms)) tags
    | _ => fold_left (fun s e => (sink_try_log_with_service s e).1) entries
             (mkSink (DryRun (wrap64 (0 + len ms)) ([] ++ map (fun m => PMetric (with_tags tags m)) ms)) tags)
    end = mkSink (DryRun (wrap64 (len ms + len es)) (map (fun m => PMetric (with_tags tags m)) ms
            ++ map (fun e => dry_run_log (e_level e) (default dash (e_service e)) (e_message e) (e_data e)) es)) tags).
  { rewrite N.add_0_l. cbn [app]. unfold es. destruct task; try (rewrite len_nil, N.add_0_r, app_nil_r; done).
    all: rewrite Hlog by (by apply N.mod_lt); f_equal; f_equal; unfold wrap64; by rewrite N.Div0.add_mod_idemp_l. }
  rewrite Hs2 in Hrep. injection Hrep as <-. by split_and!.
Qed.
End props.

(** * On a concrete host *)

Section witnesses.
Import Examples RefTell.

(** A parser that knows three documents: the second selects a log source of
    Windows, the third changes the endpoint. *)
Definition host_key : bytes := b#"0123456789abcdef0123456789abcdef".
Definition host_doc (more : list (bytes * Value)) : list (bytes * Value) :=
  (b#"api_key", VString host_key) :: (b#"server", VString b#"https://s") :: more.
#[local] Instance host_toml : Toml := fun s =>
  if bool_decide (s = b#"good") then Some (host_doc [])
  else if bool_decide (s = b#"windows") then Some (host_doc [(b#"log_source", VString b#"eventlog")])
  else if bool_decide (s = b#"other") then Some (host_doc [(b#"endpoint", VString b#"e")])
  else None.

#[local] Instance host_sdk : TellSdk := {| sdk_build _ := true; sdk_new _ := Some (mkChan 100 [] []) |}.

(** Every collector sends one gauge per tick. *)
Definition one_gauge : Metric := mkMetric KGauge b#"x" (f64_of_N 1) [] Delta.
Definition host_ops : Collector unit := mkCollector unit (fun _ => (tt, [one_gauge])) (fun _ => []).
Definition host_new (k : CollectorKind) : unit := tt.

Definition journal_host : RunEnv := mkRunEnv (mkAvailable true false) (fun _ => b#"h") b#"/var/lib/witness".

Notation host_run := (run_events host_ops host_new Linux false).
Notation host_start file := (run_start host_new Linux journal_host
  (default (mkAgentConfig [] [] None 0 [] 0 [] Auto None [] None None [] [] [] false false false None 0 0 [] 0 None
    (system_config_default Linux)) (load_config Linux file)) file ∅).

Definition one_line : LogEntry := mkLogEntry Info b#"line" None None None.
Definition answer (body : bytes) : PollEvent :=
  PoPoll (CurlOutput (b#"HTTP/1.1 200 OK" ++ [x0d; nl; x0d; nl] ++ body)) (mkWriteIo true true true true true).

(** The tasks work, the server answers, and the run is drained. *)
Definition working (body : bytes) : list RunEvent := [EvTick; EvLog false one_line; EvPoller (answer body); EvMain].
Definition stopping : list RunEvent := [EvTick; EvCollectorCancelled; EvSignal SigTerm; EvTailerEnded].
Definition main3 : list RunEvent := [EvMain; EvMain; EvMain].

Lemma good_starts : exists r, host_start (Some b#"good") = inl r.
Proof. eexists. vm_compute. reflexivity. Defined.

Lemma close_comes_last_witness :
  exists r0, host_start (Some b#"good") = inl r0 /\
    let r := host_run r0 (working b#"other" ++ stopping ++ main3) in
    exists pre, r_calls r = pre ++ [CallClose] /\ CallClose ∉ pre.
Proof.
  destruct good_starts as [r0 Hs]. exists r0. split; [exact Hs|].
  assert (Hc := close_comes_last host_ops host_new Linux false _ _ _ _ r0 (working b#"other" ++ stopping ++ main3) Hs).
  vm_compute in Hs. injection Hs as <-. vm_compute in Hc. vm_compute. exact (proj1 (proj2 Hc)).
Defined.

Lemma shutdown_completes_witness :
  exists r0, host_start (Some b#"good") = inl r0 /\
    r_phase (host_run (host_run (host_run r0 (working b#"other")) stopping) main3) = Finished SigReload.
Proof.
  destruct good_starts as [r0 Hs]. exists r0. split; [exact Hs|].
  apply (shutdown_completes host_ops host_new Linux false _ _ _ _ r0 (working b#"other") SigReload stopping main3 Hs).
  - vm_compute in Hs. injection Hs as <-. reflexivity.
  - right. left.
  - do 3 right. left.
  - apply Nat.leb_le. reflexivity.
Defined.

Definition edits : list (RunEnv * list RunEvent) :=
  [(journal_host, [EvEdit (Some b#"broken"); EvSignal SigHup] ++ stopping ++ main3);
   (journal_host, [EvEdit (Some b#"other"); EvSignal SigHup] ++ stopping ++ main3);
   (journal_host, [EvSignal SigTerm] ++ stopping ++ main3)].

Lemma reload_keeps_last_good_witness :
  exists cfg cfgs rs, load_config Linux (Some b#"good") = Some cfg /\
    agent_loop host_ops host_new Linux false (Some b#"good") edits = (cfgs, rs, Stopped) /\
    length cfgs = 3%nat /\ loop_spec host_new Linux cfg cfgs rs Stopped.
Proof.
  destruct (load_config Linux (Some b#"good")) as [cfg|] eqn:El; [|vm_compute in El; discriminate].
  assert (Hl := reload_keeps_last_good host_ops host_new Linux false (Some b#"good") edits cfg El).
  destruct (agent_loop host_ops host_new Linux false (Some b#"good") edits) as [[cfgs rs] e] eqn:Ea.
  assert (He : e = Stopped /\ length cfgs = 3%nat).
  { change (e = Stopped) with ((cfgs, rs, e).2 = Stopped). change (length cfgs) with (length (cfgs, rs, e).1.1).
    rewrite <- Ea. clear. split; vm_compute; reflexivity. }
  destruct He as [-> Hlen]. exists cfg, cfgs, rs. by split_and!.
Defined.

(** The server sends every host a configuration meant for Windows. *)
Lemma reload_can_exit_witness :
  exists cfg cfg' r,
    reload_loop host_ops host_new Linux false cfg (Some b#"good") ∅
      [(journal_host, working b#"windows" ++ stopping ++ main3); (journal_host, [])]
    = ([cfg; cfg'], [r], RunFailed (SourceUnavailable NotWindows)).
Proof.
  destruct (load_config Linux (Some b#"good")) as [cfg|] eqn:El; [|vm_compute in El; discriminate].
  destruct (load_config Linux (Some b#"windows")) as [cfg'|] eqn:El'; [|vm_compute in El'; discriminate].
  destruct (run_start host_new Linux journal_host cfg (Some b#"good") ∅) as [r0|] eqn:Hs.
  2: { vm_compute in El. injection El as <-. vm_compute in Hs. discriminate. }
  exists cfg, cfg', (host_run r0 (working b#"windows" ++ stopping ++ main3)).
  apply (reload_can_exit host_ops host_new Linux false cfg (Some b#"good") ∅ journal_host
    (working b#"windows" ++ stopping ++ main3) r0 _ journal_host [] [] cfg' NotWindows Hs eq_refl).
  - vm_compute in El. injection El as <-. vm_compute in Hs. injection Hs as <-. by vm_compute.
  - rewrite <- El'. f_equal. vm_compute in El. injection El as <-. vm_compute in Hs. injection Hs as <-. by vm_compute.
  - vm_compute in El'. injection El' as <-. reflexivity.
  - reflexivity.
  - by eexists.
Defined.

Lemma remote_reload_applies_witness :
  exists r0 b c, host_start (Some b#"good") = inl r0 /\
    served_valid Linux (polls (working b#"other")) b /\ parse_config Linux b = inl c /\
    r_file (host_run r0 (working b#"other")) = Some b.
Proof.
  destruct good_starts as [r0 Hs]. exists r0.
  destruct (remote_reload_applies host_ops host_new Linux false _ _ _ _ r0 (working b#"other") Hs) as (b & c & Hv & Hc & Hf & _).
  - intros f Hf. by repeat (apply elem_of_cons in Hf as [?|Hf]; [done|]); apply not_elem_of_nil in Hf.
  - vm_compute in Hs. injection Hs as <-. reflexivity.
  - exists b, c. split_and!; [exact Hs|exact Hv|exact Hc|exact Hf].
Defined.

Lemma client_gets_calls_witness :
  exists r0 t', host_start (Some b#"good") = inl r0 /\
    inner (r_sink (host_run r0 (working b#"other"))) = Live t' /\
    (exists es, tell_queue t' = [] ++ es /\ es `sublist_of` log_calls (r_calls (host_run r0 (working b#"other")))).
Proof.
  destruct good_starts as [r0 Hs]. exists r0.
  destruct (client_gets_calls host_ops host_new Linux false _ _ _ _ r0 (working b#"other") Hs)
    as (t & t' & Ht & Hi & _ & Hes).
  - intros sig. vm_compute in Hs. injection Hs as <-. by vm_compute.
  - exists t'. split_and!; [exact Hs|exact Hi|]. injection Ht as <-. exact Hes.
Defined.
End witnesses.
