(* ===== verification/Hosted.v ===== *)
(** The log source inside a run of the agent.

    A log source is proved against [LogSink]. Here a run of the agent, with its
    other tasks at work, is such a sink: before each call of the source the
    scheduler gives the other tasks any number of turns, and the call is an event
    of the run. Whatever is shown of a source on every sink then holds of the
    source in a run, under every interleaving, and what was [shipped] is what the
    client of the run has in its queue. *)
From S2P Require Import Prelude Str StrFacts External Text Structured F64 Sink SinkFacts Tailed Multiline Watcher.
From S2P Require Import Journal Unified EventFilter EventXml Config RemoteConfig Agent Lifecycle LifecycleFacts.
From Stdlib Require Import Strings.Byte.

Section hosted.
Context `{Toml, Regex, Glob, TellClient, !TellLifecycle, !TellSdk}.
Context {C : Type} (ops : Collector C) (new_collector : CollectorKind -> C).
Context (p : Platform) (under_scm : bool).
Implicit Types r : Run (C := C).

Notation step := (run_step ops new_collector p under_scm).
Notation run := (run_events ops new_collector p under_scm).

(** * What the client was given *)

Definition not_close (c : SinkCall) : bool := match c with CallClose => false | _ => true end.

Definition queue_of (s : Sink) : list LogEntry := match inner s with Live t => tell_queue t | _ => [] end.

(** The queue of the client of a run that started with the sink [s0], when it is
    closed or, before that, now. *)
Definition sent (s0 : Sink) r : list LogEntry :=
  queue_of (fold_left apply_call (List.filter not_close (r_calls r)) s0).

(** The log source runs, so that the sink is open and the main task waits for the
    source at the latest. *)
Definition hosting r : bool :=
  match r_tailer r with TailerRunning _ => true | _ => false end &&
  match r_phase r with Finished _ | Draining _ AwClose => false | _ => true end.

(** An event of another task. *)
Definition other (ev : RunEvent) : bool := match ev with EvLog _ _ | EvTailerEnded => false | _ => true end.

(** The calls an event adds: metrics, an entry of the log source, or the close. *)
Lemma step_calls r ev :
  exists new, r_calls (step r ev) = r_calls r ++ new /\
    ((exists ms, new = map CallMetric ms) \/ new = [CallClose] \/
     exists forget e, ev = EvLog forget e /\ (exists t, r_tailer r = TailerRunning t) /\ new = [CallLog forget e]).
Proof.
  assert (Hnil : exists new, r_calls r = r_calls r ++ new /\
    ((exists ms, new = map CallMetric ms) \/ new = [CallClose] \/
     exists forget e, ev = EvLog forget e /\ (exists t, r_tailer r = TailerRunning t) /\ new = [CallLog forget e])).
  { exists []. split; [by rewrite app_nil_r|left; by exists []]. }
  destruct (r_phase r) as [|sig w|sig] eqn:Ep;
    [..|by destruct (poller_moved_frame _ _ (step_finished ops new_collector p under_scm r ev sig Ep)) as (_ & _ & _ & _ & -> & _)];
    unfold run_step; rewrite Ep;
    (destruct ev as [|ms| |forget e| |ev|f|ev| |]; cbn [live_step];
     [ destruct (r_collector r); [destruct (collect_tick _ _ _) as [? ms]|done]; exists (map CallMetric ms); split; [done|left; by exists ms]
     | destruct (r_collector r); [|done]; exists (map CallMetric ms); split; [done|left; by exists ms]
     | by destruct (r_shutdown r)
     | destruct (r_tailer r) eqn:Et; [done| |done]; exists [CallLog forget e]; split; [done|]; right; right; exists forget, e; split_and!; [done|by eexists|done]
     | by destruct (r_tailer r)
     | by destruct (poller_moved_frame _ _ (poller_step_moved p ev r)) as (_ & _ & _ & _ & -> & _)
     | done
     | rewrite Ep; try done; by destruct (wait_for_signal _ _ _)
     | unfold main_step; rewrite Ep
     | by destruct (poller_moved_frame _ _ (drop_poller_moved r)) as (_ & _ & _ & _ & -> & _) ]).
  - destruct (r_reload r); [|done]. by destruct (wait_for_signal _ _ _).
  - destruct w; [by destruct (collector_done r)| |].
    + destruct (tailer_done r); [|done]. unfold abort_poller. by destruct (r_poller r).
    + exists [CallClose]. split; [done|]. right. by left.
Qed.

Lemma filter_metrics ms : List.filter not_close (map CallMetric ms) = map CallMetric ms.
Proof. induction ms as [|m ms IH]; [done|]. cbn. by rewrite IH. Qed.

(** Metrics travel apart from the log. *)
Lemma queue_of_metrics `{!TellClientOk} ms s : queue_of (fold_left apply_call (map CallMetric ms) s) = queue_of s.
Proof.
  revert s. induction ms as [|m ms IH]; intros s; [done|]. cbn [map fold_left]. rewrite IH.
  cbn. unfold send, emit, queue_of. destruct (inner s) as [t|n out|] eqn:E; [rewrite send_metric_merged; apply tell_metric_queue|done|].
  all: cbn; by rewrite ?E.
Qed.

Lemma sent_step `{!TellClientOk} s0 r ev :
  (forall forget e, ev <> EvLog forget e) \/ tailer_done r = true -> sent s0 (step r ev) = sent s0 r.
Proof.
  intros Hev. destruct (step_calls r ev) as (new & Hc & Hnew). unfold sent. rewrite Hc, List.filter_app, fold_left_app.
  destruct Hnew as [[ms ->]|[->|(forget & e & -> & [t Ht] & ->)]].
  - by rewrite filter_metrics, queue_of_metrics.
  - done.
  - destruct Hev as [Hev|Hev]; [by destruct (Hev forget e)|]. unfold tailer_done in Hev. by rewrite Ht in Hev.
Qed.

Lemma sent_run `{!TellClientOk} s0 r evs : forallb other evs = true -> sent s0 (run r evs) = sent s0 r.
Proof.
  revert r. induction evs as [|ev evs IH]; intros r; [done|]. cbn [forallb]. intros [Hev Hevs]%andb_true_iff.
  change (run r (ev :: evs)) with (run (step r ev) evs). rewrite IH by done. apply sent_step. left. by intros forget e ->.
Qed.

(** * The run as a sink *)

Lemma hosting_step r ev : hosting r = true -> ev <> EvTailerEnded -> hosting (step r ev) = true.
Proof.
  intros Hh Hev. assert (Ht : exists t, r_tailer r = TailerRunning t).
  { unfold hosting in Hh. destruct (r_tailer r) as [|t|]; [done|by exists t|done]. }
  destruct Ht as [t Ht]. destruct (r_phase r) as [|sig w|sig] eqn:Ep;
    [..|unfold hosting in Hh; by rewrite Ht, Ep in Hh]; unfold run_step; rewrite Ep;
    (destruct ev as [|ms| |forget e| |ev|f|ev| |]; cbn [live_step];
     [ destruct (r_collector r); [destruct (collect_tick _ _ _)|]; exact Hh | destruct (r_collector r); exact Hh
     | destruct (r_shutdown r); exact Hh | rewrite Ht; exact Hh | done
     | unfold hosting; destruct (poller_moved_frame _ _ (poller_step_moved p ev r)) as (-> & _ & -> & _); exact Hh | exact Hh
     | rewrite Ep; first [exact Hh | destruct (wait_for_signal _ _ _); [unfold hosting; cbn; by rewrite Ht|exact Hh]]
     | unfold main_step; rewrite Ep
     | unfold hosting; destruct (poller_moved_frame _ _ (drop_poller_moved r)) as (-> & _ & -> & _); exact Hh ]).
  - destruct (r_reload r); [|done]. destruct (wait_for_signal _ _ _); [|done]. unfold hosting. cbn. by rewrite Ht.
  - unfold hosting in Hh. rewrite Ht, Ep in Hh. destruct w; [|unfold tailer_done; rewrite Ht|done].
    + destruct (collector_done r); unfold hosting; cbn; by rewrite ?Ht, ?Ep.
    + unfold hosting. by rewrite Ht, Ep.
Qed.

Lemma hosting_run r evs : hosting r = true -> EvTailerEnded ∉ evs -> hosting (run r evs) = true.
Proof.
  revert r. induction evs as [|ev evs IH]; intros r Hh; [done|]. intros [Hev Hevs]%not_elem_of_cons.
  apply IH; [|done]. by apply hosting_step.
Qed.

Section source.
Context (r0 : Run (C := C)).

(** The events of the run so far, and the turns of the other tasks before each of
    the calls to come. *)
Record Hosted := mkHosted {
  h_evs : list RunEvent;
  h_turns : list (list RunEvent);
  h_ok : hosting (run r0 h_evs) = true;
}.

Definition turn (h : Hosted) : list RunEvent := List.filter other (hd [] (h_turns h)).

Lemma turn_other h : forallb other (turn h) = true.
Proof. apply forallb_forall. by intros ev [_ Hev]%filter_In. Qed.

Lemma run_app r evs evs' : run r (evs ++ evs') = run (run r evs) evs'.
Proof. unfold run_events. apply fold_left_app. Qed.

Lemma turn_ok h : hosting (run r0 (h_evs h ++ turn h)) = true.
Proof.
  rewrite run_app. apply hosting_run; [apply h_ok|]. intros Hin.
  assert (Ho := turn_other h). rewrite forallb_forall in Ho. by specialize (Ho _ (proj1 (list_elem_of_In _ _) Hin)).
Qed.

Lemma call_hosted h forget e : hosting (run r0 ((h_evs h ++ turn h) ++ [EvLog forget e])) = true.
Proof. rewrite run_app. by apply hosting_step; [apply turn_ok|]. Qed.

Definition host_call (forget : bool) (h : Hosted) (e : LogEntry) : Hosted :=
  mkHosted ((h_evs h ++ turn h) ++ [EvLog forget e]) (tl (h_turns h)) (call_hosted h forget e).

#[global] Instance hosted_log_sink : LogSink Hosted := {
  try_log_with_service h e :=
    (host_call false h e, (sink_try_log_with_service (r_sink (run r0 (h_evs h ++ turn h))) e).2);
  sink_log h e := host_call true h e;
  shipped h := sent (r_sink r0) (run r0 (h_evs h));
}.

(** While the source runs, the queue of the client is that of the sink. *)
Lemma hosting_sink `{!TellClientOk} s0 t0 r :
  run_ok s0 r -> inner s0 = Live t0 -> hosting r = true ->
  exists t, inner (r_sink r) = Live t /\ r_sink r = fold_left apply_call (List.filter not_close (r_calls r)) s0 /\
    sent s0 r = tell_queue t.
Proof.
  intros [Hp Hh] Hs0 Hho.
  assert (Hc : CallClose ∉ r_calls r).
  { unfold hosting in Hho. unfold phase_ok in Hp. destruct (r_phase r) as [|sig w|sig]; [done|apply Hp|].
    by rewrite andb_false_r in Hho. }
  assert (Hf : List.filter not_close (r_calls r) = r_calls r).
  { clear -Hc. induction (r_calls r) as [|c cs IH]; [done|]. apply not_elem_of_cons in Hc as [Hne Hc].
    destruct c; cbn; [by rewrite IH..|done]. }
  destruct (calls_on_client (r_calls r) s0 t0 Hs0 Hc) as (t & Hfold & _). exists t. unfold history_ok in Hh.
  unfold sent. rewrite Hf, <- Hh. split_and!; [by rewrite Hh, Hfold|done|]. unfold queue_of. by rewrite Hh, Hfold.
Qed.

Lemma log_step r forget e :
  hosting r = true -> step r (EvLog forget e) = call_sink (send_log forget (r_sink r) e) [CallLog forget e] r.
Proof.
  unfold hosting, run_step. intros [Ht Hp]%andb_true_iff. destruct (r_tailer r) eqn:Et; [done| |done].
  destruct (r_phase r); [by cbn; rewrite Et..|done].
Qed.

(** A call in a run is a call of the sink. *)
Lemma host_call_sent `{!TellClientOk} t0 h forget e :
  run_ok (r_sink r0) r0 -> inner (r_sink r0) = Live t0 ->
  exists t, inner (r_sink (run r0 (h_evs h ++ turn h))) = Live t /\ shipped h = tell_queue t /\
    shipped (host_call forget h e) = queue_of (send_log forget (r_sink (run r0 (h_evs h ++ turn h))) e).
Proof.
  intros Hok Hs0. set (r1 := run r0 (h_evs h ++ turn h)).
  destruct (hosting_sink (r_sink r0) t0 r1) as (t & Ht & Hfold & Hq); [by apply run_ok_run|done|apply turn_ok|].
  exists t. split_and!; [done| |].
  - rewrite <- Hq. cbn. unfold r1. rewrite run_app. symmetry. apply sent_run, turn_other.
  - cbn [shipped hosted_log_sink host_call h_evs]. rewrite run_app. fold r1. cbn [run_events fold_left].
    rewrite log_step by apply turn_ok. unfold sent. cbn [r_calls call_sink]. rewrite List.filter_app, fold_left_app, <- Hfold. done.
Qed.

Lemma hosted_log_sink_ok `{!TellClientOk} t0 :
  run_ok (r_sink r0) r0 -> inner (r_sink r0) = Live t0 -> LogSinkOk Hosted.
Proof.
  intros Hok Hs0. split.
  - intros h e h' [= <- Ha]. destruct (host_call_sent t0 h false e Hok Hs0) as (t & Ht & -> & ->).
    revert Ha. unfold send_log, sink_try_log_with_service. rewrite Ht. destruct (tell_try_log t e) as [t' ok] eqn:E.
    cbn. intros ->. by apply tell_try_true.
  - intros h e h' [= <- Ha]. destruct (host_call_sent t0 h false e Hok Hs0) as (t & Ht & -> & ->).
    revert Ha. unfold send_log, sink_try_log_with_service. rewrite Ht. destruct (tell_try_log t e) as [t' ok] eqn:E.
    cbn. intros ->. by eapply tell_try_false.
  - intros h e. destruct (host_call_sent t0 h true e Hok Hs0) as (t & Ht & Hq & Hc). cbn [sink_log hosted_log_sink].
    rewrite Hq, Hc. unfold send_log, log, queue_of. rewrite Ht. apply tell_log_queue.
Qed.
End source.
End hosted.
