(* ===== verification/HostedProps.v ===== *)
(** The agent as a whole delivers the lines of its files: the tailer, its state
    file, the runs with their other tasks and the reload loop, together. *)
From S2P Require Import Prelude Str StrFacts External Text Structured F64 Sink SinkFacts Tailed TailedFacts Multiline MultilineFacts.
From S2P Require Import Watcher WatcherFacts OffsetFacts SessionFacts MlSessionFacts RestartFacts DrainFacts EpisodeFacts CrashFacts.
From S2P Require Import Journal Unified EventFilter EventXml Config RemoteConfig Agent Lifecycle LifecycleFacts Hosted.
From S2P Require Import Examples RestartProps.
From Stdlib Require Import Strings.Byte.

Section props.
Context `{SimdUtf8, Memchr, MemchrIter, SerdeJson, !SimdUtf8Ok, !MemchrOk}.
Context `{Toml, Regex, Glob, TellClient, !TellLifecycle, !TellSdk, !TellClientOk}.
Context {C : Type} (ops : Collector C) (new_collector : CollectorKind -> C).
Context (p : Platform) (under_scm : bool).
Context (opts : FileParseOpts) (paths : gmap FileId bytes) (patterns : list bytes).
Implicit Types r : Run (C := C).

Notation step := (run_step ops new_collector p under_scm).
Notation run := (run_events ops new_collector p under_scm).
Notation run_start := (run_start new_collector p).
Notation Hosted := (Hosted ops new_collector p under_scm).
Notation world := (FileId -> bytes).

Lemma start_sink h cfg file table r0 :
  run_start h cfg file table = inl r0 -> r_calls r0 = [] /\ exists t, inner (r_sink r0) = Live t.
Proof.
  unfold Lifecycle.run_start. destruct (negb _); [done|]. destruct (sdk_new _) as [t|]; [|done]. unfold sink_live.
  destruct (leak_tags _ _). destruct (log_task _ _ _); [|done]. intros [= <-]. split; [done|by exists t].
Qed.

Lemma tailer_done_step r ev : tailer_done r = true -> tailer_done (step r ev) = true.
Proof.
  intros Hd. destruct (r_phase r) as [|sig w|sig] eqn:Ep;
    [..|unfold tailer_done;
        by destruct (poller_moved_frame _ _ (step_finished ops new_collector p under_scm r ev sig Ep)) as (_ & _ & -> & _)];
    unfold run_step; rewrite Ep;
    (destruct ev as [|ms| |forget e| |ev|f|ev| |]; cbn [live_step];
     [ by destruct (r_collector r); [destruct (collect_tick _ _ _)|] | by destruct (r_collector r)
     | by destruct (r_shutdown r) | by destruct (r_tailer r) eqn:Et | by destruct (r_tailer r) eqn:Et
     | unfold tailer_done; by destruct (poller_moved_frame _ _ (poller_step_moved p ev r)) as (_ & _ & -> & _) | done
     | rewrite Ep; try done; by destruct (wait_for_signal _ _ _)
     | unfold main_step; rewrite Ep
     | unfold tailer_done; by destruct (poller_moved_frame _ _ (drop_poller_moved r)) as (_ & _ & -> & _) ]).
  - destruct (r_reload r); [|done]. by destruct (wait_for_signal _ _ _).
  - destruct w; [by destruct (collector_done r)| |done]. rewrite Hd. unfold abort_poller. by destruct (r_poller r).
Qed.

Lemma sent_done s0 r evs : tailer_done r = true -> sent s0 (run r evs) = sent s0 r.
Proof.
  revert r. induction evs as [|ev evs IH]; intros r Hd; [done|].
  change (run r (ev :: evs)) with (run (step r ev) evs). rewrite IH by (by apply tailer_done_step).
  apply sent_step. all: try apply _. by right.
Qed.

(** * One run *)

(** The events of a run whose log source is a lifetime of the tailer: those up to
    its return, with the turns of the other tasks between its calls, then any
    others. *)
Definition hosted_events r0 (l : Lifetime (S := Hosted r0)) (disk : option bytes) (evs : list RunEvent) : list RunEvent :=
  h_evs _ _ _ _ _ (tl_sink (lifetime opts None patterns l disk)) ++ EvTailerEnded :: evs.

(** What the client of a run was given before its close. *)
Definition given r0 r (tr : trace) : Prop :=
  exists pre, r_calls r = pre ++ [CallClose] /\ CallClose ∉ pre /\
    queue_of (fold_left apply_call pre (r_sink r0)) = queue_of (r_sink r0) ++ tr.*2.

(** The run starts with the tailer as its log source and ends with [sig]. *)
Definition hosts (h : RunEnv) (cfg : AgentConfig) (file : option bytes) (table : gset bytes)
    (w : world) (disk : option bytes) r0 (l : Lifetime (S := Hosted r0)) (evs : list RunEvent) (sig : Signal) (w' : world) : Prop :=
  run_start h cfg file table = inl r0 /\ r_tailer r0 = TailerRunning (TaskFiles patterns opts None) /\
  h_evs _ _ _ _ _ (lf_sink l) = [] /\ orderly_life opts None paths patterns w l disk w' /\
  r_phase (run r0 (hosted_events r0 l disk evs)) = Finished sig.

Context (paths_inj : forall fid fid' p p', paths !! fid = Some p -> paths !! fid' = Some p' ->
  from_utf8_lossy p = from_utf8_lossy p' -> fid = fid').
Context (paths_storable : forall fid p, paths !! fid = Some p ->
  tab ∉ from_utf8_lossy p /\ nl ∉ from_utf8_lossy p /\ dev fid <= u64_max /\ ino fid <= u64_max).

Lemma filter_not_close pre : CallClose ∉ pre -> List.filter not_close (pre ++ [CallClose]) = pre.
Proof.
  intros Hc. rewrite List.filter_app. cbn. rewrite app_nil_r. induction pre as [|c cs IH]; [done|].
  apply not_elem_of_cons in Hc as [Hne Hc]. destruct c; cbn; [by rewrite IH..|done].
Qed.

Lemma hosted_episode h cfg file table w disk r0 l evs sig w' :
  hosts h cfg file table w disk r0 l evs sig w' ->
  exists tr, given r0 (run r0 (hosted_events r0 l disk evs)) tr /\
    episode (line_entries opts) paths true w (mkLife disk tr (reach_of (lifetime opts None patterns l disk)))
      (tl_disk (lifetime opts None patterns l disk)) w'.
Proof.
  intros (Hs & _ & Hl & Hlife & Hfin). destruct (start_sink _ _ _ _ _ Hs) as [Hc0 [t0 Ht0]].
  assert (Hok := start_ok _ _ _ _ _ _ _ Hs).
  assert (Hsink : LogSinkOk (Hosted r0)) by (by eapply hosted_log_sink_ok).
  destruct (lifetime_episode opts None (line_mode opts) paths patterns paths_inj paths_storable w l disk w' Hlife) as (tr & Hsh & He).
  exists tr. split; [|done]. cbn in Hsh. rewrite Hl in Hsh.
  assert (Hq0 : sent (r_sink r0) (run r0 []) = queue_of (r_sink r0)) by (unfold sent; cbn; by rewrite Hc0).
  set (hd := tl_sink (lifetime opts None patterns l disk)) in *.
  assert (Hd : tailer_done (step (run r0 (h_evs _ _ _ _ _ hd)) EvTailerEnded) = true).
  { assert (Hho := h_ok _ _ _ _ _ hd). unfold hosting in Hho. revert Hho. set (r := run r0 _). unfold run_step.
    destruct (r_tailer r) eqn:Et; [done| |done]. destruct (r_phase r); [cbn; by rewrite Et..|done]. }
  assert (Hsent : sent (r_sink r0) (run r0 (hosted_events r0 l disk evs)) = queue_of (r_sink r0) ++ tr.*2).
  { unfold hosted_events. fold hd. rewrite run_app.
    change (run ?r (EvTailerEnded :: evs)) with (run (step r EvTailerEnded) evs). rewrite sent_done by done.
    rewrite sent_step by first [apply _|by left]. by rewrite Hsh, Hq0. }
  assert (Hr := run_ok_run ops new_collector p under_scm _ r0 (hosted_events r0 l disk evs) Hok).
  destruct Hr as [Hp _]. unfold phase_ok in Hp. rewrite Hfin in Hp. destruct Hp as (_ & _ & _ & pre & Hpre & Hnc).
  exists pre. split_and!; [done..|]. unfold sent in Hsent. by rewrite Hpre, filter_not_close in Hsent.
Qed.

(** * The agent *)

(** A run of the agent: its state as it starts, the state file its tailer has
    found, the offsets it has reached, and whether its stop could drain a file. *)
Record Served := mkServed {
  sv_start : Run (C := C); sv_found : option bytes; sv_reach : FileId -> N; sv_can_drain : FileId -> Prop;
}.

Definition served r0 (l : Lifetime (S := Hosted r0)) (disk : option bytes) (w : world) : Served :=
  mkServed r0 disk (reach_of (lifetime opts None patterns l disk)) (can_drain opts None patterns l disk w).

(** The agent serves its files from a start to a shutdown, reloading in between. *)
Inductive serving : AgentConfig -> option bytes -> gset bytes -> world -> option bytes ->
    list (RunEnv * list RunEvent) -> list Served -> world -> Prop :=
| serving_shutdown cfg file table w disk h r0 l evs w' :
    hosts h cfg file table w disk r0 l evs SigShutdown w' ->
    serving cfg file table w disk [(h, hosted_events r0 l disk evs)] [served r0 l disk w'] w'
| serving_reload cfg file table w disk h r0 l evs w1 runs svs w' :
    hosts h cfg file table w disk r0 l evs SigReload w1 ->
    let r := run r0 (hosted_events r0 l disk evs) in
    serving (reload p cfg (r_file r)) (r_file r) (r_table r) w1 (tl_disk (lifetime opts None patterns l disk)) runs svs w' ->
    serving cfg file table w disk ((h, hosted_events r0 l disk evs) :: runs) (served r0 l disk w1 :: svs) w'.

Lemma serving_episodes cfg file table w disk runs svs w' :
  serving cfg file table w disk runs svs w' ->
  exists cfgs rs lvs, reload_loop ops new_collector p under_scm cfg file table runs = (cfgs, rs, Stopped) /\
    length rs = length runs /\ length lvs = length runs /\
    (fun lv => (lv_found lv, lv_reach lv)) <$> lvs = (fun sv => (sv_found sv, sv_reach sv)) <$> svs /\
    Forall2 (fun x tr => given x.1 x.2 tr) (zip (sv_start <$> svs) rs) (lv_trace <$> lvs) /\
    episodes (line_entries opts) paths true w disk lvs w'.
Proof.
  induction 1 as [cfg file table w disk h r0 l evs w' Hh
    |cfg file table w disk h r0 l evs w1 runs svs w' Hh r Hsv (cfgs & rs & lvs & Hl & Hn & Hm & Hfr & Hg & He)];
    destruct (hosted_episode _ _ _ _ _ _ _ _ _ _ _ Hh) as (tr & Hgr & Her); destruct Hh as (Hs & _ & _ & _ & Hfin);
    cbn [reload_loop]; rewrite Hs, Hfin; set (lv := mkLife _ _ _) in *.
  - exists [cfg], [run r0 (hosted_events r0 l disk evs)], [lv]. split_and!; [done..| |].
    + by repeat constructor.
    + change disk with (lv_found lv) at 1. econstructor; [done|constructor].
  - fold r. rewrite Hl. exists (cfg :: cfgs), (r :: rs), (lv :: lvs). split_and!; [done|cbn; lia|cbn; lia| | |].
    + cbn [fmap list_fmap] in *. by rewrite Hfr.
    + by constructor.
    + change disk with (lv_found lv) at 1. by econstructor.
Qed.

(** When the last stop could drain the file, its offset is at the end. *)
Lemma serving_drained cfg file table w disk runs svs w' sv fid q :
  serving cfg file table w disk runs svs w' -> paths !! fid = Some q -> last svs = Some sv ->
  sv_can_drain sv fid -> sv_reach sv fid = len (w' fid).
Proof.
  intros Hsv Hp. induction Hsv as [cfg file table w disk h r0 l evs w' Hh
    |cfg file table w disk h r0 l evs w1 runs svs w' Hh r Hsv IH].
  - cbn. intros [= <-] Hc. destruct Hh as (Hs & _ & _ & Hlife & _). destruct (start_sink _ _ _ _ _ Hs) as [_ [t0 Ht0]].
    assert (Hok := start_ok _ _ _ _ _ _ _ Hs). assert (Hsink : LogSinkOk (Hosted r0)) by (by eapply hosted_log_sink_ok).
    by apply (lifetime_drains _ _ _ (line_drain opts) paths patterns paths_inj paths_storable w l disk w').
  - destruct svs as [|sv' svs]; [by inversion Hsv|]. exact IH.
Qed.

(** C1: "Restarts with new config, zero data loss": the agent tails its files, which
    have distinct, storable paths, line by line from a start to a shutdown with any
    number of reloads in between. The files are only appended to; every poll finds
    them as they are then, with a last line that is valid UTF-8 of at most one
    megabyte, and every stop saves the state file completely. In each run the
    collectors, the poller, signals and the main task are interleaved with the
    calls of the tailer in any way, and the channel refuses whenever it is full.
    Then every run closes its client last; every entry the clients were given
    before that is of a tracked file; and those of a file that has a first
    checkpoint are its content from there on, cut where the offsets of the runs
    stood: of each part the complete lines, once and in order, then at most one
    entry for the unterminated line it ends in. When the reloads fall between lines
    these are exactly the lines of the content, and when the shutdown finds room in
    the channel for what is left, fewer lines than a poll may read, nothing of the
    content is left out. *)
Theorem agent_delivers file runs svs cfg w disk w' :
  load_config p file = Some cfg -> serving cfg file ∅ w disk runs svs w' ->
  exists cfgs rs traces, agent_loop ops new_collector p under_scm file runs = (cfgs, rs, Stopped) /\
    length rs = length runs /\ length traces = length runs /\ Forall (of_tracked paths) traces /\
    Forall2 (fun x tr => given x.1 x.2 tr) (zip (sv_start <$> svs) rs) traces /\
    forall fid q s, paths !! fid = Some q -> checkpoint_of (load_offsets disk) q fid = Some s -> s_pos s <= len (w fid) ->
      let segs := (fun sv => (span_of fid q (w' fid) (sv_found sv) (sv_reach sv fid)).2) <$> svs in
      (exists rest, drop (N.to_nat (s_pos s)) (w' fid) = concat segs ++ rest) /\
      Forall2 (ships (line_entries opts) fid) traces segs /\
      (Forall (fun seg => pending seg = []) segs ->
       concat (map (of_file fid) traces) = ideal_entries opts (concat segs)) /\
      (forall sv, last svs = Some sv -> sv_can_drain sv fid -> concat segs = drop (N.to_nat (s_pos s)) (w' fid)).
Proof.
  intros Hl Hsv. destruct (serving_episodes _ _ _ _ _ _ _ _ Hsv) as (cfgs & rs & lvs & Hlo & Hn & Hm & Hfr & Hg & He).
  exists cfgs, rs, (lv_trace <$> lvs).
  split_and!; [unfold agent_loop; by rewrite Hl|done|by rewrite length_fmap|by eapply episodes_tracked|done|]. intros fid q s Hp Hck Hpos segs.
  destruct (episodes_chained _ _ _ _ _ _ _ _ _ _ He Hp Hck Hpos) as [Hch Hre].
  assert (Hsegs : (life_span fid q (w' fid) <$> lvs).*2 = segs).
  { assert (Hx := f_equal (fmap (fun x : option bytes * (FileId -> N) => (span_of fid q (w' fid) x.1 (x.2 fid)).2)) Hfr).
    rewrite <- !list_fmap_compose in Hx. by rewrite <- list_fmap_compose. }
  destruct (chained_segments _ _ _ _ _ _ Hch) as [Hd Hsh]. rewrite Hsegs in Hd, Hsh.
  split_and!; [done..|by apply ships_whole_lines|]. intros sv Hlast Hc.
  assert (Hend := serving_drained _ _ _ _ _ _ _ _ _ _ _ Hsv Hp Hlast Hc).
  assert (Hlv := f_equal last Hfr). rewrite !fmap_last, Hlast in Hlv. destruct (last lvs) as [lv|] eqn:El; [|done].
  injection Hlv as _ Hr. rewrite <- Hsegs. apply (chained_whole _ _ _ _ _ _ (life_span fid q (w' fid) lv) Hch).
  - destruct (episodes_grows _ _ _ _ _ _ _ He fid) as [d ->]. rewrite len_app. lia.
  - by rewrite fmap_last, El.
  - rewrite <- Hend, <- Hr. eapply (proj1 (Forall_forall _ _) Hre). by apply last_Some_elem_of.
Qed.
End props.

(** * On a concrete host *)

Section witnesses.
Import Examples RefTell.

(** One document: the agent tails one file. *)
Definition tail_doc : list (bytes * Value) :=
  [(b#"api_key", VString b#"0123456789abcdef0123456789abcdef");
   (b#"log_source", VString b#"files"); (b#"logs", VArray [VString log_path])].
#[local] Instance tail_toml : Toml := fun s => if bool_decide (s = b#"tail") then Some tail_doc else None.
#[local] Instance tail_sdk : TellSdk := {| sdk_build _ := true; sdk_new _ := Some (mkChan 100 [] []) |}.

(** Every collector sends one gauge per tick. *)
Definition tail_ops : Collector unit :=
  mkCollector unit (fun _ => (tt, [mkMetric KGauge b#"x" (f64_of_N 1) [] Delta])) (fun _ => []).
Definition tail_new (k : CollectorKind) : unit := tt.
Definition tail_host : RunEnv := mkRunEnv (mkAvailable false false) (fun _ => b#"h") b#"/var/lib/witness".
Definition tail_opts : FileParseOpts :=
  match load_config Linux (Some b#"tail") with Some cfg => file_parse_opts cfg | None => plain_opts end.

Notation tail_run := (run_events tail_ops tail_new Linux false).
Notation tail_start cfg table := (run_start tail_new Linux tail_host cfg (Some b#"tail") table).

(** A collection tick comes before the first call of the tailer, the signal
    before the second. *)
Definition turns (sig : SignalEvent) : list (list RunEvent) := [[EvTick]; [EvSignal sig; EvTick; EvMain]].
Definition wind_down : list RunEvent := [EvCollectorCancelled; EvMain; EvMain; EvMain].

Definition tail_cfg : AgentConfig := Eval vm_compute in
  match load_config Linux (Some b#"tail") with
  | Some cfg => cfg
  | None => mkAgentConfig [] [] None 0 [] 0 [] Auto None [] None None [] [] [] false false false None 0 0 [] 0 None
      (system_config_default Linux)
  end.

(** The state of a run as it starts. *)
Definition tail_r0 : Run (C := unit) := Eval vm_compute in
  match tail_start tail_cfg ∅ with
  | inl r => r
  | inr _ => mkRun tail_cfg Waiting false false PollerNone CollectorEnded TailerNone (mkSink Discard []) [] None ∅
  end.

Notation TailHosted := (Hosted tail_ops tail_new Linux false tail_r0).

Definition host0 (sig : SignalEvent) : TailHosted := mkHosted _ _ _ _ tail_r0 [] (turns sig) eq_refl.

(** Two runs with a reload between them; the shutdown drains the file, so the two
    clients together were given all of it. *)
Lemma agent_delivers_witness :
  exists cfgs rs traces runs segs, agent_loop tail_ops tail_new Linux false (Some b#"tail") runs = (cfgs, rs, Stopped) /\
    length runs = 2%nat /\ Forall (of_tracked one_path) traces /\
    Forall2 (ships (line_entries tail_opts) log_id) traces segs /\ concat segs = drop 4 life_log2.
Proof.
  set (l1 := life_on (host0 SigHup) life_log1). set (l2 := life_on (host0 SigTerm) life_log2).
  set (disk1 := tl_disk (lifetime tail_opts None [log_path] l1 life_disk0)).
  assert (Hh1 : hosts tail_ops tail_new Linux false tail_opts one_path [log_path] tail_host tail_cfg (Some b#"tail") ∅
    (fun _ => life_log1) life_disk0 tail_r0 l1 wind_down SigReload (fun _ => life_log1)).
  { split_and!; [by vm_compute..| |by vm_compute]. apply life_on_orderly; by vm_compute. }
  assert (Hh2 : hosts tail_ops tail_new Linux false tail_opts one_path [log_path] tail_host tail_cfg (Some b#"tail") ∅
    (fun _ => life_log1) disk1 tail_r0 l2 wind_down SigShutdown (fun _ => life_log2)).
  { split_and!; [by vm_compute..| |by vm_compute].
    destruct (life_on_orderly tail_opts None (host0 SigTerm) life_log2 disk1) as (w1 & w2 & Hg & Hrest); [by vm_compute..|].
    exists w1, w2. split; [|exact Hrest]. etrans; [|exact Hg]. intros fid. by exists (b#"ree" ++ [nl] ++ b#"four" ++ [nl]). }
  assert (Hsv : serving tail_ops tail_new Linux false tail_opts one_path [log_path] tail_cfg (Some b#"tail") ∅
    (fun _ => life_log1) life_disk0
    [(tail_host, hosted_events tail_ops tail_new Linux false tail_opts [log_path] tail_r0 l1 life_disk0 wind_down);
     (tail_host, hosted_events tail_ops tail_new Linux false tail_opts [log_path] tail_r0 l2 disk1 wind_down)]
    [served tail_ops tail_new Linux false tail_opts [log_path] tail_r0 l1 life_disk0 (fun _ => life_log1);
     served tail_ops tail_new Linux false tail_opts [log_path] tail_r0 l2 disk1 (fun _ => life_log2)] (fun _ => life_log2)).
  { eapply serving_reload; [exact Hh1|]. cbv zeta.
    set (r := run_events _ _ _ _ _ _). assert (Hr : r_file r = Some b#"tail" /\ r_table r = ∅) by (by vm_compute).
    destruct Hr as [-> ->]. replace (reload Linux tail_cfg (Some b#"tail")) with tail_cfg by (by vm_compute).
    by apply serving_shutdown. }
  destruct (agent_delivers tail_ops tail_new Linux false tail_opts one_path [log_path]
    ltac:(by intros fid fid' p p' [-> _]%one_path_lookup [-> _]%one_path_lookup)
    ltac:(intros fid p [-> ->]%one_path_lookup; split_and!;
          [by apply (bool_decide_unpack _); vm_compute..|vm_compute; discriminate|vm_compute; discriminate])
    (Some b#"tail") _ _ tail_cfg (fun _ => life_log1) life_disk0 (fun _ => life_log2) ltac:(by vm_compute) Hsv)
    as (cfgs & rs & traces & Hloop & _ & _ & Hof & _ & Hall).
  destruct (Hall log_id log_path (mkSavedOffset 4 8 42)) as (_ & Hs & _ & Hend); [by vm_compute..|].
  eexists cfgs, rs, traces, _, _. split_and!; [exact Hloop|done|exact Hof|exact Hs|].
  eapply Hend; [reflexivity|]. split_and!; [|apply NoDup_singleton|apply NoDup_singleton|by left|by left|by vm_compute].
  eapply (has_room_le 1); [|by vm_compute].
  intros cs e Hl. destruct cs as [|c cs]; [by vm_compute|]. rewrite len_cons in Hl. lia.
Defined.
End witnesses.
