(* ===== verification/RunProps.v ===== *)
(** The guarantees of the parts of the process: which log source is chosen, when
    checkpoints of counters are sent, and what a dry run says and does. *)
From S2P Require Import Prelude Str StrFacts External Text Structured F64 Sink SinkFacts Tailed Multiline Watcher Source.
From S2P Require Import Journal JournalFacts EventFilter EventXml Config RemoteConfig Agent Examples.
From Stdlib Require Import Strings.Byte.

(** * The log source *)

(** The source can be read on this host. *)
Definition readable (p : Platform) (a : Available) (r : ResolvedLog) : Prop :=
  match r with
  | RJournald => has_journalctl a = true
  | RUnified => has_log_bin a = true
  | REventLog => p = Windows
  | RFiles => True
  end.

(** The log source chosen can be read on the host; only an explicitly named
    source is refused, and exactly when it is not there: [auto] and [files]
    always start. *)
Theorem log_source_readable p a s :
  match resolve_log_source p a s with
  | inl r => readable p a r
  | inr NoJournalctl => s = Config.Journald /\ has_journalctl a = false
  | inr NoUnifiedLog => s = UnifiedLog /\ has_log_bin a = false
  | inr NotWindows => s = EventLog /\ p <> Windows
  end.
Proof. destruct a as [[] []], s, p; by vm_compute. Qed.

(** * Checkpoints *)

Lemma is_checkpoint_spec k n : 0 < k -> is_checkpoint k n = true <-> 0 < n /\ (k | n).
Proof.
  intros Hk. unfold is_checkpoint, is_multiple_of. destruct (N.eqb_spec k 0); [lia|].
  rewrite andb_true_iff, N.ltb_lt, N.eqb_eq. by rewrite N.Lcm0.mod_divide.
Qed.

(** Counters are checkpointed once an hour: with a collection interval of [s]
    seconds up to one hour, a tick is a checkpoint when its number is a positive
    multiple of the ticks of an hour, and a period is an hour less at most one
    interval. With a longer interval no tick is ever a checkpoint. *)
Theorem checkpoint_hourly s :
  1 <= s <= u32_max ->
  exists k, checkpoint_ticks (secs s) = Some k /\
    (s <= 3600 -> 3600 - s < k * s <= 3600 /\
       forall n, is_checkpoint k n = true <-> 0 < n /\ (k | n)) /\
    (3600 < s -> forall n, is_checkpoint k n = false).
Proof.
  intros Hs. unfold checkpoint_ticks, secs, u32_max in *.
  rewrite N.div_mul by done. rewrite N.max_l by lia. unfold wrap32. rewrite N.mod_small by lia.
  destruct (N.eqb_spec s 0) as [?|_]; [lia|]. exists (3600 / s). split_and!; [done| |].
  - intros Hle. assert (E := N.div_mod 3600 s ltac:(lia)). assert (M := N.mod_lt 3600 s ltac:(lia)).
    assert (H1 : 1 <= 3600 / s) by (apply N.div_le_lower_bound; lia).
    split; [clear H1; revert E M; generalize (3600 / s), (3600 mod s); lia|]. intros n. apply is_checkpoint_spec. lia.
  - intros Hgt n. rewrite N.div_small by lia. unfold is_checkpoint, is_multiple_of. cbn.
    destruct (N.ltb_spec 0 n), (N.eqb_spec n 0); try done; lia.
Qed.

(** * The dry run *)

(** What a dry run says of a file is what the agent does with it: a file
    without a saved offset is reported as skipped exactly when registration
    leaves it out for its age. *)
Theorem dry_run_file_status os tl path m :
  os_metadata os path = Some m -> files tl !! file_id_of path m = None ->
  (exists days, file_status os path = FsSkipped days) <-> register_file os tl path ∅ None = tl.
Proof.
  intros Hm Hnew. unfold file_status, register_file. rewrite Hm, Hnew.
  unfold checkpoint_of. rewrite lookup_empty. cbn [andb].
  assert (Hold : too_old os m = true <-> exists days,
    match md_modified m with
    | Some t => if t <=? os_now os then
        let age := (os_now os - t) / 1000000000 in if 86400 <? age then FsSkipped (age / 86400) else FsTailing
      else FsTailing
    | None => FsTailing
    end = FsSkipped days).
  { unfold too_old, IGNORE_OLDER_SECS. destruct (md_modified m) as [t|]; [|split; [done|by intros []]].
    destruct (t <=? os_now os); cbn [andb]; [|split; [done|by intros []]]. cbv zeta.
    destruct (86400 <? _); split; try done; [by eexists|by intros []]. }
  rewrite <- Hold. destruct (too_old os m); [done|]. split; [done|].
  intros Heq. exfalso. apply (f_equal (fun tl => files tl !! file_id_of path m)) in Heq. cbn in Heq.
  rewrite Hnew, lookup_insert_eq in Heq. done.
Qed.

(** A sink in dry-run mode, as the log sources see it: every entry goes to the
    terminal, none to the collector. *)
Section dry.
Context `{TellClient}.

Record DrySink := mkDrySink { dry_count : N; dry_out : list Printed; dry_tags : list label }.

Definition as_sink (d : DrySink) : Sink := mkSink (DryRun (dry_count d) (dry_out d)) (dry_tags d).

Definition of_sink (d : DrySink) (s : Sink) : DrySink :=
  match inner s with DryRun c out => mkDrySink c out (tags s) | _ => d end.

#[global] Instance dry_log_sink : LogSink DrySink := {
  try_log_with_service d e := let '(s, ok) := sink_try_log_with_service (as_sink d) e in (of_sink d s, ok);
  sink_log d e := of_sink d (log_with_service (as_sink d) e);
  shipped d := [];
}.

Context `{SimdUtf8, Memchr, MemchrIter, SerdeJson, SerdeDerive, Lowercase, HashOrder Value}.

Lemma dry_handle_entry waits io st line filter (sink : DrySink) d :
  exists st' d' sink', handle_entry waits io st line filter sink d = (true, st', d', sink') /\
    last_cursor st' = next_cursor (last_cursor st) line.
Proof.
  assert (Hp : exists s, Journal.process_entry line filter sink = (Journal.ParseFailed, s) /\ line_cursor line = None \/
    Journal.process_entry line filter sink = (Journal.Handled (line_cursor line), s)).
  { unfold Journal.process_entry, line_cursor. destruct (from_str (trim line)) as [e|]; [|exists sink; by left].
    destruct (j_message e) as [m|]; [|exists sink; by right]. destruct (is_empty m); [exists sink; by right|]. cbv zeta.
    case_bool_decide; [exists sink; by right|]. destruct (excludes _ _); [exists sink; by right|].
    destruct (split_message m). eexists. by right. }
  destruct Hp as (s & [[Hp Hc]|Hp]); destruct waits; cbn [handle_entry]; rewrite Hp; unfold next_cursor; try rewrite Hc;
    try case_if; eexists _, _, _; by split.
Qed.

(** A dry run moves the agent's checkpoint. The lines it reads are printed, not
    sent, but their cursor is saved when it ends: the next real run asks for the
    journal after them, so they are never shipped. *)
Theorem dry_run_moves_cursor filter final d (sink : DrySink) (ls : list (bytes * CheckpointIo)) c :
  all_ok final = true -> Forall (fun l => len l.1 <= Journal.MAX_LINE_LEN) ls ->
  after (load_cursor d) (map fst ls) = Some c ->
  let '(exit, d', sink') := run_journalctl true (map (fun l => JLine l.1 [] l.2) ls ++ [JCancel]) filter final d sink in
  exit = Some Journal.Cancelled /\ ck_file d' = Some c.
Proof.
  intros Hfin Hlen Hc. unfold run_journalctl. cbn [negb].
  assert (Hgo : forall st d (sink : DrySink), after (last_cursor st) (map fst ls) = Some c ->
    let '(exit, st', d', sink') := journal_loop (map (fun l => JLine l.1 [] l.2) ls ++ [JCancel]) filter final st d sink in
    exit = Some Journal.Cancelled /\ ck_file d' = Some c).
  { clear Hc. induction Hlen as [|l ls Hl Hlen IH]; intros st d0 s0 Hc; cbn [map app journal_loop].
    - cbn in Hc. rewrite Hc. cbn. by rewrite write_checkpoint_atomic, Hfin.
    - rewrite (proj2 (N.ltb_ge _ _) Hl).
      destruct (dry_handle_entry [] l.2 st l.1 filter s0 d0) as (st' & d' & s' & -> & Hst).
      apply IH. rewrite Hst. exact Hc. }
  specialize (Hgo (reader_state_new (load_cursor d)) d sink Hc).
  destruct (journal_loop _ _ _ _ _ _) as [[[ex st'] d'] s']. exact Hgo.
Qed.
End dry.

(** * On concrete inputs *)

Section witnesses.
Import Examples.

Lemma checkpoint_hourly_witness :
  exists k, checkpoint_ticks (secs 15) = Some k /\
    (15 <= 3600 -> 3600 - 15 < k * 15 <= 3600 /\
       forall n, is_checkpoint k n = true <-> 0 < n /\ (k | n)) /\
    (3600 < 15 -> forall n, is_checkpoint k n = false).
Proof. refine (checkpoint_hourly 15 _). by vm_compute. Defined.

Definition old_md : Metadata := mkMetadata log_id 5 (Some 0).
Definition old_os : Os :=
  mkOs (fun _ => Some old_md) (fun _ => None) (fun _ => None) (fun _ _ => None) (fun _ => [])
    (fun _ => None) (fun _ => Some []) (fun _ => false) (secs 200000).

Lemma dry_run_file_status_witness :
  (exists days, file_status old_os log_path = FsSkipped days) <->
  register_file old_os (mkTail ∅ ∅) log_path ∅ None = mkTail ∅ ∅.
Proof.
  refine (dry_run_file_status old_os (mkTail ∅ ∅) log_path old_md _ _); [reflexivity|apply lookup_empty].
Defined.

#[local] Instance one_entry : SerdeDerive := fun s =>
  if bool_decide (s = b#"a") then Some [(b#"MESSAGE", VString b#"one"); (b#"__CURSOR", VString b#"x")] else None.

Lemma dry_run_moves_cursor_witness :
  let '(exit, d', sink') :=
    run_journalctl true [JLine b#"a" [] io_ok; JCancel] (mkServiceFilter [] []) io_ok
      (mkStateDir None None) (mkDrySink 0 [] []) in
  exit = Some Journal.Cancelled /\ ck_file d' = Some b#"x".
Proof.
  refine (dry_run_moves_cursor (mkServiceFilter [] []) io_ok (mkStateDir None None) (mkDrySink 0 [] [])
    [(b#"a", io_ok)] b#"x" _ _ _).
  - reflexivity.
  - repeat constructor. by vm_compute.
  - vm_compute. reflexivity.
Defined.
End witnesses.
