(* ===== verification/Host.v ===== *)
(** The host that [witness setup] and [witness install] change: files and their
    permissions, behind the answers of the system.

    The operations of [std::fs] and [std::process] the two use, as a small
    state-and-error monad: a call can fail at any time, and what it leaves
    behind when it does is part of its answer. *)
From S2P Require Import Prelude Str.
From Stdlib Require Import Strings.Byte.

(** Why a command of the agent fails. [Message] is a text of its own,
    [CommandFailed] names a subprocess or service-manager verb. *)
Inductive Error :=
| Io
| NotRoot
| NotElevated
| CommandFailed (cmd stderr : bytes)
| Message (text : bytes).

#[global] Instance Error_eq_dec : EqDecision Error.
Proof. solve_decision. Defined.

Inductive FsOp :=
| CreateDirAll (p : bytes)
| WriteFile (p : bytes)
| SetPermissions (p : bytes) (mode : N)
| CopyFile (from to : bytes)
| RemoveFile (p : bytes)
| RemoveDirAll (p : bytes)
| Chown (p : bytes).

(** How a call went: done; refused without an effect; given up after the first
    [n] bytes were written (or the first [n] files removed). *)
Inductive FsAnswer := FsDone | FsRefused | FsPartial (n : nat).

(** [std::process::Output]. *)
Record Output := mkOutput { success : bool; stdout : bytes; stderr : bytes }.

(** The system: what it answers may depend on everything that was asked before.
    A command can change the system and any of the files. *)
Class System := {
  sys : Type;
  fs_call : FsOp -> sys -> FsAnswer * sys;
  command : list bytes -> bytes -> sys -> option Output * sys;  (* argv, stdin; [None]: not started *)
  command_files : list bytes -> bytes -> sys -> gmap bytes bytes -> gmap bytes bytes;  (* what it leaves of the files *)
  canonicalize : bytes -> sys -> option bytes;
  current_exe : sys -> option bytes;                             (* canonical *)
  privileged : sys -> bool;                                      (* root, or an elevated token *)
}.

Section host.
Context `{System}.

Record Host := mkHost {
  files : gmap bytes bytes;
  modes : gmap bytes N;
  world : sys;
}.

Definition Eff (A : Type) : Type := Host -> (A + Error) * Host.

#[global] Instance eff_ret : MRet Eff := fun A a h => (inl a, h).
#[global] Instance eff_bind : MBind Eff := fun A B k m h =>
  match m h with
  | (inl a, h') => k a h'
  | (inr e, h') => (inr e, h')
  end.

Definition fail {A} (e : Error) : Eff A := fun h => (inr e, h).

(** [let _ = m]: the error is dropped. *)
Definition ignore {A} (m : Eff A) : Eff unit := fun h => (inl tt, (m h).2).

(** [m.map_err(f)]. *)
Definition map_err {A} (f : Error -> Error) (m : Eff A) : Eff A := fun h =>
  match m h with (inr e, h') => (inr (f e), h') | r => r end.

(** [match m { Ok(..) => .., Err(..) => .. }]. *)
Definition catch {A} (m : Eff A) : Eff (A + Error) := fun h => let '(r, h') := m h in (inl r, h').

Definition require (b : bool) (e : Error) : Eff unit := if b then mret () else fail e.

Definition is_privileged : Eff bool := fun h => (inl (privileged (world h)), h).

(** * Files *)

(** [Path::exists], of a file. *)
Definition exists_file (p : bytes) : Eff bool := fun h => (inl (bool_decide (is_Some (files h !! p))), h).

Definition create_dir_all (p : bytes) : Eff unit := fun h =>
  let '(a, w) := fs_call (CreateDirAll p) (world h) in
  (match a with FsDone => inl () | _ => inr Io end, mkHost (files h) (modes h) w).

(** [std::fs::write] truncates the file before it writes. *)
Definition write_file (p data : bytes) : Eff unit := fun h =>
  let '(a, w) := fs_call (WriteFile p) (world h) in
  match a with
  | FsDone => (inl (), mkHost (<[p := data]> (files h)) (modes h) w)
  | FsRefused => (inr Io, mkHost (files h) (modes h) w)
  | FsPartial n => (inr Io, mkHost (<[p := take n data]> (files h)) (modes h) w)
  end.

Definition set_permissions (p : bytes) (mode : N) : Eff unit := fun h =>
  let '(a, w) := fs_call (SetPermissions p mode) (world h) in
  match a with
  | FsDone => (inl (), mkHost (files h) (<[p := mode]> (modes h)) w)
  | _ => (inr Io, mkHost (files h) (modes h) w)
  end.

(** [libc::chown], whose result nobody looks at. *)
Definition chown (p : bytes) : Eff unit := fun h =>
  let '(_, w) := fs_call (Chown p) (world h) in (inl (), mkHost (files h) (modes h) w).

(** [std::fs::copy] of a file whose contents are [data]. *)
Definition copy_file (from to data : bytes) : Eff unit := fun h =>
  let '(a, w) := fs_call (CopyFile from to) (world h) in
  match a with
  | FsDone => (inl (), mkHost (<[to := data]> (files h)) (modes h) w)
  | FsRefused => (inr Io, mkHost (files h) (modes h) w)
  | FsPartial n => (inr Io, mkHost (<[to := take n data]> (files h)) (modes h) w)
  end.

(** [Ok(false)] is the error [NotFound]. *)
Definition remove_file (p : bytes) : Eff bool := fun h =>
  match files h !! p with
  | None => (inl false, h)
  | Some _ =>
    let '(a, w) := fs_call (RemoveFile p) (world h) in
    match a with
    | FsDone => (inl true, mkHost (delete p (files h)) (modes h) w)
    | _ => (inr Io, mkHost (files h) (modes h) w)
    end
  end.

Definition below (dir p : bytes) : bool := starts_with (dir ++ [x2f]) p || starts_with (dir ++ [x5c]) p.

Definition delete_all (ps : list bytes) (m : gmap bytes bytes) : gmap bytes bytes := foldr delete m ps.

Definition remove_dir_all (dir : bytes) : Eff unit := fun h =>
  let inside := List.filter (below dir) (map fst (map_to_list (files h))) in
  let '(a, w) := fs_call (RemoveDirAll dir) (world h) in
  match a with
  | FsDone => (inl (), mkHost (delete_all inside (files h)) (modes h) w)
  | FsRefused => (inr Io, mkHost (files h) (modes h) w)
  | FsPartial n => (inr Io, mkHost (delete_all (take n inside) (files h)) (modes h) w)
  end.

(** * Commands *)

(** [Command::new(cmd).args(args).output()]. *)
Definition output (argv : list bytes) (stdin : bytes) : Eff Output := fun h =>
  let '(o, w) := command argv stdin (world h) in
  (match o with Some o => inl o | None => inr Io end,
   mkHost (command_files argv stdin (world h) (files h)) (modes h) w).

(** The command leaves the contents of [p] alone. *)
Definition spares (argv : list bytes) (p : bytes) : Prop :=
  forall stdin w m, command_files argv stdin w m !! p = m !! p.

(** * What an operation leaves alone *)

(** Whatever the system answers, [m] leaves a host that [R] relates to the one
    it found. *)
Definition keeps (R : Host -> Host -> Prop) {A} (m : Eff A) : Prop := forall h, R h (m h).2.

Section keeps.
Context (R : Host -> Host -> Prop) `{!PreOrder R}.

Lemma keeps_ret {A} (a : A) : keeps R (mret a).
Proof. intros h. reflexivity. Qed.

Lemma keeps_fail {A} e : keeps R (fail (A := A) e).
Proof. intros h. reflexivity. Qed.

Lemma keeps_bind {A B} (m : Eff A) (k : A -> Eff B) :
  keeps R m -> (forall a, keeps R (k a)) -> keeps R (m ≫= k).
Proof.
  intros Hm Hk h. unfold mbind, eff_bind. specialize (Hm h). destruct (m h) as [[a|e] h']; cbn in *; [|done].
  etransitivity; [exact Hm|]. apply Hk.
Qed.

Lemma keeps_ignore {A} (m : Eff A) : keeps R m -> keeps R (ignore m).
Proof. intros Hm h. apply Hm. Qed.

Lemma keeps_map_err {A} f (m : Eff A) : keeps R m -> keeps R (map_err f m).
Proof. intros Hm h. unfold map_err. specialize (Hm h). by destruct (m h) as [[a|e] h']. Qed.

Lemma keeps_catch {A} (m : Eff A) : keeps R m -> keeps R (catch m).
Proof. intros Hm h. unfold catch. specialize (Hm h). by destruct (m h) as [r h']. Qed.

Lemma keeps_if {A} (b : bool) (m n : Eff A) : keeps R m -> keeps R n -> keeps R (if b then m else n).
Proof. by destruct b. Qed.

Lemma keeps_require b e : keeps R (require b e).
Proof. unfold require. apply keeps_if; [apply keeps_ret | apply keeps_fail]. Qed.

Lemma keeps_option {A B} (o : option B) (f : B -> Eff A) (m : Eff A) :
  (forall b, keeps R (f b)) -> keeps R m -> keeps R (match o with Some b => f b | None => m end).
Proof. by destruct o. Qed.
End keeps.

(** The contents of [p] stay what they are. *)
Definition same_file (p : bytes) (h h' : Host) : Prop := files h' !! p = files h !! p.

#[global] Instance same_file_preorder p : PreOrder (same_file p).
Proof. split; [done|]. intros x y z Hxy Hyz. unfold same_file in *. congruence. Qed.

Section same.
Context (p : bytes).

Lemma exists_file_same q : keeps (same_file p) (exists_file q).
Proof. done. Qed.

Lemma is_privileged_same : keeps (same_file p) is_privileged.
Proof. done. Qed.

Lemma create_dir_all_same q : keeps (same_file p) (create_dir_all q).
Proof. intros h. unfold create_dir_all. by destruct (fs_call _ _). Qed.

Lemma set_permissions_same q m : keeps (same_file p) (set_permissions q m).
Proof. intros h. unfold set_permissions. by destruct (fs_call _ _) as [[] ?]. Qed.

Lemma chown_same q : keeps (same_file p) (chown q).
Proof. intros h. unfold chown. by destruct (fs_call _ _). Qed.

Lemma output_same argv stdin : spares argv p -> keeps (same_file p) (output argv stdin).
Proof. intros Hs h. unfold output, same_file. destruct (command _ _ _). apply Hs. Qed.

Lemma write_file_same q data : q <> p -> keeps (same_file p) (write_file q data).
Proof.
  intros Hq h. unfold write_file, same_file. destruct (fs_call _ _) as [[] ?]; cbn; rewrite ?lookup_insert_ne; done.
Qed.

Lemma copy_file_same from q data : q <> p -> keeps (same_file p) (copy_file from q data).
Proof.
  intros Hq h. unfold copy_file, same_file. destruct (fs_call _ _) as [[] ?]; cbn; rewrite ?lookup_insert_ne; done.
Qed.

Lemma remove_file_same q : q <> p -> keeps (same_file p) (remove_file q).
Proof.
  intros Hq h. unfold remove_file, same_file. destruct (files h !! q); [|done].
  destruct (fs_call _ _) as [[] ?]; cbn; rewrite ?lookup_delete_ne; done.
Qed.

Lemma delete_all_same ps m : Forall (fun q => q <> p) ps -> delete_all ps m !! p = m !! p.
Proof. induction 1; cbn; [done|]. by rewrite lookup_delete_ne. Qed.

Lemma remove_dir_all_same dir : below dir p = false -> keeps (same_file p) (remove_dir_all dir).
Proof.
  intros Hd h. unfold remove_dir_all, same_file.
  set (inside := List.filter _ _).
  assert (Hi : Forall (fun q => q <> p) inside).
  { apply List.Forall_forall. intros q Hq. apply filter_In in Hq as [_ Hq]. congruence. }
  destruct (fs_call _ _) as [[] ?]; cbn; [by rewrite delete_all_same|done|].
  rewrite delete_all_same; [done|]. by apply Forall_take.
Qed.
End same.
End host.

#[export] Hint Resolve exists_file_same is_privileged_same create_dir_all_same set_permissions_same chown_same output_same
  write_file_same copy_file_same remove_file_same remove_dir_all_same : witness.

(** Through the structure of an operation, down to the calls it makes. *)
Ltac keep_step :=
  match goal with
  | |- forall _, _ => intro
  | |- PreOrder _ => typeclasses eauto
  | |- keeps _ (_ ≫= _) => apply keeps_bind
  | |- keeps _ (mret _) => apply keeps_ret
  | |- keeps _ (fail _) => apply keeps_fail
  | |- keeps _ (require _ _) => apply keeps_require
  | |- keeps _ (ignore _) => apply keeps_ignore
  | |- keeps _ (map_err _ _) => apply keeps_map_err
  | |- keeps _ (catch _) => apply keeps_catch
  | |- keeps _ (if ?b then _ else _) => destruct b
  | |- keeps _ (match ?x with _ => _ end) => destruct x
  | |- _ => solve [auto with witness]
  end.
Ltac keep := repeat keep_step.
