(* ===== verification/Setup.v ===== *)
(** [witness setup] (setup.rs): the configuration fetched from a server, or
    generated, and written to disk; and what the agent makes of it. *)
From S2P Require Import Prelude Str StrFacts External Text Structured F64 Sink Tailed Multiline Watcher.
From S2P Require Import Journal Unified EventFilter EventXml Config RemoteConfig Agent Host.
From Stdlib Require Import Strings.Byte.

Definition DEFAULT_SERVER : bytes := b#"https://tell.rs".
Definition DEFAULT_ENDPOINT : bytes := b#"collect.tell.rs:50000".

Record SetupArgs := mkSetupArgs {
  sa_token : bytes;
  sa_server : bytes;
  sa_endpoint : option bytes;
  sa_config : bytes;
  sa_offline : bool;
  sa_force : bool;
}.

(** The default of [--config], the same on every platform. *)
Definition setup_default_config : bytes := b#"/etc/witness/config.toml".

Definition quoted (s : bytes) : bytes := [quote] ++ s ++ [quote].

(** [key = "value"]. *)
Definition assign (key value : bytes) : bytes := key ++ b#" = " ++ quoted value ++ [nl].

Definition generate_default (has_journalctl : bool) (api_key endpoint : bytes) : bytes :=
  assign b#"api_key" api_key ++ assign b#"endpoint" endpoint ++ [nl]
  ++ b#"# Log ingestion: " ++ quoted b#"journald" ++ b#", " ++ quoted b#"files" ++ b#", or " ++ quoted b#"auto" ++ [nl]
  ++ if has_journalctl then assign b#"log_source" b#"journald"
     else
       assign b#"log_source" b#"files" ++ [nl]
       ++ b#"logs = [" ++ [nl]
       ++ b#"    " ++ quoted b#"/var/log/syslog" ++ b#"," ++ [nl]
       ++ b#"    " ++ quoted b#"/var/log/auth.log" ++ b#"," ++ [nl]
       ++ b#"]" ++ [nl].

Definition validate_token (token : bytes) : option Error :=
  if is_empty token then Some (Message b#"--token is required")
  else match validate_api_key token with Some _ => Some (Message b#"invalid --token") | None => None end.

(** The directory of a path; [None] of the root and of the empty path. *)
Fixpoint parent_loop (p dir : bytes) (found : option bytes) : option bytes :=
  match p with
  | [] => found
  | c :: r => parent_loop r (dir ++ [c]) (if is_sep c then Some dir else found)
  end.

Definition parent (p : bytes) : option bytes :=
  match p with
  | [] => None
  | [c] => if is_sep c then None else Some []
  | c :: _ =>
    match parent_loop p [] None with
    | Some [] => Some [c]
    | Some dir => Some dir
    | None => Some []
    end
  end.

Section setup.
Context `{System, Toml, Regex}.
Context (version : bytes).

Definition fetch_args (server : bytes) : list bytes :=
  [b#"curl"; b#"-sSf"; b#"--max-time"; b#"10"; b#"-H"; b#"User-Agent: witness/" ++ version; b#"--config"; b#"-";
   poll_url server].

Definition fetch_config (server token : bytes) : Eff bytes :=
  o ← map_err (fun _ => Message b#"curl not found") (output (fetch_args server) (bearer_config token));
  if negb (success o) then fail (Message (b#"HTTP request failed: " ++ trim (from_utf8_lossy (stderr o))))
  else if negb (valid_utf8 (stdout o)) then fail (Message b#"invalid utf-8 sequence")
  else if is_empty (trim (stdout o)) then fail (Message b#"server returned empty config")
  else mret (stdout o).

(** The text to write: the server's when it validates, else the local default. *)
Definition choose_config (p : Platform) (has_journalctl : bool) (args : SetupArgs) : Eff bytes :=
  let endpoint := match sa_endpoint args with Some e => e | None => DEFAULT_ENDPOINT end in
  let local := generate_default has_journalctl (sa_token args) endpoint in
  if sa_offline args then mret local
  else
    fetched ← catch (fetch_config (sa_server args) (sa_token args));
    match fetched with
    | inl toml => mret (match parse_config p toml with inl _ => toml | inr _ => local end)
    | inr _ => mret local
    end.

(** [Permissions::from_mode(0o640)], then the group [witness] where there is one. *)
Definition restrict_permissions (p : Platform) (config : bytes) : Eff unit :=
  match p with Windows => mret () | _ => set_permissions config 416;; chown config end.

Definition execute (p : Platform) (has_journalctl : bool) (args : SetupArgs) : Eff unit :=
  match validate_token (sa_token args) with
  | Some e => fail e
  | None =>
    there ← exists_file (sa_config args);
    if (there : bool) && negb (sa_force args)
    then fail (Message b#"config already exists")
    else
      config_toml ← choose_config p has_journalctl args;
      (match parent (sa_config args) with Some dir => create_dir_all dir | None => mret () end);;
      write_file (sa_config args) config_toml;;
      restrict_permissions p (sa_config args)
  end.

(** * What setup leaves alone *)

Lemma fetch_config_same q server token : spares (fetch_args server) q -> keeps (same_file q) (fetch_config server token).
Proof. intros Hs. unfold fetch_config. keep. Qed.

Lemma choose_config_same q p j args :
  spares (fetch_args (sa_server args)) q -> keeps (same_file q) (choose_config p j args).
Proof. intros Hs. assert (Hf := fetch_config_same q). unfold choose_config. keep. Qed.

(** Setup writes no file but its own, and that one only with [--force] when it
    exists. *)
Lemma execute_other q p j args :
  q <> sa_config args -> spares (fetch_args (sa_server args)) q -> keeps (same_file q) (execute p j args).
Proof.
  intros Hq Hs. assert (Hc := choose_config_same q). unfold execute, restrict_permissions. keep.
Qed.

Lemma execute_existing p j args h :
  is_Some (files h !! sa_config args) -> sa_force args = false ->
  (execute p j args h).2 = h /\ exists e, (execute p j args h).1 = inr e.
Proof.
  intros Hf Hforce. unfold execute. destruct (validate_token _) as [e|]; [split; [done|by exists e]|].
  unfold mbind, eff_bind, exists_file. rewrite bool_decide_true by done. rewrite Hforce. cbn. eauto.
Qed.
End setup.
