(* ===== verification/SetupFacts.v ===== *)
(** What [witness setup] writes is what the agent can load: the generated
    configuration read back through a TOML parser given by its laws. *)
From S2P Require Import Prelude Str StrFacts External Text Structured F64 Sink Tailed Multiline Watcher OffsetFacts.
From S2P Require Import Journal Unified EventFilter EventXml Config RemoteConfig Agent Host Setup.
From Stdlib Require Import Strings.Byte.

(** * The documents setup generates *)

(** A line of a document: a string, an array of strings over several lines, a
    comment, an empty line. *)
Inductive TomlItem :=
| TString (key value : bytes)
| TStrings (key : bytes) (values : list bytes)
| TComment (text : bytes)
| TBlank.

Definition element_line (v : bytes) : bytes := b#"    " ++ quoted v ++ b#"," ++ [nl].

Definition render_item (i : TomlItem) : bytes :=
  match i with
  | TString k v => assign k v
  | TStrings k vs => k ++ b#" = [" ++ [nl] ++ concat (map element_line vs) ++ b#"]" ++ [nl]
  | TComment t => b#"#" ++ t ++ [nl]
  | TBlank => [nl]
  end.

Definition render_toml (d : list TomlItem) : bytes := concat (map render_item d).

Definition item_entry (i : TomlItem) : list (bytes * Value) :=
  match i with
  | TString k v => [(k, VString v)]
  | TStrings k vs => [(k, VArray (map VString vs))]
  | _ => []
  end.

Definition entries (d : list TomlItem) : list (bytes * Value) := concat (map item_entry d).

(** A bare key; a basic string that needs no escape; printable text. *)
Definition bare (k : bytes) : bool :=
  negb (is_empty k) && forallb (fun c => is_alnum c || bool_decide (c = x5f) || bool_decide (c = x2d)) k.
Definition printable (s : bytes) : bool := forallb (in_range 32 126) s.
Definition basic (s : bytes) : bool :=
  printable s && forallb (fun c => negb (bool_decide (c = x22) || bool_decide (c = x5c))) s.

Definition item_ok (i : TomlItem) : bool :=
  match i with
  | TString k v => bare k && basic v
  | TStrings k vs => bare k && forallb basic vs
  | TComment t => printable t
  | TBlank => true
  end.

(** TOML, as far as these documents go. *)
Class TomlOk `{Toml} : Prop :=
  toml_reads : forall d, forallb item_ok d = true -> NoDup (map fst (entries d)) ->
    toml_table (render_toml d) = Some (map_of_list (entries d)).

(** * The generated configuration *)

Definition default_items (has_journalctl : bool) (api_key endpoint : bytes) : list TomlItem :=
  [TString b#"api_key" api_key; TString b#"endpoint" endpoint; TBlank;
   TComment (b#" Log ingestion: " ++ quoted b#"journald" ++ b#", " ++ quoted b#"files" ++ b#", or " ++ quoted b#"auto")]
  ++ if has_journalctl then [TString b#"log_source" b#"journald"]
     else [TString b#"log_source" b#"files"; TBlank;
           TStrings b#"logs" [b#"/var/log/syslog"; b#"/var/log/auth.log"]].

Lemma generate_default_render j key ep : generate_default j key ep = render_toml (default_items j key ep).
Proof.
  unfold generate_default, render_toml, default_items. rewrite map_app, concat_app.
  destruct j; cbn [map concat render_item]; unfold assign; rewrite <- ?app_assoc, ?app_nil_r; cbn;
    rewrite <- ?app_assoc; reflexivity.
Qed.

Lemma hex_basic key : Forall (fun b => is_hex b = true) key -> basic key = true.
Proof.
  intros Hk. unfold basic, printable. apply andb_true_iff. rewrite !forallb_forall.
  split; intros x Hx; rewrite List.Forall_forall in Hk; specialize (Hk x Hx); revert Hk; by destruct x.
Qed.

Section accepted.
Context `{Toml, !TomlOk, Regex}.

Lemma default_table j key ep :
  basic key = true -> basic ep = true ->
  toml_table (generate_default j key ep) = Some (map_of_list (entries (default_items j key ep))).
Proof.
  intros Hk He. rewrite generate_default_render. apply toml_reads.
  - destruct j; cbn [default_items forallb app item_ok]; rewrite Hk, He; reflexivity.
  - apply (bool_decide_unpack _). destruct j; vm_compute; exact I.
Qed.

(** The local default is a configuration: the key and endpoint it was made with,
    journald where there is one, else two log files. *)
Lemma default_accepted p j key ep :
  validate_api_key key = None -> basic ep = true ->
  exists cfg, parse_config p (generate_default j key ep) = inl cfg /\
    api_key cfg = key /\ endpoint cfg = ep /\
    log_source cfg = (if j then Journald else Files) /\
    logs cfg = (if j then default_logs p else [b#"/var/log/syslog"; b#"/var/log/auth.log"]).
Proof.
  intros Hk He. unfold parse_config. rewrite default_table; [|apply hex_basic; by apply validate_api_key_ok|done].
  destruct j; cbn [mbind option_bind].
  all: match goal with |- context [read_agent_config ?p ?t] =>
         let r := eval vm_compute in (read_agent_config p t) in
         change (read_agent_config p t) with r end.
  all: cbn [api_key eventlog_event_ids multiline_start_pattern]; rewrite Hk.
  all: eexists; repeat split.
Qed.

(** A file the agent starts with. *)
Definition loadable (p : Platform) (text : bytes) : Prop := is_Some (load_config p (Some text)).

Lemma accepted_loadable p text cfg : valid_utf8 text = true -> parse_config p text = inl cfg -> loadable p text.
Proof. intros Hv Hc. unfold loadable, load_config. rewrite Hv, Hc. by eexists. Qed.

Lemma basic_ascii s : basic s = true -> Forall (fun c => bN c < 128) s.
Proof.
  unfold basic, printable. intros [Hp _]%andb_true_iff. rewrite forallb_forall in Hp.
  apply List.Forall_forall. intros c Hc. specialize (Hp c Hc). unfold in_range in Hp. norm_bool. lia.
Qed.

Lemma quoted_ascii s : Forall (fun c => bN c < 128) s -> Forall (fun c => bN c < 128) (quoted s).
Proof. intros Hs. unfold quoted. rewrite !Forall_app. split; [|split]; [|exact Hs|]; by repeat constructor. Qed.

Lemma generate_default_ascii j key ep :
  basic key = true -> basic ep = true -> Forall (fun c => bN c < 128) (generate_default j key ep).
Proof.
  intros Hk%basic_ascii%quoted_ascii He%basic_ascii%quoted_ascii. unfold generate_default, assign.
  rewrite !Forall_app. repeat split; try assumption; [..|destruct j];
    apply (bool_decide_unpack _); vm_compute; exact I.
Qed.

Lemma default_loadable p j key ep :
  validate_api_key key = None -> basic ep = true -> loadable p (generate_default j key ep).
Proof.
  intros Hk He. destruct (default_accepted p j key ep Hk He) as (cfg & Hc & _).
  apply (accepted_loadable _ _ cfg); [|exact Hc]. apply valid_utf8_ascii, generate_default_ascii; [|done].
  apply hex_basic. by apply validate_api_key_ok.
Qed.
End accepted.

(** * Setup *)

Section setup.
Context `{System, Toml, !TomlOk, Regex}.
Context (version : bytes).

Definition effective_endpoint (args : SetupArgs) : bytes :=
  match sa_endpoint args with Some e => e | None => DEFAULT_ENDPOINT end.

Lemma validate_token_key token : validate_token token = None -> validate_api_key token = None.
Proof. unfold validate_token. destruct (is_empty token); [done|]. by destruct (validate_api_key token). Qed.

(** The text setup may write: it loads, unless it is the local default with an
    endpoint that is not a plain string. *)
Definition chosen (p : Platform) (j : bool) (args : SetupArgs) (text : bytes) : Prop :=
  basic (effective_endpoint args) = true \/ text <> generate_default j (sa_token args) (effective_endpoint args) ->
  loadable p text.

Lemma default_chosen p j args :
  validate_token (sa_token args) = None ->
  chosen p j args (generate_default j (sa_token args) (effective_endpoint args)).
Proof. intros Ht%validate_token_key [He|Hne]; [by apply default_loadable|done]. Qed.

(** A text is always found. *)
Lemma choose_config_chosen p j args h :
  validate_token (sa_token args) = None ->
  exists text h', choose_config version p j args h = (inl text, h') /\ chosen p j args text.
Proof.
  intros Ht. assert (Hd := default_chosen p j args Ht).
  unfold choose_config. fold (effective_endpoint args). destruct (sa_offline args); [by eexists _, h|].
  unfold mbind, eff_bind, catch. destruct (fetch_config _ _ _ h) as [[body|e] h1] eqn:E; [|by eexists _, h1].
  eexists _, h1. split; [reflexivity|]. destruct (parse_config p body) as [cfg|] eqn:Ec; [|done].
  intros _. apply (accepted_loadable _ _ cfg); [|done].
  revert E. unfold fetch_config, mbind, eff_bind. destruct (map_err _ _ h) as [[o|e] h2]; [|done].
  destruct (success o); cbn [negb]; [|done]. destruct (valid_utf8 (stdout o)) eqn:Ev; cbn [negb]; [|done].
  destruct (is_empty _); [done|]. intros [= <- _]. exact Ev.
Qed.
End setup.
