(* ===== verification/Install.v ===== *)
(** [witness install], [uninstall] and [status] (install/): the systemd flow of
    Linux, the launchd flow of macOS and the service flow of Windows, over the
    host of [Host]. *)
From S2P Require Import Prelude Str StrFacts External Text Structured F64 Sink Tailed Multiline Watcher.
From S2P Require Import Journal Unified EventFilter EventXml Config RemoteConfig Cgroups Agent Host Setup.
From Stdlib Require Import Strings.Byte.

Definition INSTALL_DIR : bytes := b#"/usr/local/bin".
Definition CONFIG_FILE : bytes := b#"/etc/witness/config.toml".
Definition CONFIG_DIR : bytes := b#"/etc/witness".

Record InstallArgs := mkInstallArgs {
  token : option bytes;
  ia_server : bytes;
  ia_endpoint : option bytes;
  offline : bool;
  force : bool;
}.

Record UninstallArgs := mkUninstallArgs { purge : bool }.

(** [Path::join] of a Unix directory and a name. *)
Definition binary_path : bytes := unix_join INSTALL_DIR b#"witness".

Definition unlines (ls : list bytes) : bytes := concat (map (fun l => l ++ [nl]) ls).

(** * launchd *)

Module Launchd.
Definition LABEL : bytes := b#"rs.tell.witness".
Definition DOMAIN : bytes := b#"system".
Definition PLIST_PATH : bytes := b#"/Library/LaunchDaemons/rs.tell.witness.plist".
Definition LOG_DIR : bytes := b#"/Library/Logs/witness".
Definition STDOUT_PATH : bytes := b#"/Library/Logs/witness/witness.out.log".
Definition STDERR_PATH : bytes := b#"/Library/Logs/witness/witness.err.log".

(** The characters escaped are ASCII, so bytes and characters agree. *)
Definition xml_escape_byte (c : byte) : bytes :=
  if bool_decide (c = x26) then b#"&amp;"
  else if bool_decide (c = x3c) then b#"&lt;"
  else if bool_decide (c = x3e) then b#"&gt;"
  else if bool_decide (c = x22) then b#"&quot;"
  else if bool_decide (c = x27) then b#"&apos;"
  else [c].

Definition xml_escape (s : bytes) : bytes := concat (map xml_escape_byte s).

Definition string_node (s : bytes) : bytes := b#"<string>" ++ s ++ b#"</string>".

Definition plist_contents (binary config : bytes) : bytes :=
  let binary := xml_escape binary in
  let config := xml_escape config in
  unlines
    [b#"<?xml version=" ++ quoted b#"1.0" ++ b#" encoding=" ++ quoted b#"UTF-8" ++ b#"?>";
     b#"<!DOCTYPE plist PUBLIC " ++ quoted b#"-//Apple//DTD PLIST 1.0//EN" ++ b#" "
       ++ quoted b#"http://www.apple.com/DTDs/PropertyList-1.0.dtd" ++ b#">";
     b#"<plist version=" ++ quoted b#"1.0" ++ b#">";
     b#"<dict>";
     b#"    <key>Label</key>";
     b#"    " ++ string_node LABEL;
     b#"    <key>ProgramArguments</key>";
     b#"    <array>";
     b#"        " ++ string_node binary;
     b#"        " ++ string_node b#"--config";
     b#"        " ++ string_node config;
     b#"    </array>";
     b#"    <key>RunAtLoad</key>";
     b#"    <true/>";
     b#"    <key>KeepAlive</key>";
     b#"    <dict>";
     b#"        <key>SuccessfulExit</key>";
     b#"        <false/>";
     b#"    </dict>";
     b#"    <key>StandardOutPath</key>";
     b#"    " ++ string_node STDOUT_PATH;
     b#"    <key>StandardErrorPath</key>";
     b#"    " ++ string_node STDERR_PATH;
     b#"    <key>ProcessType</key>";
     b#"    " ++ string_node b#"Background";
     b#"    <key>ThrottleInterval</key>";
     b#"    <integer>5</integer>";
     b#"</dict>";
     b#"</plist>"].

(** [find_map] over the lines. *)
Fixpoint first_exit (ls : list bytes) : option bytes :=
  match ls with
  | [] => None
  | l :: r =>
    match strip_prefix b#"last exit code = " (trim l) with
    | Some v => Some (trim v)
    | None => first_exit r
    end
  end.

Definition last_exit_of (print_output : bytes) : option bytes := first_exit (lines print_output).

Record StatusReport := mkStatusReport { loaded : bool; running : bool; last_exit : option bytes }.

Section launchd.
Context `{System}.

(** The trait [Platform]: what the flows use of [launchctl]. *)
Record Platform := mkPlatform {
  bootstrap : bytes -> bytes -> Eff unit;
  bootout : bytes -> bytes -> Eff unit;
  enable : bytes -> bytes -> Eff unit;
  is_loaded : bytes -> bytes -> Eff bool;
  print : bytes -> bytes -> Eff bytes;
}.

Definition join_words (ws : list bytes) : bytes :=
  match ws with [] => [] | w :: r => w ++ concat (map (fun x => space :: x) r) end.

(** [MacOsPlatform::run]. *)
Definition launchctl (args : list bytes) : Eff bytes :=
  o ← output (b#"launchctl" :: args) [];
  if success o then mret (from_utf8_lossy (stdout o))
  else fail (CommandFailed (b#"launchctl " ++ join_words args) (trim (from_utf8_lossy (stderr o)))).

Definition service_target (domain label : bytes) : bytes := domain ++ b#"/" ++ label.

Definition MacOsPlatform : Platform := mkPlatform
  (fun domain plist => launchctl [b#"bootstrap"; domain; plist];; mret ())
  (fun domain target => launchctl [b#"bootout"; domain; target];; mret ())
  (fun domain label => launchctl [b#"enable"; service_target domain label];; mret ())
  (fun domain label =>
     r ← catch (output [b#"launchctl"; b#"print"; service_target domain label] []);
     mret (match r with inl o => success o | inr _ => false end))
  (fun domain label => launchctl [b#"print"; service_target domain label]).

Definition load_daemon (platform : Platform) (plist_path : bytes) : Eff unit :=
  bootstrap platform DOMAIN plist_path;; enable platform DOMAIN LABEL.

Definition unload_daemon (platform : Platform) (plist_path : bytes) : Eff unit :=
  bootout platform DOMAIN plist_path.

Definition status_report (platform : Platform) : Eff StatusReport :=
  loaded ← is_loaded platform DOMAIN LABEL;
  if negb loaded then mret (mkStatusReport false false None)
  else
    r ← catch (print platform DOMAIN LABEL);
    let detail := match r with inl d => d | inr _ => [] end in
    mret (mkStatusReport true (contains b#"state = running" detail) (last_exit_of detail)).

Definition require_root : Eff unit := root ← is_privileged; require root NotRoot.

(** Copies the running binary unless it is the installed one. *)
Definition install_binary (exe : bytes) : Eff bytes := fun h =>
  match current_exe (world h) with
  | None => (inr Io, h)
  | Some current =>
    (there ← exists_file binary_path;
     (if (there : bool) && bool_decide (canonicalize binary_path (world h) = Some current)
      then mret ()
      else create_dir_all INSTALL_DIR;; copy_file current binary_path exe);;
     set_permissions binary_path 493;;
     mret binary_path) h
  end.

Definition create_dirs : Eff unit :=
  create_dir_all CONFIG_DIR;;
  create_dir_all LOG_DIR;;
  set_permissions LOG_DIR 488;;
  chown LOG_DIR.

Definition write_plist (binary : bytes) (force : bool) : Eff unit :=
  there ← exists_file PLIST_PATH;
  if (there : bool) && negb force then mret ()
  else
    write_file PLIST_PATH (plist_contents binary CONFIG_FILE);;
    set_permissions PLIST_PATH 420;;
    chown PLIST_PATH.

Definition uninstall (state_dir : bytes) (platform : Platform) (args : UninstallArgs) : Eff unit :=
  require_root;;
  ignore (unload_daemon platform PLIST_PATH);;
  remove_file PLIST_PATH;;
  if purge args then
    ignore (remove_dir_all state_dir);;
    ignore (remove_file CONFIG_FILE)
  else mret ().
End launchd.
End Launchd.

(** * systemd *)

Module Systemd.
Definition SERVICE_FILE : bytes := b#"/etc/systemd/system/witness.service".

Definition SYSTEMD_UNIT : bytes := unlines
  [b#"[Unit]";
   b#"Description=Witness Agent";
   b#"After=network-online.target";
   b#"Wants=network-online.target";
   [];
   b#"[Service]";
   b#"Type=simple";
   b#"ExecStart=/usr/local/bin/witness --config /etc/witness/config.toml";
   b#"ExecReload=/bin/kill -HUP $MAINPID";
   b#"Restart=always";
   b#"RestartSec=5";
   b#"User=witness";
   b#"Group=witness";
   [];
   b#"StandardOutput=journal";
   b#"StandardError=journal";
   b#"SyslogIdentifier=witness";
   [];
   b#"StateDirectory=witness";
   [];
   b#"ProtectSystem=strict";
   b#"ProtectHome=yes";
   b#"PrivateTmp=yes";
   b#"ReadOnlyPaths=/proc /sys /var/log";
   b#"ReadWritePaths=/var/lib/witness";
   [];
   b#"NoNewPrivileges=yes";
   b#"CapabilityBoundingSet=";
   b#"RestrictSUIDSGID=yes";
   b#"SystemCallFilter=@system-service";
   b#"MemoryDenyWriteExecute=yes";
   b#"PrivateDevices=yes";
   [];
   b#"ProtectKernelTunables=yes";
   b#"ProtectKernelModules=yes";
   b#"ProtectKernelLogs=yes";
   b#"ProtectControlGroups=yes";
   b#"ProtectClock=yes";
   [];
   b#"RestrictNamespaces=yes";
   b#"LockPersonality=yes";
   b#"RestrictRealtime=yes";
   [];
   b#"[Install]";
   b#"WantedBy=multi-user.target"].

Section systemd.
Context `{System}.

Definition run_cmd (cmd : bytes) (args : list bytes) : Eff unit :=
  o ← output (cmd :: args) [];
  if success o then mret () else fail (CommandFailed cmd (trim (from_utf8_lossy (stderr o)))).

Definition install_binary (exe : bytes) : Eff unit := fun h =>
  match current_exe (world h) with
  | None => (inr Io, h)
  | Some current =>
    (there ← exists_file binary_path;
     if (there : bool) && bool_decide (canonicalize binary_path (world h) = Some current)
     then mret ()
     else
       create_dir_all INSTALL_DIR;;
       copy_file current binary_path exe;;
       set_permissions binary_path 493) h
  end.

Definition create_user : Eff unit :=
  id ← output [b#"id"; b#"-u"; b#"witness"] [];
  if success id then mret ()
  else
    run_cmd b#"useradd" [b#"--system"; b#"--no-create-home"; b#"--shell"; b#"/usr/sbin/nologin"; b#"witness"];;
    adm ← catch (output [b#"getent"; b#"group"; b#"adm"] []);
    match adm with
    | inl o => if success o then ignore (run_cmd b#"usermod" [b#"-aG"; b#"adm"; b#"witness"]) else mret ()
    | inr _ => mret ()
    end.

Definition install_service (force : bool) : Eff unit :=
  there ← exists_file SERVICE_FILE;
  if (there : bool) && negb force then mret ()
  else
    create_dir_all CONFIG_DIR;;
    write_file SERVICE_FILE SYSTEMD_UNIT;;
    run_cmd b#"systemctl" [b#"daemon-reload"].
End systemd.
End Systemd.

(** The arguments of setup; [config] is the platform's configuration file. *)
Definition setup_args (config : bytes) (args : InstallArgs) (token : bytes) : SetupArgs :=
  mkSetupArgs token (ia_server args) (ia_endpoint args) config (offline args) (force args).

(** The text of an error, where one is wrapped in another. *)
Definition error_text (e : Error) : bytes :=
  match e with Message t => t | CommandFailed cmd stderr => cmd ++ stderr | _ => [] end.

Section flows.
Context `{System, Toml, Regex}.
Context (version : bytes).

Definition launchd_install (exe : bytes) (platform : Launchd.Platform) (has_journalctl : bool) (args : InstallArgs)
    : Eff unit :=
  Launchd.require_root;;
  binary ← Launchd.install_binary exe;
  Launchd.create_dirs;;
  Launchd.write_plist binary (force args);;
  (match token args with
   | Some token =>
     map_err (fun e => CommandFailed b#"witness setup" (error_text e))
       (execute version MacOs has_journalctl (setup_args CONFIG_FILE args token))
   | None => mret ()
   end);;
  Launchd.load_daemon platform Launchd.PLIST_PATH.

Definition systemd_install (exe : bytes) (has_journalctl : bool) (args : InstallArgs) : Eff unit :=
  root ← is_privileged;
  require root NotRoot;;
  Systemd.install_binary exe;;
  Systemd.create_user;;
  Systemd.install_service (force args);;
  match token args with
  | Some token =>
    execute version Linux has_journalctl (setup_args CONFIG_FILE args token);;
    Systemd.run_cmd b#"systemctl" [b#"enable"; b#"--now"; b#"witness"]
  | None => mret ()
  end.
End flows.
