(* ===== verification/WindowsService.v ===== *)
(** The Windows service: its registration with the Service Control Manager
    (install/platform_windows.rs, install/windows.rs) and the host that runs the
    agent under it (service_windows.rs). *)
From S2P Require Import Prelude Str StrFacts External Text Structured F64 Sink Tailed Multiline Watcher.
From S2P Require Import Journal Unified EventFilter EventXml Config RemoteConfig Agent Host Setup Install.
From Stdlib Require Import Strings.Byte.

Definition SERVICE_NAME : bytes := b#"witness".
Definition DISPLAY_NAME : bytes := b#"Witness Agent".
Definition DESCRIPTION : bytes := b#"Lightweight host monitoring agent for the Tell platform".

(** The locations; a doubled name tells them from the Unix ones. *)
Definition WIN_INSTALL_DIR : bytes := b#"C:\Program Files\witness".
Definition WIN_CONFIG_FILE : bytes := b#"C:\ProgramData\witness\config.toml".
Definition WIN_LOG_DIR : bytes := b#"C:\ProgramData\witness\logs".
Definition DATA_DIR : bytes := b#"C:\ProgramData\witness".

(** * Registration *)

Record ServiceSpec := mkServiceSpec {
  name : bytes;
  display_name : bytes;
  description : bytes;
  spec_binary_path : bytes;
  config_path : bytes;
}.

Inductive ServiceState := Running | Stopped | NotInstalled | OtherState.

#[global] Instance ServiceState_eq_dec : EqDecision ServiceState.
Proof. solve_decision. Defined.

Definition image_path_command_line (spec : ServiceSpec) : bytes :=
  quoted (spec_binary_path spec) ++ b#" --config " ++ quoted (config_path spec).

Definition service_spec (binary_path : bytes) : ServiceSpec :=
  mkServiceSpec SERVICE_NAME DISPLAY_NAME DESCRIPTION binary_path WIN_CONFIG_FILE.

(** ** The service manager, as the [windows-service] crate gives it *)

Inductive Access := AccessConnect | AccessCreate | AccessDelete | AccessStart | AccessStop | AccessQuery.

(** The part of [ServiceInfo] that is not a constant. *)
Record ServiceInfo := mkServiceInfo {
  si_name : bytes;
  si_display_name : bytes;
  executable_path : bytes;
  launch_arguments : list bytes;
}.

Inductive WsState := WsRunning | WsStopped | WsPending.

(** [None] is success, [Some] the message of the error. *)
Class ServiceManager `{System} := {
  local_computer : Access -> sys -> option bytes;
  open_service : bytes -> Access -> sys -> option bytes;
  create_service : ServiceInfo -> sys -> option bytes * sys;
  set_description : bytes -> bytes -> sys -> sys;
  delete_service : bytes -> sys -> option bytes * sys;
  start_service : bytes -> sys -> option bytes * sys;
  stop_service : bytes -> sys -> option bytes * sys;
  query_status : bytes -> sys -> option WsState;
}.

Section scm.
Context `{ServiceManager}.

(** The trait: what the flows use of the manager. *)
Record WindowsServicePlatform := mkServicePlatform {
  create : ServiceSpec -> Eff unit;
  delete : bytes -> Eff unit;
  start : bytes -> Eff unit;
  stop : bytes -> Eff unit;
  query_state : bytes -> Eff ServiceState;
  exists_ : bytes -> Eff bool;
}.

Definition scm_err (verb message : bytes) : Error := CommandFailed verb message.

Definition on_world (f : sys -> option bytes * sys) (verb : bytes) : Eff unit := fun h =>
  let '(r, w) := f (world h) in
  (match r with None => inl () | Some m => inr (scm_err verb m) end, mkHost (files h) (modes h) w).

Definition manager (a : Access) : Eff unit := fun h =>
  (match local_computer a (world h) with None => inl () | Some m => inr (scm_err b#"open_manager" m) end, h).

Definition opened (verb name : bytes) (a : Access) : Eff unit := fun h =>
  (match open_service name a (world h) with None => inl () | Some m => inr (scm_err verb m) end, h).

Definition service_info (spec : ServiceSpec) : ServiceInfo :=
  mkServiceInfo (name spec) (display_name spec) (spec_binary_path spec) [b#"--config"; config_path spec].

(** [let _ = service.set_description(..)]. *)
Definition describe (spec : ServiceSpec) : Eff unit := fun h =>
  (inl (), mkHost (files h) (modes h) (set_description (name spec) (description spec) (world h))).

Definition scm_create (spec : ServiceSpec) : Eff unit :=
  manager AccessCreate;;
  on_world (create_service (service_info spec)) b#"create";;
  describe spec.

Definition scm_delete (name : bytes) : Eff unit :=
  manager AccessConnect;; opened b#"delete" name AccessDelete;; on_world (delete_service name) b#"delete".

Definition scm_start (name : bytes) : Eff unit :=
  manager AccessConnect;; opened b#"start" name AccessStart;; on_world (start_service name) b#"start".

Definition scm_stop (name : bytes) : Eff unit :=
  manager AccessConnect;; opened b#"stop" name AccessStop;; on_world (stop_service name) b#"stop".

Definition scm_query_state (name : bytes) : Eff ServiceState := fun h =>
  (inl match local_computer AccessConnect (world h) with
       | Some _ => OtherState
       | None =>
         match open_service name AccessQuery (world h) with
         | Some _ => NotInstalled
         | None =>
           match query_status name (world h) with
           | Some WsRunning => Running
           | Some WsStopped => Stopped
           | _ => OtherState
           end
         end
       end, h).

Definition scm_exists (name : bytes) : Eff bool := fun h =>
  (inl match local_computer AccessConnect (world h) with
       | Some _ => false
       | None => match open_service name AccessQuery (world h) with None => true | Some _ => false end
       end, h).

Definition ScmPlatform : WindowsServicePlatform :=
  mkServicePlatform scm_create scm_delete scm_start scm_stop scm_query_state scm_exists.

(** ** The sequences *)

Definition install_sequence (platform : WindowsServicePlatform) (spec : ServiceSpec) (force : bool) : Eff bool :=
  there ← exists_ platform (name spec);
  if (there : bool) && negb force then mret false
  else
    (if there then delete platform (name spec) else mret ());;
    create platform spec;;
    start platform (name spec);;
    mret true.

Definition uninstall_sequence (platform : WindowsServicePlatform) (name : bytes) : Eff unit :=
  state ← query_state platform name;
  (if bool_decide (state = Running) then stop platform name else mret ());;
  delete platform name.

Record StatusReport := mkStatusReport { loaded : bool; running : bool }.

Definition status_report (platform : WindowsServicePlatform) (name : bytes) : Eff StatusReport :=
  state ← query_state platform name;
  mret match state with
       | NotInstalled => mkStatusReport false false
       | Running => mkStatusReport true true
       | Stopped | OtherState => mkStatusReport true false
       end.

(** ** The flows *)

Definition require_elevated : Eff unit := elevated ← is_privileged; require elevated NotElevated.

Definition win_binary_path : bytes := path_join WIN_INSTALL_DIR b#"witness.exe".

Definition install_binary (exe : bytes) : Eff bytes := fun h =>
  match current_exe (world h) with
  | None => (inr Io, h)
  | Some current =>
    (there ← exists_file win_binary_path;
     (if (there : bool) && bool_decide (canonicalize win_binary_path (world h) = Some current)
      then mret ()
      else create_dir_all WIN_INSTALL_DIR;; copy_file current win_binary_path exe);;
     mret win_binary_path) h
  end.

Definition create_dirs (state_dir : bytes) : Eff unit :=
  create_dir_all DATA_DIR;; create_dir_all WIN_LOG_DIR;; create_dir_all state_dir.

Definition uninstall (state_dir : bytes) (args : UninstallArgs) : Eff unit :=
  require_elevated;;
  ignore (uninstall_sequence ScmPlatform SERVICE_NAME);;
  if purge args then
    ignore (remove_dir_all state_dir);;
    ignore (remove_file WIN_CONFIG_FILE)
  else mret ().

Context `{Toml, Regex}.

(** [Ok(false)] when an existing service was left as it is. *)
Definition windows_install (version exe state_dir : bytes) (has_journalctl : bool) (args : InstallArgs) : Eff bool :=
  require_elevated;;
  binary ← install_binary exe;
  create_dirs state_dir;;
  (match token args with
   | Some token =>
     map_err (fun e => CommandFailed b#"setup" (error_text e))
       (execute version Windows has_journalctl (setup_args WIN_CONFIG_FILE args token))
   | None => mret ()
   end);;
  install_sequence ScmPlatform (service_spec binary) (force args).
End scm.

(** * Dispatch (install/mod.rs) *)

(** The error is printed and ends the process with status 1. *)
Section dispatch.
Context `{ServiceManager, Toml, Regex}.
Context (version exe state_dir : bytes) (has_journalctl : bool).

Definition run (p : Platform) (args : InstallArgs) : Eff unit :=
  match p with
  | Linux => systemd_install version exe has_journalctl args
  | MacOs => launchd_install version exe Launchd.MacOsPlatform has_journalctl args
  | Windows => windows_install version exe state_dir has_journalctl args;; mret ()
  | OtherOs => fail (Message b#"witness install is supported on Linux, macOS and Windows")
  end.

Definition run_uninstall (p : Platform) (args : UninstallArgs) : Eff unit :=
  match p with
  | MacOs => Launchd.uninstall state_dir Launchd.MacOsPlatform args
  | Windows => uninstall state_dir args
  | _ => fail (Message b#"witness uninstall is only implemented on macOS and Windows")
  end.

(** What is printed: whether the service is loaded and running, and its last exit. *)
Definition run_status (p : Platform) : Eff Launchd.StatusReport :=
  match p with
  | MacOs => Launchd.status_report Launchd.MacOsPlatform
  | Windows =>
    r ← status_report ScmPlatform SERVICE_NAME;
    mret (Launchd.mkStatusReport (loaded r) (running r) None)
  | _ => fail (Message b#"witness status is only implemented on macOS and Windows")
  end.
End dispatch.

(** * The service host *)

Module ServiceHost.

(** [windows-service]'s [ServiceControl], as far as it matters. *)
Inductive ScmControl := CtlStop | CtlShutdown | CtlInterrogate | CtlOther.

Inductive ControlAction := CancelAndStopPending | ReReport | NotImplemented.

Definition map_control (control : ScmControl) : ControlAction :=
  match control with
  | CtlStop | CtlShutdown => CancelAndStopPending
  | CtlInterrogate => ReReport
  | CtlOther => NotImplemented
  end.

(** A status as reported: the state, and whether stop and shutdown controls are
    accepted in it. *)
Inductive Reported := RepRunning | RepStopPending | RepStopped.

Definition accepts (r : Reported) : bool := match r with RepRunning => true | _ => false end.

(** The [watch] channel of [SERVICE_SHUTDOWN]: a version per [send]; a receiver
    made by [subscribe] has seen the version it finds, and [changed] waits for
    another. [waiting] is what the receiver of a [wait_for_signal] in progress has
    seen, [None] while the agent starts up or drains. *)
Record ServiceRun := mkServiceRun {
  sent : N;
  waiting : option N;
  reports : list Reported;
  ended : bool;
}.

(** * Dispatch *)

(** How [service_dispatcher::start] went: it returns once the service has run. *)
Inductive Dispatched := DispatchOk | DispatchNotScm | DispatchError.

(** [CONFIG_PATH] is set once; whether the process ran as a service. *)
Definition dispatch (config_path : bytes) (static : option bytes) (d : Dispatched) : option bytes * bool :=
  (match static with Some c => Some c | None => Some config_path end,
   match d with DispatchOk => true | DispatchNotScm => false | DispatchError => false end).

Definition windows_config_path : bytes := WIN_CONFIG_FILE.
Definition windows_log_dir : bytes := WIN_LOG_DIR.

(** The configuration the service runs with. *)
Definition service_config (static : option bytes) : bytes :=
  match static with Some c => c | None => windows_config_path end.

(** [ServiceStatus] as [report] fills it. *)
Record ServiceStatus := mkServiceStatus {
  current_state : Reported;
  accepts_stop : bool;
  accepts_shutdown : bool;
  exit_code : N;
  status_checkpoint : N;
  wait_hint : N;
}.

Definition report (state : Reported) : ServiceStatus :=
  mkServiceStatus state (accepts state) (accepts state) 0 0 (Source.secs 10).

(** [run_service] up to the start of the agent. *)
Definition service_start : ServiceRun := mkServiceRun 0 None [RepRunning] false.

Inductive ServiceEvent :=
| EvControl (c : ScmControl)
| EvWait            (* the agent, started, calls [wait_for_signal] *)
| EvReload.         (* the poller has written a new configuration *)

(** The agent drains, [agent_loop] returns, and the end is reported. *)
Definition service_end (s : ServiceRun) : ServiceRun :=
  mkServiceRun (sent s) None (reports s ++ [RepStopped]) true.

(** The wait in progress, if its receiver has something to see. The model takes a
    wake-up together with the control that causes it: that [select!] may prefer a
    reload of the same moment, and that the channel is written just before the
    status is reported, are not told apart from it. *)
Definition woken (s : ServiceRun) : ServiceRun :=
  match waiting s with
  | Some seen =>
    if sent s =? seen then s
    else match wait_for_signal Windows true ServiceStop with
         | Some SigShutdown => service_end s
         | _ => mkServiceRun (sent s) None (reports s) (ended s)
         end
  | None => s
  end.

(** The handler's answer, and what it does. *)
Definition control_handler (c : ScmControl) (s : ServiceRun) : bool * ServiceRun :=
  match map_control c with
  | CancelAndStopPending =>
    (true, woken (mkServiceRun (sent s + 1) (waiting s) (reports s ++ [RepStopPending]) (ended s)))
  | ReReport => (true, s)
  | NotImplemented => (false, s)
  end.

(** The manager delivers stop and shutdown controls only while the status says
    that they are accepted. *)
Definition delivered (c : ScmControl) (s : ServiceRun) : bool :=
  match map_control c with
  | CancelAndStopPending => match last (reports s) with Some r => accepts r | None => false end
  | _ => true
  end.

Definition service_step (s : ServiceRun) (ev : ServiceEvent) : ServiceRun :=
  if ended s then s
  else
    match ev with
    | EvControl c => if delivered c s then (control_handler c s).2 else s
    | EvWait =>
      match waiting s with
      | None => mkServiceRun (sent s) (Some (sent s)) (reports s) (ended s)
      | Some _ => s
      end
    | EvReload =>
      match waiting s, wait_for_signal Windows true ReloadChanged with
      | Some _, Some SigReload => mkServiceRun (sent s) None (reports s) (ended s)
      | _, _ => s
      end
    end.

Definition service_run (evs : list ServiceEvent) (s : ServiceRun) : ServiceRun := fold_left service_step evs s.

(** [run_service]: [None] when the control handler could not be registered, which
    is logged and reports nothing; without a runtime the agent is not run. *)
Definition run_service (registered runtime : bool) (evs : list ServiceEvent) : option ServiceRun :=
  if negb registered then None
  else if runtime then Some (service_run evs service_start)
  else Some (service_end service_start).

(** The statuses the manager is told. *)
Definition statuses (r : option ServiceRun) : list ServiceStatus :=
  match r with Some s => map report (reports s) | None => [] end.
End ServiceHost.
