(* ===== verification/InstallTextFacts.v ===== *)
(** The property list of the launchd daemon, read back by the rules of XML for
    characters, line ends and character data; the command line of the Windows service, read back by the
    rules of [CommandLineToArgvW]. *)
From S2P Require Import Prelude Str StrFacts Text Syslog RemoteConfig Host Setup Install WindowsService.
From Stdlib Require Import Strings.Byte.

(** * Characters and line ends *)

(** The production Char: no control characters but tab, line feed and carriage
    return, and neither U+FFFE nor U+FFFF; a string of Unicode has no surrogates. *)
Definition xml_char (p : bool * bytes) : bool :=
  p.1 && match p.2 with
         | [c] => (32 <=? bN c) || bool_decide (c ∈ [x09; nl; x0d])
         | t => negb (bool_decide (t = [xef; xbf; xbe]) || bool_decide (t = [xef; xbf; xbf]))
         end.

Definition xml_text (s : bytes) : bool := forallb xml_char (pieces s).

(** A carriage return, alone or before a line feed, is read as a line feed. *)
Fixpoint eol (s : bytes) : bytes :=
  match s with
  | [] => []
  | c :: r =>
    if bool_decide (c = x0d) then
      match r with
      | d :: _ => if bool_decide (d = nl) then eol r else nl :: eol r
      | [] => [nl]
      end
    else c :: eol r
  end.

(** * Character data *)

(** The predefined entities. *)
Definition entity (r : bytes) : option (byte * bytes) :=
  if starts_with b#"amp;" r then Some (x26, drop 4 r)
  else if starts_with b#"lt;" r then Some (x3c, drop 3 r)
  else if starts_with b#"gt;" r then Some (x3e, drop 3 r)
  else if starts_with b#"quot;" r then Some (x22, drop 5 r)
  else if starts_with b#"apos;" r then Some (x27, drop 5 r)
  else None.

(** The text of character data without markup; a turn reads a byte or a
    reference. *)
Fixpoint unescape_loop (fuel : nat) (s : bytes) : option bytes :=
  match fuel, s with
  | _, [] => Some []
  | O, _ => None
  | S fuel, c :: r =>
    if bool_decide (c = x26) then
      match entity r with
      | Some (e, r') => cons e <$> unescape_loop fuel r'
      | None => None
      end
    else if bool_decide (c = x3c) then None
    else cons c <$> unescape_loop fuel r
  end.

Definition unescape (s : bytes) : option bytes := unescape_loop (length s) s.

(** The texts of the [string] elements of a document whose line ends are read, in
    order. *)
Fixpoint string_elements (fuel : nat) (s : bytes) : list (option bytes) :=
  match fuel with
  | O => []
  | S fuel =>
    match find_sub b#"<string>" s with
    | None => []
    | Some i =>
      let r := drop (i + 8) s in
      match find_byte x3c r with
      | None => []
      | Some k => unescape (take k r) :: string_elements fuel (drop k r)
      end
    end
  end.

(** The strings a document holds; [None]: it is not well formed. *)
Definition read_strings (s : bytes) : option (list (option bytes)) :=
  if xml_text s then let t := eol s in Some (string_elements (length t) t) else None.

Lemma xml_text_valid s : xml_text s = true -> valid_utf8 s = true.
Proof.
  unfold xml_text, valid_utf8. rewrite !forallb_forall. intros Hx p Hp. by apply Hx, andb_true_iff in Hp as [? _].
Qed.

Lemma xml_text_app s t : xml_text s = true -> xml_text (s ++ t) = xml_text t.
Proof.
  intros Hs. unfold xml_text in *. rewrite pieces_app_valid by (by apply xml_text_valid). by rewrite forallb_app, Hs.
Qed.

(** A character is one byte, or none of its bytes is ASCII. *)
Lemma decode_one_bytes s :
  s <> [] -> (decode_one s).1 = true ->
  (decode_one s).2 = 1%nat \/ Forall (fun c => 128 <= bN c) (take (decode_one s).2 s).
Proof.
  assert (Hr : forall a b c, in_range a b c = true -> 128 <= a -> 128 <= bN c)
    by (intros a b c Hc Ha; unfold in_range in Hc; norm_bool; lia).
  intros Hs. destruct s as [|b0 [|b1 [|b2 [|b3 r]]]]; [done|..];
    unfold decode_one, lead3_ok, lead4_ok, is_cont; repeat case_if; cbn [fst snd take]; try done; intros _; auto; right;
    norm_bool; repeat constructor; eauto using N.le_refl; try (eapply Hr; [eassumption|lia]).
  all: match goal with H : _ || _ = true |- _ => rewrite !orb_true_iff, !andb_true_iff in H end.
  all: destruct_or?; destruct_and?; (eapply Hr; [eassumption|lia]).
Qed.

Lemma xml_escape_app s t : Launchd.xml_escape (s ++ t) = Launchd.xml_escape s ++ Launchd.xml_escape t.
Proof. unfold Launchd.xml_escape. by rewrite map_app, concat_app. Qed.

Lemma xml_escape_high s : Forall (fun c => 128 <= bN c) s -> Launchd.xml_escape s = s.
Proof.
  induction 1 as [|c s Hc Hs IH]; [done|]. change (c :: s) with ([c] ++ s). rewrite xml_escape_app, IH. f_equal.
  revert Hc. destruct c; cbn; try done; intros Hc; exfalso; revert Hc; vm_compute; by intros [].
Qed.

Lemma xml_text_piece s :
  s <> [] -> xml_text s = xml_char ((decode_one s).1, take (decode_one s).2 s) && xml_text (drop (decode_one s).2 s).
Proof. intros Hs. unfold xml_text. by rewrite pieces_unfold by done. Qed.

(** Escaping keeps a text one. *)
Lemma xml_text_escape s : xml_text s = true -> xml_text (Launchd.xml_escape s) = true.
Proof.
  induction s as [|s Hs IH] using pieces_ind; [done|]. rewrite xml_text_piece by done. intros [Hc Hr]%andb_true_iff.
  specialize (IH Hr). rewrite <- (take_drop (decode_one s).2 s), xml_escape_app.
  assert (Hok : (decode_one s).1 = true) by (by apply andb_true_iff in Hc as [? _]).
  assert (Hb := decode_one_bounds s Hs).
  assert (Hp : xml_text (take (decode_one s).2 s) = true).
  { rewrite xml_text_piece by (destruct s, (decode_one _).2; done || lia). rewrite decode_one_take by done.
    rewrite take_take, Nat.min_id, Hc. rewrite drop_ge by (rewrite length_take; lia). done. }
  rewrite xml_text_app; [done|]. destruct (decode_one_bytes s Hs Hok) as [En|Hh]; [|by rewrite xml_escape_high].
  rewrite En in *. destruct s as [|c s]; [done|]. cbn [take] in *. revert Hp. clear.
  destruct c; vm_compute; done.
Qed.

Lemma eol_id s : x0d ∉ s -> eol s = s.
Proof.
  induction s as [|c s IH]; [done|]. intros [Hc Hs]%not_elem_of_cons. cbn [eol].
  rewrite bool_decide_false by congruence. by rewrite IH.
Qed.

Lemma eol_app s t : x0d ∉ s -> eol (s ++ t) = s ++ eol t.
Proof.
  induction s as [|c s IH]; [done|]. intros [Hc Hs]%not_elem_of_cons. cbn [app eol].
  rewrite bool_decide_false by congruence. by rewrite IH.
Qed.

(** Line ends and references do not meet: a tag follows the text. *)
Lemma eol_escape s r :
  eol (Launchd.xml_escape s ++ x3c :: r) = Launchd.xml_escape (eol s) ++ eol (x3c :: r).
Proof.
  induction s as [|c s IH]; [done|]. change (c :: s) with ([c] ++ s) at 1. rewrite xml_escape_app, <- app_assoc.
  destruct (decide (c = x0d)) as [->|Hc].
  - change (Launchd.xml_escape [x0d]) with [x0d]. cbn [app eol]. rewrite !(bool_decide_true (x0d = x0d)) by done.
    destruct s as [|d s]; [done|].
    assert (Hh : exists e u, Launchd.xml_escape (d :: s) ++ x3c :: r = e :: u /\ (e = nl <-> d = nl)).
    { clear. destruct d; eexists _, _; (split; [reflexivity|done]). }
    destruct Hh as (e & u & He & Hd). rewrite He in IH |- *. rewrite (bool_decide_ext _ _ Hd).
    case_bool_decide; [exact IH|]. change (nl :: eol (d :: s)) with ([nl] ++ eol (d :: s)).
    rewrite xml_escape_app. change (Launchd.xml_escape [nl]) with [nl]. cbn [app]. f_equal. exact IH.
  - rewrite eol_app.
    + cbn [eol]. rewrite bool_decide_false by done. change (c :: eol s) with ([c] ++ eol s).
      rewrite xml_escape_app, <- app_assoc. f_equal. exact IH.
    + revert Hc. clear. destruct c; intros Hc; first [by destruct Hc | apply (bool_decide_unpack _); vm_compute; exact I].
Qed.

Lemma xml_escape_byte_length c : (1 <= length (Launchd.xml_escape_byte c))%nat.
Proof. unfold Launchd.xml_escape_byte. repeat case_if; cbn; lia. Qed.

Lemma xml_escape_length s : (length s <= length (Launchd.xml_escape s))%nat.
Proof.
  induction s as [|c s IH]; cbn; [lia|]. unfold Launchd.xml_escape in *. rewrite length_app.
  pose proof (xml_escape_byte_length c). lia.
Qed.

Lemma unescape_escape_loop fuel s : (length s <= fuel)%nat -> unescape_loop fuel (Launchd.xml_escape s) = Some s.
Proof.
  revert fuel. induction s as [|c s IH]; intros fuel Hf; [by destruct fuel|].
  destruct fuel as [|fuel]; cbn [length] in Hf; [lia|].
  change (Launchd.xml_escape (c :: s)) with (Launchd.xml_escape_byte c ++ Launchd.xml_escape s).
  specialize (IH fuel ltac:(lia)). revert IH. generalize (Launchd.xml_escape s) as t. intros t IH.
  unfold Launchd.xml_escape_byte.
  destruct (decide (c = x26)) as [->|H1]; [transitivity (cons x26 <$> unescape_loop fuel t); [done|by rewrite IH]|].
  rewrite (bool_decide_false (c = x26)) by done.
  destruct (decide (c = x3c)) as [->|H2]; [transitivity (cons x3c <$> unescape_loop fuel t); [done|by rewrite IH]|].
  rewrite (bool_decide_false (c = x3c)) by done.
  destruct (decide (c = x3e)) as [->|H3]; [transitivity (cons x3e <$> unescape_loop fuel t); [done|by rewrite IH]|].
  rewrite (bool_decide_false (c = x3e)) by done.
  destruct (decide (c = x22)) as [->|H4]; [transitivity (cons x22 <$> unescape_loop fuel t); [done|by rewrite IH]|].
  rewrite (bool_decide_false (c = x22)) by done.
  destruct (decide (c = x27)) as [->|H5]; [transitivity (cons x27 <$> unescape_loop fuel t); [done|by rewrite IH]|].
  rewrite (bool_decide_false (c = x27)) by done.
  cbn [app unescape_loop]. rewrite !bool_decide_false by done. by rewrite IH.
Qed.

Lemma unescape_escape s : unescape (Launchd.xml_escape s) = Some s.
Proof. apply unescape_escape_loop, xml_escape_length. Qed.

Lemma xml_escape_no_markup s : x3c ∉ Launchd.xml_escape s.
Proof.
  induction s as [|c s IH]; [apply not_elem_of_nil|].
  change (Launchd.xml_escape (c :: s)) with (Launchd.xml_escape_byte c ++ Launchd.xml_escape s).
  rewrite elem_of_app. intros [Hin|Hin]; [|done]. revert Hin. clear IH.
  apply (bool_decide_unpack _). destruct c; vm_compute; exact I.
Qed.

Lemma starts_with_app_long p s t : (length p <= length s)%nat -> starts_with p (s ++ t) = starts_with p s.
Proof.
  revert s. induction p as [|x p IH]; intros s Hs; [by destruct s|].
  destruct s as [|y s]; cbn [length] in Hs; [lia|]. cbn. by rewrite IH by lia.
Qed.

Lemma find_sub_length p s i : find_sub p s = Some i -> (i + length p <= length s)%nat.
Proof.
  revert i. induction s as [|y s IH]; intros i; cbn [find_sub].
  - destruct p; cbn; intros [= <-]; cbn; lia.
  - destruct (starts_with p (y :: s)) eqn:E.
    + intros [= <-]. apply starts_with_spec in E as [r ->]. rewrite length_app. lia.
    + destruct (find_sub p s) as [k|] eqn:Ek; cbn; intros [= <-]. specialize (IH k eq_refl). cbn [length]. lia.
Qed.

Lemma find_sub_app p s t i : find_sub p s = Some i -> find_sub p (s ++ t) = Some i.
Proof.
  revert i. induction s as [|y s IH]; intros i Hi; pose proof (find_sub_length _ _ _ Hi) as Hl.
  - destruct p; cbn in *; [|done]. injection Hi as <-. by destruct t.
  - cbn [app find_sub] in *. change (y :: s ++ t) with ((y :: s) ++ t).
    rewrite starts_with_app_long by lia. destruct (starts_with p (y :: s)); [done|].
    destruct (find_sub p s) as [k|]; [|done]. by rewrite (IH k).
Qed.

(** One element: [pre] holds no other opening tag. *)
Lemma element_step fuel pre t rest :
  find_sub b#"<string>" (pre ++ b#"<string>") = Some (length pre) ->
  string_elements (S fuel) (pre ++ Launchd.string_node (Launchd.xml_escape t) ++ rest)
  = Some t :: string_elements fuel (b#"</string>" ++ rest).
Proof.
  intros Hpre. cbn [string_elements]. unfold Launchd.string_node.
  replace (pre ++ (b#"<string>" ++ Launchd.xml_escape t ++ b#"</string>") ++ rest)
    with ((pre ++ b#"<string>") ++ Launchd.xml_escape t ++ b#"</string>" ++ rest) by (by rewrite <- !app_assoc).
  rewrite (find_sub_app _ _ _ _ Hpre).
  replace (length pre + 8)%nat with (length (pre ++ b#"<string>")) by (by rewrite length_app).
  rewrite drop_app_length. change (b#"</string>" ++ rest) with (x3c :: b#"/string>" ++ rest).
  rewrite find_byte_app by apply xml_escape_no_markup. rewrite take_app_length, drop_app_length.
  by rewrite unescape_escape.
Qed.

(** The elements of a document with no further opening tag. *)
Lemma elements_end fuel s : find_sub b#"<string>" s = None -> string_elements fuel s = [].
Proof. intros Hs. destruct fuel; [done|]. cbn [string_elements]. by rewrite Hs. Qed.

Section plist.
Import Launchd.

(** The pieces of the document around its strings. *)
Definition plist_pieces : list bytes :=
  [unlines
     [b#"<?xml version=" ++ quoted b#"1.0" ++ b#" encoding=" ++ quoted b#"UTF-8" ++ b#"?>";
      b#"<!DOCTYPE plist PUBLIC " ++ quoted b#"-//Apple//DTD PLIST 1.0//EN" ++ b#" "
        ++ quoted b#"http://www.apple.com/DTDs/PropertyList-1.0.dtd" ++ b#">";
      b#"<plist version=" ++ quoted b#"1.0" ++ b#">"; b#"<dict>"; b#"    <key>Label</key>"] ++ b#"    ";
   [nl] ++ unlines [b#"    <key>ProgramArguments</key>"; b#"    <array>"] ++ b#"        ";
   [nl] ++ b#"        "; [nl] ++ b#"        ";
   [nl] ++ unlines
     [b#"    </array>"; b#"    <key>RunAtLoad</key>"; b#"    <true/>"; b#"    <key>KeepAlive</key>"; b#"    <dict>";
      b#"        <key>SuccessfulExit</key>"; b#"        <false/>"; b#"    </dict>"; b#"    <key>StandardOutPath</key>"]
     ++ b#"    ";
   [nl] ++ unlines [b#"    <key>StandardErrorPath</key>"] ++ b#"    ";
   [nl] ++ unlines [b#"    <key>ProcessType</key>"] ++ b#"    "].

Definition plist_end : bytes :=
  [nl] ++ unlines [b#"    <key>ThrottleInterval</key>"; b#"    <integer>5</integer>"; b#"</dict>"; b#"</plist>"].

Definition plist_strings (binary config : bytes) : list bytes :=
  [LABEL; binary; b#"--config"; config; STDOUT_PATH; STDERR_PATH; b#"Background"].

Fixpoint weave (pieces strings : list bytes) (tail : bytes) : bytes :=
  match pieces, strings with
  | p :: pieces, s :: strings => p ++ string_node (xml_escape s) ++ weave pieces strings tail
  | _, _ => tail
  end.

Lemma plist_weave binary config :
  plist_contents binary config = weave plist_pieces (plist_strings binary config) plist_end.
Proof.
  unfold plist_contents, unlines, string_node. cbn [map concat].
  rewrite <- ?app_assoc. cbn [weave plist_pieces plist_strings].
  unfold string_node. rewrite <- ?app_assoc. reflexivity.
Qed.

Lemma weave_text pieces strings tail :
  Forall (fun p => xml_text p = true) pieces -> Forall (fun s => xml_text s = true) strings -> xml_text tail = true ->
  xml_text (weave pieces strings tail) = true.
Proof.
  intros Hp. revert strings. induction Hp as [|p pieces Hp _ IH]; intros strings Hs Ht; [done|].
  destruct Hs as [|s strings Hs Hss]; [done|]. cbn [weave]. unfold string_node. rewrite <- !app_assoc.
  rewrite !xml_text_app; [by apply IH|done|by apply xml_text_escape|done|done].
Qed.

Lemma weave_eol pieces strings tail :
  Forall (fun p => x0d ∉ p) pieces -> x0d ∉ tail ->
  eol (weave pieces strings tail) = weave pieces (map eol strings) tail.
Proof.
  intros Hp Ht. revert strings. induction Hp as [|p pieces Hp _ IH]; intros strings; [by apply eol_id|].
  destruct strings as [|s strings]; [by apply eol_id|]. cbn [weave map]. unfold string_node. rewrite <- !app_assoc.
  rewrite eol_app by done. f_equal. rewrite eol_app by (apply (bool_decide_unpack _); vm_compute; exact I). f_equal.
  change (b#"</string>" ++ weave pieces strings tail) with (x3c :: b#"/string>" ++ weave pieces strings tail).
  rewrite eol_escape. f_equal. change (x3c :: b#"/string>" ++ ?t) with (b#"</string>" ++ t).
  rewrite eol_app by (apply (bool_decide_unpack _); vm_compute; exact I). by rewrite IH.
Qed.

(** No piece holds an opening tag, even after the closing tag of the string before it. *)
Lemma weave_elements fuel close pieces strings tail :
  (length strings <= fuel)%nat -> length pieces = length strings ->
  Forall (fun p => find_sub b#"<string>" ((close ++ p) ++ b#"<string>") = Some (length (close ++ p))) (take 1 pieces) ->
  Forall (fun p => find_sub b#"<string>" ((b#"</string>" ++ p) ++ b#"<string>") = Some (length (b#"</string>" ++ p)))
    (drop 1 pieces) ->
  find_sub b#"<string>" (b#"</string>" ++ tail) = None -> strings <> [] ->
  string_elements fuel (close ++ weave pieces strings tail) = map Some strings.
Proof.
  revert fuel close strings. induction pieces as [|p pieces IH]; intros fuel close [|s strings] Hf Hl Hp Hps Ht Hne;
    try done.
  destruct fuel as [|fuel]; cbn [length] in *; [lia|]. cbn [weave take drop] in *.
  rewrite app_assoc. rewrite element_step by (by inversion Hp). cbn [map]. f_equal.
  destruct strings as [|s' strings].
  - destruct pieces; [|done]. cbn. by apply elements_end.
  - apply IH; try done; try lia.
    + destruct pieces; [done|]. constructor; [by inversion Hps|constructor].
    + destruct pieces; [done|]. by inversion Hps.
Qed.

Lemma plist_elements binary config :
  let doc := weave plist_pieces (plist_strings binary config) plist_end in
  string_elements (length doc) doc = map Some (plist_strings binary config).
Proof.
  cbv zeta. apply (weave_elements _ []).
  - cbn [weave plist_pieces plist_strings length]. rewrite !length_app. cbn [length]. vm_compute (length (unlines _)). lia.
  - reflexivity.
  - apply (bool_decide_unpack _). vm_compute. exact I.
  - apply (bool_decide_unpack _). vm_compute. exact I.
  - vm_compute. reflexivity.
  - done.
Qed.
End plist.

(** * Command lines *)

Definition backslashes (n : nat) : bytes := replicate n x5c.

(** The program: up to the closing quotation mark. *)
Definition argv_program (s : bytes) : bytes * bytes :=
  match s with
  | c :: r =>
    if bool_decide (c = quote) then
      match find_byte quote r with
      | Some i => (take i r, drop (S i) r)
      | None => (r, [])
      end
    else match find_byte space s with Some i => (take i s, drop i s) | None => (s, []) end
  | [] => ([], [])
  end.

(** The arguments: blanks separate outside quotation marks; backslashes are
    literal unless a quotation mark follows, when two stand for one and an odd one
    makes the mark literal. [n] are the backslashes not yet decided. *)
Fixpoint argv_args (s : bytes) (quoting : bool) (n : nat) (cur : option bytes) : list bytes :=
  let text := default [] cur in
  match s with
  | [] => match cur with Some c => [c ++ backslashes n] | None => [] end
  | c :: r =>
    if bool_decide (c = x5c) then argv_args r quoting (S n) (Some text)
    else if bool_decide (c = quote) then
      if Nat.even n then argv_args r (negb quoting) 0 (Some (text ++ backslashes (n / 2)))
      else argv_args r quoting 0 (Some (text ++ backslashes (n / 2) ++ [quote]))
    else if (bool_decide (c = space) || bool_decide (c = x09)) && negb quoting then
      match cur with
      | Some t => (t ++ backslashes n) :: argv_args r quoting 0 None
      | None => argv_args r quoting 0 None
      end
    else argv_args r quoting 0 (Some (text ++ backslashes n ++ [c]))
  end.

Definition argv (s : bytes) : list bytes := let '(p, r) := argv_program s in p :: argv_args r false 0 None.

Lemma argv_quoted c n cur :
  quote ∉ c -> last c <> Some x5c -> (c = [] -> n = 0%nat) ->
  argv_args (c ++ [quote]) true n (Some cur) = [cur ++ backslashes n ++ c].
Proof.
  revert n cur. induction c as [|d c IH]; intros n cur Hq Hl Hn.
  - rewrite Hn by done. cbn. by rewrite !app_nil_r.
  - apply not_elem_of_cons in Hq as [Hd Hq]. cbn [app argv_args default].
    assert (Hl' : c <> [] -> last c <> Some x5c) by (intros; by destruct c).
    destruct (decide (d = x5c)) as [->|Hd5].
    + rewrite bool_decide_true by done. destruct c as [|e c]; [by cbn in Hl|].
      rewrite IH by (done || by apply Hl'). cbn [backslashes replicate]. f_equal. f_equal.
      change (x5c :: replicate n x5c) with (replicate (S n) x5c). rewrite replicate_S_end. by rewrite <- app_assoc.
    + rewrite !bool_decide_false by congruence. rewrite andb_false_r.
      destruct c as [|e c]; [cbn; by rewrite !app_nil_r|].
      rewrite IH by (done || by apply Hl'). cbn [backslashes replicate]. by rewrite <- !app_assoc.
Qed.

Lemma skipn_snoc_app (p : bytes) c r : drop (S (length p)) (p ++ c :: r) = r.
Proof. induction p; [done|]. cbn [length drop app]. done. Qed.

Lemma image_path_argv_spec spec :
  quote ∉ spec_binary_path spec -> quote ∉ config_path spec -> last (config_path spec) <> Some x5c ->
  argv (image_path_command_line spec) = [spec_binary_path spec; b#"--config"; config_path spec].
Proof.
  intros Hb Hc Hl. unfold argv, image_path_command_line, quoted. rewrite <- !app_assoc. cbn [app argv_program].
  rewrite bool_decide_true by done. rewrite find_byte_app by done. rewrite take_app_length.
  rewrite skipn_snoc_app. f_equal.
  transitivity (b#"--config" :: argv_args (config_path spec ++ [quote]) true 0 (Some [])); [reflexivity|].
  by rewrite argv_quoted.
Qed.
