(* ===== verification/ScmFacts.v ===== *)
(** The Service Control Manager by its documented behaviour, and the sequences
    of the installer over it; the service host's runs. *)
From S2P Require Import Prelude Str StrFacts External Text Structured F64 Sink Tailed Multiline Watcher.
From S2P Require Import Journal Unified EventFilter EventXml Config RemoteConfig Agent Host Setup Install WindowsService.
From Stdlib Require Import Strings.Byte.

(** A registered service: marked for deletion, it stays until it has stopped. *)
Record Registered := mkRegistered { r_info : ServiceInfo; r_running : bool; r_deleting : bool }.

(** The manager as an elevated process sees it, with nobody else at work.
    [CreateService] refuses a name that is registered, also one marked for
    deletion; [DeleteService] removes a service that is not running and marks one
    that is. *)
Class ScmOk `{ServiceManager} := {
  registered : bytes -> sys -> option Registered;
  scm_connects : forall a w, local_computer a w = None;
  scm_opens : forall n a w, open_service n a w = None <-> is_Some (registered n w);
  scm_creates : forall i w r w', create_service i w = (r, w') ->
    match registered (si_name i) w with
    | Some _ => is_Some r /\ w' = w
    | None => r = None -> registered (si_name i) w' = Some (mkRegistered i false false)
    end;
  scm_describes : forall n d m w, registered m (set_description n d w) = registered m w;
  scm_deletes : forall n w w' reg, delete_service n w = (None, w') -> registered n w = Some reg ->
    registered n w' = if r_running reg then Some (mkRegistered (r_info reg) true true) else None;
  scm_refuses_delete : forall n w m w', delete_service n w = (Some m, w') -> w' = w;
  scm_starts : forall n w w' reg, start_service n w = (None, w') -> registered n w = Some reg ->
    registered n w' = Some (mkRegistered (r_info reg) true (r_deleting reg));
}.

Section scm.
Context `{ScmOk}.

Lemma scm_exists_spec n h :
  scm_exists n h = (inl (match registered n (world h) with Some _ => true | None => false end), h).
Proof.
  unfold scm_exists. rewrite scm_connects. destruct (open_service n AccessQuery (world h)) eqn:E.
  - destruct (registered n (world h)) eqn:Er; [|done].
    assert (Ho : open_service n AccessQuery (world h) = None) by (apply scm_opens; by eexists). congruence.
  - apply scm_opens in E as [reg ->]. done.
Qed.

Lemma manager_spec a h : manager a h = (inl (), h).
Proof. unfold manager. by rewrite scm_connects. Qed.

Lemma opened_spec verb n a h :
  is_Some (registered n (world h)) -> opened verb n a h = (inl (), h).
Proof. intros Hr. unfold opened. by rewrite (proj2 (scm_opens n a (world h)) Hr). Qed.

(** What each verb leaves of the service. *)
Lemma scm_delete_spec n h reg :
  registered n (world h) = Some reg ->
  let '(r, h') := scm_delete n h in
  match r with
  | inl _ => registered n (world h') = if r_running reg then Some (mkRegistered (r_info reg) true true) else None
  | inr e => (exists m, e = CommandFailed b#"delete" m) /\ world h' = world h
  end.
Proof.
  intros Hr. unfold scm_delete, mbind, eff_bind. rewrite manager_spec, opened_spec by (by eexists).
  unfold on_world. destruct (delete_service n (world h)) as [[m|] w] eqn:E; cbn.
  - split; [by eexists|]. by apply scm_refuses_delete in E.
  - by apply (scm_deletes n (world h)).
Qed.

Lemma scm_create_registered spec h :
  is_Some (registered (name spec) (world h)) ->
  exists m h', scm_create spec h = (inr (CommandFailed b#"create" m), h') /\ world h' = world h.
Proof.
  intros [reg Hr]. unfold scm_create, mbind, eff_bind. rewrite manager_spec. unfold on_world.
  destruct (create_service _ _) as [r w] eqn:E. apply scm_creates in E. cbn [service_info si_name] in E.
  rewrite Hr in E. destruct E as [[m ->] ->]. eauto.
Qed.

Lemma scm_create_fresh spec h :
  registered (name spec) (world h) = None ->
  let '(r, h') := scm_create spec h in
  r = inl () -> registered (name spec) (world h') = Some (mkRegistered (service_info spec) false false).
Proof.
  intros Hr. unfold scm_create, mbind, eff_bind. rewrite manager_spec. unfold on_world.
  destruct (create_service _ _) as [[m|] w] eqn:E; [done|]. cbn. intros _. rewrite scm_describes.
  apply scm_creates in E. cbn [service_info si_name] in E. rewrite Hr in E. by apply E.
Qed.

Lemma scm_start_spec n h reg :
  registered n (world h) = Some reg ->
  let '(r, h') := scm_start n h in
  r = inl () -> registered n (world h') = Some (mkRegistered (r_info reg) true (r_deleting reg)).
Proof.
  intros Hr. unfold scm_start, mbind, eff_bind. rewrite manager_spec, opened_spec by (by eexists).
  unfold on_world. destruct (start_service n (world h)) as [[m|] w] eqn:E; [done|]. cbn. intros _.
  by apply (scm_starts n (world h)).
Qed.

(** Registration and start, where no service of the name is left. *)
Lemma create_start_spec spec h :
  registered (name spec) (world h) = None ->
  let '(r, h') := (scm_create spec;; scm_start (name spec);; mret true) h in
  forall b, r = inl b ->
    b = true /\ registered (name spec) (world h') = Some (mkRegistered (service_info spec) true false).
Proof.
  intros Hr. pose proof (scm_create_fresh spec h Hr) as Hc.
  unfold mbind, eff_bind. destruct (scm_create spec h) as [[[]|e] h1]; [|done]. specialize (Hc eq_refl).
  pose proof (scm_start_spec (name spec) h1 _ Hc) as Hs.
  destruct (scm_start (name spec) h1) as [[[]|e] h2]; [|done]. intros b [= <-]. split; [done|]. by apply Hs.
Qed.
End scm.

(** * The service host *)

Section host.
Import ServiceHost.

#[global] Instance ControlAction_eq_dec : EqDecision ControlAction.
Proof. solve_decision. Defined.

(** Invariant of a service that was told to stop while its agent was not
    waiting. *)
Definition unheard (s : ServiceRun) : Prop :=
  ended s = false /\ last (reports s) = Some RepStopPending /\
  match waiting s with Some seen => seen = sent s | None => True end.

Lemma unheard_step s ev : unheard s -> unheard (service_step s ev).
Proof.
  intros (He & Hl & Hw). unfold service_step. rewrite He. destruct ev as [c| |].
  - unfold delivered. destruct c; cbn; rewrite ?Hl; cbn; done.
  - destruct (waiting s) eqn:E; unfold unheard; cbn; rewrite ?E; auto.
  - destruct (waiting s) eqn:E; cbn; unfold unheard; cbn; rewrite ?E; auto.
Qed.

Lemma unheard_run evs s : unheard s -> unheard (service_run evs s).
Proof.
  unfold service_run. revert s. induction evs as [|ev evs IH]; intros s Hs; [done|].
  cbn. apply IH. by apply unheard_step.
Qed.

(** In every run a wait in progress has seen the last [send], and the end is
    the last report. *)
Definition host_wf (s : ServiceRun) : Prop :=
  (match waiting s with Some seen => seen = sent s | None => True end) /\
  (ended s = true -> last (reports s) = Some RepStopped).

Lemma stop_step s c seen :
  ended s = false -> map_control c = CancelAndStopPending -> waiting s = Some seen -> seen = sent s ->
  (control_handler c s).2
  = mkServiceRun (sent s + 1) None (reports s ++ [RepStopPending; RepStopped]) true.
Proof.
  intros He Hc Hw ->. unfold control_handler. rewrite Hc. unfold woken. cbn [snd waiting sent]. rewrite Hw.
  rewrite (proj2 (N.eqb_neq _ _)) by lia. cbn. unfold service_end. cbn. by rewrite <- app_assoc.
Qed.

Lemma control_other s c : map_control c <> CancelAndStopPending -> (control_handler c s).2 = s.
Proof. intros Hc. unfold control_handler. by destruct (map_control c). Qed.

Lemma host_wf_step s ev : host_wf s -> host_wf (service_step s ev).
Proof.
  intros [Hw Hl]. unfold service_step. destruct (ended s) eqn:He; [by split; auto|]. destruct ev as [c| |].
  - destruct (delivered c s); [|by split; [|rewrite He]].
    destruct (decide (map_control c = CancelAndStopPending)) as [Hc|Hc]; [|by rewrite control_other; [split; [|rewrite He]|]].
    destruct (waiting s) as [seen|] eqn:E.
    + rewrite (stop_step s c seen) by done. split; [done|]. intros _. cbn.
      change [RepStopPending; RepStopped] with ([RepStopPending] ++ [RepStopped]). by rewrite app_assoc, last_snoc.
    + unfold control_handler. rewrite Hc. unfold woken. cbn. rewrite E. split; cbn; [done|]. by rewrite He.
  - destruct (waiting s) eqn:E; split; cbn; rewrite ?E, ?He; done.
  - destruct (waiting s) eqn:E; cbn; split; cbn; rewrite ?E, ?He; done.
Qed.

Lemma host_wf_run evs s : host_wf s -> host_wf (service_run evs s).
Proof.
  unfold service_run. revert s. induction evs as [|ev evs IH]; intros s Hs; [done|].
  cbn. apply IH. by apply host_wf_step.
Qed.
End host.
