(* ===== verification/InstallExamples.v ===== *)
(** Concrete systems for the installers: a reader of the TOML documents that
    setup generates, a host on which every call succeeds, and a service manager
    that follows its documentation. *)
From S2P Require Import Prelude Str StrFacts External Text Structured F64 Sink Tailed Multiline Watcher OffsetFacts.
From S2P Require Import Journal Unified EventFilter EventXml Config RemoteConfig Agent Host Setup SetupFacts Install.
From S2P Require Import WindowsService ScmFacts.
From Stdlib Require Import Strings.Byte.

Module InstallExamples.

(** * A small TOML reader *)

(** The element of an array on its own line; an assignment. *)
Definition read_element (l : bytes) : option bytes :=
  match strip_prefix (b#"    " ++ [quote]) l with
  | Some t => strip_suffix ([quote] ++ b#",") t
  | None => None
  end.

Definition read_value (r : bytes) : option bytes :=
  match strip_prefix (b#" = " ++ [quote]) r with
  | Some t => strip_suffix [quote] t
  | None => None
  end.

(** [arr]: the array that is open. *)
Fixpoint toml_lines (ls : list bytes) (arr : option (bytes * list bytes)) (acc : list (bytes * Value))
    : option (list (bytes * Value)) :=
  match ls, arr with
  | [], None => Some acc
  | [], Some _ => None
  | l :: r, Some (k, vs) =>
    if bool_decide (l = b#"]") then toml_lines r None (acc ++ [(k, VArray (map VString vs))])
    else match read_element l with
         | Some v => toml_lines r (Some (k, vs ++ [v])) acc
         | None => None
         end
  | l :: r, None =>
    if is_empty l || starts_with b#"#" l then toml_lines r None acc
    else match find_byte space l with
         | Some i =>
           let k := take i l in
           let rest := drop i l in
           if bool_decide (rest = b#" = [") then toml_lines r (Some (k, [])) acc
           else match read_value rest with
                | Some v => toml_lines r None (acc ++ [(k, VString v)])
                | None => None
                end
         | None => None
         end
  end.

#[global] Instance small_toml : Toml := fun s =>
  match toml_lines (lines s) None [] with Some l => Some (map_of_list l) | None => None end.

Definition item_lines (i : TomlItem) : list bytes :=
  match i with
  | TString k v => [k ++ b#" = " ++ quoted v]
  | TStrings k vs => [k ++ b#" = ["] ++ map (fun v => b#"    " ++ quoted v ++ b#",") vs ++ [b#"]"]
  | TComment t => [b#"#" ++ t]
  | TBlank => [[]]
  end.

Lemma render_item_lines i : render_item i = concat (map (fun l => l ++ [nl]) (item_lines i)).
Proof.
  destruct i as [k v|k vs|t|]; cbn [render_item item_lines]; unfold assign.
  - cbn [map concat]. by rewrite app_nil_r, <- !app_assoc.
  - rewrite !map_app, !concat_app, map_map. cbn [map concat]. rewrite !app_nil_r, <- !app_assoc.
    do 5 f_equal. apply map_ext. intros v. unfold element_line. by rewrite <- !app_assoc.
  - cbn [map concat]. by rewrite app_nil_r, <- !app_assoc.
  - done.
Qed.

Lemma render_toml_lines d : render_toml d = concat (map (fun l => l ++ [nl]) (concat (map item_lines d))).
Proof.
  unfold render_toml. induction d as [|i d IH]; [done|]. cbn [map concat].
  by rewrite IH, render_item_lines, map_app, concat_app.
Qed.

Lemma printable_line l : printable l = true -> nl ∉ l /\ strip_cr l = l.
Proof.
  unfold printable. intros Hp. rewrite forallb_forall in Hp. split.
  - intros Hn. apply list_elem_of_In in Hn. apply Hp in Hn. by vm_compute in Hn.
  - unfold strip_cr. destruct (strip_suffix _ l) as [r|] eqn:E; [|done].
    apply strip_suffix_Some in E. exfalso. specialize (Hp x0d). rewrite E in Hp.
    assert (Hin : In x0d (r ++ [x0d])) by (apply in_app_iff; right; by left). apply Hp in Hin. by vm_compute in Hin.
Qed.

Lemma printable_app s t : printable (s ++ t) = printable s && printable t.
Proof. apply forallb_app. Qed.

Lemma bare_printable k : bare k = true -> printable k = true.
Proof.
  unfold bare, printable. intros [_ Hk]%andb_true_iff. rewrite forallb_forall in *. intros c Hc.
  specialize (Hk c Hc). revert Hk. by destruct c.
Qed.

Lemma basic_printable v : basic v = true -> printable v = true.
Proof. by intros [Hv _]%andb_true_iff. Qed.

Lemma item_lines_printable i : item_ok i = true -> Forall (fun l => printable l = true) (item_lines i).
Proof.
  destruct i as [k v|k vs|t|]; cbn [item_ok item_lines]; intros Hi.
  - apply andb_true_iff in Hi as [Hk%bare_printable Hv%basic_printable]. repeat constructor.
    unfold quoted. by rewrite !printable_app, Hk, Hv.
  - apply andb_true_iff in Hi as [Hk%bare_printable Hvs]. rewrite forallb_forall in Hvs.
    apply Forall_app. split; [repeat constructor; by rewrite printable_app, Hk|].
    apply Forall_app. split; [|by repeat constructor]. apply Forall_map, List.Forall_forall. intros v Hv.
    apply Hvs, basic_printable in Hv. unfold quoted. by rewrite !printable_app, Hv.
  - by repeat constructor.
  - by repeat constructor.
Qed.

Lemma find_space_key k r : bare k = true -> find_byte space (k ++ space :: r) = Some (length k).
Proof.
  intros [_ Hk]%andb_true_iff. apply Syslog.find_byte_app. intros Hs. apply list_elem_of_In in Hs.
  rewrite forallb_forall in Hk. apply Hk in Hs. by vm_compute in Hs.
Qed.

(** A key starts neither a comment nor an empty line. *)
Lemma key_line k r : bare k = true -> is_empty (k ++ r) || starts_with b#"#" (k ++ r) = false.
Proof.
  unfold bare. destruct k as [|c k]; [done|]. cbn [is_empty negb forallb app andb orb].
  intros [Hc _]%andb_true_iff. revert Hc. by destruct c.
Qed.

Lemma read_element_line v : read_element (b#"    " ++ quoted v ++ b#",") = Some v.
Proof.
  unfold read_element.
  rewrite (proj2 (strip_prefix_Some _ _ (v ++ [quote] ++ b#","))) by (unfold quoted; by rewrite <- !app_assoc).
  by apply strip_suffix_Some.
Qed.

Lemma read_value_line v : read_value (b#" = " ++ quoted v) = Some v.
Proof.
  unfold read_value.
  rewrite (proj2 (strip_prefix_Some _ _ (v ++ [quote]))) by (unfold quoted; by rewrite <- !app_assoc).
  by apply strip_suffix_Some.
Qed.

Lemma elements_read vs k got acc rest :
  toml_lines (map (fun v => b#"    " ++ quoted v ++ b#",") vs ++ rest) (Some (k, got)) acc
  = toml_lines rest (Some (k, got ++ vs)) acc.
Proof.
  revert got. induction vs as [|v vs IH]; intros got; [by rewrite app_nil_r|].
  cbn [map app toml_lines]. change (?a :: map ?f vs ++ rest) with (a :: (map f vs ++ rest)).
  rewrite bool_decide_false by done. rewrite read_element_line, IH. by rewrite <- app_assoc.
Qed.

(** The line of a key: what is read does not depend on the lines after it. *)
Lemma key_read k v acc rest :
  bare k = true -> toml_lines ((k ++ b#" = " ++ quoted v) :: rest) None acc = toml_lines rest None (acc ++ [(k, VString v)]).
Proof.
  intros Hk. cbn [toml_lines]. rewrite key_line by done.
  change (b#" = " ++ quoted v) with (space :: b#"= " ++ quoted v) at 1. rewrite find_space_key by done.
  cbv zeta. rewrite take_app_length, drop_app_length. rewrite bool_decide_false by done. by rewrite read_value_line.
Qed.

Lemma item_read i acc rest :
  item_ok i = true -> toml_lines (item_lines i ++ rest) None acc = toml_lines rest None (acc ++ item_entry i).
Proof.
  destruct i as [k v|k vs|t|]; cbn [item_ok item_lines item_entry]; intros Hi; rewrite ?app_nil_r.
  - apply andb_true_iff in Hi as [Hk _]. by apply key_read.
  - apply andb_true_iff in Hi as [Hk _]. cbn [app toml_lines]. rewrite key_line by done.
    change (b#" = [") with (space :: b#"= [") at 1. rewrite find_space_key by done.
    cbv zeta. rewrite take_app_length, drop_app_length. rewrite bool_decide_true by done.
    rewrite <- app_assoc, elements_read. done.
  - done.
  - done.
Qed.

#[global] Instance small_toml_ok : TomlOk.
Proof.
  intros d Hd _. unfold toml_table, small_toml. rewrite render_toml_lines, lines_terminated.
  - assert (Hr : forall acc, toml_lines (concat (map item_lines d)) None acc = Some (acc ++ entries d)).
    { unfold entries. induction d as [|i d IH]; intros acc; cbn [map concat]; [by rewrite app_nil_r|].
      cbn [forallb] in Hd. apply andb_true_iff in Hd as [Hi Hd]. rewrite item_read by done.
      by rewrite IH, <- app_assoc. }
    by rewrite Hr.
  - apply Forall_concat, Forall_map, List.Forall_forall. intros i Hi. rewrite forallb_forall in Hd.
    eapply Forall_impl; [apply item_lines_printable; by apply Hd|]. apply printable_line.
Qed.

(** * A host and its services *)

(** Every call succeeds; there is no user [witness] yet, and [useradd] adds it. *)

Notation services := (gmap bytes Registered).

#[global] Instance quiet_system : System := {|
  sys := services;
  fs_call := fun _ w => (FsDone, w);
  command := fun argv _ w => (Some (mkOutput (negb (bool_decide (hd [] argv = b#"id"))) [] []), w);
  command_files := fun argv _ _ m =>
    if bool_decide (hd [] argv = b#"useradd") then <[b#"/etc/passwd" := b#"witness:x:999"]> m else m;
  canonicalize := fun _ _ => None;
  current_exe := fun _ => Some b#"C:\Temp\witness.exe";
  privileged := fun _ => true;
|}.

Definition no_service : bytes := b#"no such service".

Definition ex_open (n : bytes) (w : services) : option bytes :=
  match w !! n with Some _ => None | None => Some no_service end.

Definition ex_create (i : ServiceInfo) (w : services) : option bytes * services :=
  match w !! si_name i with
  | Some _ => (Some b#"exists", w)
  | None => (None, <[si_name i := mkRegistered i false false]> w)
  end.

Definition ex_delete (n : bytes) (w : services) : option bytes * services :=
  match w !! n with
  | Some reg => (None, if r_running reg then <[n := mkRegistered (r_info reg) true true]> w else base.delete n w)
  | None => (Some no_service, w)
  end.

Definition ex_start (n : bytes) (w : services) : option bytes * services :=
  match w !! n with
  | Some reg => (None, <[n := mkRegistered (r_info reg) true (r_deleting reg)]> w)
  | None => (Some no_service, w)
  end.

Definition ex_query (n : bytes) (w : services) : option WsState :=
  match w !! n with Some reg => Some (if r_running reg then WsRunning else WsStopped) | None => None end.

#[global] Instance example_scm : @ServiceManager quiet_system :=
  @Build_ServiceManager quiet_system (fun _ _ => None) (fun n _ w => ex_open n w) ex_create (fun _ _ w => w)
    ex_delete ex_start (fun _ w => (None, w)) ex_query.

Lemma ex_opens (n : bytes) (w : services) : ex_open n w = None <-> is_Some (w !! n).
Proof. unfold ex_open. destruct (w !! n); split; try done; by intros [? ?]. Qed.

Lemma ex_creates (i : ServiceInfo) (w : services) r w' :
  ex_create i w = (r, w') ->
  match w !! si_name i with
  | Some _ => is_Some r /\ w' = w
  | None => r = None -> w' !! si_name i = Some (mkRegistered i false false)
  end.
Proof.
  unfold ex_create. destruct (w !! si_name i) eqn:E; intros [= <- <-]; [done|].
  intros _. by rewrite lookup_insert_eq.
Qed.

Lemma ex_deletes (n : bytes) (w w' : services) reg :
  ex_delete n w = (None, w') -> w !! n = Some reg ->
  w' !! n = if r_running reg then Some (mkRegistered (r_info reg) true true) else None.
Proof.
  unfold ex_delete. destruct (w !! n) as [r|] eqn:E; [|done]. intros [= <-] [= ->].
  destruct (r_running reg); [by rewrite lookup_insert_eq|by rewrite lookup_delete_eq].
Qed.

Lemma ex_refuses (n : bytes) (w : services) m w' : ex_delete n w = (Some m, w') -> w' = w.
Proof. unfold ex_delete. by destruct (w !! n); intros [= <- <-]. Qed.

Lemma ex_starts (n : bytes) (w w' : services) reg :
  ex_start n w = (None, w') -> w !! n = Some reg -> w' !! n = Some (mkRegistered (r_info reg) true (r_deleting reg)).
Proof.
  unfold ex_start. destruct (w !! n) as [r|] eqn:E; [|done]. intros [= <-] [= ->]. by rewrite lookup_insert_eq.
Qed.

#[global] Instance example_scm_ok : @ScmOk quiet_system example_scm :=
  @Build_ScmOk quiet_system example_scm (fun n (w : services) => w !! n) (fun _ _ => eq_refl)
    (fun n _ w => ex_opens n w) ex_creates (fun _ _ _ _ => eq_refl) ex_deletes ex_refuses ex_starts.

Definition example_spec : ServiceSpec := service_spec win_binary_path.
Definition running_service : Registered := mkRegistered (service_info example_spec) true false.
Definition fresh_host : Host := mkHost ∅ ∅ (∅ : services).
Definition running_host : Host := mkHost ∅ ∅ ({[ SERVICE_NAME := running_service ]} : services).

(** An installed unit, and the users of the host. *)
Definition unit_host : Host :=
  mkHost {[ Systemd.SERVICE_FILE := b#"[Unit]"; b#"/etc/passwd" := b#"root:x:0" ]} ∅ (∅ : services).
Definition plain_install : InstallArgs := mkInstallArgs None DEFAULT_SERVER None true false.

Definition offline_args : SetupArgs :=
  mkSetupArgs b#"0123456789abcdef0123456789abcdef" DEFAULT_SERVER None CONFIG_FILE true false.
End InstallExamples.
