(* ===== verification/InstallProps.v ===== *)
(** Properties of setup, the installers and the Windows service. *)
From S2P Require Import Prelude Str StrFacts External Text Structured F64 Sink Tailed Multiline Watcher OffsetFacts.
From S2P Require Import Journal Unified EventFilter EventXml Config RemoteConfig Agent Host Setup SetupFacts Install WindowsService InstallTextFacts ScmFacts InstallExamples Examples.
From Stdlib Require Import Strings.Byte.

(** * Setup *)

Section setup.
Context `{System, Toml, !TomlOk, Regex}.
Context (version : bytes).


End setup.

(** * The installers *)

(** A file that is there stays as it is. *)
Definition kept `{System} (q : bytes) (h h' : Host) : Prop := is_Some (files h !! q) -> files h' !! q = files h !! q.

#[global] Instance kept_preorder `{System} q : PreOrder (kept q).
Proof.
  split; [done|]. intros x y z Hxy Hyz Hx. specialize (Hxy Hx). rewrite <- Hxy. apply Hyz. by rewrite Hxy.
Qed.

Lemma same_kept `{System} q {A} (m : Eff A) : keeps (same_file q) m -> keeps (kept q) m.
Proof. intros Hm h _. apply Hm. Qed.

(** Without [--force] a file is written only when it is not there. *)
Lemma unless_there_kept `{System} q p (n : Eff unit) :
  (p <> q -> keeps (same_file q) n) ->
  keeps (kept q) (there ← exists_file p; if (there : bool) && negb false then mret () else n).
Proof.
  intros Hn h Hq. unfold mbind, eff_bind, exists_file. rewrite andb_true_r.
  destruct (decide (p = q)) as [->|Hp]; [by rewrite bool_decide_true|].
  case_if; [done|]. by apply Hn.
Qed.

Section installers.
Context `{ServiceManager, Toml, Regex}.
Context (version exe sdir : bytes) (j : bool).

Lemma execute_kept q p args :
  sa_force args = false -> spares (fetch_args version (sa_server args)) q -> keeps (kept q) (execute version p j args).
Proof.
  intros Hf Hsp h Hq. destruct (decide (q = sa_config args)) as [->|Hne]; [|by apply execute_other].
  by destruct (execute_existing version p j args h Hq Hf) as [-> _].
Qed.

Lemma run_cmd_same q cmd args : spares (cmd :: args) q -> keeps (same_file q) (Systemd.run_cmd cmd args).
Proof. intros Hs. unfold Systemd.run_cmd. keep. Qed.

Lemma launchctl_same q args : spares (b#"launchctl" :: args) q -> keeps (same_file q) (Launchd.launchctl args).
Proof. intros Hs. unfold Launchd.launchctl. keep. Qed.

Lemma on_world_same q f verb : keeps (same_file q) (on_world f verb).
Proof. intros h. unfold on_world. by destruct (f (world h)). Qed.

Hint Resolve run_cmd_same launchctl_same on_world_same : witness.

(** The binary is the only file that is replaced without being asked. *)
Lemma systemd_binary_same q : q <> binary_path -> keeps (same_file q) (Systemd.install_binary exe).
Proof.
  intros Hq h. unfold Systemd.install_binary. destruct (current_exe _) as [current|]; [|done].
  match goal with |- same_file _ _ (?m h).2 => assert (Hk : keeps (same_file q) m) by keep end. apply Hk.
Qed.

Lemma launchd_binary_same q : q <> binary_path -> keeps (same_file q) (Launchd.install_binary exe).
Proof.
  intros Hq h. unfold Launchd.install_binary. destruct (current_exe _) as [current|]; [|done].
  match goal with |- same_file _ _ (?m h).2 => assert (Hk : keeps (same_file q) m) by keep end. apply Hk.
Qed.

Lemma windows_binary_same q : q <> win_binary_path -> keeps (same_file q) (install_binary exe).
Proof.
  intros Hq h. unfold install_binary. destruct (current_exe _) as [current|]; [|done].
  match goal with |- same_file _ _ (?m h).2 => assert (Hk : keeps (same_file q) m) by keep end. apply Hk.
Qed.

Lemma scm_install_same q spec f : keeps (same_file q) (install_sequence ScmPlatform spec f).
Proof.
  unfold install_sequence. cbn [exists_ delete create start ScmPlatform].
  unfold scm_exists, scm_delete, scm_create, scm_start, manager, opened, describe. keep; by intros h.
Qed.

(** The commands an installation runs. *)
Definition install_commands (p : Platform) (args : InstallArgs) : list (list bytes) :=
  let curl := fetch_args version (ia_server args) in
  match p with
  | Linux =>
    [[b#"id"; b#"-u"; b#"witness"];
     [b#"useradd"; b#"--system"; b#"--no-create-home"; b#"--shell"; b#"/usr/sbin/nologin"; b#"witness"];
     [b#"getent"; b#"group"; b#"adm"]; [b#"usermod"; b#"-aG"; b#"adm"; b#"witness"];
     [b#"systemctl"; b#"daemon-reload"]; curl; [b#"systemctl"; b#"enable"; b#"--now"; b#"witness"]]
  | MacOs =>
    [curl; [b#"launchctl"; b#"bootstrap"; Launchd.DOMAIN; Launchd.PLIST_PATH];
     [b#"launchctl"; b#"enable"; Launchd.service_target Launchd.DOMAIN Launchd.LABEL]]
  | Windows => [curl]
  | OtherOs => []
  end.

Definition untouched (p : Platform) (args : InstallArgs) (q : bytes) : Prop :=
  Forall (fun argv => spares argv q) (install_commands p args).

Lemma systemd_install_kept q args :
  q <> binary_path -> force args = false -> untouched Linux args q ->
  keeps (kept q) (systemd_install version exe j args).
Proof.
  intros Hq Hf Hsp. unfold untouched, install_commands in Hsp. rewrite !Forall_cons in Hsp.
  destruct Hsp as (? & ? & ? & ? & ? & Hcurl & ? & _). unfold systemd_install. rewrite Hf.
  assert (Hb := same_kept q _ (systemd_binary_same q Hq)).
  assert (Hu : keeps (kept q) Systemd.create_user) by (apply same_kept; unfold Systemd.create_user; keep).
  assert (Hs : keeps (kept q) (Systemd.install_service false)) by (apply unless_there_kept; intros; keep).
  assert (Hr : keeps (kept q) (Systemd.run_cmd b#"systemctl" [b#"enable"; b#"--now"; b#"witness"]))
    by (by apply same_kept, run_cmd_same).
  keep; [by intros h | by apply execute_kept].
Qed.

Lemma launchd_install_kept q args :
  q <> binary_path -> force args = false -> untouched MacOs args q ->
  keeps (kept q) (launchd_install version exe Launchd.MacOsPlatform j args).
Proof.
  intros Hq Hf Hsp. unfold untouched, install_commands in Hsp. rewrite !Forall_cons in Hsp.
  destruct Hsp as (Hcurl & ? & ? & _). unfold launchd_install. rewrite Hf.
  assert (Hb := same_kept q _ (launchd_binary_same q Hq)).
  assert (Hd : keeps (kept q) Launchd.create_dirs) by (apply same_kept; unfold Launchd.create_dirs; keep).
  assert (Hw : forall b, keeps (kept q) (Launchd.write_plist b false)) by (intros b; apply unless_there_kept; intros; keep).
  assert (Hl : keeps (kept q) (Launchd.load_daemon Launchd.MacOsPlatform Launchd.PLIST_PATH)).
  { apply same_kept. unfold Launchd.load_daemon. cbn [Launchd.bootstrap Launchd.enable Launchd.MacOsPlatform]. keep. }
  assert (Hr : keeps (kept q) Launchd.require_root) by (apply same_kept; unfold Launchd.require_root; keep).
  keep. by apply execute_kept.
Qed.

Lemma windows_install_kept q args :
  q <> win_binary_path -> force args = false -> untouched Windows args q ->
  keeps (kept q) (windows_install version exe sdir j args).
Proof.
  intros Hq Hf Hsp. apply Forall_cons in Hsp as [Hcurl _]. unfold windows_install.
  assert (Hb := same_kept q _ (windows_binary_same q Hq)).
  assert (Hd : keeps (kept q) (create_dirs sdir)) by (apply same_kept; unfold create_dirs; keep).
  assert (Hi := fun spec f => same_kept q _ (scm_install_same q spec f)).
  assert (Hr : keeps (kept q) require_elevated) by (apply same_kept; unfold require_elevated; keep).
  keep. by apply execute_kept.
Qed.

Definition installed_binary (p : Platform) : bytes :=
  match p with Windows => win_binary_path | _ => binary_path end.

Lemma run_kept p args q :
  q <> installed_binary p -> force args = false -> untouched p args q ->
  keeps (kept q) (run version exe sdir j p args).
Proof.
  intros Hq Hf Hsp. destruct p; cbn [run installed_binary] in *.
  - by apply systemd_install_kept.
  - by apply launchd_install_kept.
  - pose proof (windows_install_kept q args Hq Hf Hsp). keep.
  - keep.
Qed.

(** C34: An installation respects what it finds, on every platform and wherever it
    fails. Without the privileges it needs it fails, changes nothing and asks the
    system for nothing; without [--force] every file that is there, the
    configuration and the service's definition among them, keeps its contents,
    the installed binary excepted and what the commands it runs write themselves
    ([useradd] and [usermod] rewrite the databases of users and groups). *)
Theorem install_respects_host p args h :
  (privileged (world h) = false -> exists e, run version exe sdir j p args h = (inr e, h)) /\
  (force args = false -> forall q, is_Some (files h !! q) -> q <> installed_binary p -> untouched p args q ->
     files (run version exe sdir j p args h).2 !! q = files h !! q).
Proof.
  split.
  - intros Hp. destruct p; cbn [run];
      unfold systemd_install, launchd_install, windows_install, Launchd.require_root, require_elevated;
      unfold mbind, eff_bind, is_privileged; rewrite ?Hp; by eexists.
  - intros Hf q Hs Hq Hsp. by apply run_kept.
Qed.

(** Removal keeps the configuration and the state unless they are to be purged:
    without [--purge] the daemon's property list is the only file that goes, of those
    that [launchctl bootout] leaves alone. *)
Theorem uninstall_keeps_data p args h q :
  purge args = false -> q <> Launchd.PLIST_PATH ->
  spares [b#"launchctl"; b#"bootout"; Launchd.DOMAIN; Launchd.PLIST_PATH] q ->
  files (run_uninstall sdir p args h).2 !! q = files h !! q.
Proof.
  intros Hp Hq Hsp. assert (Hk : keeps (same_file q) (run_uninstall sdir p args)); [|by apply Hk].
  destruct p; cbn [run_uninstall]; [keep| | |keep].
  - unfold Launchd.uninstall, Launchd.require_root, Launchd.unload_daemon. rewrite Hp.
    cbn [Launchd.bootout Launchd.MacOsPlatform]. keep.
  - unfold uninstall, require_elevated, uninstall_sequence. rewrite Hp.
    cbn [query_state stop delete ScmPlatform]. unfold scm_query_state, scm_stop, scm_delete, manager, opened.
    keep; by intros h0.
Qed.

(** With it, and when the calls succeed, the configuration file is gone too. *)
Theorem uninstall_purges p args h h' :
  (forall op w, (fs_call op w).1 = FsDone) -> p = MacOs \/ p = Windows -> purge args = true ->
  run_uninstall sdir p args h = (inl (), h') ->
  files h' !! (match p with Windows => WIN_CONFIG_FILE | _ => CONFIG_FILE end) = None.
Proof.
  intros Hok Hp Hpurge.
  assert (Hrm : forall f h0, files (ignore (remove_file f) h0).2 !! f = None).
  { intros f h0. unfold ignore, remove_file. destruct (files h0 !! f) eqn:E; [|done].
    specialize (Hok (RemoveFile f) (world h0)). destruct (fs_call _ _) as [a w]. cbn in Hok. subst a.
    cbn. by rewrite lookup_delete_eq. }
  destruct Hp as [->| ->]; cbn [run_uninstall].
  - unfold Launchd.uninstall. rewrite Hpurge. unfold mbind, eff_bind at 1 2 3 4.
    destruct (Launchd.require_root h) as [[]h1]; [|done]. cbn [ignore].
    destruct (remove_file _ _) as [[]h2]; [|done]. intros [= <-]. apply Hrm.
  - unfold uninstall. rewrite Hpurge. unfold mbind, eff_bind at 1 2 3.
    destruct (require_elevated h) as [[]h1]; [|done]. intros [= <-]. apply Hrm.
Qed.
End installers.

(** * What the service managers are told *)

(** C35: launchd runs the agent that was installed: for all paths of XML
    characters the property list is a text of XML characters, and the texts of its
    string elements, with line ends and references read by the rules of XML, are the
    label, the binary, [--config], the configuration file and the log files, so that
    no path can add an element or an argument. A path without a carriage return
    is read back as it is; of the others every line end is read as a line feed. *)
Theorem plist_reads_back binary config :
  xml_text binary = true -> xml_text config = true ->
  read_strings (Launchd.plist_contents binary config)
  = Some (map Some [Launchd.LABEL; eol binary; b#"--config"; eol config; Launchd.STDOUT_PATH; Launchd.STDERR_PATH;
                    b#"Background"]) /\
  (x0d ∉ binary -> eol binary = binary) /\ (x0d ∉ config -> eol config = config).
Proof.
  intros Hb Hc. split; [|split; apply eol_id]. unfold read_strings. rewrite plist_weave, weave_text.
  - rewrite weave_eol by (apply (bool_decide_unpack _); vm_compute; exact I). cbv zeta. f_equal.
    apply (plist_elements (eol binary) (eol config)).
  - apply (bool_decide_unpack _). vm_compute. exact I.
  - unfold plist_strings. rewrite !Forall_cons. by split_and!.
  - by vm_compute.
Qed.

(** The service's command line is its three parts: split by the rules of
    Windows, the quoted image path is the binary, [--config] and the
    configuration file, blanks and backslashes in the paths included. *)
Theorem image_path_reads_back spec :
  quote ∉ spec_binary_path spec -> quote ∉ config_path spec -> last (config_path spec) <> Some x5c ->
  argv (image_path_command_line spec) = [spec_binary_path spec; b#"--config"; config_path spec].
Proof. apply image_path_argv_spec. Qed.

(** * The Windows service *)

Section scm.
Context `{ScmOk}.

(** Registration on Windows: an existing service is left entirely alone
    without [--force]; where there was none, or a stopped one was to be replaced,
    success means that the service is registered with the installed binary and
    configuration, running, and not marked for deletion. *)
Theorem install_sequence_registers spec force h :
  let '(r, h') := install_sequence ScmPlatform spec force h in
  match registered (name spec) (world h) with
  | Some reg =>
    if force then
      r_running reg = false -> forall b, r = inl b ->
        b = true /\ registered (name spec) (world h') = Some (mkRegistered (service_info spec) true false)
    else r = inl false /\ h' = h
  | None => forall b, r = inl b ->
      b = true /\ registered (name spec) (world h') = Some (mkRegistered (service_info spec) true false)
  end.
Proof.
  unfold install_sequence. cbn [exists_ delete create start ScmPlatform].
  unfold mbind at 1, eff_bind at 1. rewrite scm_exists_spec.
  destruct (registered (name spec) (world h)) as [reg|] eqn:Hr; cbn [andb negb].
  - destruct force; cbn [negb]; [|done]. unfold mbind at 1, eff_bind at 1.
    pose proof (scm_delete_spec (name spec) h reg Hr) as Hd.
    destruct (scm_delete (name spec) h) as [[[]|e] h1]; [|done].
    pose proof (create_start_spec spec h1) as Hc.
    destruct ((scm_create spec;; _) h1) as [r h2]. intros Hrun. rewrite Hrun in Hd. by apply Hc.
  - unfold mbind at 1, eff_bind at 1. cbn [mret eff_ret].
    pose proof (create_start_spec spec h Hr) as Hc.
    by destruct ((scm_create spec;; _) h) as [r h2].
Qed.

(** [--force] cannot replace a running service: it is deleted without being
    stopped, which only marks it, and the registration of its successor is
    refused. The installation fails, and the service that ran is left marked for
    deletion: when it stops, none is registered. *)
Theorem force_on_running_fails spec h reg :
  registered (name spec) (world h) = Some reg -> r_running reg = true ->
  let '(r, h') := install_sequence ScmPlatform spec true h in
  (exists m, r = inr (CommandFailed b#"delete" m) /\ registered (name spec) (world h') = Some reg) \/
  (exists m, r = inr (CommandFailed b#"create" m) /\
     registered (name spec) (world h') = Some (mkRegistered (r_info reg) true true)).
Proof.
  intros Hr Hrun. unfold install_sequence. cbn [exists_ delete create start ScmPlatform].
  unfold mbind at 1, eff_bind at 1. rewrite scm_exists_spec, Hr. cbn [andb negb].
  unfold mbind at 1, eff_bind at 1. pose proof (scm_delete_spec (name spec) h reg Hr) as Hd.
  destruct (scm_delete (name spec) h) as [[[]|e] h1].
  - rewrite Hrun in Hd.
    assert (Hs : is_Some (registered (name spec) (world h1))) by (rewrite Hd; by eexists).
    destruct (scm_create_registered spec h1 Hs) as (m & h2 & Hc & Hw).
    unfold mbind, eff_bind. rewrite Hc. right. exists m. split; [done|]. by rewrite Hw.
  - destruct Hd as [Hm Hw]. destruct Hm as [m ->]. left. exists m. split; [done|]. by rewrite Hw.
Qed.
End scm.

Section host.
Import ServiceHost.

(** C36: A stop control is heard only while the agent waits for signals. Delivered
    then, it ends the service at once, which reports that it is stopping and
    stopped. Delivered while the agent starts up or drains for a reload, it is
    lost for good: the receiver of the next wait is made after it and has seen it,
    no other stop is delivered while the service says it is stopping, and the
    service never ends. The control and the wake-up it causes are one step here; a
    reload that becomes ready in the same instant is not considered. *)
Theorem stop_heard_only_waiting evs c :
  let s := service_run evs service_start in
  map_control c = CancelAndStopPending -> delivered c s = true ->
  match waiting s with
  | Some _ =>
    let s' := service_step s (EvControl c) in
    ended s' = true /\ reports s' = reports s ++ [RepStopPending; RepStopped]
  | None => forall more, ended (service_run more (service_step s (EvControl c))) = false
  end.
Proof.
  intros s Hc Hd. assert (Hwf : host_wf s) by (apply host_wf_run; by split). destruct Hwf as [Hw Hl].
  assert (He : ended s = false).
  { destruct (ended s); [|done]. specialize (Hl eq_refl). unfold delivered in Hd. by rewrite Hc, Hl in Hd. }
  unfold service_step. rewrite He, Hd. destruct (waiting s) as [seen|] eqn:E.
  - by rewrite (stop_step s c seen).
  - intros more. apply unheard_run. unfold control_handler. rewrite Hc. unfold woken. cbn. rewrite E.
    split; [done|]. split; [cbn; by rewrite last_snoc|done].
Qed.

(** What the manager has been told, and whether the service has ended. *)
Definition told (s : ServiceRun) : Prop :=
  (reports s = [RepRunning] /\ ended s = false) \/
  (reports s = [RepRunning; RepStopPending] /\ ended s = false) \/
  (reports s = [RepRunning; RepStopPending; RepStopped] /\ ended s = true).

Lemma told_step s ev : told s -> told (service_step s ev).
Proof.
  intros Hs. unfold service_step. destruct (ended s) eqn:He; [done|]. destruct ev as [c| |].
  - destruct (delivered c s) eqn:Hd; [|done]. unfold control_handler, delivered in *.
    destruct (map_control c) eqn:Ec; [|done|done]. cbn [snd].
    destruct Hs as [[Hr _]|[[Hr _]|[_ Hf]]]; [|by rewrite Hr in Hd|congruence].
    unfold woken. cbn. destruct (waiting s) as [seen|]; [|right; left; by rewrite Hr].
    destruct (_ =? _); [right; left; by rewrite Hr|]. right. right. unfold service_end. cbn. by rewrite Hr.
  - destruct (waiting s); [done|]. unfold told in *. cbn. by rewrite He in *.
  - destruct (waiting s); cbn; [|done]. unfold told in *. cbn. by rewrite He in *.
Qed.

(** The service is reported by the book, whatever controls come and whatever the
    agent does: it is running, then stopping at most once, then stopped at most
    once and only at its end; stop and shutdown are accepted only while it runs;
    and it never reports a failure, not even when the agent could not be run. *)
Theorem service_reports_legal registered runtime evs :
  let st := statuses (run_service registered runtime evs) in
  map current_state st ∈ [[]; [RepRunning]; [RepRunning; RepStopPending];
    [RepRunning; RepStopPending; RepStopped]; [RepRunning; RepStopped]] /\
  Forall (fun s => (accepts_stop s = true <-> current_state s = RepRunning) /\ exit_code s = 0) st.
Proof.
  assert (Hst : forall rs, Forall (fun s => (accepts_stop s = true <-> current_state s = RepRunning) /\ exit_code s = 0)
    (map report rs)) by (intros rs; apply Forall_map, Forall_true; by intros []).
  assert (Hmap : forall rs, map current_state (map report rs) = rs)
    by (intros rs; rewrite map_map; induction rs as [|r rs IH]; cbn in *; [done|by rewrite IH]).
  assert (Ht : told (service_run evs service_start)).
  { unfold service_run. assert (H0 : told service_start) by (by left). revert H0. generalize service_start.
    induction evs as [|ev evs IH]; intros s Hs; [done|]. by apply IH, told_step. }
  unfold run_service, statuses. destruct registered; cbn [negb]; [|split; [set_solver|constructor]].
  destruct runtime; split; try apply Hst; rewrite Hmap; [|set_solver].
  destruct Ht as [[-> _]|[[-> _]|[-> _]]]; set_solver.
Qed.
End host.

(** * On concrete inputs *)

Section witnesses.
Import InstallExamples.


(** On a host with a unit file: it is kept, while the user is added. *)
Lemma install_respects_host_witness :
  files (run b#"1" b#"ELF" b#"/s" true Linux plain_install unit_host).2 !! Systemd.SERVICE_FILE = Some b#"[Unit]" /\
  files (run b#"1" b#"ELF" b#"/s" true Linux plain_install unit_host).2 !! b#"/etc/passwd" = Some b#"witness:x:999".
Proof.
  split; [|by vm_compute].
  assert (Hr := proj2 (install_respects_host b#"1" b#"ELF" b#"/s" true Linux plain_install unit_host) eq_refl
    Systemd.SERVICE_FILE ltac:(by eexists) ltac:(by vm_compute)).
  rewrite Hr; [by vm_compute|]. apply Forall_forall. intros argv Hin stdin w m. cbn [command_files quiet_system].
  case_bool_decide; [|done]. by rewrite lookup_insert_ne.
Defined.

Lemma plist_reads_back_witness :
  read_strings (Launchd.plist_contents b#"/opt/a & b/<witness>" CONFIG_FILE)
  = Some (map Some [Launchd.LABEL; b#"/opt/a & b/<witness>"; b#"--config"; CONFIG_FILE; Launchd.STDOUT_PATH;
                    Launchd.STDERR_PATH; b#"Background"]).
Proof. exact (proj1 (plist_reads_back b#"/opt/a & b/<witness>" CONFIG_FILE eq_refl eq_refl)). Defined.

Lemma image_path_reads_back_witness :
  argv (image_path_command_line example_spec) = [win_binary_path; b#"--config"; WIN_CONFIG_FILE].
Proof.
  refine (image_path_reads_back example_spec _ _ _).
  - apply (bool_decide_unpack _). vm_compute. exact I.
  - apply (bool_decide_unpack _). vm_compute. exact I.
  - vm_compute. discriminate.
Defined.

Lemma install_sequence_registers_witness :
  let '(r, h') := install_sequence ScmPlatform example_spec false fresh_host in
  forall b, r = inl b ->
    b = true /\ registered SERVICE_NAME (world h') = Some (mkRegistered (service_info example_spec) true false).
Proof. exact (install_sequence_registers example_spec false fresh_host). Defined.

Lemma force_on_running_fails_witness :
  let '(r, h') := install_sequence ScmPlatform example_spec true running_host in
  (exists m, r = inr (CommandFailed b#"delete" m) /\ registered SERVICE_NAME (world h') = Some running_service) \/
  (exists m, r = inr (CommandFailed b#"create" m) /\
     registered SERVICE_NAME (world h') = Some (mkRegistered (service_info example_spec) true true)).
Proof. refine (force_on_running_fails example_spec running_host running_service _ _); reflexivity. Defined.

Lemma stop_heard_only_waiting_witness :
  ServiceHost.ended
    (ServiceHost.service_step (ServiceHost.service_run [ServiceHost.EvWait] ServiceHost.service_start)
       (ServiceHost.EvControl ServiceHost.CtlStop)) = true /\
  ServiceHost.ended
    (ServiceHost.service_run [ServiceHost.EvControl ServiceHost.CtlStop; ServiceHost.EvWait; ServiceHost.EvReload]
       (ServiceHost.service_run [ServiceHost.EvWait; ServiceHost.EvReload] ServiceHost.service_start)) = false.
Proof.
  split.
  - refine (proj1 (stop_heard_only_waiting [ServiceHost.EvWait] ServiceHost.CtlStop _ _)); reflexivity.
  - refine (stop_heard_only_waiting [ServiceHost.EvWait; ServiceHost.EvReload] ServiceHost.CtlStop _ _
      [ServiceHost.EvWait; ServiceHost.EvReload]); reflexivity.
Defined.
End witnesses.
