(* ===== verification/MacMetrics.v ===== *)
(** [src/src/metrics/macos/]: the load, memory, CPU, disk and network collectors
    of macOS.

    A collector is a function of what the system calls answer, its filter and
    its previous state to the calls it makes on the sink, like those of
    [Collectors]. *)
From S2P Require Import Prelude Str StrFacts Text External F64 Sink EventFilter Config Derived Collectors DiskSpace.
From Stdlib Require Import Strings.Byte.

Module Mac.

(** * load.rs *)

(** [usize::try_from] of the [long] of [sysconf], zero excluded. *)
Definition mac_online_cpus (sysconf : Z) : option N :=
  if (0 <? sysconf)%Z then Some (Z.to_N sysconf) else None.

(** [loads]: what [getloadavg] filled in when it returned at least 3. *)
Definition mac_load_collect (loads : option (f64 * f64 * f64)) (sysconf : Z) : list Metric :=
  match loads with
  | None => []
  | Some (l1, l5, l15) =>
    [gauge_call b#"system.load.1" l1 []; gauge_call b#"system.load.5" l5 []; gauge_call b#"system.load.15" l15 []]
    ++ option_call (mac_online_cpus sysconf ≫= load_per_cpu l1) b#"system.load.1_per_cpu"
  end.

(** * memory.rs *)

(** The page counts the collector reads, each a [u32]. *)
Record VmStats := mkVmStats { free_count : N; inactive_count : N; purgeable_count : N }.

(** [page_size]: the answer of [sysconf] as a [u64]. [swap]: used and total. *)
Definition mac_memory_collect (memsize : option N) (page_size : N) (vm : option VmStats) (swap : option (N * N))
    : list Metric :=
  match vm with
  | None => []
  | Some vm =>
    let free := wrap64 (free_count vm * page_size) in
    let inactive := wrap64 (inactive_count vm * page_size) in
    let purgeable := wrap64 (purgeable_count vm * page_size) in
    let available := wrap64 (free + inactive + purgeable) in
    let cached := wrap64 (inactive + purgeable) in
    match memsize with
    | Some t =>
      [gauge_call b#"system.memory.total" (f64_of_N t) [];
       gauge_call b#"system.memory.used" (f64_of_N (t - available)) []]
      ++ option_call (memory_used_percent (f64_of_N t) (f64_of_N available)) b#"system.memory.used_percent"
    | None => []
    end
    ++ [gauge_call b#"system.memory.available" (f64_of_N available) [];
        gauge_call b#"system.memory.cached" (f64_of_N cached) []]
    ++ match swap with
       | Some (used, total) =>
         gauge_call b#"system.memory.swap_used" (f64_of_N used) []
         :: option_call (swap_used_percent (f64_of_N total) (f64_of_N used)) b#"system.memory.swap_used_percent"
       | None => []
       end
  end.

(** * cpu.rs *)

Record CpuTicks := mkCpuTicks { t_user : N; t_system : N; t_idle : N; t_nice : N }.

Definition cpu_total (t : CpuTicks) : N := wrap64 (t_user t + t_system t + t_idle t + t_nice t).

(** The [i32] of the kernel, as the [u32] it is. *)
Definition as_u32 (z : Z) : N := Z.to_N (z mod 4294967296).

(** [info]: the numbers [host_processor_info] returned, four for each CPU. *)
Definition core_ticks (info : list Z) (i : nat) : CpuTicks :=
  let at_ k := as_u32 (default 0%Z (info !! (i * 4 + k)%nat)) in
  mkCpuTicks (at_ 0%nat) (at_ 1%nat) (at_ 2%nat) (at_ 3%nat).

Definition read_cpu_ticks (answer : option (nat * list Z)) : option (list CpuTicks) :=
  match answer with
  | None => None
  | Some (num_cpus, info) =>
    let cpus := map (core_ticks info) (seq 0 num_cpus) in
    if is_empty cpus then None else Some cpus
  end.

Definition add_ticks (a t : CpuTicks) : CpuTicks :=
  mkCpuTicks (wrap64 (t_user a + t_user t)) (wrap64 (t_system a + t_system t))
    (wrap64 (t_idle a + t_idle t)) (wrap64 (t_nice a + t_nice t)).

Definition sum_ticks (per_cpu : list CpuTicks) : CpuTicks := fold_left add_ticks per_cpu (mkCpuTicks 0 0 0 0).

Definition tick_deltas (label_ : bytes) (current prev_val : CpuTicks) : list Metric :=
  let dt := cpu_total current - cpu_total prev_val in
  if dt =? 0 then []
  else
    let d := f64_of_N dt in
    let labels := [(b#"core", label_)] in
    let pct cur old := f64_mul (f64_div (f64_of_N (cur - old)) d) f100 in
    let idle := pct (t_idle current) (t_idle prev_val) in
    [gauge_call b#"system.cpu.user"
       (pct (wrap64 (t_user current + t_nice current)) (wrap64 (t_user prev_val + t_nice prev_val))) labels;
     gauge_call b#"system.cpu.system" (pct (t_system current) (t_system prev_val)) labels;
     gauge_call b#"system.cpu.idle" idle labels]
    ++ if bool_decide (label_ = b#"total") then
         match cpu_busy_percent idle with
         | Some busy => [gauge_call b#"system.cpu.busy_percent" busy labels]
         | None => []
         end
       else [].

Definition emit_cpu (label_ : bytes) (current : CpuTicks) (prev : gmap bytes CpuTicks)
    : gmap bytes CpuTicks * list Metric :=
  (<[label_ := current]> prev,
   match prev !! label_ with Some prev_val => tick_deltas label_ current prev_val | None => [] end).

(** The cores from [i] on. *)
Fixpoint emit_cores (i : N) (per_cpu : list CpuTicks) (prev : gmap bytes CpuTicks)
    : gmap bytes CpuTicks * list Metric :=
  match per_cpu with
  | [] => (prev, [])
  | ticks :: rest =>
    let '(prev1, calls) := emit_cpu (show_N i) ticks prev in
    let '(prev2, more) := emit_cores (i + 1) rest prev1 in
    (prev2, calls ++ more)
  end.

Definition mac_cpu_collect (answer : option (nat * list Z)) (prev : gmap bytes CpuTicks)
    : gmap bytes CpuTicks * list Metric :=
  match read_cpu_ticks answer with
  | None => (prev, [])
  | Some per_cpu =>
    let had_baseline := bool_decide (is_Some (prev !! b#"total")) in
    let '(prev1, calls) := emit_cpu b#"total" (sum_ticks per_cpu) prev in
    let '(prev2, more) := emit_cores 0 per_cpu prev1 in
    (prev2,
     calls
     ++ (if had_baseline then [gauge_call b#"system.cpu.count" (f64_of_N (len per_cpu)) []] else [])
     ++ more)
  end.

(** * network.rs *)

(** What is read of an entry of [getifaddrs]: its family ([None]: no address),
    name and, where there is one, its [if_data], of which every counter is a
    [u32]. *)
Record IfData := mkIfData {
  ifi_ipackets : N; ifi_ierrors : N; ifi_opackets : N; ifi_oerrors : N;
  ifi_ibytes : N; ifi_obytes : N; ifi_iqdrops : N;
}.

Record IfAddr := mkIfAddr { ifa_family : option N; ifa_name : bytes; ifa_data : option IfData }.

Definition AF_LINK : N := 18.

Definition if_stats (ifa : IfAddr) : option (bytes * NetStats) :=
  match ifa_family ifa with
  | None => None
  | Some family =>
    if negb (family =? AF_LINK) then None
    else
      let name := from_utf8_lossy (ifa_name ifa) in
      match ifa_data ifa with
      | None => None
      | Some d =>
        if (ifi_ibytes d =? 0) && (ifi_obytes d =? 0) then None
        else Some (name, mkNetStats (ifi_ibytes d) (ifi_ipackets d) (ifi_ierrors d) (ifi_iqdrops d)
                           (ifi_obytes d) (ifi_opackets d) (ifi_oerrors d) 0)
      end
  end.

Definition read_if_stats (ifap : option (list IfAddr)) : option (list (bytes * NetStats)) :=
  match ifap with Some l => Some (omap if_stats l) | None => None end.

Definition delta32 (cur prev : N) : N :=
  if prev <=? cur then cur - prev else cur + 4294967296 - prev.

Definition net_delta (current prev : NetStats) : NetStats :=
  mkNetStats (delta32 (rx_bytes current) (rx_bytes prev)) (delta32 (rx_packets current) (rx_packets prev))
    (delta32 (rx_errors current) (rx_errors prev)) (delta32 (rx_drops current) (rx_drops prev))
    (delta32 (tx_bytes current) (tx_bytes prev)) (delta32 (tx_packets current) (tx_packets prev))
    (delta32 (tx_errors current) (tx_errors prev)) (delta32 (tx_drops current) (tx_drops prev)).

Definition net_delta_calls (iface : bytes) (d : NetStats) : list Metric :=
  let labels := [(b#"interface", iface)] in
  [counter_call b#"system.net.bytes_recv" (f64_of_N (rx_bytes d)) labels;
   counter_call b#"system.net.bytes_sent" (f64_of_N (tx_bytes d)) labels;
   counter_call b#"system.net.packets_recv" (f64_of_N (rx_packets d)) labels;
   counter_call b#"system.net.packets_sent" (f64_of_N (tx_packets d)) labels;
   counter_call b#"system.net.errors_recv" (f64_of_N (rx_errors d)) labels;
   counter_call b#"system.net.errors_sent" (f64_of_N (tx_errors d)) labels;
   counter_call b#"system.net.drops_recv" (f64_of_N (rx_drops d)) labels;
   counter_call b#"system.net.drops_sent" (f64_of_N (tx_drops d)) labels].

Definition net_stats_default : NetStats := mkNetStats 0 0 0 0 0 0 0 0.

(** Bytes and packets only. *)
Definition add_totals (t d : NetStats) : NetStats :=
  mkNetStats (wrap64 (rx_bytes t + rx_bytes d)) (wrap64 (rx_packets t + rx_packets d)) (rx_errors t) (rx_drops t)
    (wrap64 (tx_bytes t + tx_bytes d)) (wrap64 (tx_packets t + tx_packets d)) (tx_errors t) (tx_drops t).

Section filtered.
Context `{Glob}.

Record MacNetworkCollector := mkMacNetworkCollector {
  nc_prev : gmap bytes NetStats;
  nc_totals : gmap bytes NetStats;
  nc_filter : DeviceFilter;
}.

Definition network_new (filter : DeviceFilter) : MacNetworkCollector := mkMacNetworkCollector ∅ ∅ filter.

Definition net_iface (c : MacNetworkCollector) (r : bytes * NetStats) : MacNetworkCollector * list Metric :=
  let '(iface, current) := r in
  if negb (allows (nc_filter c) iface) then (c, [])
  else
    match nc_prev c !! iface with
    | Some prev =>
      let delta := net_delta current prev in
      let totals := default net_stats_default (nc_totals c !! iface) in
      (mkMacNetworkCollector (<[iface := current]> (nc_prev c)) (<[iface := add_totals totals delta]> (nc_totals c))
         (nc_filter c),
       net_delta_calls iface delta)
    | None =>
      (mkMacNetworkCollector (<[iface := current]> (nc_prev c)) (<[iface := current]> (nc_totals c)) (nc_filter c), [])
    end.

Fixpoint net_ifaces (c : MacNetworkCollector) (rs : list (bytes * NetStats)) : MacNetworkCollector * list Metric :=
  match rs with
  | [] => (c, [])
  | r :: rest =>
    let '(c1, calls) := net_iface c r in
    let '(c2, more) := net_ifaces c1 rest in
    (c2, calls ++ more)
  end.

Definition network_collect (ifap : option (list IfAddr)) (c : MacNetworkCollector) : MacNetworkCollector * list Metric :=
  match read_if_stats ifap with
  | None => (c, [])
  | Some ifaces => net_ifaces c ifaces
  end.

(** [order]: the iteration order of the totals; the same four calls as on Linux. *)
Definition network_checkpoint (order : list (bytes * NetStats)) : list Metric := net_checkpoint order.

(** * disk.rs *)

Definition MAC_FS_TYPES : list bytes := [b#"apfs"; b#"hfs"; b#"msdos"; b#"exfat"; b#"ufs"; b#"zfs"].

(** The names of an entry of [getfsstat], up to their NUL. *)
Record Statfs := mkStatfs { f_fstypename : bytes; f_mntfromname : bytes; f_mntonname : bytes }.

(** [device.rsplit('/').next()]. *)
Definition base_name (device : bytes) : bytes := default device (last (split x2f device)).

Definition mount_of (filter : DeviceFilter) (fs_types : list bytes) (fs : Statfs) : option MountInfo :=
  if negb (fs_type_allowed (from_utf8_lossy (f_fstypename fs)) fs_types MAC_FS_TYPES) then None
  else
    let device := from_utf8_lossy (f_mntfromname fs) in
    let mount_point := from_utf8_lossy (f_mntonname fs) in
    if negb (bool_decide (mount_point = b#"/")) && negb (starts_with b#"/Volumes/" mount_point) then None
    else if negb (allows filter (base_name device)) then None
    else Some (mkMountInfo device mount_point).

(** [stats]: what [getfsstat] returned; [None] when one of its calls failed. *)
Definition discover_mounts (filter : DeviceFilter) (fs_types : list bytes) (stats : option (list Statfs))
    : list MountInfo :=
  match stats with
  | None => []
  | Some l => sort_mounts (omap (mount_of filter fs_types) l)
  end.

#[global] Instance f64_eq_dec : EqDecision f64.
Proof. unfold EqDecision, Decision. decide equality; (apply Bool.bool_dec || apply Pos.eq_dec || apply Z.eq_dec). Defined.

(** [seen]: the totals and free bytes of the volumes reported so far. *)
Fixpoint mac_collect_disk_space (reads : bytes -> bool * Recv) (space : SpaceReader) (seen : list (f64 * f64))
    (mounts : list MountInfo) : SpaceReader * list Metric :=
  match mounts with
  | [] => (space, [])
  | m :: rest =>
    let '(spawned, recv) := reads (mt_mount_point m) in
    let '(stats, space1) := space_read (mt_mount_point m) spawned recv space in
    match stats with
    | None => mac_collect_disk_space reads space1 seen rest
    | Some s =>
      let key := (sp_total s, sp_free s) in
      if existsb (fun k => bool_decide (k = key)) seen then mac_collect_disk_space reads space1 seen rest
      else
        let '(space2, calls) := mac_collect_disk_space reads space1 (key :: seen) rest in
        (space2, space_emit s [(b#"mount", mt_mount_point m); (b#"device", mt_device m)] ++ calls)
    end
  end.

Record MacDiskCollector := mkMacDiskCollector {
  md_mounts : list MountInfo;
  md_filter : DeviceFilter;
  md_fs_types : list bytes;
  md_tick_count : N;
  md_space : SpaceReader;
}.

Definition disk_new (filter : DeviceFilter) (fs_types : list bytes) : MacDiskCollector :=
  mkMacDiskCollector [] filter fs_types 0 space_reader_new.

Definition mac_disk_collect (stats : option (list Statfs)) (reads : bytes -> bool * Recv) (dc : MacDiskCollector)
    : MacDiskCollector * list Metric :=
  let '(mounts, space) :=
    if md_tick_count dc mod 30 =? 0 then
      let mounts := discover_mounts (md_filter dc) (md_fs_types dc) stats in
      (mounts, retain_mounts (map mt_mount_point mounts) (md_space dc))
    else (md_mounts dc, md_space dc) in
  let '(space', calls) := mac_collect_disk_space reads space [] mounts in
  (mkMacDiskCollector mounts (md_filter dc) (md_fs_types dc) (wrap32 (md_tick_count dc + 1)) space', calls).
End filtered.
End Mac.
