(* ===== verification/MacProps.v ===== *)
(** Properties of the macOS collectors: the network totals across the wrap of
    the kernel's 32-bit counters, and the volumes reported. *)
From S2P Require Import Prelude Str StrFacts Text External F64 Sink EventFilter Config Derived Collectors DiskSpace DiskSpaceFacts.
From S2P Require Import MacMetrics MetricProps Examples.
From Stdlib Require Import Strings.Byte.
Import Mac.

(** * Counters *)

(** What a 32-bit counter shows of a true count. *)
Definition low32 (n : N) : N := n mod 4294967296.

Definition low (t : NetStats) : NetStats :=
  mkNetStats (low32 (rx_bytes t)) (low32 (rx_packets t)) (low32 (rx_errors t)) (low32 (rx_drops t))
    (low32 (tx_bytes t)) (low32 (tx_packets t)) (low32 (tx_errors t)) (low32 (tx_drops t)).

(** Less than a full wrap from one sample to the next. *)
Definition within_wrap (a b : N) : Prop := a <= b < a + 4294967296.

Definition grows (a b : NetStats) : Prop :=
  within_wrap (rx_bytes a) (rx_bytes b) /\ within_wrap (rx_packets a) (rx_packets b) /\
  within_wrap (tx_bytes a) (tx_bytes b) /\ within_wrap (tx_packets a) (tx_packets b).

Lemma delta32_exact a b : within_wrap a b -> delta32 (low32 b) (low32 a) = b - a.
Proof.
  intros [Hle Hlt]. unfold delta32, low32.
  pose proof (N.div_mod a 4294967296 ltac:(lia)) as Ha. pose proof (N.div_mod b 4294967296 ltac:(lia)) as Hb.
  pose proof (N.mod_lt a 4294967296 ltac:(lia)) as Hma. pose proof (N.mod_lt b 4294967296 ltac:(lia)) as Hmb.
  revert Ha Hb Hma Hmb. generalize (a mod 4294967296), (b mod 4294967296), (a / 4294967296), (b / 4294967296).
  intros ra rb qa qb -> -> Hma Hmb. assert (Hq : qb = qa \/ qb = qa + 1) by lia.
  destruct (N.leb_spec ra rb), Hq as [-> | ->]; lia.
Qed.

(** What is counted up to the sample [t], from the first sample [t0] on. *)
Definition counted (t0 t : N) : N := low32 t0 + (t - t0).

(** The totals after the samples [t0] to [t]. *)
Definition totals_at (t0 t tot : NetStats) : Prop :=
  rx_bytes tot = counted (rx_bytes t0) (rx_bytes t) /\ rx_packets tot = counted (rx_packets t0) (rx_packets t) /\
  tx_bytes tot = counted (tx_bytes t0) (tx_bytes t) /\ tx_packets tot = counted (tx_packets t0) (tx_packets t).

(** The counts that fit in 64 bits. *)
Definition fits64 (t : NetStats) : Prop :=
  rx_bytes t + 4294967296 <= u64_max /\ rx_packets t + 4294967296 <= u64_max /\
  tx_bytes t + 4294967296 <= u64_max /\ tx_packets t + 4294967296 <= u64_max.

Lemma counted_step t0 a b :
  t0 <= a -> within_wrap a b -> b + 4294967296 <= u64_max ->
  wrap64 (counted t0 a + delta32 (low32 b) (low32 a)) = counted t0 b.
Proof.
  intros H0 Hw Hb. rewrite delta32_exact by done. destruct Hw as [Hle Hlt]. unfold counted, low32, u64_max in *.
  pose proof (N.mod_lt t0 4294967296 ltac:(lia)) as Hm. revert Hm. generalize (t0 mod 4294967296). intros m Hm.
  rewrite wrap64_small; lia.
Qed.

Definition below_stats (a b : NetStats) : Prop :=
  rx_bytes a <= rx_bytes b /\ rx_packets a <= rx_packets b /\ tx_bytes a <= tx_bytes b /\ tx_packets a <= tx_packets b.

Lemma totals_step t0 a b tot :
  below_stats t0 a -> grows a b -> fits64 b -> totals_at t0 a tot ->
  totals_at t0 b (add_totals tot (net_delta (low b) (low a))).
Proof.
  intros (B1 & B2 & B3 & B4) (G1 & G2 & G3 & G4) (F1 & F2 & F3 & F4) (T1 & T2 & T3 & T4).
  unfold totals_at, add_totals, net_delta, low. cbn. rewrite T1, T2, T3, T4.
  rewrite !counted_step by done. done.
Qed.

Lemma below_grows t0 a b : below_stats t0 a -> grows a b -> below_stats t0 b.
Proof. unfold below_stats, grows, within_wrap. lia. Qed.

(** * Runs *)

Section run.
Context `{Glob}.
Context (iface : bytes).

Lemma net_iface_other c name r :
  name <> iface ->
  nc_prev (net_iface c (name, r)).1 !! iface = nc_prev c !! iface /\
  nc_totals (net_iface c (name, r)).1 !! iface = nc_totals c !! iface.
Proof.
  intros Hn. unfold net_iface. destruct (allows _ _); cbn [negb]; [|done].
  destruct (nc_prev c !! name); cbn; by rewrite !lookup_insert_ne.
Qed.

Lemma net_iface_filter c r : nc_filter (net_iface c r).1 = nc_filter c.
Proof.
  destruct r as [name r]. unfold net_iface. destruct (allows _ _); cbn [negb]; [|done].
  by destruct (nc_prev c !! name).
Qed.

Lemma net_ifaces_cons c r rs : (net_ifaces c (r :: rs)).1 = (net_ifaces (net_iface c r).1 rs).1.
Proof. cbn [net_ifaces]. destruct (net_iface c r) as [c1 calls]. cbn. by destruct (net_ifaces c1 rs). Qed.

Lemma net_ifaces_filter c rs : nc_filter (net_ifaces c rs).1 = nc_filter c.
Proof.
  revert c. induction rs as [|r rs IH]; intros c; [done|]. by rewrite net_ifaces_cons, IH, net_iface_filter.
Qed.

Lemma net_ifaces_absent c rs :
  iface ∉ map fst rs ->
  nc_prev (net_ifaces c rs).1 !! iface = nc_prev c !! iface /\
  nc_totals (net_ifaces c rs).1 !! iface = nc_totals c !! iface.
Proof.
  revert c. induction rs as [|[name r] rs IH]; intros c Hn; [done|]. cbn in Hn.
  apply not_elem_of_cons in Hn as [Hne Hn]. rewrite net_ifaces_cons.
  destruct (IH (net_iface c (name, r)).1 Hn) as [-> ->]. by apply net_iface_other.
Qed.

(** The totals of an interface after a tick that read [r]. *)
Definition next_totals (c : MacNetworkCollector) (r : NetStats) : NetStats :=
  match nc_prev c !! iface with
  | Some p => add_totals (default net_stats_default (nc_totals c !! iface)) (net_delta r p)
  | None => r
  end.

Lemma net_ifaces_reading c rs r :
  allows (nc_filter c) iface = true -> NoDup (map fst rs) -> (iface, r) ∈ rs ->
  nc_prev (net_ifaces c rs).1 !! iface = Some r /\
  nc_totals (net_ifaces c rs).1 !! iface = Some (next_totals c r).
Proof.
  revert c. induction rs as [|[name s] rs IH]; intros c Ha Hnd Hin; [by apply not_elem_of_nil in Hin|].
  cbn in Hnd. apply NoDup_cons in Hnd as [Hn Hnd]. rewrite net_ifaces_cons.
  apply elem_of_cons in Hin as [[= <- <-]|Hin].
  - destruct (net_ifaces_absent (net_iface c (iface, r)).1 rs Hn) as [-> ->].
    unfold net_iface, next_totals. rewrite Ha. cbn [negb].
    destruct (nc_prev c !! iface) as [p|]; cbn; by rewrite !lookup_insert_eq.
  - assert (Hne : name <> iface).
    { intros ->. apply Hn. apply list_elem_of_fmap. by exists (iface, r). }
    destruct (net_iface_other c name s Hne) as [Hp Ht].
    destruct (IH (net_iface c (name, s)).1) as [-> Htot]; [by rewrite net_iface_filter|done|done|].
    split; [done|]. rewrite Htot. unfold next_totals. by rewrite Hp, Ht.
Qed.

(** A tick at which the true counts of the interface were [t]. *)
Definition sampled (t : NetStats) (ifap : list IfAddr) : Prop :=
  NoDup (map fst (omap if_stats ifap)) /\ (iface, low t) ∈ omap if_stats ifap.

Definition network_run (ticks : list (list IfAddr)) (c : MacNetworkCollector) : MacNetworkCollector :=
  fold_left (fun c ifap => (network_collect (Some ifap) c).1) ticks c.

Lemma network_run_totals t0 t ts ticks c tot :
  allows (nc_filter c) iface = true ->
  nc_prev c !! iface = Some (low t) -> nc_totals c !! iface = Some tot -> totals_at t0 t tot -> below_stats t0 t ->
  Forall2 sampled ts ticks -> Forall fits64 ts ->
  (forall i a b, (t :: ts) !! i = Some a -> (t :: ts) !! S i = Some b -> grows a b) ->
  exists tot', nc_totals (network_run ticks c) !! iface = Some tot' /\ totals_at t0 (default t (last ts)) tot'.
Proof.
  intros Ha Hp Ht Hat Hb Hs. revert t c tot Ha Hp Ht Hat Hb.
  induction Hs as [|u ifap ts ticks [Hnd Hin] Hs IH]; intros t c tot Ha Hp Ht Hat Hb Hf Hg; [by exists tot|].
  apply Forall_cons in Hf as [Hu Hf]. assert (Hgu : grows t u) by (by apply (Hg 0%nat)).
  destruct (net_ifaces_reading c (omap if_stats ifap) (low u) Ha Hnd Hin) as [Hp' Ht'].
  unfold next_totals in Ht'. rewrite Hp, Ht in Ht'. cbn [default] in Ht'.
  destruct (IH u (net_ifaces c (omap if_stats ifap)).1 (add_totals tot (net_delta (low u) (low t))))
    as (tot' & Hr & Hat').
  - by rewrite net_ifaces_filter.
  - exact Hp'.
  - exact Ht'.
  - by apply totals_step.
  - by eapply below_grows.
  - done.
  - intros i. apply (Hg (S i)).
  - exists tot'. split; [exact Hr|]. by destruct ts as [|v ts] using rev_ind; rewrite ?last_cons, ?last_snoc in *.
Qed.

(** C37: The network totals are right although the kernel's counters wrap every
    4 GiB: for every interface the filter allows, sampled with less than one full
    wrap between two ticks and whatever else is on the host, the cumulative bytes
    and packets of the checkpoint are what the first sample showed and everything
    counted since. *)
Theorem network_totals_exact filter t0 ts tick0 ticks :
  allows filter iface = true -> sampled t0 tick0 -> Forall2 sampled ts ticks -> Forall fits64 ts ->
  (forall i a b, (t0 :: ts) !! i = Some a -> (t0 :: ts) !! S i = Some b -> grows a b) ->
  exists tot, nc_totals (network_run (tick0 :: ticks) (network_new filter)) !! iface = Some tot /\
    totals_at t0 (default t0 (last ts)) tot.
Proof.
  intros Ha [Hnd Hin] Hs Hf Hg.
  destruct (net_ifaces_reading (network_new filter) _ (low t0) Ha Hnd Hin) as [Hp Ht].
  apply (network_run_totals t0 t0 ts ticks (net_ifaces (network_new filter) (omap if_stats tick0)).1 (low t0)).
  - by rewrite net_ifaces_filter.
  - exact Hp.
  - exact Ht.
  - unfold totals_at, counted, low. cbn. lia.
  - unfold below_stats. lia.
  - done.
  - done.
  - done.
Qed.
End run.

(** * Percentages *)

Lemma mac_memory_percent_ok memsize page vm swap : Forall (percent_ok False) (mac_memory_collect memsize page vm swap).
Proof.
  destruct vm as [vm|]; [|constructor]. cbn [mac_memory_collect]. repeat (apply Forall_app; split).
  - destruct memsize; [|constructor]. apply Forall_app. split.
    + repeat (apply Forall_cons; split; [other|]). constructor.
    + apply option_call_ok. intros _ x. apply ratio_percent_bounds.
  - repeat (apply Forall_cons; split; [other|]). constructor.
  - destruct swap as [[u t]|]; constructor; [other|]. apply option_call_ok. intros _ x. apply ratio_percent_bounds.
Qed.

Lemma emit_cpu_percent_ok label_ cur prev : Forall (percent_ok False) (emit_cpu label_ cur prev).2.
Proof.
  unfold emit_cpu. cbn [snd]. destruct (prev !! label_); [|constructor]. unfold tick_deltas.
  case_if; [constructor|]. apply Forall_app. split.
  - repeat (apply Forall_cons; split; [by apply share_ok|]). constructor.
  - case_if; [|constructor]. destruct (cpu_busy_percent _) eqn:E; [|constructor].
    constructor; [|constructor]. intros _. by apply cpu_busy_percent_bounds in E.
Qed.

Lemma emit_cores_percent_ok i per_cpu prev : Forall (percent_ok False) (emit_cores i per_cpu prev).2.
Proof.
  revert i prev. induction per_cpu as [|t per_cpu IH]; intros i prev; [constructor|]. cbn [emit_cores].
  pose proof (emit_cpu_percent_ok (show_N i) t prev) as Hc. destruct (emit_cpu (show_N i) t prev) as [prev1 calls].
  specialize (IH (i + 1) prev1). destruct (emit_cores (i + 1) per_cpu prev1) as [prev2 more].
  by apply Forall_app.
Qed.

(** The clamped percentage gauges of macOS lie between 0 and 100 and are numbers, whatever
    the kernel answers, page counts beyond the memory size included. *)
Theorem mac_percent_bounded memsize page vm swap answer prev m :
  m ∈ mac_memory_collect memsize page vm swap ++ (mac_cpu_collect answer prev).2 ->
  m_name m ∈ clamped_percents -> is_percent (m_value m).
Proof.
  intros Hin Hn. enough (Hall : Forall (percent_ok False) (mac_memory_collect memsize page vm swap ++ (mac_cpu_collect answer prev).2))
    by (eapply Forall_forall in Hall; [apply Hall; by left|done]).
  clear Hin Hn. apply Forall_app. split; [apply mac_memory_percent_ok|].
  unfold mac_cpu_collect. destruct (read_cpu_ticks answer) as [per_cpu|]; [|constructor].
  pose proof (emit_cpu_percent_ok b#"total" (sum_ticks per_cpu) prev) as Hc.
  destruct (emit_cpu _ _ prev) as [prev1 calls]. pose proof (emit_cores_percent_ok 0 per_cpu prev1) as Hm.
  destruct (emit_cores 0 per_cpu prev1) as [prev2 more]. cbn [snd] in *.
  apply Forall_app. split; [done|]. apply Forall_app. split; [|done]. case_if; [|constructor].
  constructor; [other|constructor].
Qed.

(** * On concrete inputs *)

Section witnesses.
Import Examples.

Definition first_count : NetStats := mkNetStats 4294967290 7 0 0 100 3 0 0.
Definition wrapped_count : NetStats := mkNetStats 4294967300 9 0 0 100 3 0 0.

Definition shown (t : NetStats) : list IfAddr :=
  [mkIfAddr None b#"lo0" None;
   mkIfAddr (Some AF_LINK) b#"en0"
     (Some (mkIfData (low32 (rx_packets t)) 0 (low32 (tx_packets t)) 0 (low32 (rx_bytes t)) (low32 (tx_bytes t)) 0))].

Lemma network_totals_exact_witness :
  exists tot,
    nc_totals (network_run [shown first_count; shown wrapped_count] (network_new (mkDeviceFilter [] []))) !! b#"en0"
      = Some tot /\
    totals_at first_count wrapped_count tot.
Proof.
  refine (network_totals_exact b#"en0" (mkDeviceFilter [] []) first_count [wrapped_count] (shown first_count)
            [shown wrapped_count] _ _ _ _ _).
  - reflexivity.
  - split; [apply NoDup_singleton|]. by apply list_elem_of_here.
  - constructor; [|constructor]. split; [apply NoDup_singleton|]. by apply list_elem_of_here.
  - repeat constructor; by vm_compute.
  - intros [|[|i]] a b; cbn; intros [= <-] [= <-]. repeat split; by vm_compute.
Defined.
End witnesses.
